(** * Channel Dissector: the output sanitizer, the analysis pipeline and the
      dashboard controller, embedded from the TypeScript sources.

    Strings are sequences of UTF-16 code units, as in the JavaScript engine
    the program runs on.  Values produced by [JSON.parse] are an inductive
    type; objects keep their keys in insertion order.  Exceptions are an
    explicit result type. *)

From Stdlib Require Import String Ascii.
From Stdlib Require Import ZArith NArith QArith Qminmax Lia List Bool DecimalString.
From Stdlib Require DecimalN DecimalPos DecimalFacts.
From stdpp Require Import base list gmap.
Import ListNotations.

Local Open Scope N_scope.

(** ** Strings *)

Module JsString.

(** A JavaScript string: its UTF-16 code units. *)
Definition jsstring := list N.

(** A literal of the source text (all literals of the program are ASCII). *)
Definition str (s : string) : jsstring :=
  List.map N_of_ascii (list_ascii_of_string s).

Definition chr (a : ascii) : N := N_of_ascii a.

(** The double quote. *)
Definition dquote : N := 34.

(** ECMAScript WhiteSpace and LineTerminator code points: what
    [String.prototype.trim] strips and what the regular expression class
    [\s] matches. *)
Definition is_ws (c : N) : bool :=
  (c =? 9) || (c =? 10) || (c =? 11) || (c =? 12) || (c =? 13) || (c =? 32)
  || (c =? 160) || (c =? 5760) || ((8192 <=? c) && (c <=? 8202))
  || (c =? 8232) || (c =? 8233) || (c =? 8239) || (c =? 8287)
  || (c =? 12288) || (c =? 65279).

(** The regular expression class [\d]: ASCII digits only. *)
Definition is_digit (c : N) : bool := (48 <=? c) && (c <=? 57).

Fixpoint take_while (p : N -> bool) (s : jsstring) : jsstring :=
  match s with
  | c :: r => if p c then c :: take_while p r else []
  | [] => []
  end.

Fixpoint drop_while (p : N -> bool) (s : jsstring) : jsstring :=
  match s with
  | c :: r => if p c then drop_while p r else s
  | [] => []
  end.

Definition trimStart (s : jsstring) : jsstring := drop_while is_ws s.
Definition trimEnd (s : jsstring) : jsstring := rev (drop_while is_ws (rev s)).

(** [String.prototype.trim]. *)
Definition trim (s : jsstring) : jsstring := trimEnd (trimStart s).

Fixpoint startsWith (p s : jsstring) : bool :=
  match p, s with
  | [], _ => true
  | a :: p', b :: s' => (a =? b) && startsWith p' s'
  | _ :: _, [] => false
  end.

Definition endsWith (p s : jsstring) : bool := startsWith (rev p) (rev s).

(** The text neither starts nor ends with white space. *)
Definition no_ws_at_ends (s : jsstring) : Prop :=
  drop_while is_ws s = s /\ drop_while is_ws (rev s) = rev s.

(** Every code unit is white space; every code unit is a digit. *)
Definition all_ws (s : jsstring) : Prop := forallb is_ws s = true.
Definition all_digits (s : jsstring) : Prop := forallb is_digit s = true.

(** [String.prototype.slice(0, n)] for [n >= 0]. *)
Definition slice0 (n : nat) (s : jsstring) : jsstring := firstn n s.

(** Substring test, used to state that one text appears inside another. *)
Definition occurs_in (needle hay : jsstring) : Prop :=
  exists pre post, hay = pre ++ needle ++ post.

Arguments str : simpl never.
Arguments chr : simpl never.

End JsString.
Export JsString.

(** ** Regular-expression replacement

    The sanitizer uses five regular expressions.  Each is embedded as the
    function that says, for a position of the subject, how many code units
    the expression matches there (if it matches).  None of the five can
    match the empty string, and in none of them can backtracking change the
    outcome: the greedy [\s*] and [\d{10,}] are followed by something that
    is not in their class, or by nothing. *)

Module Regex.

(** Length of the match of a pattern anchored at the head of the subject. *)
Definition matcher := jsstring -> option nat.

(** [subject.replace(/re/g, repl)]: scan left to right; at a match emit the
    replacement and continue after the match, otherwise copy one code
    unit.  [skip] counts the code units of the current match that are
    still to be passed over. *)
Fixpoint replace_from (m : matcher) (repl : jsstring) (skip : nat)
    (s : jsstring) : jsstring :=
  match s with
  | [] => []
  | c :: r =>
      match skip with
      | S k => replace_from m repl k r
      | O =>
          match m s with
          | Some (S k) => repl ++ replace_from m repl k r
          | _ => c :: replace_from m repl 0 r
          end
      end
  end.

Definition replace_all (m : matcher) (repl : jsstring) (s : jsstring) : jsstring :=
  replace_from m repl 0 s.

(** [/,\s*X/] for a closing character [X]: a comma, any white space, [X]. *)
Definition match_comma_before (closer : N) : matcher := fun s =>
  match s with
  | c :: r =>
      if c =? chr ","
      then let w := take_while is_ws r in
           match drop_while is_ws r with
           | d :: _ => if d =? closer then Some (1 + length w + 1)%nat else None
           | [] => None
           end
      else None
  | [] => None
  end.

(** [/:\s*(\d{10,})/]: a colon, any white space, ten or more digits. *)
Definition match_big_number : matcher := fun s =>
  match s with
  | c :: r =>
      if c =? chr ":"
      then let w := take_while is_ws r in
           let d := take_while is_digit (drop_while is_ws r) in
           if (10 <=? length d)%nat then Some (1 + length w + length d)%nat else None
      else None
  | [] => None
  end.

(** A suffix [rest] is a barrier for a pattern when no match that starts
    before it can reach into it. *)
Definition barrier (m : matcher) (rest : jsstring) : Prop :=
  forall c a, m ((c :: a) ++ rest) = m (c :: a) /\
              forall n, m (c :: a) = Some n -> (n <= S (length a))%nat.

(** Removal of the match of [/^P\s*/] for a literal prefix [P]. *)
Definition strip_leading (p : jsstring) (s : jsstring) : jsstring :=
  if startsWith p s then drop_while is_ws (skipn (length p) s) else s.

(** Removal of the match of [/\s*P$/] for a literal suffix [P] whose code
    units are not white space: the leftmost match starts at the beginning
    of the white space that precedes the final [P]. *)
Definition strip_trailing (p : jsstring) (s : jsstring) : jsstring :=
  if endsWith p s then trimEnd (firstn (length s - length p) s) else s.

End Regex.
Export Regex.

(** ** The sanitizer: [cleanJson] *)

Definition fence : jsstring := str "```".
Definition fence_json : jsstring := str "```json".

(** The three replacements that follow the fence removal. *)
Definition strip_commas (closer : N) (s : jsstring) : jsstring :=
  replace_all (match_comma_before closer) [closer] s.

Definition cap_numbers (s : jsstring) : jsstring :=
  replace_all match_big_number (str ": 10") s.

(** The three replacements one after the other. *)
Definition sanitize (s : jsstring) : jsstring :=
  cap_numbers (strip_commas (chr "]") (strip_commas (chr "}") s)).

Definition cleanJson (text : jsstring) : jsstring :=
  let cleaned := trim text in
  let cleaned :=
    if startsWith fence_json cleaned
    then strip_trailing fence (strip_leading fence_json cleaned)
    else if startsWith fence cleaned
    then strip_trailing fence (strip_leading fence cleaned)
    else cleaned in
  let cleaned := strip_commas (chr "}") cleaned in
  let cleaned := strip_commas (chr "]") cleaned in
  let cleaned := cap_numbers cleaned in
  cleaned.

(** ** JavaScript values

    The values the program handles all come from [JSON.parse], from the
    service responses and from the TOML parser: plain data.  Numbers are
    kept as exact decimals [mant / 10^scale]; rounding to binary64 and the
    sign of zero are not tracked.  A finite number is kept in lowest terms:
    [scale = 0] for an integer, otherwise [mant] is not a multiple of ten. *)

Module Js.

Inductive JSNumber :=
| NaN
| Infinity (negative : bool)
| Finite (mant : Z) (scale : nat).

Definition int (z : Z) : JSNumber := Finite z 0.

#[warnings="-register-all"]
Inductive JSValue :=
| JUndefined
| JNull
| JBool (b : bool)
| JNum (n : JSNumber)
| JStr (s : jsstring)
| JArr (items : list JSValue)
| JObj (props : list (jsstring * JSValue)).

(** Thrown values.  [SyntaxError] is what [JSON.parse] throws; it records
    where the text stopped being JSON and the code unit found there. *)
Inductive Exn :=
| SyntaxError (position : nat) (found : option N)
| TypeError (what : jsstring)
| Error (what : jsstring).

Inductive result (A : Type) :=
| Ok (a : A)
| Throw (e : Exn).
Arguments Ok {A} a.
Arguments Throw {A} e.

Definition bind {A B} (r : result A) (k : A -> result B) : result B :=
  match r with
  | Ok a => k a
  | Throw e => Throw e
  end.

(** [try { body } catch (e) { handler(e) }]. *)
Definition try_catch {A} (body : result A) (handler : Exn -> result A) : result A :=
  match body with
  | Ok a => Ok a
  | Throw e => handler e
  end.

Fixpoint mapM {A B} (f : A -> result B) (l : list A) : result (list B) :=
  match l with
  | [] => Ok []
  | x :: r => bind (f x) (fun y => bind (mapM f r) (fun ys => Ok (y :: ys)))
  end.

(** *** Objects: keys in insertion order, no key twice *)

Fixpoint jsstring_eqb (a b : jsstring) : bool :=
  match a, b with
  | [], [] => true
  | x :: a', y :: b' => (x =? y) && jsstring_eqb a' b'
  | _, _ => false
  end.

Fixpoint obj_lookup (k : jsstring) (props : list (jsstring * JSValue)) : option JSValue :=
  match props with
  | [] => None
  | (k', v) :: r => if jsstring_eqb k k' then Some v else obj_lookup k r
  end.

(** Defining a property: an existing key keeps its place and takes the
    new value, a new key goes to the end.  (Integer-like keys, which an
    engine lists first, are kept in insertion order here as well: the
    program never reads the order of such keys.) *)
Fixpoint obj_set (k : jsstring) (v : JSValue) (props : list (jsstring * JSValue))
  : list (jsstring * JSValue) :=
  match props with
  | [] => [(k, v)]
  | (k', v') :: r =>
      if jsstring_eqb k k' then (k', v) :: r else (k', v') :: obj_set k v r
  end.

Definition obj_set_all (news props : list (jsstring * JSValue)) :=
  fold_left (fun acc kv => obj_set (fst kv) (snd kv) acc) news props.

(** *** Numbers *)

Definition digits_of (n : N) : jsstring :=
  str (NilEmpty.string_of_uint (N.to_uint n)).

Fixpoint strip_zeros_rev (ds : jsstring) : jsstring :=
  match ds with
  | c :: r => if c =? chr "0" then strip_zeros_rev r else ds
  | [] => []
  end.

(** Significant digits: the decimal digits without trailing zeros. *)
Definition significant (ds : jsstring) : jsstring :=
  rev (strip_zeros_rev (rev ds)).

Definition zeros (n : nat) : jsstring := repeat (chr "0") n.

(** [Number::toString] of a positive finite number, ECMA-262 6.1.6.1.20:
    [ds] are the digits of the mantissa and [n] the position of the
    decimal point relative to their start. *)
Definition positive_to_string (ds : jsstring) (n : Z) : jsstring :=
  let s := significant ds in
  let k := Z.of_nat (length s) in
  if ((k <=? n) && (n <=? 21))%Z then
    s ++ zeros (Z.to_nat (n - k))
  else if ((0 <? n) && (n <=? 21))%Z then
    firstn (Z.to_nat n) s ++ chr "." :: skipn (Z.to_nat n) s
  else if ((-6 <? n) && (n <=? 0))%Z then
    str "0." ++ zeros (Z.to_nat (- n)) ++ s
  else
    let e := (n - 1)%Z in
    let sign := if (e <? 0)%Z then chr "-" else chr "+" in
    let expo := chr "e" :: sign :: digits_of (Z.abs_N e) in
    match s with
    | [d] => d :: expo
    | d :: more => d :: chr "." :: more ++ expo
    | [] => expo
    end.

Definition Number_toString (x : JSNumber) : jsstring :=
  match x with
  | NaN => str "NaN"
  | Infinity false => str "Infinity"
  | Infinity true => str "-Infinity"
  | Finite m sc =>
      if (m =? 0)%Z then str "0"
      else
        let ds := digits_of (Z.abs_N m) in
        let body := positive_to_string ds (Z.of_nat (length ds) - Z.of_nat sc) in
        if (m <? 0)%Z then chr "-" :: body else body
  end.

(** Order on numbers; [None] when one of them is [NaN]. *)
Definition num_compare (a b : JSNumber) : option comparison :=
  match a, b with
  | NaN, _ | _, NaN => None
  | Infinity na, Infinity nb =>
      Some (match na, nb with
            | true, false => Lt | false, true => Gt | _, _ => Eq end)
  | Infinity na, Finite _ _ => Some (if na then Lt else Gt)
  | Finite _ _, Infinity nb => Some (if nb then Gt else Lt)
  | Finite m1 s1, Finite m2 s2 =>
      Some (m1 * 10 ^ Z.of_nat s2 ?= m2 * 10 ^ Z.of_nat s1)%Z
  end.

(** [Math.max(a, b)] and [Math.min(a, b)]. *)
Definition Math_max (a b : JSNumber) : JSNumber :=
  match num_compare a b with
  | None => NaN
  | Some Lt => b
  | Some _ => a
  end.

Definition Math_min (a b : JSNumber) : JSNumber :=
  match num_compare a b with
  | None => NaN
  | Some Gt => b
  | Some _ => a
  end.

(** [e.message].  Every value the program sees thrown is an error
    object; the wording of the engine for a syntax error is fixed here to
    one of its two shapes. *)
Definition message (e : Exn) : jsstring :=
  match e with
  | SyntaxError pos (Some _) =>
      str "Unexpected token in JSON at position " ++ digits_of (N.of_nat pos)
  | SyntaxError _ None => str "Unexpected end of JSON input"
  | TypeError what => what
  | Error what => what
  end.

(** *** Conversions *)

(** [ToBoolean]. *)
Definition truthy (v : JSValue) : bool :=
  match v with
  | JUndefined | JNull => false
  | JBool b => b
  | JNum NaN => false
  | JNum (Infinity _) => true
  | JNum (Finite m _) => negb (m =? 0)%Z
  | JStr s => match s with [] => false | _ => true end
  | JArr _ | JObj _ => true
  end.

(** [a || b]. *)
Definition or_else (a b : JSValue) : JSValue := if truthy a then a else b.

Fixpoint join (sep : jsstring) (parts : list jsstring) : jsstring :=
  match parts with
  | [] => []
  | [p] => p
  | p :: r => p ++ sep ++ join sep r
  end.

(** The string of a value of plain data, as the inherited conversions
    write it: what [String(v)], a template literal, [join] and the
    argument conversion of [parseInt] produce when they return (see
    [String_of] for when they throw). *)
Fixpoint ToString (v : JSValue) : jsstring :=
  match v with
  | JUndefined => str "undefined"
  | JNull => str "null"
  | JBool true => str "true"
  | JBool false => str "false"
  | JNum n => Number_toString n
  | JStr s => s
  | JArr items =>
      join (str ",")
        (List.map (fun x => match x with
                            | JUndefined | JNull => []
                            | _ => ToString x
                            end) items)
  | JObj _ => str "[object Object]"
  end.

Definition digit_value (c : N) : option Z :=
  if is_digit c then Some (Z.of_N (c - 48)) else None.

Definition hex_value (c : N) : option Z :=
  if is_digit c then Some (Z.of_N (c - 48))
  else if (97 <=? c) && (c <=? 102) then Some (Z.of_N (c - 87))
  else if (65 <=? c) && (c <=? 70) then Some (Z.of_N (c - 55))
  else None.

(** Value of the longest prefix of digits in the given radix, and whether
    there was at least one digit. *)
Fixpoint digits_prefix (radix : Z) (value : N -> option Z) (s : jsstring)
    (acc : Z) (seen : bool) : option Z :=
  match s with
  | c :: r =>
      match value c with
      | Some d => digits_prefix radix value r (acc * radix + d)%Z true
      | None => if seen then Some acc else None
      end
  | [] => if seen then Some acc else None
  end.

(** [ToString] as the engine runs it (ECMA-262 7.1.17): [String(v)], a
    template literal, [join] and the argument conversion of [parseInt].
    An object is converted by calling its [toString].  The inherited one
    gives [[object Object]].  An own property [toString] hides it; in
    parsed data it is no function, and [valueOf], inherited or own, gives
    no primitive either, so the conversion throws a [TypeError]
    (OrdinaryToPrimitive, 7.1.1.1).  An array is converted by joining its
    elements with a comma, each converted in turn, [undefined] and [null]
    to the empty string. *)
Fixpoint String_of (v : JSValue) : result jsstring :=
  match v with
  | JArr items =>
      bind ((fix each (l : list JSValue) : result (list jsstring) :=
               match l with
               | [] => Ok []
               | x :: r =>
                   bind (match x with
                         | JUndefined | JNull => Ok []
                         | _ => String_of x
                         end)
                        (fun p => bind (each r) (fun ps => Ok (p :: ps)))
               end) items)
           (fun parts => Ok (join (str ",") parts))
  | JObj props =>
      match obj_lookup (str "toString") props with
      | Some _ => Throw (TypeError (str "Cannot convert object to primitive value"))
      | None => Ok (str "[object Object]")
      end
  | _ => Ok (ToString v)
  end.

(** [parseInt] on the string its argument was converted to, with no
    radix argument, ECMA-262 19.2.5 from step 2 on. *)
Definition parseInt_string (inputString : jsstring) : JSNumber :=
  let s := trimStart inputString in
  let '(negative, s) :=
    match s with
    | c :: r => if c =? chr "-" then (true, r)
                else if c =? chr "+" then (false, r) else (false, s)
    | [] => (false, s)
    end in
  let parsed :=
    match s with
    | z :: x :: r =>
        if (z =? chr "0") && ((x =? chr "x") || (x =? chr "X"))
        then digits_prefix 16 hex_value r 0 false
        else digits_prefix 10 digit_value s 0 false
    | _ => digits_prefix 10 digit_value s 0 false
    end in
  match parsed with
  | Some n => int (if negative then - n else n)
  | None => NaN
  end.

(** [parseInt(v)]: the argument is converted to a string first, which
    can throw. *)
Definition parseInt (v : JSValue) : result JSNumber :=
  bind (String_of v) (fun inputString => Ok (parseInt_string inputString)).

Definition is_undefined (v : JSValue) : bool :=
  match v with JUndefined => true | _ => false end.

(** *** Property access *)

Definition Array_isArray (v : JSValue) : bool :=
  match v with JArr _ => true | _ => false end.

(** [v.key] for a property name that is neither an array index nor
    inherited: reading it from [undefined] or [null] throws. *)
Definition Get (v : JSValue) (key : string) : result JSValue :=
  match v with
  | JUndefined | JNull =>
      Throw (TypeError (str "Cannot read properties of undefined or null: "
                          ++ str key))
  | JObj props =>
      Ok (match obj_lookup (str key) props with Some x => x | None => JUndefined end)
  | JArr items =>
      Ok (if jsstring_eqb (str key) (str "length")
          then JNum (int (Z.of_nat (length items))) else JUndefined)
  | JStr s =>
      Ok (if jsstring_eqb (str key) (str "length")
          then JNum (int (Z.of_nat (length s))) else JUndefined)
  | JBool _ | JNum _ => Ok JUndefined
  end.

(** [v?.key]. *)
Definition GetOpt (v : JSValue) (key : string) : result JSValue :=
  match v with
  | JUndefined | JNull => Ok JUndefined
  | _ => Get v key
  end.

(** [v[i]] for a literal index. *)
Definition GetIndex (v : JSValue) (i : nat) : result JSValue :=
  match v with
  | JUndefined | JNull =>
      Throw (TypeError (str "Cannot read properties of undefined or null"))
  | JArr items => Ok (nth i items JUndefined)
  | JStr s => Ok (match nth_error s i with Some c => JStr [c] | None => JUndefined end)
  | JObj props =>
      Ok (match obj_lookup (digits_of (N.of_nat i)) props with
          | Some x => x | None => JUndefined end)
  | JBool _ | JNum _ => Ok JUndefined
  end.

(** The own enumerable properties copied by an object spread [{...v}]. *)
Definition spread (v : JSValue) : list (jsstring * JSValue) :=
  match v with
  | JObj props => props
  | JArr items =>
      List.map (fun '(i, x) => (digits_of (N.of_nat i), x))
               (combine (seq 0 (length items)) items)
  | JStr s =>
      List.map (fun '(i, c) => (digits_of (N.of_nat i), JStr [c]))
               (combine (seq 0 (length s)) s)
  | _ => []
  end.

End Js.
Export Js.

(** ** [JSON.parse] and [JSON.stringify] (ECMA-404, ECMA-262 25.5) *)

Module JSON.

(** Outcome of a parsing function on a suffix of the text: the value and
    the rest of the text, or the suffix at which the text stopped being
    JSON.  [Exhausted] is the recursion bound of the embedding; the bound
    given by [parse] is never reached (lemma [parse_not_exhausted]). *)
Inductive pres (A : Type) :=
| Parsed (a : A) (rest : jsstring)
| Fail (at_ : jsstring)
| Exhausted.
Arguments Parsed {A} a rest.
Arguments Fail {A} at_.
Arguments Exhausted {A}.

Definition is_json_ws (c : N) : bool :=
  (c =? 9) || (c =? 10) || (c =? 13) || (c =? 32).

Definition skip_ws (s : jsstring) : jsstring := drop_while is_json_ws s.

(** The text continues with the given literal. *)
Fixpoint expect (lit : jsstring) (s : jsstring) : pres unit :=
  match lit with
  | [] => Parsed tt s
  | a :: lit' =>
      match s with
      | b :: s' => if a =? b then expect lit' s' else Fail s
      | [] => Fail s
      end
  end.

Definition simple_escape (e : N) : option N :=
  if e =? dquote then Some dquote
  else if e =? chr "\" then Some 92
  else if e =? chr "/" then Some 47
  else if e =? chr "b" then Some 8
  else if e =? chr "f" then Some 12
  else if e =? chr "n" then Some 10
  else if e =? chr "r" then Some 13
  else if e =? chr "t" then Some 9
  else None.

(** The characters of a string literal after its opening quote. *)
Fixpoint parse_string_body (s : jsstring) (acc : jsstring) : pres jsstring :=
  match s with
  | [] => Fail s
  | c :: r =>
      if c =? dquote then Parsed (rev acc) r
      else if c =? chr "\" then
        match r with
        | [] => Fail r
        | e :: r1 =>
            match simple_escape e with
            | Some x => parse_string_body r1 (x :: acc)
            | None =>
                if e =? chr "u" then
                  match r1 with
                  | h1 :: h2 :: h3 :: h4 :: r2 =>
                      match hex_value h1, hex_value h2, hex_value h3, hex_value h4 with
                      | Some a, Some b, Some c', Some d =>
                          parse_string_body r2
                            (Z.to_N (((a * 16 + b) * 16 + c') * 16 + d) :: acc)
                      | _, _, _, _ => Fail r1
                      end
                  | _ => Fail r1
                  end
                else Fail r
            end
        end
      else if c <? 32 then Fail s
      else parse_string_body r (c :: acc)
  end.

(** Lowest terms of [m / 10^sc]. *)
Fixpoint normalize (m : Z) (sc : nat) : JSNumber :=
  match sc with
  | O => Finite m 0
  | S sc' => if (m mod 10 =? 0)%Z then normalize (m / 10) sc' else Finite m sc
  end.

Definition digits_value (ds : jsstring) : Z :=
  fold_left (fun acc c => (acc * 10 + Z.of_N (c - 48))%Z) ds 0%Z.

(** The number whose digits are [ds], with [frac] of them after the
    decimal point, times ten to the [e]. *)
Definition decimal (negative : bool) (ds : jsstring) (frac : nat) (e : Z) : JSNumber :=
  let m := digits_value ds in
  let m := if negative then (- m)%Z else m in
  let sc := (Z.of_nat frac - e)%Z in
  if (sc <=? 0)%Z then Finite (m * 10 ^ (- sc)) 0
  else normalize m (Z.to_nat sc).

(** Optional exponent part: [[eE][+-]?[0-9]+]. *)
Definition parse_exponent (s : jsstring) : pres Z :=
  match s with
  | c :: r =>
      if (c =? chr "e") || (c =? chr "E") then
        let '(neg, r1) :=
          match r with
          | sgn :: r' => if sgn =? chr "-" then (true, r')
                         else if sgn =? chr "+" then (false, r') else (false, r)
          | [] => (false, r)
          end in
        match take_while is_digit r1 with
        | [] => Fail r1
        | ds => Parsed (if neg then (- digits_value ds)%Z else digits_value ds)
                       (drop_while is_digit r1)
        end
      else Parsed 0%Z s
  | [] => Parsed 0%Z s
  end.

(** Optional fraction part: [\.[0-9]+]. *)
Definition parse_fraction (s : jsstring) : pres jsstring :=
  match s with
  | c :: r =>
      if c =? chr "." then
        match take_while is_digit r with
        | [] => Fail r
        | ds => Parsed ds (drop_while is_digit r)
        end
      else Parsed [] s
  | [] => Parsed [] s
  end.

(** The fraction and the exponent after the integer digits [ip]. *)
Definition parse_tail (negative : bool) (ip : jsstring) (s2 : jsstring)
  : pres JSNumber :=
  match parse_fraction s2 with
  | Parsed fp s3 =>
      match parse_exponent s3 with
      | Parsed e s4 => Parsed (decimal negative (ip ++ fp) (length fp) e) s4
      | Fail a => Fail a
      | Exhausted => Exhausted
      end
  | Fail a => Fail a
  | Exhausted => Exhausted
  end.

(** The digits of a number: [0], or a digit from 1 to 9 followed by
    digits; then the fraction and the exponent. *)
Definition parse_unsigned (negative : bool) (s1 : jsstring) : pres JSNumber :=
  match s1 with
  | d :: r =>
      if is_digit d then
        if d =? chr "0" then parse_tail negative [d] r
        else parse_tail negative (d :: take_while is_digit r)
                        (drop_while is_digit r)
      else Fail s1
  | [] => Fail s1
  end.

(** A number: an optional minus sign, then the digits. *)
Definition parse_number (s : jsstring) : pres JSNumber :=
  match s with
  | c :: r => if c =? chr "-" then parse_unsigned true r
              else parse_unsigned false s
  | [] => Fail s
  end.

(** A value, with leading white space; the elements of an array after its
    opening bracket or a comma; the members of an object after its opening
    brace or a comma. *)
Fixpoint parse_value (fuel : nat) (s : jsstring) : pres JSValue :=
  match fuel with
  | O => Exhausted
  | S f =>
      match skip_ws s with
      | [] => Fail []
      | c :: r =>
          if c =? chr "{" then
            match skip_ws r with
            | d :: r' => if d =? chr "}" then Parsed (JObj []) r'
                         else parse_members f (d :: r') []
            | [] => Fail []
            end
          else if c =? chr "[" then
            match skip_ws r with
            | d :: r' => if d =? chr "]" then Parsed (JArr []) r'
                         else parse_elements f (d :: r') []
            | [] => Fail []
            end
          else if c =? dquote then
            match parse_string_body r [] with
            | Parsed x r' => Parsed (JStr x) r'
            | Fail a => Fail a
            | Exhausted => Exhausted
            end
          else if c =? chr "t" then
            match expect (str "rue") r with
            | Parsed _ r' => Parsed (JBool true) r'
            | Fail a => Fail a
            | Exhausted => Exhausted
            end
          else if c =? chr "f" then
            match expect (str "alse") r with
            | Parsed _ r' => Parsed (JBool false) r'
            | Fail a => Fail a
            | Exhausted => Exhausted
            end
          else if c =? chr "n" then
            match expect (str "ull") r with
            | Parsed _ r' => Parsed JNull r'
            | Fail a => Fail a
            | Exhausted => Exhausted
            end
          else
            match parse_number (c :: r) with
            | Parsed x r' => Parsed (JNum x) r'
            | Fail a => Fail a
            | Exhausted => Exhausted
            end
      end
  end
with parse_elements (fuel : nat) (s : jsstring) (acc : list JSValue) : pres JSValue :=
  match fuel with
  | O => Exhausted
  | S f =>
      match parse_value f s with
      | Parsed v r =>
          match skip_ws r with
          | c :: r' =>
              if c =? chr "," then parse_elements f r' (v :: acc)
              else if c =? chr "]" then Parsed (JArr (rev (v :: acc))) r'
              else Fail (c :: r')
          | [] => Fail []
          end
      | Fail a => Fail a
      | Exhausted => Exhausted
      end
  end
with parse_members (fuel : nat) (s : jsstring) (acc : list (jsstring * JSValue))
    : pres JSValue :=
  match fuel with
  | O => Exhausted
  | S f =>
      match skip_ws s with
      | q :: r =>
          if q =? dquote then
            match parse_string_body r [] with
            | Parsed k r1 =>
                match skip_ws r1 with
                | c :: r2 =>
                    if c =? chr ":" then
                      match parse_value f r2 with
                      | Parsed v r3 =>
                          match skip_ws r3 with
                          | d :: r4 =>
                              if d =? chr "," then parse_members f r4 (obj_set k v acc)
                              else if d =? chr "}" then Parsed (JObj (obj_set k v acc)) r4
                              else Fail (d :: r4)
                          | [] => Fail []
                          end
                      | Fail a => Fail a
                      | Exhausted => Exhausted
                      end
                    else Fail (c :: r2)
                | [] => Fail []
                end
            | Fail a => Fail a
            | Exhausted => Exhausted
            end
          else Fail (q :: r)
      | [] => Fail []
      end
  end.

(** The position of a suffix in the text, and the code unit found there. *)
Definition syntax_error (text at_ : jsstring) : Exn :=
  SyntaxError (length text - length at_) (hd_error at_).

(** [JSON.parse(text)]: one value, white space around it, nothing else. *)
Definition parse (text : jsstring) : result JSValue :=
  match parse_value (2 * length text + 2) text with
  | Parsed v r =>
      match skip_ws r with
      | [] => Ok v
      | rest => Throw (syntax_error text rest)
      end
  | Fail a => Throw (syntax_error text a)
  | Exhausted => Throw (Error (str "recursion bound"))
  end.

(** [QuoteJSONString]: the escapes [JSON.stringify] writes. *)
Definition hex_digit (n : N) : N := if n <? 10 then 48 + n else 87 + n.

Definition unicode_escape (c : N) : jsstring :=
  [chr "\"; chr "u"; hex_digit (c / 4096); hex_digit ((c / 256) mod 16);
   hex_digit ((c / 16) mod 16); hex_digit (c mod 16)].

Definition is_high_surrogate (c : N) : bool := (55296 <=? c) && (c <=? 56319).
Definition is_low_surrogate (c : N) : bool := (56320 <=? c) && (c <=? 57343).

Fixpoint quote_body (s : jsstring) : jsstring :=
  match s with
  | [] => []
  | c :: r =>
      if c =? 8 then str "\b" ++ quote_body r
      else if c =? 9 then str "\t" ++ quote_body r
      else if c =? 10 then str "\n" ++ quote_body r
      else if c =? 12 then str "\f" ++ quote_body r
      else if c =? 13 then str "\r" ++ quote_body r
      else if c =? dquote then [chr "\"; dquote] ++ quote_body r
      else if c =? 92 then [chr "\"; chr "\"] ++ quote_body r
      else if c <? 32 then unicode_escape c ++ quote_body r
      else if is_high_surrogate c then
        match r with
        | d :: r' => if is_low_surrogate d then c :: d :: quote_body r'
                     else unicode_escape c ++ quote_body r
        | [] => unicode_escape c
        end
      else if is_low_surrogate c then unicode_escape c ++ quote_body r
      else c :: quote_body r
  end.

Definition quote (s : jsstring) : jsstring := dquote :: quote_body s ++ [dquote].

(** [JSON.stringify(v)] without indentation, for a value that is not
    [undefined] (the program only serialises arrays).  An [undefined] or
    non-finite element is written [null]; an [undefined] property is
    left out. *)
Fixpoint stringify (v : JSValue) : jsstring :=
  match v with
  | JUndefined | JNull => str "null"
  | JBool true => str "true"
  | JBool false => str "false"
  | JNum (Finite m sc) => Number_toString (Finite m sc)
  | JNum _ => str "null"
  | JStr s => quote s
  | JArr items =>
      chr "[" :: join (str ",") (List.map stringify items) ++ [chr "]"]
  | JObj props =>
      chr "{" ::
        join (str ",")
          (flat_map (fun kv =>
                       match kv with
                       | (k, x) =>
                           if is_undefined x then []
                           else [quote k ++ chr ":" :: stringify x]
                       end) props)
        ++ [chr "}"]
  end.

End JSON.

(** ** The repairing parser: [safeParse] *)

(** State of the scan that looks for unclosed structures.  The stack of
    expected closers is kept with its top first: [stack.push(x)] is
    [x :: stack], [stack.pop()] takes the head. *)
Record scan_state := Scan {
  stack : list N;
  inString : bool;
  escape : bool
}.

Definition scan_init : scan_state := Scan [] false false.

(** One iteration of the [for] loop over the characters. *)
Definition scan_step (st : scan_state) (char : N) : scan_state :=
  let inString :=
    if (char =? dquote) && negb (escape st) then negb (inString st)
    else inString st in
  let stack :=
    if negb inString then
      if char =? chr "{" then chr "}" :: stack st
      else if char =? chr "[" then chr "]" :: stack st
      else if (char =? chr "}") || (char =? chr "]") then
        match stack st with
        | last :: below => if last =? char then below else stack st
        | [] => stack st
        end
      else stack st
    else stack st in
  let escape := if char =? chr "\" then negb (escape st) else false in
  Scan stack inString escape.

Definition scan (st : scan_state) (s : jsstring) : scan_state :=
  fold_left scan_step s st.

(** Number of double quotes in the text (escaped ones included). *)
Definition quoteCount (s : jsstring) : nat :=
  length (List.filter (fun c => c =? dquote) s).

(** The test [isLastQuoteEscaped]: the text ends with a backslash
    followed by a double quote. *)
Definition isLastQuoteEscaped (s : jsstring) : bool :=
  endsWith [chr "\"; dquote] s.

(** Step 1 of the repair: close an unclosed string. *)
Definition close_string (repaired : jsstring) : jsstring :=
  if Nat.odd (quoteCount repaired) && negb (isLastQuoteEscaped repaired)
  then repaired ++ [dquote] else repaired.

(** The repaired text: steps 1 and 2, and the closers appended from the
    top of the stack down. *)
Definition repair (jsonString : jsstring) : jsstring :=
  let repaired := trim jsonString in
  let repaired := close_string repaired in
  let st := scan scan_init repaired in
  repaired ++ stack st.

(** [safeParse]: the texts handed to [JSON.parse], in order, and the
    outcome. *)
Definition safeParse (jsonString : jsstring) : list jsstring * result JSValue :=
  match JSON.parse jsonString with
  | Ok v => ([jsonString], Ok v)
  | Throw e =>
      let repaired := repair jsonString in
      match JSON.parse repaired with
      | Ok v => ([jsonString; repaired], Ok v)
      | Throw e2 => ([jsonString; repaired], Throw e)
      end
  end.

(** The nesting of a text is balanced up to closers missing at its end:
    the scan never meets a closer other than the one on top of its
    stack. *)
Fixpoint near_balanced_from (st : scan_state) (s : jsstring) : bool :=
  match s with
  | [] => true
  | c :: r =>
      let st' := scan_step st c in
      (if negb (inString st') && ((c =? chr "}") || (c =? chr "]"))
       then match stack st with
            | last :: _ => last =? c
            | [] => false
            end
       else true)
      && near_balanced_from st' r
  end.

Definition near_balanced (s : jsstring) : bool :=
  near_balanced_from scan_init s.

(** Number of string literals of the text that are not terminated: the
    scan ends inside a string, or it does not. *)
Definition unterminated_strings (s : jsstring) : nat :=
  if inString (scan scan_init s) then 1 else 0.

Definition is_closer (c : N) : bool := (c =? chr "}") || (c =? chr "]").

(** A code unit the scan passes over without a change of state when it
    is outside a string: no quote, no backslash, no brace or bracket. *)
Definition quiet (c : N) : bool :=
  negb ((c =? dquote) || (c =? chr "\") || (c =? chr "{") || (c =? chr "[")
        || (c =? chr "}") || (c =? chr "]")).

(** The scan goes from one state to another over a piece of text without
    meeting a closer it does not expect. *)
Definition scans (st : scan_state) (piece : jsstring) (st' : scan_state) : Prop :=
  scan st piece = st' /\ near_balanced_from st piece = true.

(** What the three parsing functions guarantee for the scan, for a given
    recursion bound: a value leaves the stack as it found it; the rest of
    an array or of an object pops the closer that its opening pushed. *)
Definition value_scans (fuel : nat) : Prop :=
  forall s v r stk,
    JSON.parse_value fuel s = JSON.Parsed v r ->
    exists piece, s = piece ++ r /\
      scans (Scan stk false false) piece (Scan stk false false).

Definition elements_scan (fuel : nat) : Prop :=
  forall s acc v r stk,
    JSON.parse_elements fuel s acc = JSON.Parsed v r ->
    exists piece, s = piece ++ r /\
      scans (Scan (chr "]" :: stk) false false) piece (Scan stk false false).

Definition members_scan (fuel : nat) : Prop :=
  forall s acc v r stk,
    JSON.parse_members fuel s acc = JSON.Parsed v r ->
    exists piece, s = piece ++ r /\
      scans (Scan (chr "}" :: stk) false false) piece (Scan stk false false).

(** What they guarantee for the length of the rest of the text, and for
    the recursion bound. *)
Definition value_shorter (fuel : nat) : Prop :=
  forall s v r,
    JSON.parse_value fuel s = JSON.Parsed v r -> (length r < length s)%nat.

Definition elements_shorter (fuel : nat) : Prop :=
  forall s acc v r,
    JSON.parse_elements fuel s acc = JSON.Parsed v r -> (length r < length s)%nat.

Definition members_shorter (fuel : nat) : Prop :=
  forall s acc v r,
    JSON.parse_members fuel s acc = JSON.Parsed v r -> (length r < length s)%nat.

Definition value_bounded (fuel : nat) : Prop :=
  forall s, (2 * length s + 1 <= fuel)%nat ->
            JSON.parse_value fuel s <> JSON.Exhausted.

Definition elements_bounded (fuel : nat) : Prop :=
  forall s acc, (2 * length s + 2 <= fuel)%nat ->
                JSON.parse_elements fuel s acc <> JSON.Exhausted.

Definition members_bounded (fuel : nat) : Prop :=
  forall s acc, (2 * length s + 2 <= fuel)%nat ->
                JSON.parse_members fuel s acc <> JSON.Exhausted.

(** The same for the part of a text [s] that precedes its suffix [r]. *)
Definition scans_to (st : scan_state) (s r : jsstring) (st' : scan_state) : Prop :=
  exists piece, s = piece ++ r /\ scans st piece st'.

(** Test inputs are written with an apostrophe wherever the text has a
    double quote. *)
Definition qstr (s : string) : jsstring :=
  List.map (fun c => if c =? chr "'" then dquote else c) (str s).

(** ** The generative-model service and the two pipelines *)

Module Service.

Inductive Model :=
| gemini_3_pro_preview
| gemini_3_flash_preview
| gemini_2_5_flash_image.

(** The three response shapes the program asks for ([responseSchema],
    always with the JSON response type). *)
Inductive Schema := VideosSchema | GraphSchema | SlidesSchema.

(** The argument of [ai.models.generateContent]. *)
Record Request := {
  model : Model;
  contents : jsstring;
  googleSearch : bool;
  thinkingBudget : option Z;
  responseSchema : option Schema;
  aspectRatio : option jsstring
}.

(** The service: for a request, the response object or a thrown value. *)
Definition Service := Request -> result JSValue.

(** What a pipeline does that its caller can observe while it runs. *)
Inductive Event :=
| Progress (message : jsstring) (percentage : Z)
| Call (req : Request).

(** An asynchronous function: the events so far and the outcome. *)
Definition M (A : Type) : Type := list Event * result A.

Definition ret {A} (a : A) : M A := ([], Ok a).

Definition M_bind {A B} (m : M A) (k : A -> M B) : M B :=
  match m with
  | (t, Ok a) => let '(t', r) := k a in (t ++ t', r)
  | (t, Throw e) => (t, Throw e)
  end.

Definition lift {A} (r : result A) : M A := ([], r).

(** [await ai.models.generateContent(req)]. *)
Definition call (ai : Service) (req : Request) : M JSValue := ([Call req], ai req).

(** [if (onProgress) onProgress(message, percentage)]. *)
Definition progress (message : string) (percentage : Z) : M unit :=
  ([Progress (str message) percentage], Ok tt).

Notation "'let!' x ':=' m 'in' k" := (M_bind m (fun x => k))
  (at level 10, x name, m at level 100, k at level 200).
Notation "'do!' m 'in' k" := (M_bind m (fun _ => k))
  (at level 10, m at level 100, k at level 200).
Notation "'let?' x ':=' r 'in' k" := (bind r (fun x => k))
  (at level 10, x name, r at level 100, k at level 200).

Definition requests (t : list Event) : list Request :=
  flat_map (fun e => match e with Call r => [r] | Progress _ _ => [] end) t.

(** Every percentage reported in a trace is one of the given ones. *)
Definition reports (allowed : list Z) (trace : list Event) : Prop :=
  Forall (fun e => match e with
                   | Progress _ p => In p allowed
                   | Call _ => True
                   end) trace.

(** [v.slice(0, n)] on a string (or an array); anything else has no
    [slice] method. *)
Definition slice (v : JSValue) (n : N) : result JSValue :=
  match v with
  | JStr s => Ok (JStr (slice0 (N.to_nat n) s))
  | JArr items => Ok (JArr (firstn (N.to_nat n) items))
  | _ => Throw (TypeError (str "slice is not a function"))
  end.

(** [cleanJson(v)]: [v.trim()] needs a string. *)
Definition cleanJson_of (v : JSValue) : result jsstring :=
  match v with
  | JStr s => Ok (cleanJson s)
  | _ => Throw (TypeError (str "trim is not a function"))
  end.

(** [v.map(f)] on an array; anything else has no [map] method. *)
Definition array_map (v : JSValue) (f : JSValue -> result JSValue) : result JSValue :=
  match v with
  | JArr items => let? x := mapM f items in Ok (JArr x)
  | _ => Throw (TypeError (str "map is not a function"))
  end.

(** Step 1: the discovery prompt. *)
Definition discoveryPrompt (channelUrl : jsstring) : jsstring :=
  str "
    I need to identify the YouTube channel associated with this URL or input: "
  ++ [dquote]
  ++ (channelUrl)
  ++ [dquote]
  ++ str ".
    
    Task:
    1. Identify the exact Channel Name and Creator.
    2. Identify 5 of the most popular, controversial, or intellectually significant videos from this channel.
    
    Return a concise list containing:
    - Channel Name
    - List of 5 Video Titles
  ".

(** Step 2: the deep-analysis prompt. *)
Definition analysisPrompt (discoveryData : JSValue) : jsstring :=
  str "
    Based on the following channel discovery data:
    "
  ++ (ToString discoveryData)
  ++ str "

    Perform a "
  ++ [dquote]
  ++ str "Deep Forensic Scan"
  ++ [dquote]
  ++ str " of the identified videos.
    
    Task:
    1. For EACH of the 5 videos, use Google Search to find detailed summaries, transcripts, or commentary to understand the *exact* arguments made.
    2. Synthesize the channel's core recurring themes, mental models, and philosophy based *only* on these videos.
    3. Determine the "
  ++ [dquote]
  ++ str "Relevance"
  ++ [dquote]
  ++ str " (centrality to worldview) and "
  ++ [dquote]
  ++ str "Popularity"
  ++ [dquote]
  ++ str " (audience reception) of these themes.

    Provide a comprehensive text analysis that includes the detailed video summaries and the thematic breakdown.
  ".

(** Step 3: the video-extraction prompt, around the first 25000 code
    units of the analysis. *)
Definition videoPrompt (analysisSlice : JSValue) : jsstring :=
  str "
    Based on this analysis:
    "
  ++ (ToString analysisSlice)
  ++ str " 

    Generate a JSON object containing an array of the 5 videos analyzed.
    Each video must have a "
  ++ [dquote]
  ++ str "title"
  ++ [dquote]
  ++ str " and a "
  ++ [dquote]
  ++ str "summary"
  ++ [dquote]
  ++ str " (2-3 sentences max).

    Output PURE JSON.
  ".

(** Step 4: the graph-extraction prompt, around the first 20000 code
    units of the analysis and the serialised video list. *)
Definition graphPrompt (analysisSlice : JSValue) (videos : JSValue) : jsstring :=
  str "
    Context: Forensic Analysis of a YouTube channel.
    Analysis Data: "
  ++ (ToString analysisSlice)
  ++ str "
    Identified Videos: "
  ++ (JSON.stringify videos)
  ++ str "

    Task: Create a directed knowledge graph representing the channel's worldview.

    Generate a JSON object containing:
    1. "
  ++ [dquote]
  ++ str "graph"
  ++ [dquote]
  ++ str ": 
       - "
  ++ [dquote]
  ++ str "nodes"
  ++ [dquote]
  ++ str ": Array of objects (Max 12 nodes total).
          - "
  ++ [dquote]
  ++ str "id"
  ++ [dquote]
  ++ str ": Topic Name (Unique String, Max 4 words).
          - "
  ++ [dquote]
  ++ str "group"
  ++ [dquote]
  ++ str ": 1 (Core Philosophy), 2 (Major Concepts), 3 (Specific Arguments).
          - "
  ++ [dquote]
  ++ str "desc"
  ++ [dquote]
  ++ str ": Short 1-sentence description (Max 15 words).
          - "
  ++ [dquote]
  ++ str "longDescription"
  ++ [dquote]
  ++ str ": A concise explanation (max 2 sentences) of this node's role.
          - "
  ++ [dquote]
  ++ str "relevance"
  ++ [dquote]
  ++ str ": Integer from 1 to 10. **MUST BE LESS THAN 11**.
          - "
  ++ [dquote]
  ++ str "popularity"
  ++ [dquote]
  ++ str ": Integer from 1 to 10. **MUST BE LESS THAN 11**.
       - "
  ++ [dquote]
  ++ str "links"
  ++ [dquote]
  ++ str ": Array of objects { "
  ++ [dquote]
  ++ str "source"
  ++ [dquote]
  ++ str ": "
  ++ [dquote]
  ++ str "Topic Name"
  ++ [dquote]
  ++ str ", "
  ++ [dquote]
  ++ str "target"
  ++ [dquote]
  ++ str ": "
  ++ [dquote]
  ++ str "Topic Name"
  ++ [dquote]
  ++ str ", "
  ++ [dquote]
  ++ str "value"
  ++ [dquote]
  ++ str ": 1-5 }. 
          **CRITICAL**: The graph MUST be contiguous (fully connected). Use the exact "
  ++ [dquote]
  ++ str "id"
  ++ [dquote]
  ++ str " strings from nodes for source/target.
          **VALUE GUIDE**: 
            1: Loose thematic connection.
            3: Strong conceptual link.
            5: Critical dependency (Target directly derived from Source).
    2. "
  ++ [dquote]
  ++ str "summary"
  ++ [dquote]
  ++ str ": A one-paragraph executive summary of the channel's worldview.

    Output PURE JSON only. Ensure numerical values are standard Integers (e.g. 5, not 500000).
  ".


(** [n || d] on numbers. *)
Definition num_or (n d : JSNumber) : JSNumber :=
  if truthy (JNum n) then n else d.

(** [Math.min(hi, Math.max(lo, parseInt(v) || dflt))]. *)
Definition clamp (lo hi dflt : Z) (v : JSValue) : result JSNumber :=
  let? n := parseInt v in
  Ok (Math_min (int hi) (Math_max (int lo) (num_or n (int dflt)))).

(** An integer between two bounds. *)
Definition score_in (lo hi : Z) (v : JSValue) : Prop :=
  exists z, v = JNum (int z) /\ (lo <= z <= hi)%Z.

(** [{...node, relevance: ..., popularity: ...}]. *)
Definition sanitize_node (node : JSValue) : result JSValue :=
  let copy := spread node in
  let? r := Get node "relevance" in
  let? relevance := clamp 1 10 5 r in
  let copy := obj_set (str "relevance") (JNum relevance) copy in
  let? p := Get node "popularity" in
  let? popularity := clamp 1 10 5 p in
  let copy := obj_set (str "popularity") (JNum popularity) copy in
  Ok (JObj copy).

(** [{...link, value: ...}]. *)
Definition sanitize_link (link : JSValue) : result JSValue :=
  let copy := spread link in
  let? v := Get link "value" in
  let? value := clamp 1 5 3 v in
  Ok (JObj (obj_set (str "value") (JNum value) copy)).

Record Analysis := {
  videos : JSValue;
  graph : JSValue
}.

(** Step 3, the [try] block that reads the video list. *)
Definition read_videos (videoJson : jsstring) : result JSValue :=
  try_catch
    (let? parsedVideos := snd (safeParse videoJson) in
     if truthy parsedVideos then
       let? vs := Get parsedVideos "videos" in
       if Array_isArray vs then Ok vs else Ok (JArr [])
     else Ok (JArr []))
    (fun _ => Throw (Error (str "Failed to parse video list from model output."))).

(** Step 4, the [try] block that builds the result. *)
Definition build_graph (videos : JSValue) (graphJson : jsstring) : result Analysis :=
  try_catch
    (let? parsedGraph := snd (safeParse graphJson) in
     let? g := GetOpt parsedGraph "graph" in
     let? nodes := GetOpt g "nodes" in
     if negb (Array_isArray nodes)
     then Throw (Error (str "Model failed to generate graph structure."))
     else
       let? sanitizedNodes := array_map nodes sanitize_node in
       let? g := Get parsedGraph "graph" in
       let? ls := Get g "links" in
       let links := if Array_isArray ls then ls else JArr [] in
       let? sanitizedLinks := array_map links sanitize_link in
       let? summary := Get parsedGraph "summary" in
       Ok {| videos := videos;
             graph := JObj [(str "nodes", sanitizedNodes);
                            (str "links", sanitizedLinks);
                            (str "summary",
                             or_else summary (JStr (str "No summary available.")))] |})
    (fun _ => Throw (Error (str
       "Failed to construct topic graph. The model output was malformed."))).

Definition discoveryRequest (channelUrl : jsstring) : Request :=
  {| model := gemini_3_pro_preview; contents := discoveryPrompt channelUrl;
     googleSearch := true; thinkingBudget := None; responseSchema := None;
     aspectRatio := None |}.

Definition analysisRequest (discoveryData : JSValue) : Request :=
  {| model := gemini_3_pro_preview; contents := analysisPrompt discoveryData;
     googleSearch := true; thinkingBudget := Some 2048%Z; responseSchema := None;
     aspectRatio := None |}.

Definition videoRequest (analysisSlice : JSValue) : Request :=
  {| model := gemini_3_flash_preview; contents := videoPrompt analysisSlice;
     googleSearch := false; thinkingBudget := None;
     responseSchema := Some VideosSchema; aspectRatio := None |}.

Definition graphRequest (analysisSlice videos : JSValue) : Request :=
  {| model := gemini_3_flash_preview; contents := graphPrompt analysisSlice videos;
     googleSearch := false; thinkingBudget := None;
     responseSchema := Some GraphSchema; aspectRatio := None |}.

(** The conversion of a substitution of a template literal to a string,
    which can throw; it takes place when the literal is evaluated, before
    the request is built.  The prompts are written from the substituted
    values themselves, with [ToString]: that is the string the
    conversion returns. *)
Definition substitute (v : JSValue) : M jsstring := lift (String_of v).

(** 1. ANALYZE CHANNEL (Search + Graph Creation), from its second
    statement on: [ai] is the client that the constructor returned in the
    first statement ([Exported.analyzeChannelContent] below is the
    function from its first statement). *)
Definition analyzeChannelContent (ai : Service) (channelUrl : jsstring) : M Analysis :=
  do! progress "Initializing channel discovery..." 5 in
  let! discoveryResponse := call ai (discoveryRequest channelUrl) in
  let! discoveryData := lift (Get discoveryResponse "text") in
  do! progress "Deep scanning video content (this may take a moment)..." 25 in
  do! substitute discoveryData in
  let! analysisResponse := call ai (analysisRequest discoveryData) in
  let! fullAnalysis := lift (Get analysisResponse "text") in
  do! progress "Structuring video data..." 60 in
  let! slice25 := lift (slice fullAnalysis 25000) in
  do! substitute slice25 in
  let! videoResponse := call ai (videoRequest slice25) in
  let! videoText := lift (Get videoResponse "text") in
  let! videoJson := lift (cleanJson_of videoText) in
  let! videos := lift (read_videos videoJson) in
  do! progress "Constructing knowledge graph..." 80 in
  let! slice20 := lift (slice fullAnalysis 20000) in
  do! substitute slice20 in
  let! graphResponse := call ai (graphRequest slice20 videos) in
  do! progress "Finalizing analysis..." 95 in
  let! graphText := lift (Get graphResponse "text") in
  let! graphJson := lift (cleanJson_of graphText) in
  lift (build_graph videos graphJson).

Definition defaultInstructions : jsstring :=
  str "Adopt a tone of rigorous, empirical scientific skepticism. Dismantle pseudoscience and logical leaps.".

(** The presentation prompt. *)
Definition rebuttalPrompt (channelUrl : jsstring) (graphSummary : JSValue) (titles : jsstring)
    (customInstructions : JSValue) : jsstring :=
  str "
    Role: You are an elite Epistemologist, Investigative Journalist, and Logic Professor. 
    Target: We are conducting a high-level forensic deconstruction of the YouTube channel "
  ++ (channelUrl)
  ++ str ".
    
    Context Data:
    - Channel Worldview: "
  ++ (ToString graphSummary)
  ++ str "
    - Top Videos: "
  ++ (titles)
  ++ str ".
    - User Custom Direction: "
  ++ [dquote]
  ++ (ToString (or_else customInstructions (JStr defaultInstructions)))
  ++ [dquote]
  ++ str "

    Objective:
    Generate a 5-slide "
  ++ [dquote]
  ++ str "Deep Dive & Rebuttal"
  ++ [dquote]
  ++ str " presentation.
    Your goal is to perform a "
  ++ [dquote]
  ++ str "steelmanning"
  ++ [dquote]
  ++ str " operation: First, articulate the creator's arguments *better than they do*, then dismantle them with superior evidence, first-principles logic, and epistemological clarity.
    
    Research Phase (Use Google Search):
    1. Find specific, direct quotes or core thesis statements from these videos.
    2. Identify the underlying axioms or "
  ++ [dquote]
  ++ str "hidden premises"
  ++ [dquote]
  ++ str " this channel relies on.
    3. Find high-quality counter-evidence (scientific consensus, historical data, logical contradictions).
    
    Slide Structure Requirements (Strict Adherence):
    1. **Title**: Use a "
  ++ [dquote]
  ++ str "Dialectical"
  ++ [dquote]
  ++ str " style (e.g., "
  ++ [dquote]
  ++ str "The Myth of X,"
  ++ [dquote]
  ++ str " "
  ++ [dquote]
  ++ str "Correlation vs Causation,"
  ++ [dquote]
  ++ str " "
  ++ [dquote]
  ++ str "The Naturalistic Fallacy"
  ++ [dquote]
  ++ str ").
    2. **Bullet Points**: Exactly 3 items per slide, structured strictly as follows (include the labels):
       - "
  ++ [dquote]
  ++ str "The Claim: [Insert a specific, recognizable argument or quote from the channel]"
  ++ [dquote]
  ++ str "
       - "
  ++ [dquote]
  ++ str "The Mechanism: [Briefly explain the rhetorical device or logical error used]"
  ++ [dquote]
  ++ str "
       - "
  ++ [dquote]
  ++ str "The Reality: [A hard-hitting fact or logical axiom that contradicts the claim]"
  ++ [dquote]
  ++ str "
    3. **Rebuttal**: A dense, high-impact paragraph (approx 80-100 words). Do not use fluff. Cite specific concepts, fallacies (e.g., Motte-and-Bailey, Gish Gallop), or scientific principles. Address the *nuance*"
  ++ [8212]
  ++ str "why is the argument compelling, and why is it ultimately wrong?
    4. **Visual Prompt**: A creative, abstract art prompt for a background image. It should be metaphorical and visually striking (e.g., "
  ++ [dquote]
  ++ str "A golden cage representing ideological capture, cinematic lighting"
  ++ [dquote]
  ++ str ").
    5. **Speaker Notes**: A script for the presenter. Tone: Charismatic, authoritative, yet fair. Use rhetorical questions. (Approx 100 words).

    Output Format:
    Return a JSON object with a "
  ++ [dquote]
  ++ str "slides"
  ++ [dquote]
  ++ str " array.
  ".

(** [items.join(sep)]: every element is converted to a string, [undefined]
    and [null] to the empty one. *)
Definition array_join (sep : jsstring) (items : list JSValue) : result jsstring :=
  let? parts := mapM (fun x => match x with
                               | JUndefined | JNull => Ok []
                               | _ => String_of x
                               end) items in
  Ok (join sep parts).

(** [safeVideos.map(v => v.title).slice(0, 5).join(", ")]. *)
Definition top_titles (videos : JSValue) : result jsstring :=
  let safeVideos := if Array_isArray videos then videos else JArr [] in
  let? titles := array_map safeVideos (fun v => Get v "title") in
  let? first5 := slice titles 5 in
  match first5 with
  | JArr items => array_join (str ", ") items
  | _ => Ok []
  end.

Definition rebuttalRequest (prompt : jsstring) : Request :=
  {| model := gemini_3_pro_preview; contents := prompt;
     googleSearch := true; thinkingBudget := Some 8192%Z;
     responseSchema := Some SlidesSchema; aspectRatio := None |}.

(** The sanitisation of one slide. *)
Definition sanitize_slide (s : JSValue) : result JSValue :=
  let copy := spread s in
  let? bp := Get s "bulletPoints" in
  let copy := obj_set (str "bulletPoints") (if Array_isArray bp then bp else JArr []) copy in
  let? sn := Get s "speakerNotes" in
  let copy := obj_set (str "speakerNotes") (or_else sn (JStr [])) copy in
  let? rb := Get s "rebuttal" in
  let copy := obj_set (str "rebuttal") (or_else rb (JStr [])) copy in
  let? vp := Get s "visualPrompt" in
  let copy := obj_set (str "visualPrompt")
                (or_else vp (JStr (str "Abstract digital landscape, dark elegant colors")))
                copy in
  Ok (JObj copy).

(** The [try] block of [generateRebuttal]. *)
Definition read_slides (rawJson : JSValue) : result JSValue :=
  try_catch
    (let? cleaned := cleanJson_of rawJson in
     let? data := snd (safeParse cleaned) in
     if negb (truthy data) then Throw (Error (str "No slides generated."))
     else
       let? slides := Get data "slides" in
       if negb (Array_isArray slides) then Throw (Error (str "No slides generated."))
       else
         let? slides' := array_map slides sanitize_slide in
         Ok (JObj (obj_set (str "slides") slides' (spread data))))
    (fun _ => Throw (Error (str
       "Failed to generate presentation. The analysis was too complex for the output window. Please try again."))).

(** 2. GENERATE REBUTTAL PRESENTATION, from its second statement on,
    for the client [ai] that the constructor returned in the first
    ([Exported.generateRebuttal] below is the function from its first
    statement). *)
Definition generateRebuttal (ai : Service) (channelUrl : jsstring)
    (graphSummary videos customInstructions : JSValue) : M JSValue :=
  do! progress "Initializing cognitive engine (Deep Thinking)..." 10 in
  do! substitute graphSummary in
  let! titles := lift (top_titles videos) in
  do! substitute (or_else customInstructions (JStr defaultInstructions)) in
  let! response := call ai (rebuttalRequest
                (rebuttalPrompt channelUrl graphSummary titles customInstructions)) in
  do! progress "Synthesizing slides..." 90 in
  let! rawJson := lift (Get response "text") in
  lift (read_slides rawJson).

(** The requests a run of [analyzeChannelContent] has issued when it
    ends, in the order of the calls.  Each request after the first is
    built from the outcome of the steps before it. *)
Inductive issued (ai : Service) (channelUrl : jsstring) : list Request -> Prop :=
| issued_discovery :
    issued ai channelUrl [discoveryRequest channelUrl]
| issued_analysis discoveryResponse discoveryData :
    ai (discoveryRequest channelUrl) = Ok discoveryResponse ->
    Get discoveryResponse "text" = Ok discoveryData ->
    issued ai channelUrl
      [discoveryRequest channelUrl; analysisRequest discoveryData]
| issued_videos discoveryResponse discoveryData analysisResponse fullAnalysis
    slice25 :
    ai (discoveryRequest channelUrl) = Ok discoveryResponse ->
    Get discoveryResponse "text" = Ok discoveryData ->
    ai (analysisRequest discoveryData) = Ok analysisResponse ->
    Get analysisResponse "text" = Ok fullAnalysis ->
    slice fullAnalysis 25000 = Ok slice25 ->
    issued ai channelUrl
      [discoveryRequest channelUrl; analysisRequest discoveryData;
       videoRequest slice25]
| issued_graph discoveryResponse discoveryData analysisResponse fullAnalysis
    slice25 videoResponse videoText videoJson videos slice20 :
    ai (discoveryRequest channelUrl) = Ok discoveryResponse ->
    Get discoveryResponse "text" = Ok discoveryData ->
    ai (analysisRequest discoveryData) = Ok analysisResponse ->
    Get analysisResponse "text" = Ok fullAnalysis ->
    slice fullAnalysis 25000 = Ok slice25 ->
    ai (videoRequest slice25) = Ok videoResponse ->
    Get videoResponse "text" = Ok videoText ->
    cleanJson_of videoText = Ok videoJson ->
    read_videos videoJson = Ok videos ->
    slice fullAnalysis 20000 = Ok slice20 ->
    issued ai channelUrl
      [discoveryRequest channelUrl; analysisRequest discoveryData;
       videoRequest slice25; graphRequest slice20 videos].

Definition imageRequest (prompt : jsstring) : Request :=
  {| model := gemini_2_5_flash_image;
     contents := str "Generate a high quality, abstract, moody, 4k background image: "
                 ++ prompt;
     googleSearch := false; thinkingBudget := None; responseSchema := None;
     aspectRatio := Some (str "16:9") |}.

(** The values a [for ... of] loop visits. *)
Definition iterate (v : JSValue) : result (list JSValue) :=
  match v with
  | JArr items => Ok items
  | JStr s => Ok (List.map (fun c => JStr [c]) s)
  | _ => Throw (TypeError (str "not iterable"))
  end.

(** The data URL of a part that carries inline image data. *)
Definition inline_image (part : JSValue) : result (option jsstring) :=
  let? inlineData := Get part "inlineData" in
  if truthy inlineData then
    let? data := Get inlineData "data" in
    if truthy data then
      let? mimeType := Get inlineData "mimeType" in
      let? mime := String_of mimeType in
      let? bytes := String_of data in
      Ok (Some (str "data:" ++ mime ++ str ";base64," ++ bytes))
    else Ok None
  else Ok None.

(** The [for] loop over the parts: return at the first inline image. *)
Fixpoint first_inline_image (parts : list JSValue) : result (option jsstring) :=
  match parts with
  | [] => Ok None
  | part :: more =>
      let? found := inline_image part in
      match found with
      | Some url => Ok (Some url)
      | None => first_inline_image more
      end
  end.

(** The parts of the first candidate of a response, as the scan reaches
    them. *)
Definition response_parts (response : JSValue) (items : list JSValue) : Prop :=
  exists candidates first content parts,
    Get response "candidates" = Ok candidates /\ truthy candidates = true /\
    GetIndex candidates 0 = Ok first /\
    Get first "content" = Ok content /\ truthy content = true /\
    Get content "parts" = Ok parts /\ truthy parts = true /\
    iterate parts = Ok items.

(** A part with inline image data, and the data URL built from it. *)
Definition is_inline_image (part : JSValue) (url : jsstring) : Prop :=
  exists inlineData data mimeType mime bytes,
    Get part "inlineData" = Ok inlineData /\ truthy inlineData = true /\
    Get inlineData "data" = Ok data /\ truthy data = true /\
    Get inlineData "mimeType" = Ok mimeType /\
    String_of mimeType = Ok mime /\ String_of data = Ok bytes /\
    url = str "data:" ++ mime ++ str ";base64," ++ bytes.

(** 3. GENERATE SLIDE IMAGE, from its second statement on.  The whole
    body after the client [ai] is built is one [try] block whose handler
    returns [null] ([Exported.generateSlideImage] below is the function
    from its first statement, the construction of the client, which
    stands before the [try]). *)
Definition generateSlideImage (ai : Service) (prompt : jsstring)
  : result (option jsstring) :=
  try_catch
    (let? response := ai (imageRequest prompt) in
     let? candidates := Get response "candidates" in
     if truthy candidates then
       let? first := GetIndex candidates 0 in
       let? content := Get first "content" in
       if truthy content then
         let? parts := Get content "parts" in
         if truthy parts then
           let? items := iterate parts in
           first_inline_image items
         else Ok None
       else Ok None
     else Ok None)
    (fun _ => Ok None).

End Service.
Export Service.

(** ** The exported functions, from their first statement

    Each of the three functions starts with
    [const ai = new GoogleGenAI({ apiKey: process.env.API_KEY })], before
    any [try] block, any progress report and any request.  The constructor
    belongs to the client library: [client] is the outcome of that
    statement in the environment of the run, the client or the error the
    constructor throws (it throws when no API key is set).  The
    definitions of [Service] are the rest of each function, for the
    client that was built. *)

Module Exported.

Definition analyzeChannelContent (client : result Service)
    (channelUrl : jsstring) : M Analysis :=
  let! ai := lift client in
  Service.analyzeChannelContent ai channelUrl.

Definition generateRebuttal (client : result Service) (channelUrl : jsstring)
    (graphSummary videos customInstructions : JSValue) : M JSValue :=
  let! ai := lift client in
  Service.generateRebuttal ai channelUrl graphSummary videos customInstructions.

Definition generateSlideImage (client : result Service) (prompt : jsstring)
  : result (option jsstring) :=
  let? ai := client in
  Service.generateSlideImage ai prompt.

End Exported.

(** ** The data-transfer shapes of [types.ts] *)

Module Types.

Record VideoData := {
  title : jsstring;
  video_summary : jsstring;
  video_url : option jsstring;
  publishDate : option jsstring
}.

Record GraphNode := {
  id : jsstring;
  group : JSNumber;
  desc : option jsstring;
  longDescription : option jsstring;
  relevance : JSNumber;
  popularity : JSNumber
}.

Record GraphLink := {
  source : jsstring;
  target : jsstring;
  value : JSNumber
}.

Record TopicGraphData := {
  nodes : list GraphNode;
  links : list GraphLink;
  summary : jsstring
}.

Inductive AppState :=
| IDLE
| ANALYZING
| DASHBOARD
| GENERATING_SLIDES
| PRESENTATION.

(** The runtime object of a typed value.  An optional field that is
    absent is an absent key. *)
Definition optional (key : string) (o : option jsstring) : list (jsstring * JSValue) :=
  match o with
  | Some x => [(str key, JStr x)]
  | None => []
  end.

Definition js_of_video (v : VideoData) : JSValue :=
  JObj ([(str "title", JStr (title v)); (str "summary", JStr (video_summary v))]
        ++ optional "url" (video_url v) ++ optional "publishDate" (publishDate v)).

Definition js_of_node (n : GraphNode) : JSValue :=
  JObj ([(str "id", JStr (id n)); (str "group", JNum (group n))]
        ++ optional "desc" (desc n) ++ optional "longDescription" (longDescription n)
        ++ [(str "relevance", JNum (relevance n));
            (str "popularity", JNum (popularity n))]).

Definition js_of_link (l : GraphLink) : JSValue :=
  JObj [(str "source", JStr (source l)); (str "target", JStr (target l));
        (str "value", JNum (value l))].

Definition js_of_graph (g : TopicGraphData) : JSValue :=
  JObj [(str "nodes", JArr (List.map js_of_node (nodes g)));
        (str "links", JArr (List.map js_of_link (links g)));
        (str "summary", JStr (summary g))].

Definition js_of_videos (vs : list VideoData) : JSValue :=
  JArr (List.map js_of_video vs).

(** Reading a typed value back from a runtime object, whatever the order
    of its keys. *)
Definition field (props : list (jsstring * JSValue)) (key : string) : JSValue :=
  match obj_lookup (str key) props with Some x => x | None => JUndefined end.

Definition as_string (v : JSValue) : option jsstring :=
  match v with JStr s => Some s | _ => None end.

Definition as_number (v : JSValue) : option JSNumber :=
  match v with JNum n => Some n | _ => None end.

Definition as_optional (v : JSValue) : option (option jsstring) :=
  match v with
  | JUndefined => Some None
  | JStr s => Some (Some s)
  | _ => None
  end.

Fixpoint all_some {A} (l : list (option A)) : option (list A) :=
  match l with
  | [] => Some []
  | Some x :: r => match all_some r with Some xs => Some (x :: xs) | None => None end
  | None :: _ => None
  end.

Definition as_list {A} (f : JSValue -> option A) (v : JSValue) : option (list A) :=
  match v with
  | JArr items => all_some (List.map f items)
  | _ => None
  end.

Definition video_of_js (v : JSValue) : option VideoData :=
  match v with
  | JObj p =>
      match as_string (field p "title"), as_string (field p "summary"),
            as_optional (field p "url"), as_optional (field p "publishDate") with
      | Some t, Some s, Some u, Some d =>
          Some {| title := t; video_summary := s; video_url := u; publishDate := d |}
      | _, _, _, _ => None
      end
  | _ => None
  end.

Definition node_of_js (v : JSValue) : option GraphNode :=
  match v with
  | JObj p =>
      match as_string (field p "id"), as_number (field p "group"),
            as_optional (field p "desc"), as_optional (field p "longDescription"),
            as_number (field p "relevance"), as_number (field p "popularity") with
      | Some i, Some g, Some d, Some l, Some r, Some q =>
          Some {| id := i; group := g; desc := d; longDescription := l;
                  relevance := r; popularity := q |}
      | _, _, _, _, _, _ => None
      end
  | _ => None
  end.

Definition link_of_js (v : JSValue) : option GraphLink :=
  match v with
  | JObj p =>
      match as_string (field p "source"), as_string (field p "target"),
            as_number (field p "value") with
      | Some s, Some t, Some x => Some {| source := s; target := t; value := x |}
      | _, _, _ => None
      end
  | _ => None
  end.

Definition graph_of_js (v : JSValue) : option TopicGraphData :=
  match v with
  | JObj p =>
      match as_list node_of_js (field p "nodes"), as_list link_of_js (field p "links"),
            as_string (field p "summary") with
      | Some ns, Some ls, Some s => Some {| nodes := ns; links := ls; summary := s |}
      | _, _, _ => None
      end
  | _ => None
  end.

Definition videos_of_js (v : JSValue) : option (list VideoData) :=
  as_list video_of_js v.

(** Two runtime values with the same content, whatever the order of the
    keys of their objects. *)
#[warnings="-register-all"]
Inductive same_data : JSValue -> JSValue -> Prop :=
| same_undefined : same_data JUndefined JUndefined
| same_null : same_data JNull JNull
| same_bool b : same_data (JBool b) (JBool b)
| same_num n : same_data (JNum n) (JNum n)
| same_str s : same_data (JStr s) (JStr s)
| same_arr a b : Forall2 same_data a b -> same_data (JArr a) (JArr b)
| same_obj p q :
    (forall k, option_Forall2 same_data (obj_lookup k p) (obj_lookup k q)) ->
    same_data (JObj p) (JObj q).

(** A codec takes a value to a text and back to the same data. *)
Definition round_trips (stringify : JSValue -> result jsstring)
    (parse : jsstring -> result JSValue) (v : JSValue) : Prop :=
  exists text v', stringify v = Ok text /\ parse text = Ok v' /\ same_data v v'.

(** What the export writes for a graph: a description that is missing is
    written as the empty string. *)
Definition or_empty (o : option jsstring) : option jsstring :=
  match o with
  | Some x => Some x
  | None => Some []
  end.

Definition exported_node (n : GraphNode) : GraphNode :=
  {| id := id n; group := group n; desc := or_empty (desc n);
     longDescription := or_empty (longDescription n);
     relevance := relevance n; popularity := popularity n |}.

Definition exported_graph (g : TopicGraphData) : TopicGraphData :=
  {| nodes := List.map exported_node (nodes g); links := links g;
     summary := summary g |}.

(** The object the export builds for a node. *)
Definition js_of_exported_node (n : GraphNode) : JSValue :=
  JObj [(str "id", JStr (id n)); (str "group", JNum (group n));
        (str "relevance", JNum (relevance n));
        (str "popularity", JNum (popularity n));
        (str "desc", JStr (match desc n with Some d => d | None => [] end));
        (str "longDescription",
         JStr (match longDescription n with Some d => d | None => [] end))].

(** The graph object the export builds from the graph object of the
    page, when that reads as the typed graph [g]: the properties of the
    page's object in their order, with the lists of nodes and of links
    written anew. *)
Definition exported_graph_object (props : list (jsstring * JSValue))
    (g : TopicGraphData) : list (jsstring * JSValue) :=
  obj_set (str "links") (JArr (List.map js_of_link (links g)))
    (obj_set (str "nodes") (JArr (List.map js_of_exported_node (nodes g)))
       props).


End Types.
Export Types.

(** ** The simulated progress timer *)

Module Progress.

Local Open Scope Q_scope.

(** The state update of one timer tick, for the cap the timer was started
    with.  Arithmetic is exact; the program computes in binary64. *)
Definition tick (capAt prev : Q) : Q :=
  if Qle_bool capAt prev then prev
  else
    let increment := Qmax (1 # 10) ((capAt - prev) / 50) in
    Qmin capAt (prev + increment).

(** The progress value after [n] ticks of a timer started by
    [startProgressSimulation(startAt, capAt)]. *)
Fixpoint simulated (startAt capAt : Q) (n : nat) : Q :=
  match n with
  | O => startAt
  | S k => tick capAt (simulated startAt capAt k)
  end.

(** The calls of [startProgressSimulation] in the program, that is the
    arguments a timer can be started with: the two fixed calls of the
    handlers, and the calls of their progress callbacks with a percentage
    reported by a pipeline. *)
Inductive started : Q -> Q -> Prop :=
| start_analysis : started 0 95
| start_analysis_progress ai channelUrl message p :
    In (Progress message p) (fst (analyzeChannelContent ai channelUrl)) ->
    started (inject_Z p) 98
| start_rebuttal : started 0 90
| start_rebuttal_progress ai channelUrl graphSummary videos custom message p :
    In (Progress message p)
       (fst (generateRebuttal ai channelUrl graphSummary videos custom)) ->
    started (inject_Z p) 95.

End Progress.
Export Progress.

(** ** The page controller: [App.tsx] *)

Module App.

Definition DEFAULT_CHANNEL_URL : jsstring :=
  str "https://www.youtube.com/@bottomturtlepodcast".

(** The component state.  [timer] is the cap of the running progress
    timer ([progressIntervalRef]), [timeout] the state a pending
    [setTimeout] callback will set.  The data fields hold runtime values:
    [null] is [JNull]. *)
Record State := {
  url : JSValue;
  appState : AppState;
  graphData : JSValue;
  videoList : JSValue;
  presentationData : JSValue;
  error : JSValue;
  statusMsg : jsstring;
  progress : Q;
  logs : list jsstring;
  customInstructions : jsstring;
  timer : option Q;
  timeout : option AppState
}.

Definition set_url (x : JSValue) (s : State) : State :=
  {| url := x;
     appState := appState s;
     graphData := graphData s;
     videoList := videoList s;
     presentationData := presentationData s;
     error := error s;
     statusMsg := statusMsg s;
     progress := progress s;
     logs := logs s;
     customInstructions := customInstructions s;
     timer := timer s;
     timeout := timeout s |}.

Definition set_appState (x : AppState) (s : State) : State :=
  {| url := url s;
     appState := x;
     graphData := graphData s;
     videoList := videoList s;
     presentationData := presentationData s;
     error := error s;
     statusMsg := statusMsg s;
     progress := progress s;
     logs := logs s;
     customInstructions := customInstructions s;
     timer := timer s;
     timeout := timeout s |}.

Definition set_graphData (x : JSValue) (s : State) : State :=
  {| url := url s;
     appState := appState s;
     graphData := x;
     videoList := videoList s;
     presentationData := presentationData s;
     error := error s;
     statusMsg := statusMsg s;
     progress := progress s;
     logs := logs s;
     customInstructions := customInstructions s;
     timer := timer s;
     timeout := timeout s |}.

Definition set_videoList (x : JSValue) (s : State) : State :=
  {| url := url s;
     appState := appState s;
     graphData := graphData s;
     videoList := x;
     presentationData := presentationData s;
     error := error s;
     statusMsg := statusMsg s;
     progress := progress s;
     logs := logs s;
     customInstructions := customInstructions s;
     timer := timer s;
     timeout := timeout s |}.

Definition set_presentationData (x : JSValue) (s : State) : State :=
  {| url := url s;
     appState := appState s;
     graphData := graphData s;
     videoList := videoList s;
     presentationData := x;
     error := error s;
     statusMsg := statusMsg s;
     progress := progress s;
     logs := logs s;
     customInstructions := customInstructions s;
     timer := timer s;
     timeout := timeout s |}.

Definition set_error (x : JSValue) (s : State) : State :=
  {| url := url s;
     appState := appState s;
     graphData := graphData s;
     videoList := videoList s;
     presentationData := presentationData s;
     error := x;
     statusMsg := statusMsg s;
     progress := progress s;
     logs := logs s;
     customInstructions := customInstructions s;
     timer := timer s;
     timeout := timeout s |}.

Definition set_statusMsg (x : jsstring) (s : State) : State :=
  {| url := url s;
     appState := appState s;
     graphData := graphData s;
     videoList := videoList s;
     presentationData := presentationData s;
     error := error s;
     statusMsg := x;
     progress := progress s;
     logs := logs s;
     customInstructions := customInstructions s;
     timer := timer s;
     timeout := timeout s |}.

Definition set_progress (x : Q) (s : State) : State :=
  {| url := url s;
     appState := appState s;
     graphData := graphData s;
     videoList := videoList s;
     presentationData := presentationData s;
     error := error s;
     statusMsg := statusMsg s;
     progress := x;
     logs := logs s;
     customInstructions := customInstructions s;
     timer := timer s;
     timeout := timeout s |}.

Definition set_logs (x : list jsstring) (s : State) : State :=
  {| url := url s;
     appState := appState s;
     graphData := graphData s;
     videoList := videoList s;
     presentationData := presentationData s;
     error := error s;
     statusMsg := statusMsg s;
     progress := progress s;
     logs := x;
     customInstructions := customInstructions s;
     timer := timer s;
     timeout := timeout s |}.

Definition set_customInstructions (x : jsstring) (s : State) : State :=
  {| url := url s;
     appState := appState s;
     graphData := graphData s;
     videoList := videoList s;
     presentationData := presentationData s;
     error := error s;
     statusMsg := statusMsg s;
     progress := progress s;
     logs := logs s;
     customInstructions := x;
     timer := timer s;
     timeout := timeout s |}.

Definition set_timer (x : option Q) (s : State) : State :=
  {| url := url s;
     appState := appState s;
     graphData := graphData s;
     videoList := videoList s;
     presentationData := presentationData s;
     error := error s;
     statusMsg := statusMsg s;
     progress := progress s;
     logs := logs s;
     customInstructions := customInstructions s;
     timer := x;
     timeout := timeout s |}.

Definition set_timeout (x : option AppState) (s : State) : State :=
  {| url := url s;
     appState := appState s;
     graphData := graphData s;
     videoList := videoList s;
     presentationData := presentationData s;
     error := error s;
     statusMsg := statusMsg s;
     progress := progress s;
     logs := logs s;
     customInstructions := customInstructions s;
     timer := timer s;
     timeout := x |}.

Definition initial : State :=
  {| url := JStr DEFAULT_CHANNEL_URL; appState := IDLE; graphData := JNull;
     videoList := JArr []; presentationData := JNull; error := JNull;
     statusMsg := []; progress := 0; logs := []; customInstructions := [];
     timer := None; timeout := None |}.

(** [addLog]: newest first, at most fifty lines.  The time stamp in front
    of each line is left out. *)
Definition addLog (msg : jsstring) (s : State) : State :=
  set_logs (msg :: firstn 49 (logs s)) s.

Definition startProgressSimulation (startAt capAt : Q) (s : State) : State :=
  set_timer (Some capAt) (set_progress startAt s).

Definition stopProgressSimulation (s : State) : State := set_timer None s.

(** [n] ticks of the running timer, if one is running. *)
Definition ticks (n : nat) (s : State) : State :=
  match timer s with
  | Some capAt => set_progress (Nat.iter n (tick capAt) (progress s)) s
  | None => s
  end.

(** The pending [setTimeout] callback runs. *)
Definition fire_timeout (s : State) : State :=
  match timeout s with
  | Some a => set_timeout None (set_appState a s)
  | None => s
  end.

(** What the page does while a pipeline runs: its progress callback at
    each report, and timer ticks while the pipeline awaits the service
    ([waits] gives their number for each call in turn). *)
Fixpoint replay (onProgress : jsstring -> Z -> State -> State) (waits : list nat)
    (trace : list Event) (s : State) : State :=
  match trace with
  | [] => s
  | Progress msg p :: rest => replay onProgress waits rest (onProgress msg p s)
  | Call _ :: rest =>
      match waits with
      | w :: ws => replay onProgress ws rest (ticks w s)
      | [] => replay onProgress [] rest s
      end
  end.

Definition onProgress (capAt : Q) (msg : jsstring) (p : Z) (s : State) : State :=
  let s := set_statusMsg msg s in
  let s := addLog msg s in
  let s := set_progress (inject_Z p) s in
  startProgressSimulation (inject_Z p) capAt s.

Definition handleAnalyze (ai : Service) (waits : list nat) (s : State) : State :=
  if negb (truthy (url s)) then s
  else
    let s := set_appState ANALYZING s in
    let s := set_error JNull s in
    let s := set_logs [] s in
    let s := set_statusMsg (str "Initializing analysis...") s in
    let s := addLog (str "Starting channel analysis sequence...") s in
    let s := startProgressSimulation 0 95 s in
    let '(trace, outcome) := analyzeChannelContent ai (ToString (url s)) in
    let s := replay (onProgress 98) waits trace s in
    match outcome with
    | Ok r =>
        let s := set_videoList (or_else (videos r) (JArr [])) s in
        let s := set_graphData (graph r) s in
        let s := addLog (str "Analysis complete. Loading dashboard.") s in
        let s := stopProgressSimulation s in
        let s := set_progress 100 s in
        set_timeout (Some DASHBOARD) s
    | Throw err =>
        let s := set_error (JStr (str
          "Analysis failed. Please ensure the URL is valid and try again. Gemini might be overloaded.")) s in
        let s := addLog (str "Error: " ++ message err) s in
        let s := stopProgressSimulation s in
        set_appState IDLE s
    end.

(** [v?.length], which cannot throw. *)
Definition length_of (v : JSValue) : JSValue :=
  match GetOpt v "length" with Ok x => x | Throw _ => JUndefined end.

Definition handleGeneratePresentation (ai : Service) (waits : list nat) (s : State)
  : State :=
  if negb (truthy (graphData s)) || negb (truthy (length_of (videoList s))) then s
  else
    let s := set_appState GENERATING_SLIDES s in
    let s := set_statusMsg (str "Preparing presentation...") s in
    let s := addLog (str "Initializing presentation generation module...") s in
    let s :=
      match customInstructions s with
      | [] => s
      | _ => addLog (str "Applied custom instructions: " ++ [dquote]
                     ++ firstn 30 (customInstructions s) ++ str "..." ++ [dquote]) s
      end in
    let s := startProgressSimulation 0 90 s in
    let '(trace, outcome) :=
      M_bind (lift (Get (graphData s) "summary")) (fun graphSummary =>
        generateRebuttal ai (ToString (url s)) graphSummary (videoList s)
          (JStr (customInstructions s))) in
    let s := replay (onProgress 95) waits trace s in
    match outcome with
    | Ok slides =>
        let s := set_presentationData slides s in
        let s := addLog (str "Slides generated successfully.") s in
        let s := stopProgressSimulation s in
        let s := set_progress 100 s in
        set_timeout (Some PRESENTATION) s
    | Throw err =>
        let s := set_error (JStr (str
          "Failed to generate presentation. Please try again.")) s in
        let s := addLog (str "Error: " ++ message err) s in
        let s := stopProgressSimulation s in
        set_appState DASHBOARD s
    end.

Definition reset (s : State) : State :=
  let s := set_appState IDLE s in
  let s := set_graphData JNull s in
  let s := set_videoList (JArr []) s in
  let s := set_presentationData JNull s in
  let s := set_error JNull s in
  let s := set_logs [] s in
  stopProgressSimulation s.

(** The data an operation works on: what a failed operation must leave
    as it was. *)
Definition same_stored_data (s s' : State) : Prop :=
  graphData s' = graphData s /\ videoList s' = videoList s /\
  presentationData s' = presentationData s.

(** Where the page offers the two operations: the analysis form is
    rendered in the idle state only, the dashboard with its buttons in the
    dashboard state with graph data. *)
Definition shows_analysis_form (s : State) : bool :=
  match appState s with IDLE => true | _ => false end.

Definition shows_dashboard (s : State) : bool :=
  match appState s with DASHBOARD => truthy (graphData s) | _ => false end.

(** *** Export and import

    The TOML library is not part of the program: its two functions are
    parameters, and so is the clock read for the time stamp. *)
Section Toml.

Variable stringify : JSValue -> result jsstring.
Variable parse : jsstring -> result JSValue.
Variable now : jsstring.

Definition export_node (node : JSValue) : result JSValue :=
  let? i := Get node "id" in
  let? g := Get node "group" in
  let? r := Get node "relevance" in
  let? p := Get node "popularity" in
  let? d := Get node "desc" in
  let? l := Get node "longDescription" in
  Ok (JObj [(str "id", i); (str "group", g); (str "relevance", r);
            (str "popularity", p); (str "desc", or_else d (JStr []));
            (str "longDescription", or_else l (JStr []))]).

(** [(link.source as any).id || link.source]. *)
Definition endpoint (e : JSValue) : result JSValue :=
  let? i := Get e "id" in Ok (or_else i e).

Definition export_link (link : JSValue) : result JSValue :=
  let? s := Get link "source" in
  let? s := endpoint s in
  let? t := Get link "target" in
  let? t := endpoint t in
  let? v := Get link "value" in
  Ok (JObj [(str "source", s); (str "target", t); (str "value", v)]).

(** The object handed to the TOML library. *)
Definition exportData (s : State) : result JSValue :=
  let copy := spread (graphData s) in
  let? ns := Get (graphData s) "nodes" in
  let? ns := array_map ns export_node in
  let copy := obj_set (str "nodes") ns copy in
  let? ls := Get (graphData s) "links" in
  let? ls := array_map ls export_link in
  let cleanGraph := obj_set (str "links") ls copy in
  Ok (JObj [(str "meta", JObj [(str "timestamp", JStr now); (str "url", url s)]);
            (str "videos", videoList s);
            (str "graph", JObj cleanGraph)]).

(** The document the export builds from a typed page state. *)
Definition exported_document (u : JSValue) (vs : list VideoData)
    (g : TopicGraphData) : JSValue :=
  JObj [(str "meta", JObj [(str "timestamp", JStr now); (str "url", u)]);
        (str "videos", js_of_videos vs);
        (str "graph",
         JObj [(str "nodes", JArr (List.map js_of_exported_node (nodes g)));
               (str "links", JArr (List.map js_of_link (links g)));
               (str "summary", JStr (summary g))])].

(** [handleExport]: the new state and the text of the downloaded file. *)
Definition handleExport (s : State) : State * option jsstring :=
  if negb (truthy (graphData s)) then (s, None)
  else
    match (let? data := exportData s in stringify data) with
    | Ok tomlStr => (s, Some tomlStr)
    | Throw _ => (set_error (JStr (str "Failed to export TOML data.")) s, None)
    end.

(** The [try] block of the file reader's [onload] callback. *)
Definition read_import (text : jsstring) (s : State) : result State :=
  let? data := parse text in
  let? g := Get data "graph" in
  let? missing :=
    (if negb (truthy g) then Ok true
     else let? v := Get data "videos" in Ok (negb (truthy v))) in
  if (missing : bool)
  then Throw (Error (str "Invalid TOML structure. Missing graph or videos."))
  else
    let? meta := Get data "meta" in
    let? u := GetOpt meta "url" in
    let s := if truthy u then set_url u s else s in
    let s := set_graphData g s in
    let? v := Get data "videos" in
    let s := set_videoList v s in
    let s := addLog (str "Import successful. Skiping scraping.") s in
    let s := set_progress 100 s in
    Ok (set_timeout (Some DASHBOARD) s).

(** [handleImport] for a chosen file with the given text. *)
Definition handleImport (text : jsstring) (s : State) : State :=
  let s := set_appState ANALYZING s in
  let s := set_statusMsg (str "Parsing TOML file...") s in
  let s := addLog (str "Reading import file...") s in
  let s := set_progress 50 s in
  match read_import text s with
  | Ok s' => s'
  | Throw err =>
      let s := set_error (JStr (str "Failed to parse TOML file. " ++ message err)) s in
      set_appState IDLE s
  end.

End Toml.

End App.

(** ** The graph component: the data handed to the force simulation *)

Module ForceGraph.

(** What the main effect builds from its input: the nodes and links of
    the simulation, and the data bound to the line elements. *)
Record Simulation := {
  sim_nodes : list JSValue;
  sim_links : list JSValue;
  line_data : list JSValue
}.

(** [typeof v === 'object']. *)
Definition typeof_object (v : JSValue) : bool :=
  match v with JNull | JArr _ | JObj _ => true | _ => false end.

(** [String(n.id)]. *)
Definition node_id (n : JSValue) : result jsstring :=
  let? i := Get n "id" in String_of i.

(** [typeof e === 'object' ? String(e.id) : String(e)]. *)
Definition endpoint_id (e : JSValue) : result jsstring :=
  if typeof_object e then node_id e else String_of e.

Definition sim_node (d : JSValue) : result JSValue :=
  let copy := spread d in
  let? i := node_id d in
  Ok (JObj (obj_set (str "id") (JStr i) copy)).

Definition sim_link (d : JSValue) : result JSValue :=
  let copy := spread d in
  let? s := Get d "source" in
  let? s := endpoint_id s in
  let copy := obj_set (str "source") (JStr s) copy in
  let? t := Get d "target" in
  let? t := endpoint_id t in
  Ok (JObj (obj_set (str "target") (JStr t) copy)).

(** [validNodeIds.has(v)] for a set of strings. *)
Definition has (validNodeIds : gset jsstring) (v : JSValue) : bool :=
  match v with
  | JStr s => bool_decide (s ∈ validNodeIds)
  | _ => false
  end.

Definition property (v : JSValue) (key : string) : JSValue :=
  match Get v key with Ok x => x | Throw _ => JUndefined end.

Definition keep_link (validNodeIds : gset jsstring) (d : JSValue) : bool :=
  has validNodeIds (property d "source") && has validNodeIds (property d "target").

(** The receiver of [.map]: an array; anything else has no such method. *)
Definition array_items (v : JSValue) : result (list JSValue) :=
  match v with
  | JArr items => Ok items
  | _ => Throw (TypeError (str "map is not a function"))
  end.

(** The main simulation effect, up to the creation of the simulation and
    of the line elements; [None] when it returns early. *)
Definition effect (data : JSValue) : result (option Simulation) :=
  let? ns := Get data "nodes" in
  let? len := Get ns "length" in
  if negb (truthy len) then Ok None
  else
    let? items := array_items ns in
    let? ids := mapM node_id items in
    let validNodeIds : gset jsstring := list_to_set ids in
    let? nodes := mapM sim_node items in
    let? ls := Get data "links" in
    let? ls := array_items ls in
    let? mapped := mapM sim_link ls in
    let links := List.filter (keep_link validNodeIds) mapped in
    Ok (Some {| sim_nodes := nodes; sim_links := links; line_data := links |}).

End ForceGraph.

(** ** A stand-in for the service, for running the pipelines *)

Module Mock.

Definition response (text : jsstring) : result JSValue :=
  Ok (JObj [(str "text", JStr text)]).

(** A model that answers the structured requests with fenced JSON in
    which scores are out of range, malformed or missing. *)
Definition sloppy_model : Service := fun req =>
  match responseSchema req with
  | Some VideosSchema =>
      response (qstr "{'videos': [{'title': 'T1', 'summary': 'S1'}]}")
  | Some GraphSchema =>
      response (qstr "```json
{'graph': {'nodes': [{'id': 'A', 'group': 1, 'relevance': 50000000000000, 'popularity': '7px'},
                     {'id': 'B', 'relevance': -3}],
           'links': [{'source': 'A', 'target': 'B', 'value': 9}, 5]},
 'summary': ''}
```")
  | _ => response (str "Channel X. Five videos.")
  end.

(** A model whose graph answer is well-typed, with the keys of its
    objects in an order of its own. *)
Definition tidy_model : Service := fun req =>
  match responseSchema req with
  | Some VideosSchema =>
      response (qstr "{'videos': [{'summary': 'S1', 'title': 'T1'}]}")
  | Some GraphSchema =>
      response (qstr "{'summary': 'A worldview.',
 'graph': {'links': [{'value': 3, 'target': 'B', 'source': 'A'}],
           'nodes': [{'popularity': 4, 'id': 'A', 'relevance': 9, 'group': 1},
                     {'desc': 'about B', 'longDescription': 'more about B',
                      'id': 'B', 'group': 2, 'relevance': 5, 'popularity': 5}]}}")
  | _ => response (str "Channel X. Five videos.")
  end.

(** A service that is out of quota. *)
Definition failing_service : Service := fun _ =>
  Throw (Error (str "429 quota exceeded")).

(** A model whose video list is not JSON. *)
Definition garbled_videos : Service := fun req =>
  match responseSchema req with
  | Some VideosSchema => response (qstr "{'videos': [{'title': ")
  | _ => response (str "Channel X. Five videos.")
  end.

(** An image model: a text part, then two image parts. *)
Definition image_model : Service := fun _ =>
  Ok (JObj [(str "candidates",
     JArr [JObj [(str "content",
       JObj [(str "parts",
         JArr [JObj [(str "text", JStr (str "here you go"))];
               JObj [(str "inlineData",
                      JObj [(str "mimeType", JStr (str "image/png"));
                            (str "data", JStr (str "iVBORw0KGgo="))])];
               JObj [(str "inlineData",
                      JObj [(str "mimeType", JStr (str "image/jpeg"));
                            (str "data", JStr (str "AAAA"))])]])])]])]).

(** Graph data with a link to a node that does not exist, a numeric
    node id, and a link whose endpoints are node objects. *)
Definition graph_with_orphan : JSValue :=
  JObj [(str "nodes",
         JArr [JObj [(str "id", JStr (str "A")); (str "group", JNum (int 1))];
               JObj [(str "id", JNum (int 7)); (str "group", JNum (int 2))]]);
        (str "links",
         JArr [JObj [(str "source", JStr (str "A")); (str "target", JStr (str "7"));
                     (str "value", JNum (int 3))];
               JObj [(str "source", JStr (str "A")); (str "target", JStr (str "Z"));
                     (str "value", JNum (int 1))];
               JObj [(str "source", JObj [(str "id", JNum (int 7))]);
                     (str "target", JObj [(str "id", JStr (str "A"))]);
                     (str "value", JNum (int 5))]]);
        (str "summary", JStr (str "s"))].

(** A typed analysis result: one node without descriptions, one with. *)
Definition small_graph : TopicGraphData :=
  {| nodes := [ {| id := str "A"; group := int 1; desc := None;
                   longDescription := None; relevance := int 9;
                   popularity := int 4 |};
                {| id := str "B"; group := int 2; desc := Some (str "about B");
                   longDescription := Some (str "more about B");
                   relevance := int 5; popularity := int 5 |} ];
     links := [ {| source := str "A"; target := str "B"; value := int 3 |} ];
     summary := str "A worldview." |}.

Definition small_videos : list VideoData :=
  [ {| title := str "T1"; video_summary := str "S1"; video_url := None;
       publishDate := None |} ].

(** The page after an analysis that returned that result. *)
Definition dashboard : App.State :=
  App.set_appState DASHBOARD
    (App.set_videoList (js_of_videos small_videos)
       (App.set_graphData (js_of_graph small_graph) App.initial)).

End Mock.

(** ** Texts the sanitizer has nothing to do on *)

(** The pattern matches at no position of the text. *)
Fixpoint matches_nowhere (m : matcher) (s : jsstring) : bool :=
  match s with
  | [] => true
  | _ :: r =>
      match m s with
      | Some _ => false
      | None => matches_nowhere m r
      end
  end.

(** ** The reports of a run *)

(** A value that the engine converts to a string without throwing. *)
Definition converts (v : JSValue) : Prop := exists s, String_of v = Ok s.

(** An entry of the model's list of nodes, or of links, whose scores can
    be read and converted to a string, whatever they are (such an entry
    is not [null] or [undefined]). *)
Definition node_scores_convert (n : JSValue) : Prop :=
  exists r p, Get n "relevance" = Ok r /\ Get n "popularity" = Ok p /\
              converts r /\ converts p.

Definition link_value_converts (l : JSValue) : Prop :=
  exists x, Get l "value" = Ok x /\ converts x.

(** A node whose id [String] converts. *)
Definition id_converts (n : JSValue) : Prop :=
  forall i, Get n "id" = Ok i -> converts i.

(** An endpoint of a link that the graph component can turn into an id:
    it is not [null] (the type of [null] is ['object'], so the component
    would read a property of it); if it is an object, its id converts,
    and otherwise it converts itself. *)
Definition endpoint_converts (e : JSValue) : Prop :=
  e <> JNull /\
  if ForceGraph.typeof_object e then id_converts e else converts e.

Definition link_ends_convert (l : JSValue) : Prop :=
  forall e, Get l "source" = Ok e \/ Get l "target" = Ok e ->
            endpoint_converts e.

(** The percentages a run has reported, in the order of the reports. *)
Definition percentages (trace : list Event) : list Z :=
  flat_map (fun e => match e with
                     | Progress _ p => [p]
                     | Call _ => []
                     end) trace.

(** One list is the beginning of another. *)
Definition prefix_of (l full : list Z) : Prop := exists rest, full = l ++ rest.

(** ** The progress bar

    The bar is drawn with the progress value as its width in percent.
    While a timer runs, the value is at most the cap of the timer. *)
Definition percent_invariant (s : App.State) : Prop :=
  (0 <= App.progress s)%Q /\ (App.progress s <= 100)%Q /\
  forall capAt, App.timer s = Some capAt ->
                (App.progress s <= capAt)%Q /\ (capAt <= 100)%Q.

(** ** The slide viewer: [PresentationView.tsx] *)

Module PresentationView.

(** The component state.  [images] is the record of the data URLs loaded
    so far, keyed by the index of the slide. *)
Record View := {
  currentSlideIndex : Z;
  showNotes : bool;
  images : gmap Z jsstring;
  loadingImage : bool
}.

Definition set_currentSlideIndex (x : Z) (v : View) : View :=
  {| currentSlideIndex := x; showNotes := showNotes v; images := images v;
     loadingImage := loadingImage v |}.

Definition set_showNotes (x : bool) (v : View) : View :=
  {| currentSlideIndex := currentSlideIndex v; showNotes := x;
     images := images v; loadingImage := loadingImage v |}.

Definition set_images (x : gmap Z jsstring) (v : View) : View :=
  {| currentSlideIndex := currentSlideIndex v; showNotes := showNotes v;
     images := x; loadingImage := loadingImage v |}.

Definition set_loadingImage (x : bool) (v : View) : View :=
  {| currentSlideIndex := currentSlideIndex v; showNotes := showNotes v;
     images := images v; loadingImage := x |}.

Definition initial : View :=
  {| currentSlideIndex := 0; showNotes := true; images := ∅;
     loadingImage := false |}.

(** [x === 0]. *)
Definition is_zero (x : JSValue) : bool :=
  match x with
  | JNum (Finite m _) => (m =? 0)%Z
  | _ => false
  end.

(** The safety check at the head of the component:
    [!data || !data.slides || data.slides.length === 0]. *)
Definition no_slides (data : JSValue) : result bool :=
  if negb (truthy data) then Ok true
  else
    let? slides := Get data "slides" in
    if negb (truthy slides) then Ok true
    else let? n := Get slides "length" in Ok (is_zero n).

(** [data.slides[currentSlideIndex]] for an array of slides. *)
Definition currentSlide (slides : list JSValue) (v : View) : JSValue :=
  if (currentSlideIndex v <? 0)%Z then JUndefined
  else nth (Z.to_nat (currentSlideIndex v)) slides JUndefined.

(** The two handlers of a render that showed slide [shown] out of
    [totalSlides]; the update they queue is a function of the state at
    the time it is applied ([p => p + 1]). *)
Definition nextSlide (shown totalSlides : Z) (v : View) : View :=
  if (shown <? totalSlides - 1)%Z
  then set_currentSlideIndex (currentSlideIndex v + 1) v else v.

Definition prevSlide (shown : Z) (v : View) : View :=
  if (shown >? 0)%Z
  then set_currentSlideIndex (currentSlideIndex v - 1) v else v.

(** What the user can click in the viewer. *)
Inductive Click := ClickNext | ClickPrev | ClickNotes.

(** A click runs the handler of the latest render: the component is
    rendered again after the state update of a click, before the next
    click is handled. *)
Definition click (totalSlides : Z) (c : Click) (v : View) : View :=
  match c with
  | ClickNext => nextSlide (currentSlideIndex v) totalSlides v
  | ClickPrev => prevSlide (currentSlideIndex v) v
  | ClickNotes => set_showNotes (negb (showNotes v)) v
  end.

Definition clicks (totalSlides : Z) (cs : list Click) (v : View) : View :=
  fold_left (fun v c => click totalSlides c v) cs v.

(** [currentSlideIndex % 4], the index into the four icons. *)
Definition icon_index (v : View) : Z := Z.rem (currentSlideIndex v) 4.

(** [images[currentSlideIndex]], as a condition. *)
Definition has_image (v : View) : bool :=
  match images v !! currentSlideIndex v with
  | Some img => truthy (JStr img)
  | None => false
  end.

(** [loadVisual], the effect that loads the background of the current
    slide: the requests it issues and the state when it is done, or the
    value its promise is rejected with.  [generateSlideImage] issues its
    one request first thing. *)
Definition loadVisual (ai : Service) (slide : JSValue) (v : View)
  : list Request * result View :=
  if has_image v then ([], Ok v)
  else
    match Get slide "visualPrompt" with
    | Throw e => ([], Throw e)
    | Ok visualPrompt =>
        if truthy visualPrompt then
          let v := set_loadingImage true v in
          let prompt := ToString visualPrompt in
          let v :=
            match generateSlideImage ai prompt with
            | Ok (Some imgData) =>
                if truthy (JStr imgData)
                then set_images (<[currentSlideIndex v := imgData]> (images v)) v
                else v
            | Ok None => v
            | Throw _ => v
            end in
          ([imageRequest prompt], Ok (set_loadingImage false v))
        else ([], Ok v)
    end.

(** *** A bullet point *)

(** [s.includes(c)], [s.indexOf(c)] and [s.split(c)] for a separator of
    one code unit, and [s.substring(start)]. *)
Definition includes (c : N) (s : jsstring) : bool := existsb (N.eqb c) s.

Fixpoint indexOf (c : N) (s : jsstring) : Z :=
  match s with
  | [] => -1
  | x :: r =>
      if x =? c then 0%Z
      else let i := indexOf c r in if (i <? 0)%Z then (-1)%Z else (i + 1)%Z
  end.

Fixpoint split (c : N) (s : jsstring) : list jsstring :=
  match s with
  | [] => [[]]
  | x :: r =>
      if x =? c then [] :: split c r
      else match split c r with
           | piece :: pieces => (x :: piece) :: pieces
           | [] => [[x]]
           end
  end.

Definition substring (s : jsstring) (start : Z) : jsstring :=
  skipn (Z.to_nat (Z.max 0 start)) s.

(** What is rendered for a bullet point: with a label in front of the
    first colon, or as it is. *)
Record Bullet := {
  hasLabel : bool;
  label : jsstring;
  content : jsstring
}.

Definition bullet (point : jsstring) : Bullet :=
  let hasLabel := includes (chr ":") point in
  {| hasLabel := hasLabel;
     label := if hasLabel then nth 0 (split (chr ":") point) [] else [];
     content :=
       if hasLabel then substring point (indexOf (chr ":") point + 1)
       else point |}.

(** The text of the paragraph: the label and a colon in one span and the
    content in the next, or the point. *)
Definition bullet_text (point : jsstring) : jsstring :=
  let b := bullet point in
  if hasLabel b then label b ++ str ":" ++ content b else point.

End PresentationView.

(** ** The graph component: highlighting on hover *)

Module Hover.

(** The two endpoint ids of the datum bound to a line element, read as
    the hover effect reads them: after the simulation has run, [source]
    and [target] are node objects. *)
Definition endpoints (d : JSValue) : result (jsstring * jsstring) :=
  let? s := Get d "source" in
  let? sId := ForceGraph.endpoint_id s in
  let? t := Get d "target" in
  let? tId := ForceGraph.endpoint_id t in
  Ok (sId, tId).

(** What the effect collects for a hovered node: the ids that stay
    visible and, for each line element in turn, whether its link is in
    the set of connected links. *)
Record Highlight := {
  neighborIds : gset jsstring;
  connectedLinks : list bool
}.

(** The callback of [links.each]. *)
Definition visit (hovered : jsstring) (acc : Highlight) (d : JSValue)
  : result Highlight :=
  let? ids := endpoints d in
  let '(sId, tId) := ids in
  if jsstring_eqb sId hovered then
    Ok {| neighborIds := {[tId]} ∪ neighborIds acc;
          connectedLinks := connectedLinks acc ++ [true] |}
  else if jsstring_eqb tId hovered then
    Ok {| neighborIds := {[sId]} ∪ neighborIds acc;
          connectedLinks := connectedLinks acc ++ [true] |}
  else
    Ok {| neighborIds := neighborIds acc;
          connectedLinks := connectedLinks acc ++ [false] |}.

Fixpoint each (hovered : jsstring) (links : list JSValue) (acc : Highlight)
  : result Highlight :=
  match links with
  | [] => Ok acc
  | d :: more => let? acc := visit hovered acc d in each hovered more acc
  end.

(** The hover effect for a hovered node and the data bound to the line
    elements. *)
Definition highlight (hoveredNode : JSValue) (links : list JSValue)
  : result Highlight :=
  let? h := ForceGraph.node_id hoveredNode in
  each h links {| neighborIds := {[h]}; connectedLinks := [] |}.

(** The opacity given to the circle and to the label of a node, and to
    a line. *)
Definition node_opacity (hl : Highlight) (d : JSValue) : result Q :=
  let? i := ForceGraph.node_id d in
  Ok (if bool_decide (i ∈ neighborIds hl) then 1%Q else (1 # 10)%Q).

Definition link_opacity (connected : bool) : Q :=
  if connected then 1%Q else (5 # 100)%Q.

End Hover.

(** ** More stand-ins for the service *)

Module Fixtures.

(** A model that answers the graph request with an object that has no
    graph. *)
Definition no_graph_model : Service := fun req =>
  match responseSchema req with
  | Some VideosSchema =>
      Mock.response (qstr "{'videos': [{'title': 'T1', 'summary': 'S1'}]}")
  | Some GraphSchema => Mock.response (qstr "{'summary': 'nothing found'}")
  | _ => Mock.response (str "Channel X. Five videos.")
  end.

(** A model that writes slides with fields missing. *)
Definition terse_slides_model : Service := fun _ =>
  Mock.response (qstr "{'slides': [{'title': 'The Myth of X'}, {'bulletPoints': 'none', 'rebuttal': ''}]}").

End Fixtures.
(* ================================================================== *)
(** * Properties *)
(* ================================================================== *)

(** ** Code-unit classes and prefixes *)

Section Classes.
Variable p : N -> bool.

Lemma take_drop_while (s : jsstring) :
  take_while p s ++ drop_while p s = s.
Proof.
  induction s as [|c r IH]; simpl; [reflexivity|].
  destruct (p c); simpl; [now rewrite IH | reflexivity].
Qed.

Lemma take_while_all (s : jsstring) : forallb p (take_while p s) = true.
Proof.
  induction s as [|c r IH]; simpl; [reflexivity|].
  destruct (p c) eqn:E; simpl; [now rewrite E | reflexivity].
Qed.

Lemma take_while_app_all (w s : jsstring) :
  forallb p w = true -> take_while p (w ++ s) = w ++ take_while p s.
Proof.
  induction w as [|c r IH]; simpl; [reflexivity|].
  intros H. apply andb_prop in H as [Hc Hr]. rewrite Hc. now rewrite IH.
Qed.

Lemma drop_while_app_all (w s : jsstring) :
  forallb p w = true -> drop_while p (w ++ s) = drop_while p s.
Proof.
  induction w as [|c r IH]; simpl; [reflexivity|].
  intros H. apply andb_prop in H as [Hc Hr]. rewrite Hc. now apply IH.
Qed.

Lemma take_while_stop (c : N) (s : jsstring) :
  p c = false -> take_while p (c :: s) = [].
Proof. intros H. simpl. now rewrite H. Qed.

Lemma drop_while_stop (c : N) (s : jsstring) :
  p c = false -> drop_while p (c :: s) = c :: s.
Proof. intros H. simpl. now rewrite H. Qed.

Lemma drop_while_all_nil (w : jsstring) :
  forallb p w = true -> drop_while p w = [].
Proof.
  intros H. rewrite <- (app_nil_r w). rewrite drop_while_app_all by exact H.
  reflexivity.
Qed.

Lemma take_while_all_id (w : jsstring) :
  forallb p w = true -> take_while p w = w.
Proof.
  intros H. rewrite <- (app_nil_r w) at 1.
  rewrite take_while_app_all by exact H. simpl. apply app_nil_r.
Qed.

(** A class prefix followed by a barrier that is outside the class. *)
Lemma drop_while_barrier (a : jsstring) (b : N) (s : jsstring) :
  p b = false ->
  drop_while p (a ++ b :: s) =
    if forallb p a then b :: s else drop_while p a ++ b :: s.
Proof.
  intros Hb. induction a as [|c r IH]; simpl.
  - now rewrite Hb.
  - destruct (p c); simpl; [exact IH | reflexivity].
Qed.

Lemma take_while_barrier (a : jsstring) (b : N) (s : jsstring) :
  p b = false -> take_while p (a ++ b :: s) = take_while p a.
Proof.
  intros Hb. induction a as [|c r IH]; simpl.
  - now rewrite Hb.
  - destruct (p c); simpl; [now rewrite IH | reflexivity].
Qed.
End Classes.

(** ** Global replacement *)

Section Replace.
Variable m : matcher.
Variable repl : jsstring.

Lemma replace_from_skipn (k : nat) (s : jsstring) :
  replace_from m repl k s = replace_all m repl (skipn k s).
Proof.
  revert k. induction s as [|c r IH]; intros [|k]; simpl; try reflexivity.
  apply IH.
Qed.

Lemma replace_all_cons (c : N) (r : jsstring) :
  replace_all m repl (c :: r) =
    match m (c :: r) with
    | Some (S k) => repl ++ replace_all m repl (skipn k r)
    | _ => c :: replace_all m repl r
    end.
Proof.
  unfold replace_all at 1. simpl.
  destruct (m (c :: r)) as [[|k]|]; try reflexivity.
  now rewrite replace_from_skipn.
Qed.

Lemma replace_all_nil : replace_all m repl [] = [].
Proof. reflexivity. Qed.

Lemma replace_all_hit (s : jsstring) (n : nat) :
  m s = Some n -> n <> O -> s <> [] ->
  replace_all m repl s = repl ++ replace_all m repl (skipn n s).
Proof.
  intros Hm Hn Hs. destruct s as [|c r]; [congruence|].
  destruct n as [|k]; [congruence|].
  unfold replace_all at 1. simpl. rewrite Hm. now rewrite replace_from_skipn.
Qed.

Lemma replace_all_miss (c : N) (r : jsstring) :
  m (c :: r) = None ->
  replace_all m repl (c :: r) = c :: replace_all m repl r.
Proof. intros Hm. unfold replace_all. simpl. now rewrite Hm. Qed.

(** Replacement distributes over a concatenation whose right part is a
    barrier for the pattern. *)
Lemma replace_from_barrier (rest : jsstring) :
  barrier m rest ->
  forall a k, (k <= length a)%nat ->
    replace_from m repl k (a ++ rest) =
      replace_from m repl k a ++ replace_all m repl rest.
Proof.
  intros Hb. induction a as [|c a IH]; intros k Hk.
  - simpl in Hk. assert (k = O) by lia. subst k. reflexivity.
  - destruct k as [|k].
    + change (replace_from m repl 0 ((c :: a) ++ rest))
        with (match m ((c :: a) ++ rest) with
              | Some (S k) => repl ++ replace_from m repl k (a ++ rest)
              | _ => c :: replace_from m repl 0 (a ++ rest)
              end).
      change (replace_from m repl 0 (c :: a))
        with (match m (c :: a) with
              | Some (S k) => repl ++ replace_from m repl k a
              | _ => c :: replace_from m repl 0 a
              end).
      destruct (Hb c a) as [Heq Hlen]. rewrite Heq.
      destruct (m (c :: a)) as [[|k]|] eqn:E.
      * simpl. f_equal. apply IH. lia.
      * specialize (Hlen _ eq_refl). rewrite IH by lia.
        now rewrite app_assoc.
      * simpl. f_equal. apply IH. lia.
    + simpl. apply IH. simpl in Hk. lia.
Qed.

Lemma replace_all_barrier (a rest : jsstring) :
  barrier m rest ->
  replace_all m repl (a ++ rest) = replace_all m repl a ++ replace_all m repl rest.
Proof. intros Hb. apply replace_from_barrier; [exact Hb | lia]. Qed.

End Replace.

(** ** The two patterns of the sanitizer *)

Lemma is_ws_comma : is_ws (chr ",") = false.
Proof. reflexivity. Qed.

Lemma is_ws_colon : is_ws (chr ":") = false.
Proof. reflexivity. Qed.

Lemma is_digit_colon : is_digit (chr ":") = false.
Proof. reflexivity. Qed.

Lemma is_digit_not_ws (c : N) : is_digit c = true -> is_ws c = false.
Proof.
  unfold is_digit, is_ws. intros H. apply andb_prop in H as [H1 H2].
  apply N.leb_le in H1, H2.
  repeat rewrite orb_false_iff. repeat split;
    try (apply N.eqb_neq; lia).
  apply andb_false_iff. left. apply N.leb_gt. lia.
Qed.

Lemma length_take_while_le (p : N -> bool) (s : jsstring) :
  (length (take_while p s) <= length s)%nat.
Proof.
  induction s as [|c r IH]; simpl; [lia|]. destruct (p c); simpl; lia.
Qed.

Lemma length_take_drop_while (p : N -> bool) (s : jsstring) :
  (length (take_while p s) + length (drop_while p s) = length s)%nat.
Proof. rewrite <- (take_drop_while p s) at 3. now rewrite length_app. Qed.

Lemma skipn_past (w : jsstring) (k : nat) (s : jsstring) :
  skipn (length w + k) (w ++ s) = skipn k s.
Proof. induction w as [|c r IH]; simpl; [reflexivity | exact IH]. Qed.

(** A comma is a barrier for [/,\s*X/]. *)
Lemma comma_barrier (closer : N) (rest : jsstring) :
  closer <> chr "," ->
  barrier (match_comma_before closer) (chr "," :: rest).
Proof.
  intros Hc c a. unfold match_comma_before. rewrite <- app_comm_cons.
  destruct (c =? chr ",") eqn:Ec; [|split; [reflexivity | discriminate]].
  rewrite (take_while_barrier is_ws a _ rest is_ws_comma).
  rewrite (drop_while_barrier is_ws a _ rest is_ws_comma).
  destruct (forallb is_ws a) eqn:Ea.
  - rewrite (drop_while_all_nil is_ws a Ea).
    assert ((chr "," =? closer) = false) as -> by (apply N.eqb_neq; congruence).
    split; [reflexivity | discriminate].
  - pose proof (length_take_drop_while is_ws a) as Hl.
    destruct (drop_while is_ws a) as [|d r] eqn:Ed; simpl.
    + exfalso. pose proof (take_drop_while is_ws a) as Htd. rewrite Ed in Htd.
      rewrite app_nil_r in Htd. pose proof (take_while_all is_ws a) as Hall.
      rewrite Htd in Hall. congruence.
    + split; [reflexivity|]. intros n. destruct (d =? closer); [|discriminate].
      intros [= <-]. simpl in Hl. lia.
Qed.

(** Every comma that is followed, up to white space, by the closing
    character is deleted together with that white space, wherever it
    stands. *)
Lemma strip_commas_deletes (closer : N) (a w b : jsstring) :
  closer <> chr "," -> is_ws closer = false -> forallb is_ws w = true ->
  strip_commas closer (a ++ chr "," :: w ++ closer :: b) =
    strip_commas closer a ++ closer :: strip_commas closer b.
Proof.
  intros Hc Hw Hall. unfold strip_commas.
  rewrite replace_all_barrier by now apply comma_barrier.
  f_equal.
  rewrite (replace_all_hit _ _ _ (1 + length w + 1)%nat); [| |lia|discriminate].
  - simpl. f_equal. f_equal. now rewrite skipn_past.
  - unfold match_comma_before. rewrite N.eqb_refl.
    rewrite take_while_app_all, drop_while_app_all by exact Hall.
    rewrite take_while_stop, drop_while_stop by exact Hw.
    rewrite N.eqb_refl, app_nil_r. reflexivity.
Qed.

(** A colon is a barrier for [/:\s*(\d{10,})/]. *)
Lemma colon_barrier (rest : jsstring) :
  barrier match_big_number (chr ":" :: rest).
Proof.
  intros c a. unfold match_big_number. rewrite <- app_comm_cons.
  destruct (c =? chr ":") eqn:Ec; [|split; [reflexivity | discriminate]].
  rewrite (take_while_barrier is_ws a _ rest is_ws_colon).
  rewrite (drop_while_barrier is_ws a _ rest is_ws_colon).
  pose proof (length_take_drop_while is_ws a) as Hl.
  pose proof (length_take_while_le is_digit (drop_while is_ws a)) as Hd.
  destruct (forallb is_ws a) eqn:Ea.
  - rewrite (drop_while_all_nil is_ws a Ea).
    rewrite (take_while_stop is_digit _ rest is_digit_colon). simpl.
    split; [reflexivity | discriminate].
  - rewrite (take_while_barrier is_digit _ _ rest is_digit_colon).
    split; [reflexivity|]. intros n.
    destruct (10 <=? length (take_while is_digit (drop_while is_ws a)))%nat;
      [|discriminate].
    intros [= <-]. lia.
Qed.

Lemma match_big_number_at (w ds b : jsstring) :
  forallb is_ws w = true -> forallb is_digit ds = true ->
  (10 <= length ds)%nat -> take_while is_digit b = [] ->
  match_big_number (chr ":" :: w ++ ds ++ b) =
    Some (1 + length w + length ds)%nat.
Proof.
  intros Hw Hd Hlen Hb. unfold match_big_number. rewrite N.eqb_refl.
  assert (drop_while is_ws (ds ++ b) = ds ++ b) as Hdrop.
  { destruct ds as [|d0 ds']; [simpl in Hlen; lia|]. simpl in Hd.
    apply andb_prop in Hd as [Hd0 _]. rewrite <- app_comm_cons.
    apply drop_while_stop. now apply is_digit_not_ws. }
  assert (take_while is_ws (ds ++ b) = []) as Htake.
  { pose proof (take_drop_while is_ws (ds ++ b)) as H. rewrite Hdrop in H.
    apply (f_equal (@length N)) in H. rewrite length_app in H.
    destruct (take_while is_ws (ds ++ b)); [reflexivity | simpl in H; lia]. }
  rewrite take_while_app_all, drop_while_app_all by exact Hw.
  rewrite Htake, Hdrop, app_nil_r.
  rewrite take_while_app_all by exact Hd. rewrite Hb, app_nil_r.
  apply Nat.leb_le in Hlen. now rewrite Hlen.
Qed.

(** Every run of ten or more digits that follows a colon, up to white
    space, is replaced together with that white space by [ 10]. *)
Lemma cap_numbers_replaces (a w ds b : jsstring) :
  forallb is_ws w = true -> forallb is_digit ds = true ->
  (10 <= length ds)%nat -> take_while is_digit b = [] ->
  cap_numbers (a ++ chr ":" :: w ++ ds ++ b) =
    cap_numbers a ++ str ": 10" ++ cap_numbers b.
Proof.
  intros Hw Hd Hlen Hb. unfold cap_numbers.
  rewrite replace_all_barrier by apply colon_barrier.
  f_equal.
  rewrite (replace_all_hit _ _ _ (1 + length w + length ds)%nat);
    [| now apply match_big_number_at | lia | discriminate].
  f_equal. simpl. rewrite skipn_past.
  replace (length ds) with (length ds + 0)%nat by lia.
  now rewrite skipn_past.
Qed.

(** The pattern never matches the empty string. *)
Lemma match_big_number_pos (s : jsstring) : match_big_number s <> Some O.
Proof.
  unfold match_big_number. destruct s as [|c r]; [discriminate|].
  destruct (c =? chr ":"); [|discriminate].
  destruct (10 <=? _)%nat; discriminate.
Qed.

Lemma cap_numbers_copy (c : N) (r : jsstring) :
  c <> chr ":" -> cap_numbers (c :: r) = c :: cap_numbers r.
Proof.
  intros Hc. unfold cap_numbers. apply replace_all_miss.
  unfold match_big_number. apply N.eqb_neq in Hc. now rewrite Hc.
Qed.

(** The head of the output is the head of the input or a colon. *)
Lemma cap_numbers_head (c : N) (r : jsstring) :
  exists t, cap_numbers (c :: r) = c :: t \/ cap_numbers (c :: r) = chr ":" :: t.
Proof.
  unfold cap_numbers. rewrite replace_all_cons.
  destruct (match_big_number (c :: r)) as [[|k]|].
  - eexists. left. reflexivity.
  - exists (str " 10" ++ replace_all match_big_number (str ": 10") (skipn k r)).
    right. reflexivity.
  - eexists. left. reflexivity.
Qed.

Section CapClass.
Variable p : N -> bool.
Hypothesis p_colon : p (chr ":") = false.

Lemma p_true_not_colon (c : N) : p c = true -> c <> chr ":".
Proof. intros H ->. congruence. Qed.

Lemma take_while_cap (s : jsstring) :
  take_while p (cap_numbers s) = take_while p s.
Proof.
  induction s as [|c r IH]; [reflexivity|].
  destruct (p c) eqn:Ec.
  - rewrite cap_numbers_copy by now apply p_true_not_colon.
    simpl. now rewrite Ec, IH.
  - rewrite (take_while_stop p c r Ec).
    destruct (cap_numbers_head c r) as [t [-> | ->]];
      now apply take_while_stop.
Qed.

Lemma drop_while_cap (s : jsstring) :
  drop_while p (cap_numbers s) = cap_numbers (drop_while p s).
Proof.
  induction s as [|c r IH]; [reflexivity|].
  destruct (p c) eqn:Ec.
  - rewrite cap_numbers_copy by now apply p_true_not_colon.
    simpl. now rewrite Ec, IH.
  - rewrite (drop_while_stop p c r Ec).
    destruct (cap_numbers_head c r) as [t [E | E]]; rewrite E;
      now apply drop_while_stop.
Qed.
End CapClass.

Lemma skipn_take_while (p : N -> bool) (s : jsstring) :
  skipn (length (take_while p s)) s = drop_while p s.
Proof.
  induction s as [|c r IH]; simpl; [reflexivity|].
  destruct (p c); simpl; [exact IH | reflexivity].
Qed.

Lemma take_while_drop_while (p : N -> bool) (s : jsstring) :
  take_while p (drop_while p s) = [].
Proof.
  induction s as [|c r IH]; simpl; [reflexivity|].
  destruct (p c) eqn:E; [exact IH | simpl; now rewrite E].
Qed.

(** Whether the pattern matches at a colon is decided by the white space
    and the digits that follow, which the replacement copies unchanged. *)
Lemma match_big_number_cap (r : jsstring) :
  match_big_number (chr ":" :: r) = None ->
  match_big_number (chr ":" :: cap_numbers r) = None.
Proof.
  unfold match_big_number. rewrite N.eqb_refl.
  rewrite (drop_while_cap is_ws is_ws_colon).
  rewrite (take_while_cap is_digit is_digit_colon).
  destruct (10 <=? _)%nat; [discriminate | reflexivity].
Qed.

(** After the pass no position of the text matches the pattern any more:
    no colon is followed, up to white space, by ten or more digits. *)
Lemma cap_numbers_clean (s : jsstring) :
  forall a r, cap_numbers s = a ++ r -> match_big_number r = None.
Proof.
  remember (length s) as n eqn:Hn. revert s Hn.
  induction n as [n IH] using lt_wf_ind. intros s Hn a r Heq.
  destruct s as [|c s'].
  - destruct a; [|discriminate]. simpl in Heq. now subst r.
  - unfold cap_numbers in Heq. rewrite replace_all_cons in Heq.
    destruct (match_big_number (c :: s')) as [[|k]|] eqn:Em.
    + now apply match_big_number_pos in Em.
    + fold (cap_numbers (skipn k s')) in Heq.
      assert (take_while is_digit (cap_numbers (skipn k s')) = []) as Hstop.
      { rewrite (take_while_cap is_digit is_digit_colon).
        unfold match_big_number in Em.
        destruct (c =? chr ":"); [|discriminate].
        destruct (10 <=? _)%nat; [|discriminate].
        injection Em as <-.
        rewrite Nat.add_comm, <- skipn_skipn, !skipn_take_while.
        apply take_while_drop_while. }
      destruct a as [|a0 [|a1 [|a2 [|a3 a']]]]; simpl in Heq.
      * subst r. unfold match_big_number. simpl.
        rewrite Hstop. reflexivity.
      * injection Heq as _ <-. reflexivity.
      * injection Heq as _ _ <-. reflexivity.
      * injection Heq as _ _ _ <-. reflexivity.
      * injection Heq as _ _ _ _ Heq.
        eapply (IH (length (skipn k s'))); [|reflexivity|exact Heq].
        subst n. rewrite length_skipn. simpl. lia.
    + fold (cap_numbers s') in Heq.
      destruct a as [|a0 a']; simpl in Heq.
      * subst r. destruct (N.eq_dec c (chr ":")) as [->|Hc].
        -- now apply match_big_number_cap.
        -- unfold match_big_number. apply N.eqb_neq in Hc. now rewrite Hc.
      * injection Heq as _ Heq.
        eapply (IH (length s')); [|reflexivity|exact Heq].
        subst n. simpl. lia.
Qed.

(** ** Fence removal *)

Lemma startsWith_app (p s : jsstring) : startsWith p (p ++ s) = true.
Proof.
  induction p as [|c r IH]; simpl; [reflexivity|].
  now rewrite N.eqb_refl, IH.
Qed.

Lemma endsWith_app (p s : jsstring) : endsWith p (s ++ p) = true.
Proof. unfold endsWith. rewrite rev_app_distr. apply startsWith_app. Qed.

Lemma trimEnd_app_ws (s w : jsstring) :
  all_ws w -> trimEnd (s ++ w) = trimEnd s.
Proof.
  intros Hw. unfold trimEnd. rewrite rev_app_distr.
  rewrite drop_while_app_all; [reflexivity|].
  unfold all_ws in Hw. rewrite forallb_forall in *. intros x Hx.
  apply Hw. now apply in_rev.
Qed.

Lemma trimEnd_fixed (s : jsstring) :
  drop_while is_ws (rev s) = rev s -> trimEnd s = s.
Proof. intros H. unfold trimEnd. rewrite H. apply rev_involutive. Qed.

Lemma fence_no_ws (s : jsstring) : drop_while is_ws (fence ++ s) = fence ++ s.
Proof. reflexivity. Qed.

Lemma fence_json_no_ws (s : jsstring) :
  drop_while is_ws (fence_json ++ s) = fence_json ++ s.
Proof. reflexivity. Qed.

Lemma rev_fence_no_ws (s : jsstring) :
  drop_while is_ws (rev (s ++ fence)) = rev (s ++ fence).
Proof. rewrite rev_app_distr. reflexivity. Qed.

(** What is left between an opening fence and the closing fence. *)
Lemma strip_fences (opener w1 body w2 : jsstring) :
  all_ws w1 -> all_ws w2 -> no_ws_at_ends body ->
  strip_trailing fence
    (strip_leading opener (opener ++ w1 ++ body ++ w2 ++ fence)) = body.
Proof.
  intros H1 H2 [Hs He]. unfold strip_leading. rewrite startsWith_app.
  replace (length opener) with (length opener + 0)%nat by lia.
  rewrite skipn_past, skipn_O.
  rewrite drop_while_app_all by exact H1.
  destruct body as [|c r].
  { simpl app. rewrite drop_while_app_all by exact H2. reflexivity. }
  assert (drop_while is_ws ((c :: r) ++ w2 ++ fence) = (c :: r) ++ w2 ++ fence)
    as ->.
  { simpl in Hs |- *. destruct (is_ws c); [|reflexivity].
    exfalso. pose proof (length_take_drop_while is_ws r) as Hl.
    rewrite Hs in Hl. simpl in Hl. lia. }
  unfold strip_trailing.
  rewrite !app_assoc. rewrite endsWith_app.
  rewrite length_app, Nat.add_sub, firstn_app, Nat.sub_diag, firstn_all.
  simpl firstn. rewrite app_nil_r.
  rewrite trimEnd_app_ws by exact H2. now apply trimEnd_fixed.
Qed.

Lemma trim_between (pre x post : jsstring) :
  all_ws pre -> all_ws post -> no_ws_at_ends x ->
  trim (pre ++ x ++ post) = x.
Proof.
  intros H1 H2 [Hs He]. unfold trim, trimStart.
  rewrite drop_while_app_all by exact H1.
  destruct x as [|c r].
  - simpl. unfold all_ws in H2. rewrite (drop_while_all_nil _ _ H2). reflexivity.
  - assert (drop_while is_ws ((c :: r) ++ post) = (c :: r) ++ post) as ->.
    { simpl in Hs |- *. destruct (is_ws c); [|reflexivity].
      exfalso. pose proof (length_take_drop_while is_ws r) as Hl.
      rewrite Hs in Hl. simpl in Hl. lia. }
    rewrite trimEnd_app_ws by exact H2. now apply trimEnd_fixed.
Qed.

Lemma fenced_no_ws_at_ends (opener s : jsstring) :
  opener = fence_json \/ opener = fence ->
  no_ws_at_ends (opener ++ s ++ fence).
Proof.
  intros Ho. split.
  - destruct Ho as [-> | ->]; reflexivity.
  - rewrite app_assoc. apply rev_fence_no_ws.
Qed.

Lemma startsWith_app_l (p q s : jsstring) :
  startsWith (p ++ q) s = true -> startsWith p s = true.
Proof.
  revert s. induction p as [|c r IH]; intros s; [reflexivity|].
  destruct s as [|d s']; simpl; [discriminate|].
  intros H. apply andb_prop in H as [H1 H2]. rewrite H1. now apply IH.
Qed.

Lemma cleanJson_unfenced (text : jsstring) :
  startsWith fence (trim text) = false ->
  cleanJson text = sanitize (trim text).
Proof.
  intros H. unfold cleanJson. rewrite H.
  destruct (startsWith fence_json (trim text)) eqn:E; [|reflexivity].
  apply (startsWith_app_l fence (str "json")) in E. congruence.
Qed.

Lemma cleanJson_fenced (opener pre w1 body w2 post : jsstring) :
  opener = fence_json \/
    (opener = fence /\
     startsWith fence_json (fence ++ w1 ++ body ++ w2 ++ fence) = false) ->
  all_ws pre -> all_ws w1 -> all_ws w2 -> all_ws post ->
  no_ws_at_ends body ->
  cleanJson (pre ++ (opener ++ w1 ++ body ++ w2 ++ fence) ++ post) =
    sanitize body.
Proof.
  intros Ho Hpre H1 H2 Hpost Hb. unfold cleanJson.
  rewrite trim_between; [|exact Hpre|exact Hpost|].
  2:{ replace (opener ++ w1 ++ body ++ w2 ++ fence)
        with (opener ++ (w1 ++ body ++ w2) ++ fence)
        by now rewrite <- !app_assoc.
      apply fenced_no_ws_at_ends. tauto. }
  destruct Ho as [-> | [-> Hj]].
  - rewrite startsWith_app. now rewrite strip_fences.
  - rewrite Hj, startsWith_app. now rewrite strip_fences.
Qed.

(** ** The three replacements together *)

(** Any code unit that is neither white space nor the closing character
    stops a match of [/,\s*X/] that started before it. *)
Lemma comma_pattern_barrier (closer x : N) (rest : jsstring) :
  is_ws x = false -> x <> closer ->
  barrier (match_comma_before closer) (x :: rest).
Proof.
  intros Hx Hc c a. unfold match_comma_before. rewrite <- app_comm_cons.
  destruct (c =? chr ",") eqn:Ec; [|split; [reflexivity | discriminate]].
  rewrite (take_while_barrier is_ws a _ rest Hx).
  rewrite (drop_while_barrier is_ws a _ rest Hx).
  destruct (forallb is_ws a) eqn:Ea.
  - rewrite (drop_while_all_nil is_ws a Ea).
    assert ((x =? closer) = false) as -> by now apply N.eqb_neq.
    split; [reflexivity | discriminate].
  - pose proof (length_take_drop_while is_ws a) as Hl.
    destruct (drop_while is_ws a) as [|d r] eqn:Ed; simpl.
    + exfalso. pose proof (take_drop_while is_ws a) as Htd. rewrite Ed in Htd.
      rewrite app_nil_r in Htd. pose proof (take_while_all is_ws a) as Hall.
      rewrite Htd in Hall. congruence.
    + split; [reflexivity|]. intros n. destruct (d =? closer); [|discriminate].
      intros [= <-]. simpl in Hl. lia.
Qed.

(** Any code unit that is neither white space nor a digit stops a match
    of the number pattern that started before it. *)
Lemma number_pattern_barrier (x : N) (rest : jsstring) :
  is_ws x = false -> is_digit x = false ->
  barrier match_big_number (x :: rest).
Proof.
  intros Hw Hd c a. unfold match_big_number. rewrite <- app_comm_cons.
  destruct (c =? chr ":") eqn:Ec; [|split; [reflexivity | discriminate]].
  rewrite (take_while_barrier is_ws a _ rest Hw).
  rewrite (drop_while_barrier is_ws a _ rest Hw).
  pose proof (length_take_drop_while is_ws a) as Hl.
  pose proof (length_take_while_le is_digit (drop_while is_ws a)) as Hlen.
  destruct (forallb is_ws a) eqn:Ea.
  - rewrite (drop_while_all_nil is_ws a Ea).
    rewrite (take_while_stop is_digit _ rest Hd). simpl.
    split; [reflexivity | discriminate].
  - rewrite (take_while_barrier is_digit _ _ rest Hd).
    split; [reflexivity|]. intros n.
    destruct (10 <=? length (take_while is_digit (drop_while is_ws a)))%nat;
      [|discriminate].
    intros [= <-]. lia.
Qed.

Lemma strip_commas_copy (closer c : N) (r : jsstring) :
  c <> chr "," -> strip_commas closer (c :: r) = c :: strip_commas closer r.
Proof.
  intros Hc. unfold strip_commas. apply replace_all_miss.
  unfold match_comma_before. apply N.eqb_neq in Hc. now rewrite Hc.
Qed.

Lemma strip_commas_copy_all (closer : N) (w r : jsstring) :
  Forall (fun c => c <> chr ",") w ->
  strip_commas closer (w ++ r) = w ++ strip_commas closer r.
Proof.
  induction 1 as [|c w Hc _ IH]; [reflexivity|].
  simpl. rewrite strip_commas_copy by exact Hc. now rewrite IH.
Qed.

Lemma cap_numbers_copy_all (w r : jsstring) :
  Forall (fun c => c <> chr ":") w ->
  cap_numbers (w ++ r) = w ++ cap_numbers r.
Proof.
  induction 1 as [|c w Hc _ IH]; [reflexivity|].
  simpl. rewrite cap_numbers_copy by exact Hc. now rewrite IH.
Qed.

Lemma all_ws_no (x : N) (w : jsstring) :
  is_ws x = false -> all_ws w -> Forall (fun c => c <> x) w.
Proof.
  intros Hx Hw. apply Forall_forall. intros c Hc ->.
  unfold all_ws in Hw. rewrite forallb_forall in Hw.
  apply list_elem_of_In in Hc. specialize (Hw _ Hc). congruence.
Qed.

Lemma all_digits_no (x : N) (ds : jsstring) :
  is_digit x = false -> all_digits ds -> Forall (fun c => c <> x) ds.
Proof.
  intros Hx Hd. apply Forall_forall. intros c Hc ->.
  unfold all_digits in Hd. rewrite forallb_forall in Hd.
  apply list_elem_of_In in Hc. specialize (Hd _ Hc). congruence.
Qed.

(** A code unit that belongs to none of the patterns passes through a
    pass and splits it. *)
Lemma strip_commas_split (closer x : N) (a b : jsstring) :
  is_ws x = false -> x <> closer -> x <> chr "," ->
  strip_commas closer (a ++ x :: b) =
    strip_commas closer a ++ x :: strip_commas closer b.
Proof.
  intros Hw Hc Hx. unfold strip_commas at 1.
  rewrite replace_all_barrier by now apply comma_pattern_barrier.
  fold (strip_commas closer a). fold (strip_commas closer (x :: b)).
  now rewrite strip_commas_copy.
Qed.

Lemma cap_numbers_split (x : N) (a b : jsstring) :
  is_ws x = false -> is_digit x = false -> x <> chr ":" ->
  cap_numbers (a ++ x :: b) = cap_numbers a ++ x :: cap_numbers b.
Proof.
  intros Hw Hd Hx. unfold cap_numbers at 1.
  rewrite replace_all_barrier by now apply number_pattern_barrier.
  fold (cap_numbers a). fold (cap_numbers (x :: b)).
  now rewrite cap_numbers_copy.
Qed.

(** The head of the output of the comma pass is the head of its input or
    the closing character. *)
Lemma strip_commas_head (closer c : N) (r : jsstring) :
  exists t, strip_commas closer (c :: r) = c :: t \/
            strip_commas closer (c :: r) = closer :: t.
Proof.
  unfold strip_commas. rewrite replace_all_cons.
  destruct (match_comma_before closer (c :: r)) as [[|k]|].
  - eexists. left. reflexivity.
  - eexists. right. reflexivity.
  - eexists. left. reflexivity.
Qed.

Lemma strip_commas_no_digit_head (closer : N) (s : jsstring) :
  is_digit closer = false ->
  take_while is_digit s = [] ->
  take_while is_digit (strip_commas closer s) = [].
Proof.
  intros Hc Hs. destruct s as [|c r]; [reflexivity|].
  assert (is_digit c = false) as Hd.
  { simpl in Hs. destruct (is_digit c); [discriminate | reflexivity]. }
  destruct (strip_commas_head closer c r) as [t [-> | ->]];
    now apply take_while_stop.
Qed.

Lemma sanitize_comma_brace (a w b : jsstring) :
  all_ws w ->
  sanitize (a ++ chr "," :: w ++ chr "}" :: b) =
    sanitize a ++ chr "}" :: sanitize b.
Proof.
  intros Hw. unfold sanitize.
  rewrite strip_commas_deletes; [|discriminate|reflexivity|exact Hw].
  rewrite strip_commas_split; [|reflexivity|discriminate|discriminate].
  now rewrite cap_numbers_split.
Qed.

Lemma sanitize_comma_bracket (a w b : jsstring) :
  all_ws w ->
  sanitize (a ++ chr "," :: w ++ chr "]" :: b) =
    sanitize a ++ chr "]" :: sanitize b.
Proof.
  intros Hw. unfold sanitize.
  assert (strip_commas (chr "}") (a ++ chr "," :: w ++ chr "]" :: b) =
          strip_commas (chr "}") a ++ chr "," :: w ++ chr "]" :: strip_commas (chr "}") b)
    as ->.
  { unfold strip_commas at 1.
    rewrite replace_all_barrier by (apply comma_pattern_barrier; [reflexivity|discriminate]).
    fold (strip_commas (chr "}") a). f_equal.
    rewrite replace_all_miss.
    - f_equal. fold (strip_commas (chr "}") (w ++ chr "]" :: b)).
      rewrite strip_commas_copy_all by (apply all_ws_no; [reflexivity|exact Hw]).
      reflexivity.
    - unfold match_comma_before. rewrite N.eqb_refl.
      rewrite drop_while_app_all by exact Hw. reflexivity. }
  rewrite strip_commas_deletes; [|discriminate|reflexivity|exact Hw].
  now rewrite cap_numbers_split.
Qed.

Lemma sanitize_big_number (a w ds b : jsstring) :
  all_ws w -> all_digits ds -> (10 <= length ds)%nat ->
  take_while is_digit b = [] ->
  sanitize (a ++ chr ":" :: w ++ ds ++ b) =
    sanitize a ++ str ": 10" ++ sanitize b.
Proof.
  intros Hw Hd Hlen Hb. unfold sanitize.
  assert (forall closer, closer = chr "}" \/ closer = chr "]" ->
            forall a b, strip_commas closer (a ++ chr ":" :: w ++ ds ++ b) =
              strip_commas closer a ++ chr ":" :: w ++ ds ++ strip_commas closer b)
    as Hpass.
  { intros closer Hc a' b'.
    rewrite strip_commas_split;
      [|reflexivity|destruct Hc as [-> | ->]; discriminate|discriminate].
    rewrite strip_commas_copy_all by (apply all_ws_no; [reflexivity|exact Hw]).
    now rewrite strip_commas_copy_all by (apply all_digits_no; [reflexivity|exact Hd]). }
  rewrite !Hpass by tauto.
  apply cap_numbers_replaces; try assumption.
  apply strip_commas_no_digit_head; [reflexivity|].
  now apply strip_commas_no_digit_head.
Qed.

Lemma cleanJson_clean (text a r : jsstring) :
  cleanJson text = a ++ r -> match_big_number r = None.
Proof. unfold cleanJson. apply cap_numbers_clean. Qed.

(** ** A fence that is not closed at the end, a signed number *)

Lemma drop_while_fixed_app (p : N -> bool) (x y : jsstring) :
  drop_while p x = x -> x <> [] -> drop_while p (x ++ y) = x ++ y.
Proof.
  destruct x as [|c r]; [congruence|]. intros H _. simpl in H |- *.
  destruct (p c); [|reflexivity].
  exfalso. pose proof (length_take_drop_while p r) as Hl.
  rewrite H in Hl. simpl in Hl. lia.
Qed.

Lemma all_ws_app (a b : jsstring) : all_ws a -> all_ws b -> all_ws (a ++ b).
Proof. unfold all_ws. intros Ha Hb. now rewrite forallb_app, Ha, Hb. Qed.

(** Only the opening fence is removed when the text does not end with a
    closing fence. *)
Lemma cleanJson_open_fence (opener pre w1 rest post : jsstring) :
  opener = fence_json \/
    (opener = fence /\ startsWith fence_json (fence ++ w1 ++ rest) = false) ->
  all_ws pre -> all_ws w1 -> all_ws post ->
  no_ws_at_ends rest -> endsWith fence rest = false ->
  cleanJson (pre ++ (opener ++ w1 ++ rest) ++ post) = sanitize rest.
Proof.
  intros Ho Hpre H1 Hpost [Hs He] Hend. unfold cleanJson.
  destruct rest as [|c r].
  - rewrite app_nil_r, <- app_assoc.
    rewrite trim_between;
      [| exact Hpre | now apply all_ws_app
       | destruct Ho as [-> | [-> _]]; split; reflexivity].
    destruct Ho as [-> | [-> _]]; reflexivity.
  - rewrite trim_between; [|exact Hpre|exact Hpost|].
    2:{ split.
        - destruct Ho as [-> | [-> _]]; reflexivity.
        - rewrite !rev_app_distr, <- app_assoc.
          apply drop_while_fixed_app; [exact He|].
          simpl. now destruct (rev r). }
    assert (strip_trailing fence
              (strip_leading opener (opener ++ w1 ++ c :: r)) = c :: r) as E.
    { unfold strip_leading. rewrite startsWith_app.
      replace (length opener) with (length opener + 0)%nat by lia.
      rewrite skipn_past, skipn_O.
      rewrite drop_while_app_all by exact H1. rewrite Hs.
      unfold strip_trailing. now rewrite Hend. }
    destruct Ho as [-> | [-> Hj]].
    + rewrite startsWith_app. now rewrite E.
    + rewrite Hj, startsWith_app. now rewrite E.
Qed.

Lemma cap_numbers_colon_ws (w : jsstring) :
  all_ws w -> cap_numbers (chr ":" :: w) = chr ":" :: w.
Proof.
  intros Hw. unfold cap_numbers. rewrite replace_all_miss.
  - f_equal. fold (cap_numbers w).
    rewrite <- (app_nil_r w) at 1.
    rewrite cap_numbers_copy_all by (apply all_ws_no; [reflexivity | exact Hw]).
    now rewrite app_nil_r.
  - unfold match_big_number. rewrite N.eqb_refl.
    now rewrite (drop_while_all_nil is_ws w Hw).
Qed.

(** A minus sign between the colon and the digits: nothing is replaced
    there. *)
Lemma sanitize_signed (a w b : jsstring) :
  all_ws w ->
  sanitize (a ++ chr ":" :: w ++ chr "-" :: b) =
    sanitize a ++ chr ":" :: w ++ chr "-" :: sanitize b.
Proof.
  intros Hw. unfold sanitize.
  assert (forall closer, closer = chr "}" \/ closer = chr "]" ->
            forall a b, strip_commas closer (a ++ chr ":" :: w ++ chr "-" :: b) =
              strip_commas closer a ++
              chr ":" :: w ++ chr "-" :: strip_commas closer b)
    as Hpass.
  { intros closer Hc a' b'.
    rewrite strip_commas_split;
      [|reflexivity|destruct Hc as [-> | ->]; discriminate|discriminate].
    rewrite strip_commas_copy_all by (apply all_ws_no; [reflexivity|exact Hw]).
    now rewrite strip_commas_copy by discriminate. }
  rewrite !Hpass by tauto.
  set (a' := strip_commas (chr "]") (strip_commas (chr "}") a)).
  set (b' := strip_commas (chr "]") (strip_commas (chr "}") b)).
  replace (a' ++ chr ":" :: w ++ chr "-" :: b')
    with ((a' ++ chr ":" :: w) ++ chr "-" :: b')
    by now rewrite <- app_assoc.
  rewrite cap_numbers_split; [|reflexivity|reflexivity|discriminate].
  unfold cap_numbers at 1.
  rewrite replace_all_barrier by apply colon_barrier.
  fold (cap_numbers a'). fold (cap_numbers (chr ":" :: w)).
  rewrite cap_numbers_colon_ws by exact Hw.
  now rewrite <- app_assoc.
Qed.

(** ** The sanitizer as a whole *)

(** C7, as the specification states it, fails.  A number of eleven
    digits with a sign stays as it is; of a number with a fraction only
    the digits before the point are replaced, so that the literal is not
    replaced by 10; and a closing fence that is followed by more text is
    not removed with the opening fence. *)
Lemma cleanJson_keeps_signed_and_fraction :
  cleanJson (qstr "{'n':-12345678901}") = qstr "{'n':-12345678901}" /\
  cleanJson (qstr "{'n': 12345678901.5}") = qstr "{'n': 10.5}" /\
  cleanJson (qstr "```json
{'n': 1}
```
Done.") = qstr "{'n': 1}
```
Done.".
Proof. repeat split; vm_compute; reflexivity. Qed.

(** C7, amended.  For every input text, [cleanJson] trims the text and
    removes a leading code fence (with or without the [json] tag) with
    the white space after it; the closing fence is removed with the
    white space before it when it ends the text, and is kept otherwise;
    a text without a leading fence is only trimmed.  On what is left it
    runs the three replacements [sanitize].  These delete every comma
    that is followed, up to white space, by a closing brace or a closing
    bracket (with that white space), and replace every colon that is
    followed, up to white space, by a run of ten or more digits, with
    that white space and the whole run, by [: 10], whatever follows the
    run (a fraction or an exponent is kept); a minus sign between the
    colon and the digits prevents the replacement.  No colon followed,
    up to white space, by ten digits is left anywhere in the result. *)
Theorem cleanJson_sanitizes :
  (forall opener pre w1 body w2 post : jsstring,
      opener = fence_json \/
        (opener = fence /\
         startsWith fence_json (fence ++ w1 ++ body ++ w2 ++ fence) = false) ->
      all_ws pre -> all_ws w1 -> all_ws w2 -> all_ws post ->
      no_ws_at_ends body ->
      cleanJson (pre ++ (opener ++ w1 ++ body ++ w2 ++ fence) ++ post) =
        sanitize body) /\
  (forall opener pre w1 rest post : jsstring,
      opener = fence_json \/
        (opener = fence /\
         startsWith fence_json (fence ++ w1 ++ rest) = false) ->
      all_ws pre -> all_ws w1 -> all_ws post ->
      no_ws_at_ends rest -> endsWith fence rest = false ->
      cleanJson (pre ++ (opener ++ w1 ++ rest) ++ post) = sanitize rest) /\
  (forall text : jsstring,
      startsWith fence (trim text) = false ->
      cleanJson text = sanitize (trim text)) /\
  (forall (closer : N) (a w b : jsstring),
      closer = chr "}" \/ closer = chr "]" -> all_ws w ->
      sanitize (a ++ chr "," :: w ++ closer :: b) =
        sanitize a ++ closer :: sanitize b) /\
  (forall a w ds b : jsstring,
      all_ws w -> all_digits ds -> (10 <= length ds)%nat ->
      take_while is_digit b = [] ->
      sanitize (a ++ chr ":" :: w ++ ds ++ b) =
        sanitize a ++ str ": 10" ++ sanitize b) /\
  (forall a w b : jsstring,
      all_ws w ->
      sanitize (a ++ chr ":" :: w ++ chr "-" :: b) =
        sanitize a ++ chr ":" :: w ++ chr "-" :: sanitize b) /\
  (forall text a r : jsstring,
      cleanJson text = a ++ r -> match_big_number r = None).
Proof.
  split; [|split; [|split; [|split; [|split; [|split]]]]].
  - intros. now apply cleanJson_fenced.
  - intros. now apply cleanJson_open_fence.
  - intros. now apply cleanJson_unfenced.
  - intros closer a w b [-> | ->] Hw.
    + now apply sanitize_comma_brace.
    + now apply sanitize_comma_bracket.
  - intros. now apply sanitize_big_number.
  - intros. now apply sanitize_signed.
  - intros. eapply cleanJson_clean. eassumption.
Qed.

(** The theorem at a fenced model answer with a trailing comma before a
    bracket and one before a brace, an overlong number and an overlong
    negative number. *)
Lemma cleanJson_sanitizes_witness :
  cleanJson (qstr "```json
{'a': [1, 2, ], 'm':-12345678901, 'n': 123456789012345, }
```  ") = qstr "{'a': [1, 2], 'm':-12345678901, 'n': 10}".
Proof.
  destruct cleanJson_sanitizes as (Hfence & _ & _ & Hcomma & Hnumber & Hsign & _).
  change (cleanJson
            ([] ++ (fence_json ++ [10] ++
                    qstr "{'a': [1, 2, ], 'm':-12345678901, 'n': 123456789012345, }"
                    ++ [10] ++ fence) ++ str "  ") =
          qstr "{'a': [1, 2], 'm':-12345678901, 'n': 10}").
  rewrite Hfence; [| left; reflexivity | reflexivity | reflexivity
                   | reflexivity | reflexivity | split; reflexivity].
  change (sanitize (qstr "{'a': [1, 2" ++ chr "," :: str " " ++ chr "]"
                    :: qstr ", 'm':-12345678901, 'n': 123456789012345, }") =
          qstr "{'a': [1, 2], 'm':-12345678901, 'n': 10}").
  rewrite Hcomma; [| right; reflexivity | reflexivity].
  change (sanitize (qstr "{'a': [1, 2") ++ chr "]" ::
          sanitize (qstr ", 'm'" ++ chr ":" :: [] ++ chr "-" ::
                    qstr "12345678901, 'n': 123456789012345, }") =
          qstr "{'a': [1, 2], 'm':-12345678901, 'n': 10}").
  rewrite Hsign; [| reflexivity].
  change (sanitize (qstr "{'a': [1, 2") ++ chr "]" ::
          sanitize (qstr ", 'm'") ++ chr ":" :: [] ++ chr "-" ::
          sanitize (qstr "12345678901, 'n': 123456789012345" ++ chr "," :: str " "
                    ++ chr "}" :: []) =
          qstr "{'a': [1, 2], 'm':-12345678901, 'n': 10}").
  rewrite Hcomma; [| left; reflexivity | reflexivity].
  change (sanitize (qstr "{'a': [1, 2") ++ chr "]" ::
          sanitize (qstr ", 'm'") ++ chr ":" :: [] ++ chr "-" ::
          sanitize (qstr "12345678901, 'n'" ++ chr ":" :: str " "
                    ++ str "123456789012345" ++ []) ++ chr "}" :: sanitize [] =
          qstr "{'a': [1, 2], 'm':-12345678901, 'n': 10}").
  rewrite Hnumber; [| reflexivity | reflexivity | simpl; lia | reflexivity].
  reflexivity.
Defined.

(** ** The repairing parser *)

(** C3.  When the first [JSON.parse] fails, [safeParse] hands exactly one
    more text to [JSON.parse], the repaired one; if that parse fails too,
    the error thrown is the error of the first parse, whatever the second
    error is; if it succeeds, its value is returned. *)
Theorem safeParse_single_retry (jsonString : jsstring) (e : Exn) :
  JSON.parse jsonString = Throw e ->
  fst (safeParse jsonString) = [jsonString; repair jsonString] /\
  (forall e2, JSON.parse (repair jsonString) = Throw e2 ->
              snd (safeParse jsonString) = Throw e) /\
  (forall v, JSON.parse (repair jsonString) = Ok v ->
             snd (safeParse jsonString) = Ok v).
Proof.
  intros H. unfold safeParse. rewrite H.
  destruct (JSON.parse (repair jsonString)) as [v|e2]; simpl.
  - split; [reflexivity|]. split; [discriminate|]. now intros ? [= ->].
  - split; [reflexivity|]. split; [reflexivity | discriminate].
Qed.

(** A text cut after a colon: the two parses fail with different errors
    (end of input, then an unexpected brace), and the first is thrown. *)
Lemma safeParse_single_retry_witness :
  let s := qstr "{'a':" in
  JSON.parse s = Throw (SyntaxError 5 None) /\
  JSON.parse (repair s) = Throw (SyntaxError 5 (Some (chr "}"))) /\
  fst (safeParse s) = [s; qstr "{'a':}"] /\
  snd (safeParse s) = Throw (SyntaxError 5 None).
Proof.
  intros s.
  assert (JSON.parse s = Throw (SyntaxError 5 None)) as H1
    by (vm_compute; reflexivity).
  assert (JSON.parse (repair s) = Throw (SyntaxError 5 (Some (chr "}")))) as H2
    by (vm_compute; reflexivity).
  destruct (safeParse_single_retry s _ H1) as (Ht & He & _).
  split; [exact H1|]. split; [exact H2|]. split.
  - rewrite Ht. vm_compute. reflexivity.
  - exact (He _ H2).
Defined.

(** *** The scan for unclosed structures *)

Lemma scan_app (st : scan_state) (a b : jsstring) :
  scan st (a ++ b) = scan (scan st a) b.
Proof. unfold scan. apply fold_left_app. Qed.

Lemma scan_cons (st : scan_state) (c : N) (r : jsstring) :
  scan st (c :: r) = scan (scan_step st c) r.
Proof. reflexivity. Qed.

(** The stack only ever holds closers. *)
Lemma scan_step_closers (st : scan_state) (c : N) :
  forallb is_closer (stack st) = true ->
  forallb is_closer (stack (scan_step st c)) = true.
Proof.
  intros H. unfold scan_step. simpl.
  destruct (negb _); [|exact H].
  destruct (c =? chr "{"); [simpl; now rewrite H|].
  destruct (c =? chr "["); [simpl; now rewrite H|].
  destruct (_ || _); [|exact H].
  destruct (stack st) as [|last below]; [reflexivity|].
  destruct (last =? c); [|exact H].
  simpl in H. now apply andb_prop in H as [_ H].
Qed.

Lemma scan_closers (s : jsstring) (st : scan_state) :
  forallb is_closer (stack st) = true ->
  forallb is_closer (stack (scan st s)) = true.
Proof.
  revert st. induction s as [|c r IH]; intros st H; [exact H|].
  rewrite scan_cons. apply IH. now apply scan_step_closers.
Qed.

(** Outside a string, a closer that is on top of the stack pops it. *)
Lemma scan_step_pop (c : N) (below : list N) (esc : bool) :
  is_closer c = true ->
  scan_step (Scan (c :: below) false esc) c = Scan below false false.
Proof.
  intros Hc. unfold is_closer in Hc. unfold scan_step. simpl.
  apply orb_prop in Hc as [Hc | Hc]; apply N.eqb_eq in Hc; subst c;
    reflexivity.
Qed.

(** Outside a string, scanning the closers of the stack empties it. *)
Lemma scan_own_stack (stk : list N) (esc : bool) :
  forallb is_closer stk = true ->
  stack (scan (Scan stk false esc) stk) = [] /\
  inString (scan (Scan stk false esc) stk) = false.
Proof.
  revert esc. induction stk as [|c below IH]; intros esc H.
  - split; reflexivity.
  - simpl in H. apply andb_prop in H as [Hc Hb].
    rewrite scan_cons, scan_step_pop by exact Hc. now apply IH.
Qed.

(** The repaired text has every structure closed, as far as the scan can
    tell: provided the scan of the text (after the string fix) ends
    outside a string, the scan of the repaired text ends outside a string
    with an empty stack. *)
Lemma repair_balanced (jsonString : jsstring) :
  inString (scan scan_init (close_string (trim jsonString))) = false ->
  stack (scan scan_init (repair jsonString)) = [] /\
  inString (scan scan_init (repair jsonString)) = false.
Proof.
  intros Hin. unfold repair. rewrite scan_app.
  pose proof (scan_closers (close_string (trim jsonString)) scan_init eq_refl)
    as Hcl.
  destruct (scan scan_init (close_string (trim jsonString)))
    as [stk ins esc] eqn:E.
  simpl in Hin, Hcl |- *. subst ins. now apply scan_own_stack.
Qed.

(** The string fix appends at most one quote, and only to a text with an
    odd number of quotes. *)
Lemma close_string_cases (s : jsstring) :
  close_string s = s \/
  (close_string s = s ++ [dquote] /\ Nat.odd (quoteCount s) = true).
Proof.
  unfold close_string. destruct (Nat.odd (quoteCount s)); simpl; [|now left].
  destruct (negb (isLastQuoteEscaped s)); [right; split; reflexivity | now left].
Qed.

(** C1, as the specification states it, fails: a text cut after a colon
    has balanced nesting up to the missing closer and no unterminated
    string, and its repair is not JSON; [safeParse] throws. *)
Lemma repair_invalid_after_colon :
  let s := qstr "{'a':" in
  near_balanced s = true /\
  (unterminated_strings s <= 1)%nat /\
  repair s = qstr "{'a':}" /\
  JSON.parse (repair s) = Throw (SyntaxError 5 (Some (chr "}"))) /\
  snd (safeParse s) = Throw (SyntaxError 5 None).
Proof. vm_compute. repeat split; try reflexivity; lia. Qed.

(** ** Objects *)

Lemma jsstring_eqb_eq (a b : jsstring) : jsstring_eqb a b = true <-> a = b.
Proof.
  revert b. induction a as [|x a IH]; intros [|y b]; simpl;
    try (split; [discriminate | congruence]); [tauto|].
  rewrite andb_true_iff, N.eqb_eq, IH. split; [intros [-> ->] | intros [= -> ->]]; auto.
Qed.

Lemma jsstring_eqb_refl (a : jsstring) : jsstring_eqb a a = true.
Proof. now apply jsstring_eqb_eq. Qed.

Lemma jsstring_eqb_neq (a b : jsstring) : a <> b -> jsstring_eqb a b = false.
Proof.
  intros H. destruct (jsstring_eqb a b) eqn:E; [|reflexivity].
  now apply jsstring_eqb_eq in E.
Qed.

Lemma obj_lookup_set (k : jsstring) (v : JSValue) (props : list (jsstring * JSValue)) :
  obj_lookup k (obj_set k v props) = Some v.
Proof.
  induction props as [|[k' v'] r IH]; simpl.
  - now rewrite jsstring_eqb_refl.
  - destruct (jsstring_eqb k k') eqn:E; simpl; rewrite E; [reflexivity | exact IH].
Qed.

Lemma obj_lookup_set_other (k k' : jsstring) (v : JSValue)
    (props : list (jsstring * JSValue)) :
  k <> k' -> obj_lookup k' (obj_set k v props) = obj_lookup k' props.
Proof.
  intros Hne. induction props as [|[k0 v0] r IH]; simpl.
  - rewrite jsstring_eqb_neq by congruence. reflexivity.
  - destruct (jsstring_eqb k k0) eqn:E; simpl.
    + apply jsstring_eqb_eq in E. subst k0.
      now rewrite (jsstring_eqb_neq k' k) by congruence.
    + destruct (jsstring_eqb k' k0); [reflexivity | exact IH].
Qed.

Lemma Get_set (key : string) (v : JSValue) (props : list (jsstring * JSValue)) :
  Get (JObj (obj_set (str key) v props)) key = Ok v.
Proof. simpl. now rewrite obj_lookup_set. Qed.

Lemma Get_set_other (key other : string) (v : JSValue)
    (props : list (jsstring * JSValue)) :
  str other <> str key ->
  Get (JObj (obj_set (str other) v props)) key = Get (JObj props) key.
Proof. intros H. simpl. now rewrite obj_lookup_set_other. Qed.

(** ** Results *)

Lemma bind_ok {A B} (r : result A) (k : A -> result B) (b : B) :
  bind r k = Ok b -> exists a, r = Ok a /\ k a = Ok b.
Proof. destruct r as [a|e]; simpl; [eauto | discriminate]. Qed.

Lemma try_catch_throws_ok {A} (body : result A) (e : Exn) (a : A) :
  try_catch body (fun _ => Throw e) = Ok a -> body = Ok a.
Proof. destruct body; simpl; [auto | discriminate]. Qed.

Lemma mapM_ok {A B} (f : A -> result B) (l : list A) (l' : list B) :
  mapM f l = Ok l' -> Forall2 (fun x y => f x = Ok y) l l'.
Proof.
  revert l'. induction l as [|x r IH]; simpl; intros l' H.
  - injection H as <-. constructor.
  - apply bind_ok in H as (y & Hy & H). apply bind_ok in H as (ys & Hys & H).
    injection H as <-. constructor; auto.
Qed.

Lemma array_map_ok (v : JSValue) (f : JSValue -> result JSValue) (out : JSValue) :
  array_map v f = Ok out ->
  exists items items', v = JArr items /\ out = JArr items' /\
                       Forall2 (fun x y => f x = Ok y) items items'.
Proof.
  destruct v; simpl; try discriminate. intros H.
  apply bind_ok in H as (ys & Hys & [= <-]).
  eexists _, _. split; [reflexivity|]. split; [reflexivity|].
  now apply mapM_ok.
Qed.

Lemma M_bind_ok {A B} (m : M A) (k : A -> M B) (t : list Event) (b : B) :
  M_bind m k = (t, Ok b) ->
  exists t1 a t2, m = (t1, Ok a) /\ k a = (t2, Ok b) /\ t = t1 ++ t2.
Proof.
  destruct m as [t1 [a|e]]; simpl; [|discriminate].
  destruct (k a) as [t2 r] eqn:E. intros [= <- ->]. eauto 7.
Qed.

(** ** Clamping *)

(** [parseInt] yields [NaN] or an integer. *)
Lemma parseInt_integer (inputString : jsstring) :
  parseInt_string inputString = NaN \/
  exists z, parseInt_string inputString = int z.
Proof.
  unfold parseInt_string.
  destruct (match trimStart inputString with
            | [] => _ | c :: r => _ end) as [negative s].
  match goal with |- context [match ?p with Some _ => _ | None => _ end] =>
    destruct p end; eauto.
Qed.

Lemma Math_max_int (a b : Z) : Math_max (int a) (int b) = int (Z.max a b).
Proof.
  unfold Math_max, int, num_compare. simpl. rewrite !Z.mul_1_r.
  unfold Z.max. destruct (a ?= b)%Z; reflexivity.
Qed.

Lemma Math_min_int (a b : Z) : Math_min (int a) (int b) = int (Z.min a b).
Proof.
  unfold Math_min, int, num_compare. simpl. rewrite !Z.mul_1_r.
  unfold Z.min. destruct (a ?= b)%Z; reflexivity.
Qed.

(** Whatever the value, the clamp is an integer between the bounds. *)
Lemma clamp_in_range (lo hi dflt : Z) (v : JSValue) (n : JSNumber) :
  (lo <= hi)%Z -> clamp lo hi dflt v = Ok n -> score_in lo hi (JNum n).
Proof.
  intros Hle. unfold clamp, parseInt, num_or. intros H.
  apply bind_ok in H as (x & H & [= <-]).
  apply bind_ok in H as (inputString & _ & [= <-]).
  destruct (parseInt_integer inputString) as [-> | [z ->]].
  - simpl. rewrite Math_max_int, Math_min_int. eexists. split; [reflexivity | lia].
  - change (match int z with
            | NaN => false
            | Infinity _ => true
            | Finite m _ => negb (m =? 0)%Z
            end) with (truthy (JNum (int z))).
    destruct (truthy (JNum (int z)));
      rewrite Math_max_int, Math_min_int; eexists; (split; [reflexivity | lia]).
Qed.

(** ** The analysis result *)

Lemma str_relevance_popularity : str "popularity" <> str "relevance".
Proof. discriminate. Qed.

Lemma sanitize_node_scores (node out : JSValue) :
  sanitize_node node = Ok out ->
  (exists r, Get out "relevance" = Ok r /\ score_in 1 10 r) /\
  (exists p, Get out "popularity" = Ok p /\ score_in 1 10 p).
Proof.
  unfold sanitize_node. intros H.
  apply bind_ok in H as (r & _ & H).
  apply bind_ok in H as (relevance & Hr & H).
  apply bind_ok in H as (p & _ & H).
  apply bind_ok in H as (popularity & Hp & [= <-]).
  split.
  - exists (JNum relevance).
    split; [|eapply clamp_in_range; [|exact Hr]; lia].
    rewrite Get_set_other by exact str_relevance_popularity. apply Get_set.
  - exists (JNum popularity).
    split; [apply Get_set | eapply clamp_in_range; [|exact Hp]; lia].
Qed.

Lemma sanitize_link_value (link out : JSValue) :
  sanitize_link link = Ok out ->
  exists v, Get out "value" = Ok v /\ score_in 1 5 v.
Proof.
  unfold sanitize_link. intros H. apply bind_ok in H as (v & _ & H).
  apply bind_ok in H as (value & Hv & [= <-]).
  eexists. split; [apply Get_set | eapply clamp_in_range; [|eassumption]; lia].
Qed.

Lemma Forall2_right {A B} (P : A -> B -> Prop) (Q : B -> Prop) (l : list A) (l' : list B) :
  (forall x y, P x y -> Q y) -> Forall2 P l l' -> Forall Q l'.
Proof. intros H. induction 1; constructor; eauto. Qed.

Lemma build_graph_scores (vs : JSValue) (graphJson : jsstring) (r : Analysis) :
  build_graph vs graphJson = Ok r ->
  videos r = vs /\
  exists nodes links summary,
    graph r = JObj [(str "nodes", JArr nodes); (str "links", JArr links);
                    (str "summary", summary)] /\
    Forall (fun n =>
              (exists x, Get n "relevance" = Ok x /\ score_in 1 10 x) /\
              (exists x, Get n "popularity" = Ok x /\ score_in 1 10 x)) nodes /\
    Forall (fun l => exists x, Get l "value" = Ok x /\ score_in 1 5 x) links.
Proof.
  unfold build_graph. intros H. apply try_catch_throws_ok in H.
  apply bind_ok in H as (parsedGraph & _ & H).
  apply bind_ok in H as (g & _ & H).
  apply bind_ok in H as (nodes & _ & H).
  destruct (negb (Array_isArray nodes)); [discriminate|].
  apply bind_ok in H as (sanitizedNodes & Hn & H).
  apply bind_ok in H as (g' & _ & H).
  apply bind_ok in H as (ls & _ & H).
  apply bind_ok in H as (sanitizedLinks & Hl & H).
  apply bind_ok in H as (summary & _ & [= <-]). simpl.
  apply array_map_ok in Hn as (ns & ns' & _ & -> & Hn).
  apply array_map_ok in Hl as (ls0 & ls' & _ & -> & Hl).
  split; [reflexivity|]. exists ns', ls', (or_else summary (JStr (str "No summary available."))).
  split; [reflexivity|]. split.
  - eapply Forall2_right; [|exact Hn]. intros x y. apply sanitize_node_scores.
  - eapply Forall2_right; [|exact Hl]. intros x y. apply sanitize_link_value.
Qed.

(** ** Runs of a pipeline *)

Lemma events_bind {A B} (m : M A) (k : A -> M B) :
  fst (M_bind m k) =
    fst m ++ match snd m with Ok a => fst (k a) | Throw _ => [] end.
Proof.
  destruct m as [t [a|e]]; simpl; [|now rewrite app_nil_r].
  now destruct (k a).
Qed.

Lemma outcome_bind {A B} (m : M A) (k : A -> M B) :
  snd (M_bind m k) =
    match snd m with Ok a => snd (k a) | Throw e => Throw e end.
Proof. destruct m as [t [a|e]]; simpl; [|reflexivity]. now destruct (k a). Qed.

Lemma requests_app (t1 t2 : list Event) :
  requests (t1 ++ t2) = requests t1 ++ requests t2.
Proof. unfold requests. apply flat_map_app. Qed.

(** Stepping through a run: the events and the outcome of a sequence are
    those of its first step followed by those of the rest. *)
Ltac run_step :=
  rewrite ?events_bind, ?outcome_bind;
  cbn [progress call lift substitute fst snd app].

(** The next step of a run that returns has returned. *)
Ltac next_step H x E :=
  rewrite outcome_bind in H; cbn [call lift substitute fst snd] in H;
  lazymatch type of H with
  | match ?r with Ok _ => _ | Throw _ => _ end = _ =>
      destruct r as [x|] eqn:E; [|discriminate H]
  end.

(** A run that returns has gone through every step. *)
Lemma analyze_returns (ai : Service) (channelUrl : jsstring) (r : Analysis) :
  snd (analyzeChannelContent ai channelUrl) = Ok r ->
  exists discoveryResponse discoveryData analysisResponse fullAnalysis slice25
         videoResponse videoText videoJson vs slice20
         graphResponse graphText graphJson,
    ai (discoveryRequest channelUrl) = Ok discoveryResponse /\
    Get discoveryResponse "text" = Ok discoveryData /\
    ai (analysisRequest discoveryData) = Ok analysisResponse /\
    Get analysisResponse "text" = Ok fullAnalysis /\
    slice fullAnalysis 25000 = Ok slice25 /\
    ai (videoRequest slice25) = Ok videoResponse /\
    Get videoResponse "text" = Ok videoText /\
    cleanJson_of videoText = Ok videoJson /\
    read_videos videoJson = Ok vs /\
    slice fullAnalysis 20000 = Ok slice20 /\
    ai (graphRequest slice20 vs) = Ok graphResponse /\
    Get graphResponse "text" = Ok graphText /\
    cleanJson_of graphText = Ok graphJson /\
    build_graph vs graphJson = Ok r.
Proof.
  unfold analyzeChannelContent. intros H.
  rewrite outcome_bind in H. cbn [progress snd] in H.
  next_step H discoveryResponse E1. next_step H discoveryData E2.
  rewrite outcome_bind in H. cbn [progress snd] in H.
  next_step H s1 C1.
  next_step H analysisResponse E3. next_step H fullAnalysis E4.
  rewrite outcome_bind in H. cbn [progress snd] in H.
  next_step H slice25 E5. next_step H s2 C2. next_step H videoResponse E6.
  next_step H videoText E7. next_step H videoJson E8. next_step H vs E9.
  rewrite outcome_bind in H. cbn [progress snd] in H.
  next_step H slice20 E10. next_step H s3 C3. next_step H graphResponse E11.
  rewrite outcome_bind in H. cbn [progress snd] in H.
  next_step H graphText E12. next_step H graphJson E13.
  cbn [lift snd] in H.
  exists discoveryResponse, discoveryData, analysisResponse, fullAnalysis,
    slice25, videoResponse, videoText, videoJson, vs, slice20, graphResponse,
    graphText, graphJson.
  repeat apply conj;
    [ reflexivity | exact E2 | exact E3 | exact E4 | exact E5 | exact E6
    | exact E7 | exact E8 | exact E9 | exact E10 | exact E11 | exact E12
    | exact E13 | exact H ].
Qed.

(** C2.  Whenever [analyzeChannelContent] returns, the graph it returns
    is [{nodes, links, summary}] where every node has an integer
    [relevance] and an integer [popularity] between 1 and 10 and every
    link an integer [value] between 1 and 5, whatever the service
    answered. *)
Theorem analysis_scores_clamped (ai : Service) (channelUrl : jsstring)
    (trace : list Event) (r : Analysis) :
  analyzeChannelContent ai channelUrl = (trace, Ok r) ->
  exists nodes links summary,
    graph r = JObj [(str "nodes", JArr nodes); (str "links", JArr links);
                    (str "summary", summary)] /\
    Forall (fun n =>
              (exists x, Get n "relevance" = Ok x /\ score_in 1 10 x) /\
              (exists x, Get n "popularity" = Ok x /\ score_in 1 10 x)) nodes /\
    Forall (fun l => exists x, Get l "value" = Ok x /\ score_in 1 5 x) links.
Proof.
  intros H. apply (f_equal snd) in H. simpl in H.
  apply analyze_returns in H
    as (? & ? & ? & ? & ? & ? & ? & ? & vs & ? & ? & ? & graphJson & H).
  decompose [and] H.
  match goal with Hb : build_graph _ _ = Ok r |- _ =>
    apply build_graph_scores in Hb as [_ Hb]; exact Hb end.
Qed.

(** The theorem on the run against a model whose scores are an overlong
    number, a string with a unit, a negative number and missing ones. *)
Lemma analysis_scores_clamped_witness :
  exists r,
    snd (analyzeChannelContent Mock.sloppy_model (str "u")) = Ok r /\
    exists nodes links summary,
      graph r = JObj [(str "nodes", JArr nodes); (str "links", JArr links);
                      (str "summary", summary)] /\
      Forall (fun n =>
                (exists x, Get n "relevance" = Ok x /\ score_in 1 10 x) /\
                (exists x, Get n "popularity" = Ok x /\ score_in 1 10 x)) nodes /\
      Forall (fun l => exists x, Get l "value" = Ok x /\ score_in 1 5 x) links.
Proof.
  eexists. split; [vm_compute; reflexivity|].
  eapply (analysis_scores_clamped Mock.sloppy_model (str "u")
            (fst (analyzeChannelContent Mock.sloppy_model (str "u")))).
  vm_compute. reflexivity.
Defined.

(** ** The prompts *)

Lemma occurs_in_here (x post : jsstring) : occurs_in x (x ++ post).
Proof. exists [], post. reflexivity. Qed.

Lemma occurs_in_app_r (x a b : jsstring) : occurs_in x b -> occurs_in x (a ++ b).
Proof.
  intros (pre & post & ->). exists (a ++ pre), post. now rewrite app_assoc.
Qed.

Ltac find_occurrence :=
  first [ apply occurs_in_here | apply occurs_in_app_r; find_occurrence ].

Lemma analysisPrompt_threads (discoveryData : JSValue) :
  occurs_in (ToString discoveryData) (contents (analysisRequest discoveryData)).
Proof. simpl. unfold analysisPrompt. find_occurrence. Qed.

Lemma videoPrompt_threads (analysisSlice : JSValue) :
  occurs_in (ToString analysisSlice) (contents (videoRequest analysisSlice)).
Proof. simpl. unfold videoPrompt. find_occurrence. Qed.

Lemma graphPrompt_threads (analysisSlice vs : JSValue) :
  occurs_in (ToString analysisSlice) (contents (graphRequest analysisSlice vs)) /\
  occurs_in (JSON.stringify vs) (contents (graphRequest analysisSlice vs)).
Proof. simpl. unfold graphPrompt. split; find_occurrence. Qed.

(** The run ends here, with a thrown value. *)
Ltac run_ends evidence :=
  split;
  [ rewrite ?requests_app; cbn [requests flat_map app]; exact evidence
  | intros ? Hr; discriminate Hr ].

(** The next step of a run: it throws and the run ends, or it returns. *)
Ltac run_next x E evidence :=
  rewrite ?events_bind, ?outcome_bind;
  cbn [progress call lift substitute fst snd];
  lazymatch goal with
  | |- context [match ?r with Ok _ => _ | Throw _ => _ end] =>
      destruct r as [x|] eqn:E; [|run_ends evidence]
  end.

(** The requests of any run, whether it returns or throws. *)
Lemma analyze_issues (ai : Service) (channelUrl : jsstring) :
  issued ai channelUrl (requests (fst (analyzeChannelContent ai channelUrl))) /\
  (forall r, snd (analyzeChannelContent ai channelUrl) = Ok r ->
             length (requests (fst (analyzeChannelContent ai channelUrl))) = 4%nat).
Proof.
  unfold analyzeChannelContent.
  run_next discoveryResponse E1 (issued_discovery ai channelUrl).
  run_next discoveryData E2 (issued_discovery ai channelUrl).
  run_next s1 C1 (issued_discovery ai channelUrl).
  run_next analysisResponse E3 (issued_analysis ai channelUrl _ _ E1 E2).
  run_next fullAnalysis E4 (issued_analysis ai channelUrl _ _ E1 E2).
  run_next slice25 E5 (issued_analysis ai channelUrl _ _ E1 E2).
  run_next s2 C2 (issued_analysis ai channelUrl _ _ E1 E2).
  run_next videoResponse E6 (issued_videos ai channelUrl _ _ _ _ _ E1 E2 E3 E4 E5).
  run_next videoText E7 (issued_videos ai channelUrl _ _ _ _ _ E1 E2 E3 E4 E5).
  run_next videoJson E8 (issued_videos ai channelUrl _ _ _ _ _ E1 E2 E3 E4 E5).
  run_next vs E9 (issued_videos ai channelUrl _ _ _ _ _ E1 E2 E3 E4 E5).
  run_next slice20 E10 (issued_videos ai channelUrl _ _ _ _ _ E1 E2 E3 E4 E5).
  run_next s3 C3 (issued_videos ai channelUrl _ _ _ _ _ E1 E2 E3 E4 E5).
  pose proof (issued_graph ai channelUrl _ _ _ _ _ _ _ _ _ _
                E1 E2 E3 E4 E5 E6 E7 E8 E9 E10) as Hfour.
  run_next graphResponse E11 Hfour.
  run_next graphText E12 Hfour.
  run_next graphJson E13 Hfour.
  rewrite ?events_bind, ?outcome_bind;
    cbn [progress call lift substitute fst snd].
  split.
  - rewrite ?requests_app; cbn [requests flat_map app]. exact Hfour.
  - intros r _. rewrite ?requests_app. reflexivity.
Qed.

(** C6 as the specification states it fails: when the service refuses
    the first request, one request is issued, not four; when the model's
    video list cannot be parsed, three are. *)
Lemma analysis_stops_at_first_failure :
  length (requests (fst (analyzeChannelContent Mock.failing_service (str "u"))))
    = 1%nat /\
  length (requests (fst (analyzeChannelContent Mock.garbled_videos (str "u"))))
    = 3%nat /\
  snd (analyzeChannelContent Mock.garbled_videos (str "u")) =
    Throw (Error (str "Failed to parse video list from model output.")).
Proof. vm_compute. repeat split. Qed.

(** C6, amended.  A run of [analyzeChannelContent] issues its requests
    one after the other in the order discovery, deep analysis, video-list
    extraction, graph extraction, each built from what the earlier steps
    returned, and stops at the first step that throws; a run that returns
    has issued exactly the four.  The text of the discovery response
    appears in the analysis prompt; the first 25000 and the first 20000
    code units of the analysis text appear in the video prompt and in the
    graph prompt; the serialised video list appears in the graph
    prompt. *)
Theorem analysis_requests_threaded (ai : Service) (channelUrl : jsstring)
    (trace : list Event) (outcome : result Analysis) :
  analyzeChannelContent ai channelUrl = (trace, outcome) ->
  issued ai channelUrl (requests trace) /\
  (forall r, outcome = Ok r -> length (requests trace) = 4%nat) /\
  (forall discoveryData,
      occurs_in (ToString discoveryData)
                (contents (analysisRequest discoveryData))) /\
  (forall text n, slice (JStr text) n = Ok (JStr (firstn (N.to_nat n) text))) /\
  (forall analysisSlice,
      occurs_in (ToString analysisSlice) (contents (videoRequest analysisSlice))) /\
  (forall analysisSlice vs,
      occurs_in (ToString analysisSlice)
                (contents (graphRequest analysisSlice vs)) /\
      occurs_in (JSON.stringify vs) (contents (graphRequest analysisSlice vs))).
Proof.
  intros H. pose proof (analyze_issues ai channelUrl) as [Hi Hn].
  rewrite H in Hi, Hn. simpl in Hi, Hn.
  split; [exact Hi|]. split; [exact Hn|].
  split; [exact analysisPrompt_threads|]. split; [reflexivity|].
  split; [exact videoPrompt_threads | exact graphPrompt_threads].
Qed.

(** The theorem on a complete run: four requests. *)
Lemma analysis_requests_threaded_witness :
  length (requests (fst (analyzeChannelContent Mock.sloppy_model (str "u"))))
    = 4%nat.
Proof.
  destruct (analysis_requests_threaded Mock.sloppy_model (str "u")
              (fst (analyzeChannelContent Mock.sloppy_model (str "u")))
              (snd (analyzeChannelContent Mock.sloppy_model (str "u"))))
    as (_ & Hn & _).
  - now destruct (analyzeChannelContent Mock.sloppy_model (str "u")).
  - remember (snd (analyzeChannelContent Mock.sloppy_model (str "u"))) as out eqn:E.
    vm_compute in E. 
    match type of E with _ = Ok ?r => exact (Hn r E) end.
Defined.

(** ** The slide image *)

Lemma inline_image_some (part : JSValue) (url : jsstring) :
  inline_image part = Ok (Some url) -> is_inline_image part url.
Proof.
  unfold inline_image. intros H.
  apply bind_ok in H as (inlineData & H1 & H).
  destruct (truthy inlineData) eqn:T1; [|discriminate].
  apply bind_ok in H as (data & H2 & H).
  destruct (truthy data) eqn:T2; [|discriminate].
  apply bind_ok in H as (mimeType & H3 & H).
  apply bind_ok in H as (mime & H4 & H).
  apply bind_ok in H as (bytes & H5 & [= <-]).
  exists inlineData, data, mimeType, mime, bytes. auto 9.
Qed.

(** The loop returns at the first part with inline image data. *)
Lemma first_inline_image_some (items : list JSValue) (url : jsstring) :
  first_inline_image items = Ok (Some url) ->
  exists before part after,
    items = before ++ part :: after /\
    Forall (fun p => inline_image p = Ok None) before /\
    is_inline_image part url.
Proof.
  induction items as [|p r IH]; simpl; [discriminate|]. intros H.
  apply bind_ok in H as ([u|] & Hp & H).
  - injection H as ->. exists [], p, r.
    split; [reflexivity|]. split; [constructor | now apply inline_image_some].
  - destruct (IH H) as (before & part & after & -> & Hb & Hi).
    exists (p :: before), part, after.
    split; [reflexivity|]. split; [now constructor | exact Hi].
Qed.

(** The [try] block of [generateSlideImage], inverted. *)
Lemma slide_image_found (ai : Service) (prompt url : jsstring) :
  generateSlideImage ai prompt = Ok (Some url) ->
  exists response items,
    ai (imageRequest prompt) = Ok response /\
    response_parts response items /\
    first_inline_image items = Ok (Some url).
Proof.
  unfold generateSlideImage. intros H.
  destruct (ai (imageRequest prompt)) as [response|e] eqn:E; [|discriminate].
  simpl in H.
  destruct (Get response "candidates") as [candidates|] eqn:E1; [|discriminate].
  simpl in H. destruct (truthy candidates) eqn:T1; [|discriminate].
  destruct (GetIndex candidates 0) as [first|] eqn:E2; [|discriminate].
  simpl in H.
  destruct (Get first "content") as [content|] eqn:E3; [|discriminate].
  simpl in H. destruct (truthy content) eqn:T2; [|discriminate].
  destruct (Get content "parts") as [parts|] eqn:E4; [|discriminate].
  simpl in H. destruct (truthy parts) eqn:T3; [|discriminate].
  destruct (iterate parts) as [items|] eqn:E5; [|discriminate].
  simpl in H.
  destruct (first_inline_image items) as [[u|]|] eqn:E6; try discriminate.
  injection H as ->.
  exists response, items. split; [reflexivity|]. split; [|exact E6].
  exists candidates, first, content, parts. auto 9.
Qed.

Lemma inline_image_found (part : JSValue) (url : jsstring) :
  is_inline_image part url -> inline_image part = Ok (Some url).
Proof.
  intros (inlineData & data & mimeType & mime & bytes
          & H1 & T1 & H2 & T2 & H3 & H4 & H5 & ->).
  unfold inline_image. rewrite H1. cbn [bind]. rewrite T1, H2. cbn [bind].
  rewrite T2, H3. cbn [bind]. rewrite H4. cbn [bind]. now rewrite H5.
Qed.

Lemma first_inline_image_found (before : list JSValue) (part : JSValue)
    (after : list JSValue) (url : jsstring) :
  Forall (fun p => inline_image p = Ok None) before ->
  is_inline_image part url ->
  first_inline_image (before ++ part :: after) = Ok (Some url).
Proof.
  intros Hb Hp. induction Hb as [|p r Hn _ IH]; cbn [app first_inline_image].
  - now rewrite (inline_image_found _ _ Hp).
  - now rewrite Hn.
Qed.

(** The [try] block on a response whose parts hold an image. *)
Lemma slide_image_returned (ai : Service) (prompt url : jsstring)
    (response : JSValue) (items : list JSValue) :
  ai (imageRequest prompt) = Ok response ->
  response_parts response items ->
  first_inline_image items = Ok (Some url) ->
  generateSlideImage ai prompt = Ok (Some url).
Proof.
  intros E (candidates & first & content & parts
            & E1 & T1 & E2 & E3 & T2 & E4 & T3 & E5) H.
  unfold generateSlideImage. rewrite E. cbn [bind]. rewrite E1. cbn [bind].
  rewrite T1, E2. cbn [bind]. rewrite E3. cbn [bind]. rewrite T2, E4.
  cbn [bind]. rewrite T3, E5. cbn [bind]. now rewrite H.
Qed.

Lemma generateSlideImage_returns (ai : Service) (prompt : jsstring) :
  exists r, generateSlideImage ai prompt = Ok r.
Proof.
  unfold generateSlideImage, try_catch.
  match goal with |- exists r, match ?b with Ok _ => _ | Throw _ => _ end = _ =>
    destruct b end; eauto.
Qed.

(** C10, as the specification states it, fails: the client is
    constructed before the [try] block, so that an error of the
    constructor (it throws when no API key is set) is thrown by
    [generateSlideImage]. *)
Lemma generateSlideImage_throws_without_client :
  Exported.generateSlideImage
    (Throw (Error (str "An API Key must be set when running in a browser")))
    (str "a golden cage") =
  Throw (Error (str "An API Key must be set when running in a browser")).
Proof. reflexivity. Qed.

(** C10, amended.  [generateSlideImage] throws exactly when the
    construction of the client throws, and then with the error of the
    constructor.  With the client built it never throws.  It returns a
    string exactly when the service answers, the parts of the first
    candidate can be read and one of them carries inline image data
    whose type and data convert to strings, no part before it carrying
    any: the string is then the data URL of that first part.  In every
    other case it returns [null], in particular when the service call
    throws. *)
Theorem generateSlideImage_outcomes (client : result Service)
    (prompt : jsstring) :
  (forall e, client = Throw e ->
             Exported.generateSlideImage client prompt = Throw e) /\
  (forall ai,
      client = Ok ai ->
      (exists r, Exported.generateSlideImage client prompt = Ok r) /\
      (forall url,
          Exported.generateSlideImage client prompt = Ok (Some url) <->
          exists response items before part after,
            ai (imageRequest prompt) = Ok response /\
            response_parts response items /\
            items = before ++ part :: after /\
            Forall (fun p => inline_image p = Ok None) before /\
            is_inline_image part url) /\
      (forall e, ai (imageRequest prompt) = Throw e ->
                 Exported.generateSlideImage client prompt = Ok None)).
Proof.
  split.
  - intros e ->. reflexivity.
  - intros ai ->. cbn [Exported.generateSlideImage bind].
    split; [apply generateSlideImage_returns|]. split.
    + intros url. split.
      * intros H.
        apply slide_image_found in H as (response & items & E & Hp & H).
        apply first_inline_image_some in H
          as (before & part & after & -> & Hb & Hi).
        exists response, (before ++ part :: after), before, part, after. auto.
      * intros (response & items & before & part & after
                & E & Hp & -> & Hb & Hi).
        eapply slide_image_returned; [exact E | exact Hp |].
        now apply first_inline_image_found.
    + intros e E. unfold generateSlideImage. now rewrite E.
Qed.

(** The theorem on a response whose second part is the first image, and
    on a client that could not be constructed. *)
Lemma generateSlideImage_outcomes_witness :
  Exported.generateSlideImage (Ok Mock.image_model) (str "a golden cage") =
    Ok (Some (str "data:image/png;base64,iVBORw0KGgo=")) /\
  Exported.generateSlideImage (Throw (Error (str "no API key")))
    (str "a golden cage") = Throw (Error (str "no API key")).
Proof.
  split.
  - destruct (generateSlideImage_outcomes (Ok Mock.image_model)
                (str "a golden cage")) as (_ & Hbuilt).
    destruct (Hbuilt Mock.image_model eq_refl) as (_ & Hurl & _).
    apply Hurl.
    exists (JObj [(str "candidates",
       JArr [JObj [(str "content",
         JObj [(str "parts",
           JArr [JObj [(str "text", JStr (str "here you go"))];
                 JObj [(str "inlineData",
                        JObj [(str "mimeType", JStr (str "image/png"));
                              (str "data", JStr (str "iVBORw0KGgo="))])];
                 JObj [(str "inlineData",
                        JObj [(str "mimeType", JStr (str "image/jpeg"));
                              (str "data", JStr (str "AAAA"))])]])])]])]).
    eexists. exists [JObj [(str "text", JStr (str "here you go"))]].
    eexists. eexists.
    split; [reflexivity|]. split.
    { do 4 eexists. repeat split; reflexivity. }
    split; [reflexivity|]. split; [repeat constructor|].
    do 5 eexists. repeat split; reflexivity.
  - destruct (generateSlideImage_outcomes (Throw (Error (str "no API key")))
                (str "a golden cage")) as (Hthrown & _).
    now apply Hthrown.
Defined.

(** ** The links of the force simulation *)

Import ForceGraph.

Lemma property_string (d : JSValue) (key : string) (s : jsstring) :
  property d key = JStr s -> Get d key = Ok (JStr s).
Proof.
  unfold property. destruct (Get d key) as [x|e]; [now intros ->|discriminate].
Qed.

Lemma has_valid (ids : list jsstring) (v : JSValue) :
  has (list_to_set ids) v = true -> exists s, v = JStr s /\ In s ids.
Proof.
  destruct v; simpl; try discriminate. intros H.
  apply bool_decide_eq_true in H. apply elem_of_list_to_set in H.
  apply list_elem_of_In in H. eauto.
Qed.

Lemma mapM_source {A B} (f : A -> result B) (l : list A) (l' : list B) (y : B) :
  mapM f l = Ok l' -> In y l' -> exists x, In x l /\ f x = Ok y.
Proof.
  intros H. apply mapM_ok in H. induction H as [|x y' l l' Hxy _ IH]; simpl.
  - tauto.
  - intros [<- | Hy]; [eauto|]. destruct (IH Hy) as (x' & Hx' & Hf). eauto.
Qed.

(** C9.  When the main effect of the graph component builds a
    simulation, the links it hands to it are the converted links of the
    input whose two endpoints are in the set of node ids; so every such
    link has a [source] and a [target] that are strings equal to
    [String(n.id)] for nodes [n] of the input; and the line elements are
    bound to the same list of links. *)
Theorem simulation_links_reference_nodes (data : JSValue) (sim : Simulation) :
  effect data = Ok (Some sim) ->
  line_data sim = sim_links sim /\
  exists nodes links mapped ids,
    Get data "nodes" = Ok (JArr nodes) /\
    Get data "links" = Ok (JArr links) /\
    mapM node_id nodes = Ok ids /\
    mapM sim_link links = Ok mapped /\
    sim_links sim = List.filter (keep_link (list_to_set ids)) mapped /\
    Forall (fun l =>
              exists s t,
                Get l "source" = Ok (JStr s) /\ Get l "target" = Ok (JStr t) /\
                (exists n, In n nodes /\ node_id n = Ok s) /\
                (exists n, In n nodes /\ node_id n = Ok t))
           (sim_links sim).
Proof.
  unfold effect. intros H.
  apply bind_ok in H as (ns & Hns & H).
  apply bind_ok in H as (len & _ & H).
  destruct (negb (truthy len)); [discriminate|].
  apply bind_ok in H as (items & Hitems & H).
  apply bind_ok in H as (ids & Hids & H).
  apply bind_ok in H as (nodes & _ & H).
  apply bind_ok in H as (ls & Hls & H).
  apply bind_ok in H as (links & Hlinks & H).
  apply bind_ok in H as (mapped & Hmapped & [= <-]). simpl.
  destruct ns; try discriminate. injection Hitems as ->.
  destruct ls; try discriminate. injection Hlinks as ->.
  split; [reflexivity|].
  exists items, links, mapped, ids. repeat (split; [assumption || reflexivity|]).
  apply Forall_forall. intros l Hl. apply list_elem_of_In in Hl.
  apply filter_In in Hl as [_ Hkeep].
  unfold keep_link in Hkeep. apply andb_prop in Hkeep as [Hs Ht].
  apply has_valid in Hs as (s & Hs & Hsin).
  apply has_valid in Ht as (t & Ht & Htin).
  exists s, t.
  split; [now apply property_string|]. split; [now apply property_string|].
  split; eapply mapM_source; eassumption.
Qed.

(** The theorem on graph data with an orphan link: the link to the
    missing node [Z] is dropped, the other two are kept. *)
Lemma simulation_links_reference_nodes_witness :
  exists sim,
    effect Mock.graph_with_orphan = Ok (Some sim) /\
    length (sim_links sim) = 2%nat /\
    line_data sim = sim_links sim.
Proof.
  destruct (effect Mock.graph_with_orphan) as [[sim|]|] eqn:E;
    try (vm_compute in E; discriminate E).
  exists sim. split; [reflexivity|].
  destruct (simulation_links_reference_nodes _ _ E) as [Hline _].
  split; [|exact Hline].
  vm_compute in E. injection E as <-. reflexivity.
Defined.

(** ** The simulated progress *)

Local Open Scope Q_scope.

Lemma tick_le_cap (capAt prev : Q) : prev <= capAt -> tick capAt prev <= capAt.
Proof.
  intros H. unfold tick. destruct (Qle_bool capAt prev); [exact H|].
  apply Q.le_min_l.
Qed.

Lemma tick_ge (capAt prev : Q) : prev <= tick capAt prev.
Proof.
  unfold tick. destruct (Qle_bool capAt prev) eqn:E; [apply Qle_refl|].
  assert (prev < capAt) as Hlt.
  { apply Qnot_le_lt. intros Hle. apply Qle_bool_iff in Hle. congruence. }
  apply Q.min_glb; [now apply Qlt_le_weak|].
  rewrite <- (Qplus_0_r prev) at 1. apply Qplus_le_r.
  apply Qle_trans with (1 # 10); [discriminate | apply Q.le_max_l].
Qed.

Lemma simulated_le_cap (startAt capAt : Q) (n : nat) :
  startAt <= capAt -> simulated startAt capAt n <= capAt.
Proof.
  intros H. induction n as [|n IH]; simpl; [exact H | now apply tick_le_cap].
Qed.

Ltac reports_done :=
  cbn [app]; repeat (constructor; [simpl; tauto|]); constructor.

Ltac reports_next :=
  rewrite ?events_bind; cbn [progress call lift substitute fst snd];
  lazymatch goal with
  | |- context [match ?r with Ok _ => _ | Throw _ => _ end] =>
      destruct r; [|reports_done]
  end.

Lemma analyze_reports (ai : Service) (channelUrl : jsstring) :
  reports [5; 25; 60; 80; 95]%Z (fst (analyzeChannelContent ai channelUrl)).
Proof.
  unfold analyzeChannelContent, reports.
  do 16 reports_next.
  rewrite ?events_bind; cbn [progress call lift substitute fst snd].
  reports_done.
Qed.

Lemma rebuttal_reports (ai : Service) (channelUrl : jsstring)
    (graphSummary vs custom : JSValue) :
  reports [10; 90]%Z (fst (generateRebuttal ai channelUrl graphSummary vs custom)).
Proof.
  unfold generateRebuttal, reports.
  do 5 reports_next.
  rewrite ?events_bind; cbn [progress call lift substitute fst snd].
  reports_done.
Qed.

Lemma reports_In (allowed : list Z) (trace : list Event) (msg : jsstring) (p : Z) :
  reports allowed trace -> In (Progress msg p) trace -> In p allowed.
Proof.
  unfold reports. rewrite Forall_forall. intros H Hin.
  apply list_elem_of_In in Hin. exact (H _ Hin).
Qed.

(** Every timer of the program is started at or below its cap. *)
Lemma started_below_cap (startAt capAt : Q) :
  started startAt capAt -> startAt <= capAt.
Proof.
  intros [ | ai url msg p Hin | | ai url gs vs custom msg p Hin].
  - discriminate.
  - apply (reports_In _ _ _ _ (analyze_reports ai url)) in Hin.
    simpl in Hin. decompose [or] Hin; subst; try discriminate; contradiction.
  - discriminate.
  - apply (reports_In _ _ _ _ (rebuttal_reports ai url gs vs custom)) in Hin.
    simpl in Hin. decompose [or] Hin; subst; try discriminate; contradiction.
Qed.

(** C8.  For every timer the program starts, the progress value never
    decreases from one tick to the next and never exceeds the cap; a tick
    takes a value below the cap to the minimum of the cap and the value
    plus the larger of 0.1 and a fiftieth of the distance to the cap, and
    leaves a value at or above the cap unchanged.  The update reads
    nothing but the previous value and the cap. *)
Theorem simulated_progress_bounded (startAt capAt : Q) :
  started startAt capAt ->
  forall n,
    simulated startAt capAt n <= simulated startAt capAt (S n) /\
    simulated startAt capAt n <= capAt /\
    simulated startAt capAt (S n) = tick capAt (simulated startAt capAt n) /\
    (forall prev, prev < capAt ->
       tick capAt prev = Qmin capAt (prev + Qmax (1 # 10) ((capAt - prev) / 50))) /\
    (forall prev, capAt <= prev -> tick capAt prev = prev).
Proof.
  intros Hs n. apply started_below_cap in Hs.
  split; [apply tick_ge|]. split; [now apply simulated_le_cap|].
  split; [reflexivity|]. split.
  - intros prev Hlt. unfold tick.
    destruct (Qle_bool capAt prev) eqn:E; [|reflexivity].
    apply Qle_bool_iff in E. exfalso. now apply (Qlt_not_le _ _ Hlt).
  - intros prev Hle. unfold tick. apply Qle_bool_iff in Hle. now rewrite Hle.
Qed.

(** The theorem on the timer restarted by the report of 60 percent. *)
Lemma simulated_progress_bounded_witness :
  simulated 60 98 3 <= simulated 60 98 4 /\ simulated 60 98 3 <= 98.
Proof.
  assert (started 60 98) as Hs.
  { apply (start_analysis_progress Mock.sloppy_model (str "u")
             (str "Structuring video data...") 60%Z).
    vm_compute. tauto. }
  destruct (simulated_progress_bounded 60 98 Hs 3) as (H1 & H2 & _).
  split; [exact H1 | exact H2].
Defined.

Local Close Scope Q_scope.

(** ** Failed operations *)

Import App.

(** Progress reports and timer ticks touch the status line, the log, the
    progress value and the timer, nothing else. *)
Lemma ticks_keeps (n : nat) (s : State) :
  appState (ticks n s) = appState s /\ url (ticks n s) = url s /\
  timeout (ticks n s) = timeout s /\ same_stored_data s (ticks n s).
Proof. unfold ticks, same_stored_data. destruct (timer s); repeat split. Qed.

Lemma replay_keeps (capAt : Q) (waits : list nat) (trace : list Event) (s : State) :
  appState (replay (onProgress capAt) waits trace s) = appState s /\
  url (replay (onProgress capAt) waits trace s) = url s /\
  timeout (replay (onProgress capAt) waits trace s) = timeout s /\
  same_stored_data s (replay (onProgress capAt) waits trace s).
Proof.
  unfold same_stored_data.
  revert waits s. induction trace as [|[msg p|req] rest IH]; intros waits s.
  - repeat split.
  - simpl. destruct (IH waits (onProgress capAt msg p s)) as (-> & -> & -> & -> & -> & ->).
    repeat split.
  - simpl. destruct waits as [|w ws].
    + apply IH.
    + destruct (IH ws (ticks w s)) as (-> & -> & -> & -> & -> & ->).
      apply ticks_keeps.
Qed.

Ltac state_fields :=
  cbn [url appState graphData videoList presentationData error statusMsg
       progress logs customInstructions timer timeout
       set_url set_appState set_graphData set_videoList set_presentationData
       set_error set_statusMsg set_progress set_logs set_customInstructions
       set_timer set_timeout addLog startProgressSimulation
       stopProgressSimulation].

Lemma handleAnalyze_failure (ai : Service) (waits : list nat) (s : State) (e : Exn) :
  truthy (url s) = true ->
  snd (analyzeChannelContent ai (ToString (url s))) = Throw e ->
  appState (handleAnalyze ai waits s) = IDLE /\
  timeout (handleAnalyze ai waits s) = timeout s /\
  same_stored_data s (handleAnalyze ai waits s).
Proof.
  intros Hu He. unfold handleAnalyze. rewrite Hu. simpl negb. cbv iota.
  state_fields.
  destruct (analyzeChannelContent ai (ToString (url s))) as [trace outcome].
  cbn [snd] in He. subst outcome.
  match goal with |- context [replay ?cb ?w ?t ?s0] =>
    destruct (replay_keeps 98 w t s0) as (Ha & _ & Ht & Hg & Hv & Hp) end.
  unfold same_stored_data. state_fields. repeat split; assumption.
Qed.

Lemma M_bind_lift {A B} (r : result A) (k : A -> M B) :
  M_bind (lift r) k =
    match r with
    | Ok a => k a
    | Throw e => ([], Throw e)
    end.
Proof. unfold M_bind, lift. destruct r; [destruct (k a)|]; reflexivity. Qed.

Lemma handleGeneratePresentation_failure (ai : Service) (waits : list nat)
    (s : State) (graphSummary : JSValue) (e : Exn) :
  truthy (graphData s) = true ->
  truthy (length_of (videoList s)) = true ->
  Get (graphData s) "summary" = Ok graphSummary ->
  snd (generateRebuttal ai (ToString (url s)) graphSummary (videoList s)
         (JStr (customInstructions s))) = Throw e ->
  appState (handleGeneratePresentation ai waits s) = DASHBOARD /\
  timeout (handleGeneratePresentation ai waits s) = timeout s /\
  same_stored_data s (handleGeneratePresentation ai waits s).
Proof.
  intros Hg Hv Hsum He. unfold handleGeneratePresentation.
  rewrite Hg, Hv. simpl negb. simpl orb. cbv iota zeta.
  match goal with |- context [replay _ _ _ ?s0] => set (s1 := s0) end.
  assert (graphData s1 = graphData s /\ url s1 = url s /\
          videoList s1 = videoList s /\
          customInstructions s1 = customInstructions s /\
          presentationData s1 = presentationData s /\
          timeout s1 = timeout s) as (F1 & F2 & F3 & F4 & F5 & F6).
  { subst s1. state_fields.
    destruct (customInstructions s) eqn:Ec; state_fields; rewrite ?Ec;
      repeat split. }
  rewrite F1, F2, F3, F4, Hsum, M_bind_lift.
  destruct (generateRebuttal _ _ _ _ _) as [trace outcome].
  cbn [snd] in He. subst outcome.
  destruct (replay_keeps 95 waits trace s1) as (Ha & _ & Ht & Hg' & Hv' & Hp').
  unfold same_stored_data. state_fields.
  rewrite Ht, Hg', Hv', Hp', F1, F3, F5, F6. repeat split.
Qed.

(** C5.  When [analyzeChannelContent] throws during [handleAnalyze],
    the page goes back to the idle state, which is the state the analysis
    form is offered in; when [generateRebuttal] throws during
    [handleGeneratePresentation], it goes back to the dashboard state,
    which is the state its button is offered in.  In both cases no
    transition is scheduled and the stored graph data, video list and
    presentation data are what they were before the operation. *)
Theorem failure_returns_to_prior_state (ai : Service) (waits : list nat)
    (s : State) (e : Exn) :
  (shows_analysis_form s = true ->
   truthy (url s) = true ->
   snd (analyzeChannelContent ai (ToString (url s))) = Throw e ->
   appState (handleAnalyze ai waits s) = IDLE /\
   appState (handleAnalyze ai waits s) = appState s /\
   timeout (handleAnalyze ai waits s) = timeout s /\
   same_stored_data s (handleAnalyze ai waits s)) /\
  (forall graphSummary,
   shows_dashboard s = true ->
   truthy (length_of (videoList s)) = true ->
   Get (graphData s) "summary" = Ok graphSummary ->
   snd (generateRebuttal ai (ToString (url s)) graphSummary (videoList s)
          (JStr (customInstructions s))) = Throw e ->
   appState (handleGeneratePresentation ai waits s) = DASHBOARD /\
   appState (handleGeneratePresentation ai waits s) = appState s /\
   timeout (handleGeneratePresentation ai waits s) = timeout s /\
   same_stored_data s (handleGeneratePresentation ai waits s)).
Proof.
  split.
  - intros Hshown Hu He.
    destruct (handleAnalyze_failure ai waits s e Hu He) as (Ha & Ht & Hd).
    unfold shows_analysis_form in Hshown.
    destruct (appState s) eqn:Es; try discriminate. rewrite Ha.
    repeat split; solve [assumption | apply Hd].
  - intros graphSummary Hshown Hv Hsum He.
    unfold shows_dashboard in Hshown.
    destruct (appState s) eqn:Es; try discriminate.
    destruct (handleGeneratePresentation_failure ai waits s graphSummary e
                Hshown Hv Hsum He) as (Ha & Ht & Hd).
    rewrite Ha. repeat split; solve [assumption | apply Hd].
Qed.

(** The theorem on the initial page and on a dashboard, against a
    service that is out of quota. *)
Lemma failure_returns_to_prior_state_witness :
  (appState (handleAnalyze Mock.failing_service [3; 2]%nat initial) = IDLE /\
   same_stored_data initial (handleAnalyze Mock.failing_service [3; 2]%nat initial)) /\
  (appState (handleGeneratePresentation Mock.failing_service [4]%nat Mock.dashboard)
     = DASHBOARD /\
   same_stored_data Mock.dashboard
     (handleGeneratePresentation Mock.failing_service [4]%nat Mock.dashboard)).
Proof.
  split.
  - destruct (failure_returns_to_prior_state Mock.failing_service [3; 2]%nat
                initial (Error (str "429 quota exceeded"))) as [H _].
    destruct H as (Ha & _ & _ & Hd);
      [reflexivity | reflexivity | vm_compute; reflexivity |].
    split; [exact Ha | exact Hd].
  - destruct (failure_returns_to_prior_state Mock.failing_service [4]%nat
                Mock.dashboard (Error (str "429 quota exceeded"))) as [_ H].
    destruct (H (JStr (str "A worldview."))) as (Ha & _ & _ & Hd);
      [reflexivity | reflexivity | reflexivity | vm_compute; reflexivity |].
    split; [exact Ha | exact Hd].
Defined.

(** ** Export and import *)

(** Induction on values, with the induction hypothesis for every element
    of an array and every property of an object. *)
Lemma JSValue_induction (P : JSValue -> Prop) :
  P JUndefined -> P JNull -> (forall b, P (JBool b)) -> (forall n, P (JNum n)) ->
  (forall s, P (JStr s)) ->
  (forall items, Forall P items -> P (JArr items)) ->
  (forall props, Forall (fun kv => P (snd kv)) props -> P (JObj props)) ->
  forall v, P v.
Proof.
  intros Hu Hn Hb Hnum Hs Ha Ho.
  fix IH 1.
  intros [| |b|n|s|items|props];
    [exact Hu | exact Hn | apply Hb | apply Hnum | apply Hs | | ].
  - apply Ha. induction items as [|x r IHr]; constructor; [apply IH | exact IHr].
  - apply Ho. induction props as [|[k x] r IHr]; constructor; [apply IH | exact IHr].
Qed.

Lemma same_data_lookup (k : jsstring) (props : list (jsstring * JSValue)) :
  Forall (fun kv => same_data (snd kv) (snd kv)) props ->
  option_Forall2 same_data (obj_lookup k props) (obj_lookup k props).
Proof.
  induction 1 as [|[k' v] r Hv _ IH]; simpl; [constructor|].
  destruct (jsstring_eqb k k'); [now constructor | exact IH].
Qed.

Lemma same_data_refl (v : JSValue) : same_data v v.
Proof.
  induction v as [| | | | |items IH|props IH] using JSValue_induction;
    try constructor.
  - induction IH; constructor; auto.
  - intros k. now apply same_data_lookup.
Qed.

(** *** Reading typed values does not depend on the order of keys *)

Lemma same_data_field (p q : list (jsstring * JSValue)) (key : string) :
  (forall k, option_Forall2 same_data (obj_lookup k p) (obj_lookup k q)) ->
  same_data (field p key) (field q key).
Proof.
  intros H. unfold field. destruct (H (str key)); [assumption | constructor].
Qed.

Lemma as_string_same (v v' : JSValue) :
  same_data v v' -> as_string v = as_string v'.
Proof. now destruct 1. Qed.

Lemma as_number_same (v v' : JSValue) :
  same_data v v' -> as_number v = as_number v'.
Proof. now destruct 1. Qed.

Lemma as_optional_same (v v' : JSValue) :
  same_data v v' -> as_optional v = as_optional v'.
Proof. now destruct 1. Qed.

Lemma as_list_same {A} (f : JSValue -> option A) (v v' : JSValue) :
  (forall x x', same_data x x' -> f x = f x') ->
  same_data v v' -> as_list f v = as_list f v'.
Proof.
  intros Hf. destruct 1 as [| | | | |a b Hab|]; try reflexivity.
  simpl. induction Hab as [|x y a b Hxy _ IH]; [reflexivity|].
  simpl. rewrite (Hf _ _ Hxy), IH. reflexivity.
Qed.

Lemma video_of_js_same (v v' : JSValue) :
  same_data v v' -> video_of_js v = video_of_js v'.
Proof.
  destruct 1 as [| | | | | |p q H]; try reflexivity. unfold video_of_js.
  rewrite (as_string_same _ _ (same_data_field p q "title" H)).
  rewrite (as_string_same _ _ (same_data_field p q "summary" H)).
  rewrite (as_optional_same _ _ (same_data_field p q "url" H)).
  rewrite (as_optional_same _ _ (same_data_field p q "publishDate" H)).
  reflexivity.
Qed.

Lemma node_of_js_same (v v' : JSValue) :
  same_data v v' -> node_of_js v = node_of_js v'.
Proof.
  destruct 1 as [| | | | | |p q H]; try reflexivity. unfold node_of_js.
  rewrite (as_string_same _ _ (same_data_field p q "id" H)).
  rewrite (as_number_same _ _ (same_data_field p q "group" H)).
  rewrite (as_optional_same _ _ (same_data_field p q "desc" H)).
  rewrite (as_optional_same _ _ (same_data_field p q "longDescription" H)).
  rewrite (as_number_same _ _ (same_data_field p q "relevance" H)).
  rewrite (as_number_same _ _ (same_data_field p q "popularity" H)).
  reflexivity.
Qed.

Lemma link_of_js_same (v v' : JSValue) :
  same_data v v' -> link_of_js v = link_of_js v'.
Proof.
  destruct 1 as [| | | | | |p q H]; try reflexivity. unfold link_of_js.
  rewrite (as_string_same _ _ (same_data_field p q "source" H)).
  rewrite (as_string_same _ _ (same_data_field p q "target" H)).
  rewrite (as_number_same _ _ (same_data_field p q "value" H)).
  reflexivity.
Qed.

Lemma graph_of_js_same (v v' : JSValue) :
  same_data v v' -> graph_of_js v = graph_of_js v'.
Proof.
  destruct 1 as [| | | | | |p q H]; try reflexivity. unfold graph_of_js.
  rewrite (as_list_same node_of_js _ _ node_of_js_same
             (same_data_field p q "nodes" H)).
  rewrite (as_list_same link_of_js _ _ link_of_js_same
             (same_data_field p q "links" H)).
  rewrite (as_string_same _ _ (same_data_field p q "summary" H)).
  reflexivity.
Qed.

Lemma videos_of_js_same (v v' : JSValue) :
  same_data v v' -> videos_of_js v = videos_of_js v'.
Proof. apply as_list_same. exact video_of_js_same. Qed.

(** *** Typed values are read back from their runtime objects *)

Lemma all_some_map {A B} (f : B -> option A) (g : A -> B) (l : list A) :
  (forall x, f (g x) = Some x) ->
  all_some (List.map f (List.map g l)) = Some l.
Proof.
  intros H. induction l as [|x r IH]; simpl; [reflexivity|].
  now rewrite H, IH.
Qed.

Lemma video_of_js_of_video (v : VideoData) : video_of_js (js_of_video v) = Some v.
Proof. destruct v as [t s [u|] [d|]]; reflexivity. Qed.

Lemma node_of_js_of_node (n : GraphNode) : node_of_js (js_of_node n) = Some n.
Proof. destruct n as [i g [d|] [l|] r p]; reflexivity. Qed.

Lemma link_of_js_of_link (l : GraphLink) : link_of_js (js_of_link l) = Some l.
Proof. destruct l; reflexivity. Qed.

Lemma videos_of_js_of_videos (vs : list VideoData) :
  videos_of_js (js_of_videos vs) = Some vs.
Proof. apply all_some_map. exact video_of_js_of_video. Qed.

(** *** The exported document *)

Lemma mapM_map {A B C} (f : B -> result C) (g : A -> B) (h : A -> C) (l : list A) :
  (forall x, f (g x) = Ok (h x)) ->
  mapM f (List.map g l) = Ok (List.map h l).
Proof.
  intros H. induction l as [|x r IH]; simpl; [reflexivity|].
  now rewrite H, IH.
Qed.

Lemma all_some_map2 {A B C} (f : B -> option C) (g : A -> B) (h : A -> C)
    (l : list A) :
  (forall x, f (g x) = Some (h x)) ->
  all_some (List.map f (List.map g l)) = Some (List.map h l).
Proof.
  intros H. induction l as [|x r IH]; simpl; [reflexivity|].
  now rewrite H, IH.
Qed.



Lemma node_of_exported (n : GraphNode) :
  node_of_js (js_of_exported_node n) = Some (exported_node n).
Proof. destruct n as [i g [d|] [l|] r p]; reflexivity. Qed.



Lemma same_data_obj (p : list (jsstring * JSValue)) (v' : JSValue) :
  same_data (JObj p) v' ->
  exists q, v' = JObj q /\
            forall k, option_Forall2 same_data (obj_lookup k p) (obj_lookup k q).
Proof. inversion 1; subst. eauto. Qed.

Lemma same_data_arr (a : list JSValue) (v' : JSValue) :
  same_data (JArr a) v' -> exists b, v' = JArr b.
Proof. inversion 1; subst. eauto. Qed.

Lemma same_data_str (s : jsstring) (v' : JSValue) :
  same_data (JStr s) v' -> v' = JStr s.
Proof. now inversion 1. Qed.






(** *** The export of a page whose data reads as typed values *)

Lemma as_string_inv (v : JSValue) (x : jsstring) :
  as_string v = Some x -> v = JStr x.
Proof. destruct v; try discriminate. now intros [= ->]. Qed.

Lemma as_number_inv (v : JSValue) (x : JSNumber) :
  as_number v = Some x -> v = JNum x.
Proof. destruct v; try discriminate. now intros [= ->]. Qed.

Lemma as_optional_inv (v : JSValue) (o : option jsstring) :
  as_optional v = Some o ->
  v = match o with Some x => JStr x | None => JUndefined end.
Proof. destruct v; try discriminate; now intros [= <-]. Qed.

Lemma as_list_inv {A} (f : JSValue -> option A) (v : JSValue) (ys : list A) :
  as_list f v = Some ys ->
  exists items, v = JArr items /\ all_some (List.map f items) = Some ys.
Proof. destruct v; try discriminate. eauto. Qed.

Lemma all_some_mapM {A} (f : JSValue -> option A) (e : JSValue -> result JSValue)
    (h : A -> JSValue) (items : list JSValue) (ys : list A) :
  (forall x y, f x = Some y -> e x = Ok (h y)) ->
  all_some (List.map f items) = Some ys ->
  mapM e items = Ok (List.map h ys).
Proof.
  intros Hf. revert ys. induction items as [|x r IH]; intros ys H.
  - injection H as <-. reflexivity.
  - cbn [List.map all_some] in H.
    destruct (f x) as [y|] eqn:Ex; [|discriminate].
    destruct (all_some (List.map f r)) as [ys'|]; [|discriminate].
    injection H as <-. cbn [mapM List.map].
    rewrite (Hf x y Ex), (IH ys' eq_refl). reflexivity.
Qed.

(** The export of a node reads its six fields wherever they stand. *)
Lemma export_node_read (v : JSValue) (n : GraphNode) :
  node_of_js v = Some n -> export_node v = Ok (js_of_exported_node n).
Proof.
  destruct v as [| | | | | |p]; try discriminate. cbn [node_of_js]. intros H.
  destruct (as_string (field p "id")) as [i|] eqn:Ei; [|discriminate].
  destruct (as_number (field p "group")) as [g|] eqn:Eg; [|discriminate].
  destruct (as_optional (field p "desc")) as [d|] eqn:Ed; [|discriminate].
  destruct (as_optional (field p "longDescription")) as [l|] eqn:El;
    [|discriminate].
  destruct (as_number (field p "relevance")) as [r|] eqn:Er; [|discriminate].
  destruct (as_number (field p "popularity")) as [q|] eqn:Eq; [|discriminate].
  injection H as <-.
  apply as_string_inv in Ei. apply as_number_inv in Eg, Er, Eq.
  apply as_optional_inv in Ed, El.
  unfold export_node, js_of_exported_node. cbn [Get bind].
  fold (field p "id"). fold (field p "group"). fold (field p "relevance").
  fold (field p "popularity"). fold (field p "desc").
  fold (field p "longDescription").
  rewrite Ei, Eg, Er, Eq, Ed, El.
  cbn [id group relevance popularity desc longDescription].
  destruct d as [[|c0 d]|], l as [[|c1 l]|]; reflexivity.
Qed.

Lemma export_link_read (v : JSValue) (l : GraphLink) :
  link_of_js v = Some l -> export_link v = Ok (js_of_link l).
Proof.
  destruct v as [| | | | | |p]; try discriminate. cbn [link_of_js]. intros H.
  destruct (as_string (field p "source")) as [a|] eqn:Es; [|discriminate].
  destruct (as_string (field p "target")) as [b|] eqn:Et; [|discriminate].
  destruct (as_number (field p "value")) as [x|] eqn:Ev; [|discriminate].
  injection H as <-.
  apply as_string_inv in Es, Et. apply as_number_inv in Ev.
  unfold export_link, js_of_link. cbn [Get bind].
  fold (field p "source"). fold (field p "target"). fold (field p "value").
  rewrite Es, Et, Ev. reflexivity.
Qed.

(** The document built from a page whose graph reads as [g]. *)
Lemma exportData_read (now : jsstring) (s : State)
    (p : list (jsstring * JSValue)) (g : TopicGraphData) :
  graphData s = JObj p -> graph_of_js (JObj p) = Some g ->
  exportData now s =
    Ok (JObj [(str "meta", JObj [(str "timestamp", JStr now); (str "url", url s)]);
              (str "videos", videoList s);
              (str "graph", JObj (exported_graph_object p g))]).
Proof.
  intros Hs Hg. cbn [graph_of_js] in Hg.
  destruct (as_list node_of_js (field p "nodes")) as [ns|] eqn:En; [|discriminate].
  destruct (as_list link_of_js (field p "links")) as [ls|] eqn:El; [|discriminate].
  destruct (as_string (field p "summary")) as [sm|]; [|discriminate].
  injection Hg as <-.
  apply as_list_inv in En as (nitems & En & Hn).
  apply as_list_inv in El as (litems & El & Hl).
  unfold exportData, exported_graph_object. rewrite Hs. cbn [Get spread bind].
  fold (field p "nodes"). fold (field p "links"). rewrite En, El.
  cbn [array_map].
  rewrite (all_some_mapM node_of_js export_node js_of_exported_node
             nitems ns export_node_read Hn).
  cbn [bind].
  rewrite (all_some_mapM link_of_js export_link js_of_link
             litems ls export_link_read Hl).
  reflexivity.
Qed.

(** The graph object that is written reads as the graph of the page with
    its missing descriptions filled. *)
Lemma exported_graph_object_read (p : list (jsstring * JSValue))
    (g : TopicGraphData) :
  graph_of_js (JObj p) = Some g ->
  graph_of_js (JObj (exported_graph_object p g)) = Some (exported_graph g).
Proof.
  intros Hg. cbn [graph_of_js] in Hg |- *.
  destruct (as_list node_of_js (field p "nodes")) as [ns|]; [|discriminate].
  destruct (as_list link_of_js (field p "links")) as [ls|]; [|discriminate].
  destruct (as_string (field p "summary")) as [sm|] eqn:Esm; [|discriminate].
  injection Hg as <-. unfold exported_graph_object, field.
  cbn [nodes links summary].
  rewrite obj_lookup_set_other by discriminate.
  rewrite obj_lookup_set, obj_lookup_set.
  rewrite !obj_lookup_set_other by discriminate.
  fold (field p "summary"). rewrite Esm. cbn [as_list].
  rewrite (all_some_map2 node_of_js js_of_exported_node exported_node _
             node_of_exported).
  rewrite (all_some_map link_of_js js_of_link _ link_of_js_of_link).
  reflexivity.
Qed.

(** Importing a text that parses to the data of a document with a
    channel URL, a list of videos and a graph object. *)
Lemma import_of_document (parse : jsstring -> result JSValue)
    (now text u : jsstring) (vitems : list JSValue)
    (cg : list (jsstring * JSValue)) (v' : JSValue) (s0 : State) :
  u <> [] ->
  parse text = Ok v' ->
  same_data
    (JObj [(str "meta", JObj [(str "timestamp", JStr now); (str "url", JStr u)]);
           (str "videos", JArr vitems);
           (str "graph", JObj cg)]) v' ->
  url (handleImport parse text s0) = JStr u /\
  same_data (JArr vitems) (videoList (handleImport parse text s0)) /\
  same_data (JObj cg) (graphData (handleImport parse text s0)) /\
  timeout (handleImport parse text s0) = Some DASHBOARD.
Proof.
  intros Hu Hparse Hsame.
  apply same_data_obj in Hsame as (q & -> & Hq).
  pose proof (same_data_field _ q "graph" Hq) as Hgraph.
  pose proof (same_data_field _ q "videos" Hq) as Hvideos.
  pose proof (same_data_field _ q "meta" Hq) as Hmeta.
  change (field _ "graph") with (JObj cg) in Hgraph at 1.
  change (field _ "videos") with (JArr vitems) in Hvideos at 1.
  change (field _ "meta") with
    (JObj [(str "timestamp", JStr now); (str "url", JStr u)]) in Hmeta at 1.
  pose proof Hgraph as Sg. pose proof Hvideos as Sv.
  apply same_data_obj in Hgraph as (gq & Eg & _).
  apply same_data_arr in Hvideos as (vq & Ev).
  apply same_data_obj in Hmeta as (mq & Em & Hmq).
  pose proof (same_data_field _ mq "url" Hmq) as Hurl.
  change (field _ "url") with (JStr u) in Hurl at 1.
  apply same_data_str in Hurl.
  unfold handleImport, read_import. rewrite Hparse. cbn [bind Get].
  fold (field q "graph"). fold (field q "videos"). fold (field q "meta").
  rewrite Eg, Ev, Em. cbn [truthy negb bind GetOpt Get].
  fold (field mq "url"). rewrite Hurl.
  assert (truthy (JStr u) = true) as -> by (destruct u; [congruence | reflexivity]).
  state_fields. rewrite <- Eg, <- Ev. auto.
Qed.

(** C4 as the specification states it fails: a node that has no
    description comes back with the empty string as its description.
    The codec used here is lossless on the exported document, so the
    change is the export's own. *)
Lemma export_import_fills_descriptions :
  let stringify := fun v => Ok (JSON.stringify v) in
  exists text,
    snd (handleExport stringify (str "2026-01-01T00:00:00.000Z") Mock.dashboard)
      = Some text /\
    JSON.parse text =
      Ok (exported_document (str "2026-01-01T00:00:00.000Z")
            (url Mock.dashboard) Mock.small_videos Mock.small_graph) /\
    graph_of_js (graphData (handleImport JSON.parse text initial))
      = Some (exported_graph Mock.small_graph) /\
    graph_of_js (graphData Mock.dashboard) = Some Mock.small_graph /\
    exported_graph Mock.small_graph <> Mock.small_graph.
Proof.
  eexists. split; [vm_compute; reflexivity|].
  split; [vm_compute; reflexivity|].
  split; [vm_compute; reflexivity|].
  split; [vm_compute; reflexivity|].
  vm_compute. discriminate.
Qed.

(** C4, amended.  For a page state whose graph data and video list
    read as well-typed values, whatever the order of the keys of their
    objects and whatever other keys these have, and whose channel URL is
    a non-empty string, and a TOML library that takes the document the
    export builds to a text and back to the same data: exporting and
    then importing the text, into any page state, restores the channel
    URL, the video list as it was, and the graph with the same links,
    the same summary and the same nodes (ids, groups, scores and
    descriptions), except that a description that was missing is now the
    empty string; the page then moves to the dashboard. *)
Theorem export_import_round_trip
    (stringify : JSValue -> result jsstring) (parse : jsstring -> result JSValue)
    (now u : jsstring) (vs : list VideoData) (g : TopicGraphData)
    (s s0 : State) :
  url s = JStr u -> u <> [] ->
  graph_of_js (graphData s) = Some g ->
  videos_of_js (videoList s) = Some vs ->
  (forall doc, exportData now s = Ok doc -> round_trips stringify parse doc) ->
  exists text,
    handleExport stringify now s = (s, Some text) /\
    url (handleImport parse text s0) = JStr u /\
    same_data (videoList s) (videoList (handleImport parse text s0)) /\
    videos_of_js (videoList (handleImport parse text s0)) = Some vs /\
    graph_of_js (graphData (handleImport parse text s0)) =
      Some (exported_graph g) /\
    fire_timeout (handleImport parse text s0) =
      set_timeout None (set_appState DASHBOARD (handleImport parse text s0)).
Proof.
  intros Hurl Hu Hg Hv Hcodec.
  destruct (graphData s) as [| | | | | |p] eqn:Es; try discriminate Hg.
  destruct (videoList s) as [| | | | |vitems|] eqn:Ev; try discriminate Hv.
  pose proof (exportData_read now s p g Es Hg) as Hdoc.
  rewrite Hurl, Ev in Hdoc.
  destruct (Hcodec _ Hdoc) as (text & v' & Hs & Hp & Hsame).
  exists text. split.
  - unfold handleExport. rewrite Es at 1. cbn [truthy negb].
    rewrite Hdoc. cbn [bind]. now rewrite Hs.
  - destruct (import_of_document parse now text u vitems _ v' s0 Hu Hp Hsame)
      as (H1 & H2 & H3 & H4).
    split; [exact H1|]. split; [exact H2|].
    split; [now rewrite <- (videos_of_js_same _ _ H2)|].
    split.
    + rewrite <- (graph_of_js_same _ _ H3).
      now apply exported_graph_object_read.
    + unfold fire_timeout. now rewrite H4.
Qed.

(** The theorem with JSON standing in for the TOML library, on the
    dashboard that an analysis leaves behind when the model orders the
    keys of its nodes and links in its own way. *)
Lemma export_import_round_trip_witness :
  let s := fire_timeout (handleAnalyze Mock.tidy_model [] initial) in
  appState s = DASHBOARD /\
  graphData s <> js_of_graph Mock.small_graph /\
  exists text,
    handleExport (fun v => Ok (JSON.stringify v)) (str "2026-01-01T00:00:00.000Z")
      s = (s, Some text) /\
    url (handleImport JSON.parse text initial) = url s /\
    videos_of_js (videoList (handleImport JSON.parse text initial))
      = Some Mock.small_videos /\
    graph_of_js (graphData (handleImport JSON.parse text initial))
      = Some (exported_graph Mock.small_graph).
Proof.
  intros s. split; [vm_compute; reflexivity|].
  split; [vm_compute; discriminate|].
  destruct (export_import_round_trip
              (fun v => Ok (JSON.stringify v)) JSON.parse
              (str "2026-01-01T00:00:00.000Z") DEFAULT_CHANNEL_URL
              Mock.small_videos Mock.small_graph s initial)
    as (text & H1 & H2 & _ & H3 & H4 & _).
  - vm_compute. reflexivity.
  - discriminate.
  - vm_compute. reflexivity.
  - vm_compute. reflexivity.
  - intros doc Hdoc. vm_compute in Hdoc. injection Hdoc as <-.
    eexists _, _. split; [reflexivity|]. split; [vm_compute; reflexivity|].
    apply same_data_refl.
  - exists text. auto.
Defined.

(** ** Valid JSON under the scan of the repair *)

Lemma near_balanced_app (st : scan_state) (a b : jsstring) :
  near_balanced_from st (a ++ b) =
    near_balanced_from st a && near_balanced_from (scan st a) b.
Proof.
  revert st. induction a as [|c r IH]; intros st; [reflexivity|].
  simpl. rewrite IH. now rewrite andb_assoc.
Qed.

Lemma scans_nil (st : scan_state) : scans st [] st.
Proof. split; reflexivity. Qed.

Lemma scans_app (st st1 st2 : scan_state) (a b : jsstring) :
  scans st a st1 -> scans st1 b st2 -> scans st (a ++ b) st2.
Proof.
  intros [Ha Na] [Hb Nb]. split.
  - now rewrite scan_app, Ha.
  - now rewrite near_balanced_app, Na, Ha, Nb.
Qed.

Lemma scans_cons (st st2 : scan_state) (c : N) (b : jsstring) :
  scans st [c] (scan_step st c) -> scans (scan_step st c) b st2 ->
  scans st (c :: b) st2.
Proof. intros H1 H2. exact (scans_app st _ st2 [c] b H1 H2). Qed.

(** Outside a string a quiet code unit leaves the state as it is. *)
Lemma scans_quiet_one (stk : list N) (c : N) :
  quiet c = true -> scans (Scan stk false false) [c] (Scan stk false false).
Proof.
  unfold quiet. rewrite negb_true_iff, !orb_false_iff.
  intros (((((Hq & Hb) & Ho) & Ha) & Hc) & Hd).
  split; unfold scan, near_balanced_from, scan_step; simpl;
    rewrite ?Hq, ?Hb, ?Ho, ?Ha, ?Hc, ?Hd; reflexivity.
Qed.

Lemma scans_quiet (stk : list N) (piece : jsstring) :
  forallb quiet piece = true ->
  scans (Scan stk false false) piece (Scan stk false false).
Proof.
  induction piece as [|c r IH]; simpl; [intros _; apply scans_nil|].
  intros H. apply andb_prop in H as [Hc Hr].
  apply (scans_app _ (Scan stk false false) _ [c] r);
    [now apply scans_quiet_one | now apply IH].
Qed.

(** Inside a string, a code unit that is neither a quote nor a
    backslash leaves the state as it is, and so does a backslash
    followed by any code unit. *)
Lemma scans_in_string_one (stk : list N) (c : N) :
  (c =? dquote) = false -> (c =? chr "\") = false ->
  scans (Scan stk true false) [c] (Scan stk true false).
Proof.
  intros Hq Hb.
  split; unfold scan, near_balanced_from, scan_step; simpl;
    rewrite ?Hq, ?Hb; reflexivity.
Qed.

Lemma scans_in_string_escape (stk : list N) (e : N) :
  scans (Scan stk true false) [chr "\"; e] (Scan stk true false).
Proof.
  split; unfold scan, near_balanced_from, scan_step; simpl;
    rewrite ?andb_false_r; destruct (e =? chr "\"); reflexivity.
Qed.

Lemma scans_close_string (stk : list N) :
  scans (Scan stk true false) [dquote] (Scan stk false false).
Proof. split; reflexivity. Qed.

Lemma scans_open_string (stk : list N) :
  scans (Scan stk false false) [dquote] (Scan stk true false).
Proof. split; reflexivity. Qed.

Lemma scans_open (stk : list N) (c closer : N) :
  (c = chr "{" /\ closer = chr "}") \/ (c = chr "[" /\ closer = chr "]") ->
  scans (Scan stk false false) [c] (Scan (closer :: stk) false false).
Proof. intros [[-> ->] | [-> ->]]; split; reflexivity. Qed.

Lemma scans_close (stk : list N) (closer : N) :
  is_closer closer = true ->
  scans (Scan (closer :: stk) false false) [closer] (Scan stk false false).
Proof.
  intros H. unfold is_closer in H.
  apply orb_prop in H as [H | H]; apply N.eqb_eq in H; subst closer;
    split; reflexivity.
Qed.

Lemma scans_to_refl (st : scan_state) (s : jsstring) : scans_to st s s st.
Proof. exists []. split; [reflexivity | apply scans_nil]. Qed.

Lemma scans_to_trans (st st1 st2 : scan_state) (s r1 r : jsstring) :
  scans_to st s r1 st1 -> scans_to st1 r1 r st2 -> scans_to st s r st2.
Proof.
  intros (p1 & -> & H1) (p2 & -> & H2). exists (p1 ++ p2).
  split; [now rewrite app_assoc | now apply (scans_app _ st1)].
Qed.

Lemma scans_to_one (st st' : scan_state) (c : N) (r : jsstring) :
  scans st [c] st' -> scans_to st (c :: r) r st'.
Proof. intros H. exists [c]. split; [reflexivity | exact H]. Qed.

Lemma scans_to_quiet (stk : list N) (piece r : jsstring) :
  forallb quiet piece = true ->
  scans_to (Scan stk false false) (piece ++ r) r (Scan stk false false).
Proof. intros H. exists piece. split; [reflexivity | now apply scans_quiet]. Qed.

Lemma scans_to_no_longer (st st' : scan_state) (s r : jsstring) :
  scans_to st s r st' -> (length r <= length s)%nat.
Proof. intros (piece & -> & _). rewrite length_app. lia. Qed.

Lemma json_ws_quiet (c : N) : JSON.is_json_ws c = true -> quiet c = true.
Proof.
  unfold JSON.is_json_ws. rewrite !orb_true_iff.
  intros [[[H|H]|H]|H]; apply N.eqb_eq in H; subst c; reflexivity.
Qed.

Lemma digit_quiet (c : N) : is_digit c = true -> quiet c = true.
Proof.
  unfold is_digit, quiet. intros H. apply andb_prop in H as [H1 H2].
  apply N.leb_le in H1, H2. rewrite negb_true_iff, !orb_false_iff.
  repeat split; apply N.eqb_neq; unfold dquote, chr; simpl; lia.
Qed.

Lemma forallb_impl (p q : N -> bool) (s : jsstring) :
  (forall c, p c = true -> q c = true) ->
  forallb p s = true -> forallb q s = true.
Proof.
  intros H. induction s as [|c r IH]; simpl; [reflexivity|].
  intros Hs. apply andb_prop in Hs as [Hc Hr]. now rewrite (H _ Hc), IH.
Qed.

Lemma scans_to_drop_while (p : N -> bool) (stk : list N) (s : jsstring) :
  (forall c, p c = true -> quiet c = true) ->
  scans_to (Scan stk false false) s (drop_while p s) (Scan stk false false).
Proof.
  intros Hp. rewrite <- (take_drop_while p s) at 1.
  apply scans_to_quiet. apply (forallb_impl p); [exact Hp | apply take_while_all].
Qed.

Lemma scans_to_skip_ws (stk : list N) (s : jsstring) :
  scans_to (Scan stk false false) s (JSON.skip_ws s) (Scan stk false false).
Proof. apply scans_to_drop_while. exact json_ws_quiet. Qed.

(** *** Literals, numbers and strings *)

Lemma expect_parsed (lit s r : jsstring) (u : unit) :
  JSON.expect lit s = JSON.Parsed u r -> s = lit ++ r.
Proof.
  revert s. induction lit as [|a lit IH]; intros s; simpl.
  - now intros [= <-].
  - destruct s as [|b s']; [discriminate|].
    destruct (a =? b) eqn:E; [|discriminate].
    apply N.eqb_eq in E. subst b. intros H. now rewrite (IH _ H).
Qed.

Lemma hex_not_special (h : N) (z : Z) :
  hex_value h = Some z -> (h =? dquote) = false /\ (h =? chr "\") = false.
Proof.
  unfold hex_value, is_digit.
  destruct ((48 <=? h) && (h <=? 57)) eqn:E1.
  - intros _. apply andb_prop in E1 as [H1 H2]. apply N.leb_le in H1, H2.
    split; apply N.eqb_neq; unfold dquote, chr; simpl; lia.
  - destruct ((97 <=? h) && (h <=? 102)) eqn:E2.
    + intros _. apply andb_prop in E2 as [H1 H2]. apply N.leb_le in H1, H2.
      split; apply N.eqb_neq; unfold dquote, chr; simpl; lia.
    + destruct ((65 <=? h) && (h <=? 70)) eqn:E3; [|discriminate].
      intros _. apply andb_prop in E3 as [H1 H2]. apply N.leb_le in H1, H2.
      split; apply N.eqb_neq; unfold dquote, chr; simpl; lia.
Qed.

(** A string literal, from after its opening quote to after its closing
    quote, takes the scan from inside a string to outside. *)
Lemma parse_string_body_scans (s acc x r : jsstring) (stk : list N) :
  JSON.parse_string_body s acc = JSON.Parsed x r ->
  scans_to (Scan stk true false) s r (Scan stk false false).
Proof.
  remember (length s) as n eqn:Hn. revert s acc Hn.
  induction n as [n IH] using lt_wf_ind. intros s acc Hn H.
  destruct s as [|c r0]; [discriminate|]. simpl in H.
  destruct (c =? dquote) eqn:Eq.
  { apply N.eqb_eq in Eq. subst c. injection H as _ <-.
    apply scans_to_one, scans_close_string. }
  destruct (c =? chr "\") eqn:Eb.
  { apply N.eqb_eq in Eb. subst c.
    destruct r0 as [|e r1]; [discriminate|].
    apply (scans_to_trans _ (Scan stk true false) _ _ r1).
    { exists [chr "\"; e]. split; [reflexivity | apply scans_in_string_escape]. }
    destruct (JSON.simple_escape e) as [y|].
    { eapply (IH (length r1)); [subst n; simpl; lia | reflexivity | exact H]. }
    destruct (e =? chr "u"); [|discriminate].
    destruct r1 as [|h1 [|h2 [|h3 [|h4 r2]]]]; try discriminate.
    destruct (hex_value h1) as [a|] eqn:E1; [|discriminate].
    destruct (hex_value h2) as [b|] eqn:E2; [|discriminate].
    destruct (hex_value h3) as [c'|] eqn:E3; [|discriminate].
    destruct (hex_value h4) as [d|] eqn:E4; [|discriminate].
    apply hex_not_special in E1 as [? ?], E2 as [? ?], E3 as [? ?], E4 as [? ?].
    apply (scans_to_trans _ (Scan stk true false) _ _ (h2 :: h3 :: h4 :: r2));
      [now apply scans_to_one, scans_in_string_one|].
    apply (scans_to_trans _ (Scan stk true false) _ _ (h3 :: h4 :: r2));
      [now apply scans_to_one, scans_in_string_one|].
    apply (scans_to_trans _ (Scan stk true false) _ _ (h4 :: r2));
      [now apply scans_to_one, scans_in_string_one|].
    apply (scans_to_trans _ (Scan stk true false) _ _ r2);
      [now apply scans_to_one, scans_in_string_one|].
    eapply (IH (length r2)); [subst n; simpl; lia | reflexivity | exact H]. }
  destruct (c <? 32); [discriminate|].
  apply (scans_to_trans _ (Scan stk true false) _ _ r0);
    [now apply scans_to_one, scans_in_string_one|].
  eapply (IH (length r0)); [subst n; simpl; lia | reflexivity | exact H].
Qed.

Lemma parse_fraction_scans (s fp r : jsstring) (stk : list N) :
  JSON.parse_fraction s = JSON.Parsed fp r ->
  scans_to (Scan stk false false) s r (Scan stk false false).
Proof.
  unfold JSON.parse_fraction. destruct s as [|c s'].
  - intros [= _ <-]. apply scans_to_refl.
  - destruct (c =? chr ".") eqn:E.
    + apply N.eqb_eq in E. subst c.
      destruct (take_while is_digit s'); [discriminate|]. intros [= _ <-].
      apply (scans_to_trans _ (Scan stk false false) _ _ s').
      * apply scans_to_one. now apply scans_quiet_one.
      * apply scans_to_drop_while. exact digit_quiet.
    + intros [= _ <-]. apply scans_to_refl.
Qed.

Lemma parse_exponent_scans (s : jsstring) (e : Z) (r : jsstring) (stk : list N) :
  JSON.parse_exponent s = JSON.Parsed e r ->
  scans_to (Scan stk false false) s r (Scan stk false false).
Proof.
  unfold JSON.parse_exponent. destruct s as [|c s'].
  - intros [= _ <-]. apply scans_to_refl.
  - destruct ((c =? chr "e") || (c =? chr "E")) eqn:E.
    + assert (quiet c = true) as Hc.
      { apply orb_prop in E as [E|E]; apply N.eqb_eq in E; subst c; reflexivity. }
      assert (forall r1, scans_to (Scan stk false false) r1 (drop_while is_digit r1)
                           (Scan stk false false)) as Hdigits.
      { intros r1. apply scans_to_drop_while. exact digit_quiet. }
      intros H.
      apply (scans_to_trans _ (Scan stk false false) _ _ s');
        [now apply scans_to_one, scans_quiet_one|].
      revert H. destruct s' as [|sgn r'].
      * simpl. discriminate.
      * destruct (sgn =? chr "-") eqn:Em.
        { apply N.eqb_eq in Em. subst sgn.
          destruct (take_while is_digit r'); [discriminate|]. intros [= _ <-].
          apply (scans_to_trans _ (Scan stk false false) _ _ r');
            [now apply scans_to_one, scans_quiet_one | apply Hdigits]. }
        destruct (sgn =? chr "+") eqn:Ep.
        { apply N.eqb_eq in Ep. subst sgn.
          destruct (take_while is_digit r'); [discriminate|]. intros [= _ <-].
          apply (scans_to_trans _ (Scan stk false false) _ _ r');
            [now apply scans_to_one, scans_quiet_one | apply Hdigits]. }
        destruct (take_while is_digit (sgn :: r')); [discriminate|].
        intros [= _ <-]. apply Hdigits.
    + intros [= _ <-]. apply scans_to_refl.
Qed.

Lemma parse_tail_scans (negative : bool) (ip s2 : jsstring) (x : JSNumber)
    (r : jsstring) (stk : list N) :
  JSON.parse_tail negative ip s2 = JSON.Parsed x r ->
  scans_to (Scan stk false false) s2 r (Scan stk false false).
Proof.
  unfold JSON.parse_tail. intros H.
  destruct (JSON.parse_fraction s2) as [fp s3| |] eqn:Ef; try discriminate.
  destruct (JSON.parse_exponent s3) as [e s4| |] eqn:Ee; try discriminate.
  injection H as _ <-.
  eapply scans_to_trans; [eapply parse_fraction_scans; exact Ef|].
  eapply parse_exponent_scans; exact Ee.
Qed.

Lemma parse_unsigned_scans (negative : bool) (s1 : jsstring) (x : JSNumber)
    (r : jsstring) (stk : list N) :
  JSON.parse_unsigned negative s1 = JSON.Parsed x r ->
  scans_to (Scan stk false false) s1 r (Scan stk false false) /\
  (length r < length s1)%nat.
Proof.
  unfold JSON.parse_unsigned. destruct s1 as [|d r0]; [discriminate|].
  destruct (is_digit d) eqn:Ed; [|discriminate]. apply digit_quiet in Ed.
  destruct (d =? chr "0"); intros H.
  - pose proof (parse_tail_scans _ _ _ _ _ stk H) as Ht. split.
    + eapply scans_to_trans; [|exact Ht].
      now apply scans_to_one, scans_quiet_one.
    + apply scans_to_no_longer in Ht. simpl. lia.
  - pose proof (parse_tail_scans _ _ _ _ _ stk H) as Ht. split.
    + apply (scans_to_trans _ (Scan stk false false) _ _ r0);
        [now apply scans_to_one, scans_quiet_one|].
      eapply scans_to_trans; [|exact Ht].
      apply scans_to_drop_while. exact digit_quiet.
    + apply scans_to_no_longer in Ht.
      pose proof (length_take_drop_while is_digit r0). simpl. lia.
Qed.

Lemma parse_number_scans (s : jsstring) (x : JSNumber) (r : jsstring) (stk : list N) :
  JSON.parse_number s = JSON.Parsed x r ->
  scans_to (Scan stk false false) s r (Scan stk false false) /\
  (length r < length s)%nat.
Proof.
  unfold JSON.parse_number. destruct s as [|c r0]; [discriminate|].
  destruct (c =? chr "-") eqn:Em; intros H.
  - apply N.eqb_eq in Em. subst c.
    apply (parse_unsigned_scans _ _ _ _ stk) in H as [Hs Hl]. split.
    + apply (scans_to_trans _ (Scan stk false false) _ _ r0);
        [now apply scans_to_one, scans_quiet_one | exact Hs].
    + simpl. lia.
  - exact (parse_unsigned_scans _ _ _ _ stk H).
Qed.

(** *** Values *)

Ltac over_ws s :=
  eapply scans_to_trans; [apply (scans_to_skip_ws _ s)|].

Ltac over_one lemma :=
  eapply scans_to_trans; [apply scans_to_one; lemma|].

Lemma parse_value_step (f : nat) :
  elements_scan f -> members_scan f -> value_scans (S f).
Proof.
  intros He Hm s v r stk H.
  cbn [JSON.parse_value JSON.parse_elements JSON.parse_members] in H. over_ws s.
  destruct (JSON.skip_ws s) as [|c r0]; [discriminate|].
  destruct (c =? chr "{") eqn:E1.
  { apply N.eqb_eq in E1. subst c.
    over_one ltac:(apply (scans_open stk _ (chr "}")); tauto).
    over_ws r0.
    destruct (JSON.skip_ws r0) as [|d r']; [discriminate|].
    destruct (d =? chr "}") eqn:Ed.
    - apply N.eqb_eq in Ed. subst d. injection H as _ <-.
      apply scans_to_one. now apply scans_close.
    - eapply Hm. exact H. }
  destruct (c =? chr "[") eqn:E2.
  { apply N.eqb_eq in E2. subst c.
    over_one ltac:(apply (scans_open stk _ (chr "]")); tauto).
    over_ws r0.
    destruct (JSON.skip_ws r0) as [|d r']; [discriminate|].
    destruct (d =? chr "]") eqn:Ed.
    - apply N.eqb_eq in Ed. subst d. injection H as _ <-.
      apply scans_to_one. now apply scans_close.
    - eapply He. exact H. }
  destruct (c =? dquote) eqn:E3.
  { apply N.eqb_eq in E3. subst c.
    over_one ltac:(apply scans_open_string).
    destruct (JSON.parse_string_body r0 []) as [x r'| |] eqn:Es; try discriminate.
    injection H as _ <-. eapply parse_string_body_scans. exact Es. }
  destruct (c =? chr "t") eqn:E4.
  { apply N.eqb_eq in E4. subst c.
    destruct (JSON.expect (str "rue") r0) as [u r'| |] eqn:Ex; try discriminate.
    injection H as _ <-. apply expect_parsed in Ex. subst r0.
    apply (scans_to_quiet stk (chr "t" :: str "rue") r'). reflexivity. }
  destruct (c =? chr "f") eqn:E5.
  { apply N.eqb_eq in E5. subst c.
    destruct (JSON.expect (str "alse") r0) as [u r'| |] eqn:Ex; try discriminate.
    injection H as _ <-. apply expect_parsed in Ex. subst r0.
    apply (scans_to_quiet stk (chr "f" :: str "alse") r'). reflexivity. }
  destruct (c =? chr "n") eqn:E6.
  { apply N.eqb_eq in E6. subst c.
    destruct (JSON.expect (str "ull") r0) as [u r'| |] eqn:Ex; try discriminate.
    injection H as _ <-. apply expect_parsed in Ex. subst r0.
    apply (scans_to_quiet stk (chr "n" :: str "ull") r'). reflexivity. }
  destruct (JSON.parse_number (c :: r0)) as [x r'| |] eqn:En; try discriminate.
  injection H as _ <-. now apply (parse_number_scans _ _ _ stk) in En.
Qed.

Lemma parse_elements_step (f : nat) :
  value_scans f -> elements_scan f -> elements_scan (S f).
Proof.
  intros Hv He s acc v r stk H.
  cbn [JSON.parse_value JSON.parse_elements JSON.parse_members] in H.
  destruct (JSON.parse_value f s) as [x r1| |] eqn:Ev; try discriminate.
  eapply scans_to_trans; [eapply Hv; exact Ev|].
  over_ws r1.
  destruct (JSON.skip_ws r1) as [|c r']; [discriminate|].
  destruct (c =? chr ",") eqn:Ec.
  - apply N.eqb_eq in Ec. subst c.
    over_one ltac:(now apply scans_quiet_one).
    eapply He. exact H.
  - destruct (c =? chr "]") eqn:Ed; [|discriminate].
    apply N.eqb_eq in Ed. subst c. injection H as _ <-.
    apply scans_to_one. now apply scans_close.
Qed.

Lemma parse_members_step (f : nat) :
  value_scans f -> members_scan f -> members_scan (S f).
Proof.
  intros Hv Hm s acc v r stk H.
  cbn [JSON.parse_value JSON.parse_elements JSON.parse_members] in H. over_ws s.
  destruct (JSON.skip_ws s) as [|q r0]; [discriminate|].
  destruct (q =? dquote) eqn:Eq; [|discriminate].
  apply N.eqb_eq in Eq. subst q.
  over_one ltac:(apply scans_open_string).
  destruct (JSON.parse_string_body r0 []) as [k r1| |] eqn:Es; try discriminate.
  eapply scans_to_trans; [eapply parse_string_body_scans; exact Es|].
  over_ws r1.
  destruct (JSON.skip_ws r1) as [|c r2]; [discriminate|].
  destruct (c =? chr ":") eqn:Ec; [|discriminate].
  apply N.eqb_eq in Ec. subst c.
  over_one ltac:(now apply scans_quiet_one).
  destruct (JSON.parse_value f r2) as [x r3| |] eqn:Ev; try discriminate.
  eapply scans_to_trans; [eapply Hv; exact Ev|].
  over_ws r3.
  destruct (JSON.skip_ws r3) as [|d r4]; [discriminate|].
  destruct (d =? chr ",") eqn:Ed.
  - apply N.eqb_eq in Ed. subst d.
    over_one ltac:(now apply scans_quiet_one).
    eapply Hm. exact H.
  - destruct (d =? chr "}") eqn:Ee; [|discriminate].
    apply N.eqb_eq in Ee. subst d. injection H as _ <-.
    apply scans_to_one. now apply scans_close.
Qed.

Lemma parse_scans (fuel : nat) :
  value_scans fuel /\ elements_scan fuel /\ members_scan fuel.
Proof.
  induction fuel as [|f (Hv & He & Hm)].
  - repeat split; intros ? **; discriminate.
  - split; [now apply parse_value_step|].
    split; [now apply parse_elements_step | now apply parse_members_step].
Qed.

(** A text that [JSON.parse] accepts is, for the scan of the repair, a
    text with no unclosed structure: the scan ends outside a string with
    an empty stack, and has met no closer it did not expect. *)
Lemma parse_ok_scans (text : jsstring) (v : JSValue) :
  JSON.parse text = Ok v -> scans scan_init text scan_init.
Proof.
  unfold JSON.parse.
  destruct (JSON.parse_value _ text) as [x r| |] eqn:E; try discriminate.
  destruct (JSON.skip_ws r) as [|c r'] eqn:Er; [|discriminate]. intros _.
  destruct (parse_scans (2 * length text + 2)) as (Hv & _ & _).
  pose proof (Hv _ _ _ [] E) as H1.
  pose proof (scans_to_skip_ws [] r) as H2. rewrite Er in H2.
  destruct (scans_to_trans _ _ _ _ _ _ H1 H2) as (piece & -> & Hs).
  now rewrite app_nil_r.
Qed.

(** *** What the repair appends *)

Lemma closer_not_quote (c : N) : is_closer c = true -> (c =? dquote) = false.
Proof.
  unfold is_closer. intros H.
  apply orb_prop in H as [H|H]; apply N.eqb_eq in H; subst c; reflexivity.
Qed.

Lemma scan_step_closer_inString (st : scan_state) (c : N) :
  is_closer c = true -> inString (scan_step st c) = inString st.
Proof.
  intros H. unfold scan_step. simpl. now rewrite (closer_not_quote c H).
Qed.

Lemma scan_closers_inString (cl : jsstring) (st : scan_state) :
  forallb is_closer cl = true -> inString (scan st cl) = inString st.
Proof.
  revert st. induction cl as [|c cl IH]; intros st H; [reflexivity|].
  simpl in H. apply andb_prop in H as [Hc Hcl].
  rewrite scan_cons, IH by exact Hcl. now apply scan_step_closer_inString.
Qed.

(** If the scan goes over a run of closers without meeting one it does
    not expect and ends outside a string, then these closers were the top
    of its stack, in this order. *)
Lemma expected_closers (cl : jsstring) (st : scan_state) :
  forallb is_closer cl = true ->
  near_balanced_from st cl = true ->
  inString (scan st cl) = false ->
  stack st = cl ++ stack (scan st cl).
Proof.
  revert st. induction cl as [|c cl IH]; intros st Hcl Hnb Hin; [reflexivity|].
  simpl in Hcl. apply andb_prop in Hcl as [Hc Hcl].
  rewrite scan_cons in Hin |- *.
  pose proof (scan_closers_inString cl (scan_step st c) Hcl) as Hkeep.
  rewrite Hin, (scan_step_closer_inString st c Hc) in Hkeep.
  cbn [near_balanced_from] in Hnb. apply andb_prop in Hnb as [Htop Hnb].
  rewrite (scan_step_closer_inString st c Hc), <- Hkeep in Htop.
  cbn [negb andb] in Htop. fold (is_closer c) in Htop. rewrite Hc in Htop.
  destruct st as [stk ins esc]. simpl in Hkeep, Htop. subst ins.
  destruct stk as [|last below]; [discriminate|].
  apply N.eqb_eq in Htop. subst last.
  rewrite (scan_step_pop c below esc Hc) in *.
  simpl. f_equal. now apply (IH (Scan below false false)).
Qed.

(** The repair of a text that lacks only closers. *)
Lemma repair_appends_closers (jsonString cl : jsstring) (v : JSValue) :
  forallb is_closer cl = true ->
  JSON.parse (close_string (trim jsonString) ++ cl) = Ok v ->
  repair jsonString = close_string (trim jsonString) ++ cl.
Proof.
  intros Hcl Hv. apply parse_ok_scans in Hv as [Hscan Hnb].
  rewrite scan_app in Hscan. rewrite near_balanced_app in Hnb.
  apply andb_prop in Hnb as [_ Hnb].
  unfold repair. f_equal.
  rewrite (expected_closers cl _ Hcl Hnb); rewrite Hscan; [|reflexivity].
  apply app_nil_r.
Qed.

(** C1, amended.  If the text, once trimmed and with the quote that the
    repair appends to close a string, lacks only closing braces and
    brackets at its end to be a JSON text, then the repair appends
    exactly these closers: the repaired text is that JSON text, the
    second [JSON.parse] succeeds, and [safeParse] returns its value
    instead of throwing.  Whatever else the text lacks, the repaired text
    has, for the scan of the repair, every structure closed (provided the
    scan of the text ends outside a string); it need not be JSON. *)
Theorem repair_completes_closers (jsonString : jsstring) :
  (forall cl v,
      forallb is_closer cl = true ->
      JSON.parse (close_string (trim jsonString) ++ cl) = Ok v ->
      repair jsonString = close_string (trim jsonString) ++ cl /\
      JSON.parse (repair jsonString) = Ok v /\
      (forall e, JSON.parse jsonString = Throw e ->
                 snd (safeParse jsonString) = Ok v)) /\
  (inString (scan scan_init (close_string (trim jsonString))) = false ->
   stack (scan scan_init (repair jsonString)) = [] /\
   inString (scan scan_init (repair jsonString)) = false).
Proof.
  split; [|apply repair_balanced].
  intros cl v Hcl Hv.
  pose proof (repair_appends_closers jsonString cl v Hcl Hv) as Hr.
  split; [exact Hr|]. split; [now rewrite Hr|].
  intros e He. unfold safeParse. now rewrite He, Hr, Hv.
Qed.

(** The theorem on a model answer cut inside a string, two levels deep:
    the repair closes the string, the inner object, the array and the
    outer object. *)
Lemma repair_completes_closers_witness :
  let s := qstr "  {'a': [1, {'b': 'hel" in
  repair s = qstr "{'a': [1, {'b': 'hel'}]}" /\
  snd (safeParse s) = JSON.parse (qstr "{'a': [1, {'b': 'hel'}]}").
Proof.
  intros s.
  destruct (repair_completes_closers s) as [H _].
  destruct (JSON.parse (qstr "{'a': [1, {'b': 'hel'}]}")) as [v|] eqn:Ev;
    [|vm_compute in Ev; discriminate Ev].
  destruct (H (qstr "}]}") v) as (Hr & _ & Hs).
  - reflexivity.
  - exact Ev.
  - split; [exact Hr|]. apply (Hs (SyntaxError 22 None)). vm_compute. reflexivity.
Defined.

(** ** The recursion bound of the parser is never reached *)

Lemma length_drop_while (p : N -> bool) (s : jsstring) :
  (length (drop_while p s) <= length s)%nat.
Proof. pose proof (length_take_drop_while p s). lia. Qed.

Lemma skip_ws_cons (s : jsstring) (c : N) (r : jsstring) :
  JSON.skip_ws s = c :: r -> (length r < length s)%nat.
Proof.
  intros H. pose proof (length_drop_while JSON.is_json_ws s) as Hl.
  unfold JSON.skip_ws in H. rewrite H in Hl. simpl in Hl. lia.
Qed.

Lemma expect_no_longer (lit s r : jsstring) (u : unit) :
  JSON.expect lit s = JSON.Parsed u r -> (length r <= length s)%nat.
Proof.
  intros H. apply expect_parsed in H. subst s. rewrite length_app. lia.
Qed.

Lemma parse_string_body_shorter (s acc x r : jsstring) :
  JSON.parse_string_body s acc = JSON.Parsed x r -> (length r < length s)%nat.
Proof.
  intros H. destruct (parse_string_body_scans s acc x r [] H) as (piece & -> & Hs).
  destruct piece as [|c piece]; [|rewrite length_app; simpl; lia].
  destruct Hs as [Hs _]. discriminate Hs.
Qed.

Lemma parse_number_shorter (s : jsstring) (x : JSNumber) (r : jsstring) :
  JSON.parse_number s = JSON.Parsed x r -> (length r < length s)%nat.
Proof. intros H. now apply (parse_number_scans _ _ _ []) in H. Qed.

Ltac unfold_parser H :=
  cbn [JSON.parse_value JSON.parse_elements JSON.parse_members] in H.

Lemma parse_shorter (fuel : nat) :
  value_shorter fuel /\ elements_shorter fuel /\ members_shorter fuel.
Proof.
  induction fuel as [|f (Hv & He & Hm)].
  { repeat split; intros ? **; discriminate. }
  split; [|split].
  - intros s v r H. unfold_parser H.
    destruct (JSON.skip_ws s) as [|c r0] eqn:Es; [discriminate|].
    apply skip_ws_cons in Es.
    destruct (c =? chr "{").
    { destruct (JSON.skip_ws r0) as [|d r'] eqn:Er; [discriminate|].
      pose proof (skip_ws_cons _ _ _ Er).
      destruct (d =? chr "}"); [injection H as _ <-; lia|].
      apply Hm in H. simpl in H. lia. }
    destruct (c =? chr "[").
    { destruct (JSON.skip_ws r0) as [|d r'] eqn:Er; [discriminate|].
      pose proof (skip_ws_cons _ _ _ Er).
      destruct (d =? chr "]"); [injection H as _ <-; lia|].
      apply He in H. simpl in H. lia. }
    destruct (c =? dquote).
    { destruct (JSON.parse_string_body r0 []) as [x r'| |] eqn:Eb; try discriminate.
      injection H as _ <-. apply parse_string_body_shorter in Eb. lia. }
    destruct (c =? chr "t").
    { destruct (JSON.expect (str "rue") r0) as [u r'| |] eqn:Ex; try discriminate.
      injection H as _ <-. apply expect_no_longer in Ex. lia. }
    destruct (c =? chr "f").
    { destruct (JSON.expect (str "alse") r0) as [u r'| |] eqn:Ex; try discriminate.
      injection H as _ <-. apply expect_no_longer in Ex. lia. }
    destruct (c =? chr "n").
    { destruct (JSON.expect (str "ull") r0) as [u r'| |] eqn:Ex; try discriminate.
      injection H as _ <-. apply expect_no_longer in Ex. lia. }
    destruct (JSON.parse_number (c :: r0)) as [x r'| |] eqn:En; try discriminate.
    injection H as _ <-. apply parse_number_shorter in En. simpl in En. lia.
  - intros s acc v r H. unfold_parser H.
    destruct (JSON.parse_value f s) as [x r1| |] eqn:Ev; try discriminate.
    apply Hv in Ev.
    destruct (JSON.skip_ws r1) as [|c r'] eqn:Er; [discriminate|].
    apply skip_ws_cons in Er.
    destruct (c =? chr ","); [apply He in H; lia|].
    destruct (c =? chr "]"); [|discriminate]. injection H as _ <-. lia.
  - intros s acc v r H. unfold_parser H.
    destruct (JSON.skip_ws s) as [|q r0] eqn:Es; [discriminate|].
    apply skip_ws_cons in Es.
    destruct (q =? dquote); [|discriminate].
    destruct (JSON.parse_string_body r0 []) as [k r1| |] eqn:Eb; try discriminate.
    apply parse_string_body_shorter in Eb.
    destruct (JSON.skip_ws r1) as [|c r2] eqn:Er; [discriminate|].
    apply skip_ws_cons in Er.
    destruct (c =? chr ":"); [|discriminate].
    destruct (JSON.parse_value f r2) as [x r3| |] eqn:Ev; try discriminate.
    apply Hv in Ev.
    destruct (JSON.skip_ws r3) as [|d r4] eqn:Er3; [discriminate|].
    apply skip_ws_cons in Er3.
    destruct (d =? chr ","); [apply Hm in H; lia|].
    destruct (d =? chr "}"); [|discriminate]. injection H as _ <-. lia.
Qed.

Lemma parse_string_body_bounded (s acc : jsstring) :
  JSON.parse_string_body s acc <> JSON.Exhausted.
Proof.
  remember (length s) as n eqn:Hn. revert s acc Hn.
  induction n as [n IH] using lt_wf_ind. intros s acc Hn.
  destruct s as [|c r0]; [discriminate|]. simpl.
  destruct (c =? dquote); [discriminate|].
  destruct (c =? chr "\").
  - destruct r0 as [|e r1]; [discriminate|].
    destruct (JSON.simple_escape e).
    + apply (IH (length r1)); [subst n; simpl; lia | reflexivity].
    + destruct (e =? chr "u"); [|discriminate].
      destruct r1 as [|h1 [|h2 [|h3 [|h4 r2]]]]; try discriminate.
      destruct (hex_value h1); [|discriminate].
      destruct (hex_value h2); [|discriminate].
      destruct (hex_value h3); [|discriminate].
      destruct (hex_value h4); [|discriminate].
      apply (IH (length r2)); [subst n; simpl; lia | reflexivity].
  - destruct (c <? 32); [discriminate|].
    apply (IH (length r0)); [subst n; simpl; lia | reflexivity].
Qed.

Lemma expect_bounded (lit s : jsstring) : JSON.expect lit s <> JSON.Exhausted.
Proof.
  revert s. induction lit as [|a lit IH]; intros s; simpl; [discriminate|].
  destruct s as [|b s']; [discriminate|]. destruct (a =? b); [apply IH | discriminate].
Qed.

Lemma parse_number_bounded (s : jsstring) : JSON.parse_number s <> JSON.Exhausted.
Proof.
  assert (forall s2, JSON.parse_fraction s2 <> JSON.Exhausted) as Hf.
  { intros [|c r]; simpl; [discriminate|].
    destruct (c =? chr "."); [|discriminate].
    destruct (take_while is_digit r); discriminate. }
  assert (forall s3, JSON.parse_exponent s3 <> JSON.Exhausted) as He.
  { intros [|c r]; simpl; [discriminate|].
    destruct ((c =? chr "e") || (c =? chr "E")); [|discriminate].
    destruct r as [|sgn r']; [simpl; discriminate|].
    destruct (sgn =? chr "-"); [destruct (take_while is_digit r'); discriminate|].
    destruct (sgn =? chr "+"); [destruct (take_while is_digit r'); discriminate|].
    destruct (take_while is_digit (sgn :: r')); discriminate. }
  assert (forall neg ip s2, JSON.parse_tail neg ip s2 <> JSON.Exhausted) as Ht.
  { intros neg ip s2. unfold JSON.parse_tail. specialize (Hf s2).
    destruct (JSON.parse_fraction s2) as [fp s3| |]; try discriminate; [|congruence].
    specialize (He s3).
    destruct (JSON.parse_exponent s3); try discriminate; congruence. }
  assert (forall neg s1, JSON.parse_unsigned neg s1 <> JSON.Exhausted) as Hu.
  { intros neg [|d r0]; simpl; [discriminate|].
    destruct (is_digit d); [|discriminate].
    destruct (d =? chr "0"); apply Ht. }
  unfold JSON.parse_number.
  destruct s as [|c r0]; [discriminate|].
  destruct (c =? chr "-"); apply Hu.
Qed.

Lemma parse_bounded (fuel : nat) :
  value_bounded fuel /\ elements_bounded fuel /\ members_bounded fuel.
Proof.
  induction fuel as [|f (Hv & He & Hm)].
  { repeat split; intros ? **; simpl in *; lia. }
  destruct (parse_shorter f) as (Sv & _ & _).
  split; [|split].
  - intros s Hf. cbn [JSON.parse_value].
    destruct (JSON.skip_ws s) as [|c r0] eqn:Es; [discriminate|].
    apply skip_ws_cons in Es.
    destruct (c =? chr "{").
    { destruct (JSON.skip_ws r0) as [|d r'] eqn:Er; [discriminate|].
      pose proof (skip_ws_cons _ _ _ Er).
      destruct (d =? chr "}"); [discriminate|].
      apply Hm. simpl. lia. }
    destruct (c =? chr "[").
    { destruct (JSON.skip_ws r0) as [|d r'] eqn:Er; [discriminate|].
      pose proof (skip_ws_cons _ _ _ Er).
      destruct (d =? chr "]"); [discriminate|].
      apply He. simpl. lia. }
    destruct (c =? dquote).
    { pose proof (parse_string_body_bounded r0 []).
      destruct (JSON.parse_string_body r0 []); congruence. }
    destruct (c =? chr "t").
    { pose proof (expect_bounded (str "rue") r0).
      destruct (JSON.expect (str "rue") r0); congruence. }
    destruct (c =? chr "f").
    { pose proof (expect_bounded (str "alse") r0).
      destruct (JSON.expect (str "alse") r0); congruence. }
    destruct (c =? chr "n").
    { pose proof (expect_bounded (str "ull") r0).
      destruct (JSON.expect (str "ull") r0); congruence. }
    pose proof (parse_number_bounded (c :: r0)).
    destruct (JSON.parse_number (c :: r0)); congruence.
  - intros s acc Hf. cbn [JSON.parse_elements].
    assert (JSON.parse_value f s <> JSON.Exhausted) as Hne by (apply Hv; lia).
    destruct (JSON.parse_value f s) as [x r1| |] eqn:Ev; try congruence.
    apply Sv in Ev.
    destruct (JSON.skip_ws r1) as [|c r'] eqn:Er; [discriminate|].
    apply skip_ws_cons in Er.
    destruct (c =? chr ","); [apply He; lia|].
    destruct (c =? chr "]"); discriminate.
  - intros s acc Hf. cbn [JSON.parse_members].
    destruct (JSON.skip_ws s) as [|q r0] eqn:Es; [discriminate|].
    apply skip_ws_cons in Es.
    destruct (q =? dquote); [|discriminate].
    pose proof (parse_string_body_bounded r0 []) as Hb.
    destruct (JSON.parse_string_body r0 []) as [k r1| |] eqn:Eb; try congruence.
    apply parse_string_body_shorter in Eb.
    destruct (JSON.skip_ws r1) as [|c r2] eqn:Er; [discriminate|].
    apply skip_ws_cons in Er.
    destruct (c =? chr ":"); [|discriminate].
    assert (JSON.parse_value f r2 <> JSON.Exhausted) as Hne by (apply Hv; lia).
    destruct (JSON.parse_value f r2) as [x r3| |] eqn:Ev; try congruence.
    apply Sv in Ev.
    destruct (JSON.skip_ws r3) as [|d r4] eqn:Er3; [discriminate|].
    apply skip_ws_cons in Er3.
    destruct (d =? chr ","); [apply Hm; lia|].
    destruct (d =? chr "}"); discriminate.
Qed.

(** [JSON.parse] returns a value or throws a syntax error: the recursion
    bound it gives the parsing functions is enough for every text. *)
Lemma parse_not_exhausted (text : jsstring) :
  (exists v, JSON.parse text = Ok v) \/
  (exists position found, JSON.parse text = Throw (SyntaxError position found)).
Proof.
  unfold JSON.parse.
  destruct (parse_bounded (2 * length text + 2)) as (Hv & _ & _).
  specialize (Hv text ltac:(lia)).
  destruct (JSON.parse_value (2 * length text + 2) text) as [v r| |];
    [| right; unfold JSON.syntax_error; eauto | congruence].
  destruct (JSON.skip_ws r); [left; eauto | right; unfold JSON.syntax_error; eauto].
Qed.

(* ================================================================== *)
(** * Further properties of the code *)
(* ================================================================== *)

(** ** The sanitizer never makes a text longer *)

Section ReplaceLength.
Variable m : matcher.
Variable repl : jsstring.
Hypothesis fits :
  forall s n, m s = Some n -> (length repl <= n <= length s)%nat.

Lemma replace_from_length (s : jsstring) (k : nat) :
  (length (replace_from m repl k s) <= length s - k)%nat.
Proof.
  revert k. induction s as [|c r IH]; intros k; [simpl; lia|].
  destruct k as [|k]; cbn [replace_from].
  - destruct (m (c :: r)) as [[|n]|] eqn:E.
    + specialize (IH 0%nat). cbn [length]. lia.
    + apply fits in E. rewrite length_app. specialize (IH n).
      cbn [length] in *. lia.
    + specialize (IH 0%nat). cbn [length]. lia.
  - specialize (IH k). cbn [length]. lia.
Qed.

Lemma replace_all_length (s : jsstring) :
  (length (replace_all m repl s) <= length s)%nat.
Proof. pose proof (replace_from_length s 0). unfold replace_all. lia. Qed.

End ReplaceLength.

Lemma match_comma_before_fits (closer : N) (s : jsstring) (n : nat) :
  match_comma_before closer s = Some n ->
  (length [closer] <= n <= length s)%nat.
Proof.
  destruct s as [|c r]; [discriminate|]. unfold match_comma_before.
  destruct (c =? chr ","); [|discriminate].
  pose proof (length_take_drop_while is_ws r) as Hl.
  destruct (drop_while is_ws r) as [|d rest]; [discriminate|].
  destruct (d =? closer); [|discriminate].
  intros [= <-]. cbn [length] in *. lia.
Qed.

Lemma match_big_number_fits (s : jsstring) (n : nat) :
  match_big_number s = Some n ->
  (length (str ": 10") <= n <= length s)%nat.
Proof.
  destruct s as [|c r]; [discriminate|]. unfold match_big_number.
  destruct (c =? chr ":"); [|discriminate].
  pose proof (length_take_drop_while is_ws r) as Hl.
  pose proof (length_take_while_le is_digit (drop_while is_ws r)) as Hd.
  destruct (10 <=? length (take_while is_digit (drop_while is_ws r)))%nat eqn:E;
    [|discriminate].
  apply Nat.leb_le in E. intros [= <-].
  change (length (str ": 10")) with 4%nat. cbn [length]. lia.
Qed.

Lemma length_trimEnd (s : jsstring) : (length (trimEnd s) <= length s)%nat.
Proof.
  unfold trimEnd. rewrite length_rev.
  pose proof (length_drop_while is_ws (rev s)) as H.
  now rewrite length_rev in H.
Qed.

Lemma length_trim (s : jsstring) : (length (trim s) <= length s)%nat.
Proof.
  unfold trim, trimStart. pose proof (length_trimEnd (drop_while is_ws s)).
  pose proof (length_drop_while is_ws s). lia.
Qed.

Lemma length_strip_leading (p s : jsstring) :
  (length (strip_leading p s) <= length s)%nat.
Proof.
  unfold strip_leading. destruct (startsWith p s); [|lia].
  pose proof (length_drop_while is_ws (skipn (length p) s)) as H.
  rewrite length_skipn in H. lia.
Qed.

Lemma length_strip_trailing (p s : jsstring) :
  (length (strip_trailing p s) <= length s)%nat.
Proof.
  unfold strip_trailing. destruct (endsWith p s); [|lia].
  pose proof (length_trimEnd (firstn (length s - length p) s)) as H.
  rewrite length_firstn in H. lia.
Qed.

Lemma length_sanitize (s : jsstring) : (length (sanitize s) <= length s)%nat.
Proof.
  unfold sanitize, cap_numbers, strip_commas.
  etransitivity; [apply replace_all_length, match_big_number_fits|].
  etransitivity; [apply replace_all_length, match_comma_before_fits|].
  apply replace_all_length, match_comma_before_fits.
Qed.

(** X1.  [cleanJson] never returns a text longer than its input: every
    step removes code units or replaces a match by something no longer
    than the match. *)
Theorem cleanJson_never_longer (text : jsstring) :
  (length (cleanJson text) <= length text)%nat.
Proof.
  unfold cleanJson.
  pose proof (length_trim text) as Ht.
  set (t := trim text) in *.
  change (length (sanitize
            (if startsWith fence_json t
             then strip_trailing fence (strip_leading fence_json t)
             else if startsWith fence t
                  then strip_trailing fence (strip_leading fence t)
                  else t)) <= length text)%nat.
  etransitivity; [apply length_sanitize|].
  destruct (startsWith fence_json t).
  - pose proof (length_strip_trailing fence (strip_leading fence_json t)).
    pose proof (length_strip_leading fence_json t). lia.
  - destruct (startsWith fence t); [|exact Ht].
    pose proof (length_strip_trailing fence (strip_leading fence t)).
    pose proof (length_strip_leading fence t). lia.
Qed.

(** ** Texts the sanitizer leaves alone *)

Section ReplaceNowhere.
Variable m : matcher.
Variable repl : jsstring.

Lemma replace_all_nowhere (s : jsstring) :
  matches_nowhere m s = true -> replace_all m repl s = s.
Proof.
  unfold replace_all. induction s as [|c r IH]; [reflexivity|].
  cbn [matches_nowhere replace_from]. destruct (m (c :: r)); [discriminate|].
  intros H. now rewrite IH.
Qed.

Hypothesis shrinks :
  forall s n, m s = Some n -> (length repl < n <= length s)%nat.

Lemma shrinks_fits (s : jsstring) (n : nat) :
  m s = Some n -> (length repl <= n <= length s)%nat.
Proof. intros H. apply shrinks in H. lia. Qed.

Lemma replace_all_shorter (s : jsstring) :
  matches_nowhere m s = false ->
  (length (replace_all m repl s) < length s)%nat.
Proof.
  unfold replace_all. induction s as [|c r IH]; [discriminate|].
  cbn [matches_nowhere replace_from]. destruct (m (c :: r)) as [[|k]|] eqn:E.
  - apply shrinks in E. lia.
  - intros _. apply shrinks in E. rewrite length_app.
    pose proof (replace_from_length m repl shrinks_fits r k).
    cbn [length] in *. lia.
  - intros H. apply IH in H. cbn [length]. lia.
Qed.

End ReplaceNowhere.

Lemma match_comma_before_shrinks (closer : N) (s : jsstring) (n : nat) :
  match_comma_before closer s = Some n ->
  (length [closer] < n <= length s)%nat.
Proof.
  destruct s as [|c r]; [discriminate|]. unfold match_comma_before.
  destruct (c =? chr ","); [|discriminate].
  pose proof (length_take_drop_while is_ws r) as Hl.
  destruct (drop_while is_ws r) as [|d rest]; [discriminate|].
  destruct (d =? closer); [|discriminate].
  intros [= <-]. cbn [length] in *. lia.
Qed.

Lemma match_big_number_shrinks (s : jsstring) (n : nat) :
  match_big_number s = Some n ->
  (length (str ": 10") < n <= length s)%nat.
Proof.
  destruct s as [|c r]; [discriminate|]. unfold match_big_number.
  destruct (c =? chr ":"); [|discriminate].
  pose proof (length_take_drop_while is_ws r) as Hl.
  pose proof (length_take_while_le is_digit (drop_while is_ws r)) as Hd.
  destruct (10 <=? length (take_while is_digit (drop_while is_ws r)))%nat eqn:E;
    [|discriminate].
  apply Nat.leb_le in E. intros [= <-].
  change (length (str ": 10")) with 4%nat. cbn [length]. lia.
Qed.

(** X2.  A text that does not start with a code fence is changed by
    [cleanJson], beyond the trimming, exactly when it has a comma followed
    (up to white space) by a closing brace or bracket, or a colon followed
    (up to white space) by ten or more digits. *)
Theorem cleanJson_changes_only_matches (text : jsstring) :
  startsWith fence (trim text) = false ->
  cleanJson text = trim text <->
  matches_nowhere (match_comma_before (chr "}")) (trim text) = true /\
  matches_nowhere (match_comma_before (chr "]")) (trim text) = true /\
  matches_nowhere match_big_number (trim text) = true.
Proof.
  intros Hf. rewrite (cleanJson_unfenced text Hf).
  set (t := trim text). unfold sanitize, cap_numbers, strip_commas.
  split.
  - intros H.
    assert (length (replace_all match_big_number (str ": 10")
              (replace_all (match_comma_before (chr "]")) [chr "]"]
                 (replace_all (match_comma_before (chr "}")) [chr "}"] t)))
            = length t) as Hlen by now rewrite H.
    clear H.
    pose proof (replace_all_length _ _ (match_comma_before_fits (chr "}")) t) as L1.
    pose proof (replace_all_length _ _ (match_comma_before_fits (chr "]"))
                  (replace_all (match_comma_before (chr "}")) [chr "}"] t)) as L2.
    pose proof (replace_all_length _ _ match_big_number_fits
                  (replace_all (match_comma_before (chr "]")) [chr "]"]
                     (replace_all (match_comma_before (chr "}")) [chr "}"] t))) as L3.
    destruct (matches_nowhere (match_comma_before (chr "}")) t) eqn:E1.
    2:{ pose proof (replace_all_shorter _ _ (match_comma_before_shrinks (chr "}"))
                      t E1). lia. }
    rewrite (replace_all_nowhere _ [chr "}"] t E1) in *.
    destruct (matches_nowhere (match_comma_before (chr "]")) t) eqn:E2.
    2:{ pose proof (replace_all_shorter _ _ (match_comma_before_shrinks (chr "]"))
                      t E2). lia. }
    rewrite (replace_all_nowhere _ [chr "]"] t E2) in *.
    destruct (matches_nowhere match_big_number t) eqn:E3.
    2:{ pose proof (replace_all_shorter _ _ match_big_number_shrinks t E3). lia. }
    auto.
  - intros (E1 & E2 & E3).
    rewrite (replace_all_nowhere _ _ t E1), (replace_all_nowhere _ _ t E2).
    apply (replace_all_nowhere _ _ t E3).
Qed.

(** The theorem on a model answer that is clean JSON between blanks. *)
Lemma cleanJson_changes_only_matches_witness :
  cleanJson (qstr "  {'a': [1, 2], 'n': 123456789}
") = qstr "{'a': [1, 2], 'n': 123456789}".
Proof.
  apply (cleanJson_changes_only_matches
           (qstr "  {'a': [1, 2], 'n': 123456789}
")); [reflexivity|].
  repeat split; vm_compute; reflexivity.
Defined.

(** ** The repair never rewrites *)

(** X3.  The repair changes nothing of the text it is given beyond the
    white space around it: the repaired text is the trimmed text followed
    by at most one double quote and then by closing braces and brackets
    only, and it appends the quote only to a text with an odd number of
    double quotes. *)
Theorem repair_only_appends (jsonString : jsstring) :
  exists quote closers,
    repair jsonString = trim jsonString ++ quote ++ closers /\
    (quote = [] \/
     (quote = [dquote] /\ Nat.odd (quoteCount (trim jsonString)) = true)) /\
    forallb is_closer closers = true.
Proof.
  unfold repair.
  pose proof (scan_closers (close_string (trim jsonString)) scan_init eq_refl)
    as Hcl.
  destruct (close_string_cases (trim jsonString)) as [E | [E Hodd]].
  - exists [], (stack (scan scan_init (close_string (trim jsonString)))).
    split; [now rewrite E at 1|]. split; [now left | exact Hcl].
  - exists [dquote], (stack (scan scan_init (close_string (trim jsonString)))).
    split; [rewrite E at 1; now rewrite <- app_assoc|].
    split; [right; now split | exact Hcl].
Qed.

(** ** Integers through [String] and [parseInt] *)

Lemma str_String (a : ascii) (s : string) :
  str (String a s) = chr a :: str s.
Proof. reflexivity. Qed.

Lemma digits_of_uint_digits (d : Decimal.uint) :
  forallb is_digit (str (NilEmpty.string_of_uint d)) = true.
Proof.
  induction d; cbn [NilEmpty.string_of_uint]; [reflexivity|..];
    rewrite str_String; cbn [forallb]; rewrite IHd; reflexivity.
Qed.

Lemma length_uint_digits (d : Decimal.uint) :
  length (str (NilEmpty.string_of_uint d)) = Decimal.nb_digits d.
Proof.
  induction d; cbn [NilEmpty.string_of_uint Decimal.nb_digits];
    [reflexivity|..]; rewrite str_String; cbn [length]; now rewrite IHd.
Qed.

(** Reading the digits of a decimal numeral from an accumulator. *)
Lemma digits_prefix_uint_acc (d : Decimal.uint) (acc : positive) :
  digits_prefix 10 digit_value (str (NilEmpty.string_of_uint d)) (Z.pos acc) true
  = Some (Z.pos (Pos.of_uint_acc d acc)).
Proof.
  revert acc.
  induction d; intros acc;
    cbn [NilEmpty.string_of_uint Pos.of_uint_acc]; [reflexivity|..];
    rewrite str_String; cbn [digits_prefix];
    match goal with |- context [digit_value (chr ?a)] =>
      let v := eval vm_compute in (digit_value (chr a)) in
      change (digit_value (chr a)) with v end;
    cbv iota;
    match goal with |- digits_prefix _ _ _ ?x _ = Some (Z.pos (Pos.of_uint_acc _ ?y)) =>
      replace x with (Z.pos y) by lia end;
    apply IHd.
Qed.

Lemma digits_prefix_uint (d : Decimal.uint) (seen : bool) :
  d <> Decimal.Nil ->
  digits_prefix 10 digit_value (str (NilEmpty.string_of_uint d)) 0 seen
  = Some (Z.of_N (Pos.of_uint d)).
Proof.
  revert seen.
  induction d; intros seen Hd; [congruence|..];
    cbn [NilEmpty.string_of_uint Pos.of_uint];
    rewrite str_String; cbn [digits_prefix];
    match goal with |- context [digit_value (chr ?a)] =>
      let v := eval vm_compute in (digit_value (chr a)) in
      change (digit_value (chr a)) with v end;
    cbv iota.
  1:{ change (0 * 10 + 0)%Z with 0%Z.
      destruct d; [reflexivity|..]; apply IHd; discriminate. }
  all: match goal with |- digits_prefix _ _ _ ?x _ = _ =>
         let v := eval vm_compute in x in change x with v end;
       rewrite digits_prefix_uint_acc; reflexivity.
Qed.

Lemma digits_prefix_digits_of (n : N) :
  digits_prefix 10 digit_value (digits_of n) 0 false = Some (Z.of_N n).
Proof.
  unfold digits_of. rewrite digits_prefix_uint.
  - change (Pos.of_uint (N.to_uint n)) with (N.of_uint (N.to_uint n)).
    now rewrite DecimalN.Unsigned.of_to.
  - destruct n; [discriminate|]. apply DecimalPos.Unsigned.to_uint_nonnil.
Qed.

Lemma strip_zeros_rev_spec (ds : jsstring) :
  exists j, ds = zeros j ++ strip_zeros_rev ds.
Proof.
  induction ds as [|c r [j IH]]; [now exists 0%nat|].
  cbn [strip_zeros_rev]. destruct (c =? chr "0") eqn:E.
  - apply N.eqb_eq in E. subst c. exists (S j). cbn [zeros repeat app].
    f_equal. exact IH.
  - now exists 0%nat.
Qed.

(** Dropping the trailing zeros and writing them again gives the digits
    back. *)
Lemma significant_zeros (ds : jsstring) :
  significant ds ++ zeros (length ds - length (significant ds)) = ds.
Proof.
  unfold significant.
  destruct (strip_zeros_rev_spec (rev ds)) as [j Hj].
  assert (ds = rev (strip_zeros_rev (rev ds)) ++ zeros j) as E.
  { rewrite <- (rev_involutive ds) at 1. rewrite Hj at 1.
    rewrite rev_app_distr. f_equal. unfold zeros. apply rev_repeat. }
  assert (length ds = (length (rev (strip_zeros_rev (rev ds))) + j)%nat) as L.
  { rewrite E at 1. rewrite length_app. unfold zeros. now rewrite repeat_length. }
  rewrite L. replace (_ + j - _)%nat with j by lia. now rewrite <- E.
Qed.

(** A decimal numeral without leading zeros is at least the power of ten
    of its length. *)
Lemma of_uint_acc_ge (l : Decimal.uint) (acc : positive) :
  (Z.pos acc * 10 ^ Z.of_nat (Decimal.nb_digits l)
   <= Z.pos (Pos.of_uint_acc l acc))%Z.
Proof.
  revert acc.
  induction l; intros acc; cbn [Pos.of_uint_acc Decimal.nb_digits];
    [rewrite Z.pow_0_r; lia|..];
    rewrite Nat2Z.inj_succ, Z.pow_succ_r by lia;
    (etransitivity; [|apply IHl]);
    assert (0 < 10 ^ Z.of_nat (Decimal.nb_digits l))%Z
      by (apply Z.pow_pos_nonneg; lia);
    nia.
Qed.

Lemma to_uint_ge (p : positive) :
  (10 ^ (Z.of_nat (Decimal.nb_digits (Pos.to_uint p)) - 1) <= Z.pos p)%Z.
Proof.
  pose proof (DecimalPos.Unsigned.of_to p) as Hof.
  pose proof (DecimalPos.Unsigned.to_of (Pos.to_uint p)) as Hto.
  rewrite Hof in Hto. change (N.to_uint (N.pos p)) with (Pos.to_uint p) in Hto.
  pose proof (DecimalPos.Unsigned.to_uint_nonzero p) as Hnz.
  assert (forall u, Pos.to_uint p <> Decimal.D0 u) as Hd.
  { intros u Hu. rewrite Hu in Hto.
    unfold Decimal.unorm in Hto.
    destruct (Decimal.nzhead (Decimal.D0 u)) eqn:E;
      try discriminate Hto;
      [ injection Hto as ->; now rewrite Hu in Hnz
      | now apply DecimalFacts.nzhead_nonzero in E ]. }
  destruct (Pos.to_uint p) eqn:E;
    [ simpl; lia | now destruct (Hd u) | .. ];
    cbn [Pos.of_uint] in Hof; injection Hof as <-;
    cbn [Decimal.nb_digits]; rewrite Nat2Z.inj_succ;
    replace (Z.succ (Z.of_nat (Decimal.nb_digits u)) - 1)%Z
      with (Z.of_nat (Decimal.nb_digits u)) by lia;
    (etransitivity; [|apply of_uint_acc_ge]); lia.
Qed.

(** An integer below ten to the 21 is written with at most 21 digits. *)
Lemma length_digits_of (n : N) :
  (Z.of_N n < 10 ^ 21)%Z -> (length (digits_of n) <= 21)%nat.
Proof.
  intros Hn. unfold digits_of. rewrite length_uint_digits.
  destruct n as [|p]; [simpl; lia|]. cbn [N.to_uint].
  pose proof (to_uint_ge p) as H.
  destruct (le_lt_dec (Decimal.nb_digits (Pos.to_uint p)) 21) as [Hle | Hgt];
    [exact Hle|exfalso].
  assert (10 ^ 21 <= 10 ^ (Z.of_nat (Decimal.nb_digits (Pos.to_uint p)) - 1))%Z
    by (apply Z.pow_le_mono_r; lia).
  simpl Z.of_N in Hn. lia.
Qed.

Lemma Number_toString_int (z : Z) :
  (Z.abs z < 10 ^ 21)%Z -> z <> 0%Z ->
  Number_toString (int z) =
    if (z <? 0)%Z then chr "-" :: digits_of (Z.abs_N z)
    else digits_of (Z.abs_N z).
Proof.
  intros Hz Hnz. unfold Number_toString, int.
  apply Z.eqb_neq in Hnz. rewrite Hnz.
  set (ds := digits_of (Z.abs_N z)).
  assert (positive_to_string ds (Z.of_nat (length ds) - Z.of_nat 0) = ds) as E.
  { pose proof (significant_zeros ds) as Hs.
    assert (length ds <= 21)%nat as Hl
      by (apply length_digits_of; rewrite N2Z.inj_abs_N; exact Hz).
    assert (length (significant ds) <= length ds)%nat as Hk.
    { rewrite <- Hs at 2. rewrite length_app. lia. }
    unfold positive_to_string.
    replace ((Z.of_nat (length (significant ds))
              <=? Z.of_nat (length ds) - Z.of_nat 0)%Z
             && (Z.of_nat (length ds) - Z.of_nat 0 <=? 21)%Z) with true.
    - replace (Z.to_nat (Z.of_nat (length ds) - Z.of_nat 0
                         - Z.of_nat (length (significant ds))))
        with (length ds - length (significant ds))%nat by lia.
      exact Hs.
    - symmetry. apply andb_true_intro. split; apply Z.leb_le; lia. }
  now rewrite E.
Qed.

Lemma digit_not_letter (x : N) :
  is_digit x = true ->
  (x =? chr "x") = false /\ (x =? chr "X") = false /\
  (x =? chr "-") = false /\ (x =? chr "+") = false.
Proof.
  unfold is_digit. intros H. apply andb_prop in H as [H1 H2].
  apply N.leb_le in H1, H2.
  repeat split; apply N.eqb_neq; intros ->;
    first [ vm_compute in H1; now apply H1 | vm_compute in H2; now apply H2 ].
Qed.

Lemma digits_of_digits (n : N) : forallb is_digit (digits_of n) = true.
Proof. apply digits_of_uint_digits. Qed.

(** Reading back an unsigned decimal numeral. *)
Lemma parseInt_digits (ds : jsstring) (negative : bool) :
  forallb is_digit ds = true -> ds <> [] ->
  parseInt_string (if negative then chr "-" :: ds else ds) =
    match digits_prefix 10 digit_value ds 0 false with
    | Some n => int (if negative then - n else n)
    | None => NaN
    end.
Proof.
  intros Hd Hne. unfold parseInt_string.
  destruct ds as [|c r]; [congruence|].
  pose proof Hd as Hc. cbn [forallb] in Hc. apply andb_prop in Hc as [Hc Hr].
  pose proof (is_digit_not_ws c Hc) as Hws.
  destruct (digit_not_letter c Hc) as (_ & _ & Hm & Hp).
  assert (forall x r', r = x :: r' ->
            (c =? chr "0") && ((x =? chr "x") || (x =? chr "X")) = false) as Hx.
  { intros x r' ->. cbn [forallb] in Hr. apply andb_prop in Hr as [Hx _].
    destruct (digit_not_letter x Hx) as (-> & -> & _). apply andb_false_r. }
  destruct negative.
  - unfold trimStart. cbn [drop_while].
    change (is_ws (chr "-")) with false. cbv iota.
    rewrite N.eqb_refl.
    destruct r as [|x r']; [reflexivity|]. now rewrite (Hx x r' eq_refl).
  - unfold trimStart. cbn [drop_while]. rewrite Hws, Hm, Hp.
    destruct r as [|x r']; [reflexivity|]. now rewrite (Hx x r' eq_refl).
Qed.

(** [parseInt(String(z))] is [z] for every integer whose decimal numeral
    [String] writes in full. *)
Lemma parseInt_int (z : Z) :
  (Z.abs z < 10 ^ 21)%Z -> parseInt (JNum (int z)) = Ok (int z).
Proof.
  intros Hz. destruct (Z.eq_dec z 0%Z) as [-> | Hnz]; [reflexivity|].
  unfold parseInt. cbn [String_of ToString bind]. f_equal.
  rewrite Number_toString_int by assumption.
  assert (digits_of (Z.abs_N z) <> []) as Hne.
  { intros E. apply (f_equal (@length N)) in E. unfold digits_of in E.
    rewrite length_uint_digits in E. destruct (Z.abs_N z); [discriminate E|].
    cbn [N.to_uint length] in E.
    destruct (Pos.to_uint p) eqn:Ep; try discriminate E.
    now apply DecimalPos.Unsigned.to_uint_nonnil in Ep. }
  rewrite (parseInt_digits _ (z <? 0)%Z (digits_of_digits _) Hne).
  rewrite digits_prefix_digits_of, N2Z.inj_abs_N. f_equal.
  destruct (z <? 0)%Z eqn:E; [apply Z.ltb_lt in E | apply Z.ltb_ge in E]; lia.
Qed.

(** ** The clamp on integers *)

(** X4.  What the sanitisation pass of the analysis makes of an integer
    score (up to the largest integer a number holds exactly): zero is
    taken for a missing value and replaced by the default, any other
    integer is brought between the bounds, and an integer already between
    the bounds is kept. *)
Theorem clamp_of_integer (lo hi dflt z : Z) :
  (Z.abs z <= 9007199254740991)%Z ->
  clamp lo hi dflt (JNum (int z)) =
    Ok (int (Z.min hi (Z.max lo (if (z =? 0)%Z then dflt else z)))) /\
  ((lo <= z <= hi)%Z -> z <> 0%Z ->
   clamp lo hi dflt (JNum (int z)) = Ok (int z)).
Proof.
  intros Hz.
  assert (clamp lo hi dflt (JNum (int z)) =
          Ok (int (Z.min hi (Z.max lo (if (z =? 0)%Z then dflt else z))))) as E.
  { unfold clamp, num_or. rewrite parseInt_int by lia.
    cbn [bind truthy int]. destruct (z =? 0)%Z; cbn [negb];
      now rewrite Math_max_int, Math_min_int. }
  split; [exact E|]. intros Hr Hnz. rewrite E.
  apply Z.eqb_neq in Hnz. rewrite Hnz. do 2 f_equal. lia.
Qed.

(** The theorem on the score 7, on the score 0 and on the score 250. *)
Lemma clamp_of_integer_witness :
  clamp 1 10 5 (JNum (int 7)) = Ok (int 7) /\
  clamp 1 10 5 (JNum (int 0)) = Ok (int 5) /\
  clamp 1 10 5 (JNum (int 250)) = Ok (int 10).
Proof.
  split; [|split].
  - apply (clamp_of_integer 1 10 5 7); lia.
  - apply (clamp_of_integer 1 10 5 0); lia.
  - apply (clamp_of_integer 1 10 5 250); lia.
Defined.

(** ** What the sanitisation pass keeps *)

Lemma spread_not_nullish (v : JSValue) (key : string) :
  v <> JUndefined -> v <> JNull -> exists x, Get v key = Ok x.
Proof. destruct v; intros H1 H2; try congruence; eexists; reflexivity. Qed.

Lemma clamp_converts (lo hi dflt : Z) (v : JSValue) :
  converts v -> exists n, clamp lo hi dflt v = Ok n.
Proof.
  intros [s Hs]. unfold clamp, parseInt. rewrite Hs. cbn [bind]. eauto.
Qed.

Lemma sanitize_node_frame (v out : JSValue) :
  sanitize_node v = Ok out ->
  exists props,
    out = JObj props /\
    forall k, k <> str "relevance" -> k <> str "popularity" ->
              obj_lookup k props = obj_lookup k (spread v).
Proof.
  unfold sanitize_node. intros H.
  apply bind_ok in H as (r & _ & H).
  apply bind_ok in H as (relevance & _ & H).
  apply bind_ok in H as (p & _ & H).
  apply bind_ok in H as (popularity & _ & [= <-]).
  eexists. split; [reflexivity|]. intros k Hr Hp.
  rewrite obj_lookup_set_other by congruence.
  now rewrite obj_lookup_set_other by congruence.
Qed.

Lemma sanitize_link_frame (v out : JSValue) :
  sanitize_link v = Ok out ->
  exists props,
    out = JObj props /\
    forall k, k <> str "value" ->
              obj_lookup k props = obj_lookup k (spread v).
Proof.
  unfold sanitize_link. intros H.
  apply bind_ok in H as (x & _ & H).
  apply bind_ok in H as (value & _ & [= <-]).
  eexists. split; [reflexivity|]. intros k Hv.
  now rewrite obj_lookup_set_other by congruence.
Qed.

Lemma sanitize_node_total (v r p : JSValue) :
  Get v "relevance" = Ok r -> Get v "popularity" = Ok p ->
  converts r -> converts p ->
  exists out, sanitize_node v = Ok out.
Proof.
  intros Hr Hp Cr Cp. unfold sanitize_node. rewrite Hr. cbn [bind].
  destruct (clamp_converts 1 10 5 r Cr) as [relevance ->]. cbn [bind].
  rewrite Hp. cbn [bind].
  destruct (clamp_converts 1 10 5 p Cp) as [popularity ->]. cbn [bind]. eauto.
Qed.

Lemma sanitize_link_total (v x : JSValue) :
  Get v "value" = Ok x -> converts x -> exists out, sanitize_link v = Ok out.
Proof.
  intros Hx Cx. unfold sanitize_link. rewrite Hx. cbn [bind].
  destruct (clamp_converts 1 5 3 x Cx) as [value ->]. cbn [bind]. eauto.
Qed.

(** X5.  The sanitisation of a node changes nothing but its two scores,
    and that of a link nothing but its value: whenever the pass returns
    for an entry of the model's answer, it returns an object in which
    every other property of the entry is copied as it is.  The pass
    returns for every entry whose scores can be read and converted to a
    string.  (It throws for an entry that is [null] or [undefined], and
    for a score that is an object with a property [toString] of its
    own.) *)
Theorem sanitized_keeps_fields (v : JSValue) :
  (forall out,
      sanitize_node v = Ok out ->
      exists props,
        out = JObj props /\
        forall k, k <> str "relevance" -> k <> str "popularity" ->
                  obj_lookup k props = obj_lookup k (spread v)) /\
  (forall out,
      sanitize_link v = Ok out ->
      exists props,
        out = JObj props /\
        forall k, k <> str "value" ->
                  obj_lookup k props = obj_lookup k (spread v)) /\
  (forall r p,
      Get v "relevance" = Ok r -> Get v "popularity" = Ok p ->
      converts r -> converts p ->
      exists out, sanitize_node v = Ok out) /\
  (forall x,
      Get v "value" = Ok x -> converts x ->
      exists out, sanitize_link v = Ok out).
Proof.
  split; [|split; [|split]].
  - intros out. apply sanitize_node_frame.
  - intros out. apply sanitize_link_frame.
  - intros r p. apply sanitize_node_total.
  - intros x. apply sanitize_link_total.
Qed.

(** The theorem on a node with a description and an overlong score. *)
Lemma sanitized_keeps_fields_witness :
  exists props,
    sanitize_node (JObj [(str "id", JStr (str "A"));
                         (str "relevance", JNum (int 99));
                         (str "desc", JStr (str "about A"))]) = Ok (JObj props) /\
    obj_lookup (str "id") props = Some (JStr (str "A")) /\
    obj_lookup (str "desc") props = Some (JStr (str "about A")).
Proof.
  destruct (sanitized_keeps_fields
              (JObj [(str "id", JStr (str "A"));
                     (str "relevance", JNum (int 99));
                     (str "desc", JStr (str "about A"))]))
    as (Hframe & _ & Htotal & _).
  destruct (Htotal (JNum (int 99)) JUndefined) as [out E];
    [reflexivity | reflexivity | eexists; reflexivity | eexists; reflexivity |].
  destruct (Hframe out E) as (props & -> & Hk).
  exists props. split; [exact E|].
  split; rewrite Hk; first [reflexivity | discriminate].
Defined.

(** ** What the analysis returns besides the scores *)

Lemma read_videos_array (videoJson : jsstring) (vs : JSValue) :
  read_videos videoJson = Ok vs -> Array_isArray vs = true.
Proof.
  unfold read_videos. intros H. apply try_catch_throws_ok in H.
  apply bind_ok in H as (parsedVideos & _ & H).
  destruct (truthy parsedVideos); [|now injection H as <-].
  apply bind_ok in H as (x & _ & H).
  destruct (Array_isArray x) eqn:E; now injection H as <-.
Qed.

Lemma or_else_truthy (a b : JSValue) :
  truthy b = true -> truthy (or_else a b) = true.
Proof. intros H. unfold or_else. now destruct (truthy a) eqn:E. Qed.

Lemma sanitize_node_object (node out : JSValue) :
  sanitize_node node = Ok out -> exists props, out = JObj props.
Proof.
  intros H. apply sanitize_node_frame in H as (props & -> & _). eauto.
Qed.

Lemma sanitize_link_object (link out : JSValue) :
  sanitize_link link = Ok out -> exists props, out = JObj props.
Proof.
  intros H. apply sanitize_link_frame in H as (props & -> & _). eauto.
Qed.

Lemma build_graph_shape (vs : JSValue) (graphJson : jsstring) (r : Analysis) :
  build_graph vs graphJson = Ok r ->
  exists nodes links summary,
    graph r = JObj [(str "nodes", JArr nodes); (str "links", JArr links);
                    (str "summary", summary)] /\
    truthy summary = true /\
    Forall (fun n => exists props, n = JObj props) nodes /\
    Forall (fun l => exists props, l = JObj props) links.
Proof.
  unfold build_graph. intros H. apply try_catch_throws_ok in H.
  apply bind_ok in H as (parsedGraph & _ & H).
  apply bind_ok in H as (g & _ & H).
  apply bind_ok in H as (nodes & _ & H).
  destruct (negb (Array_isArray nodes)); [discriminate|].
  apply bind_ok in H as (sanitizedNodes & Hn & H).
  apply bind_ok in H as (g' & _ & H).
  apply bind_ok in H as (ls & _ & H).
  apply bind_ok in H as (sanitizedLinks & Hl & H).
  apply bind_ok in H as (summary & _ & [= <-]). simpl.
  apply array_map_ok in Hn as (ns & ns' & _ & -> & Hn).
  apply array_map_ok in Hl as (ls0 & ls' & _ & -> & Hl).
  exists ns', ls', (or_else summary (JStr (str "No summary available."))).
  split; [reflexivity|]. split; [now apply or_else_truthy|]. split.
  - eapply Forall2_right; [|exact Hn]. intros x y. apply sanitize_node_object.
  - eapply Forall2_right; [|exact Hl]. intros x y. apply sanitize_link_object.
Qed.

(** X6.  Whenever [analyzeChannelContent] returns, the video list it
    returns is an array (the empty one when the model's answer has no
    array of videos), the summary of the graph is never missing or empty
    (a fixed sentence stands in for it), and every node and every link of
    the graph is an object. *)
Theorem analysis_result_shape (ai : Service) (channelUrl : jsstring)
    (trace : list Event) (r : Analysis) :
  analyzeChannelContent ai channelUrl = (trace, Ok r) ->
  (exists items, videos r = JArr items) /\
  exists nodes links summary,
    graph r = JObj [(str "nodes", JArr nodes); (str "links", JArr links);
                    (str "summary", summary)] /\
    truthy summary = true /\
    Forall (fun n => exists props, n = JObj props) nodes /\
    Forall (fun l => exists props, l = JObj props) links.
Proof.
  intros H. apply (f_equal snd) in H. simpl in H.
  apply analyze_returns in H
    as (? & ? & ? & ? & ? & ? & ? & videoJson & vs & ? & ? & ? & graphJson & H).
  decompose [and] H. clear H.
  match goal with Hb : build_graph _ _ = Ok r |- _ =>
    pose proof (build_graph_scores _ _ _ Hb) as [Hv _];
    apply build_graph_shape in Hb end.
  split; [|assumption].
  match goal with Hr : read_videos _ = Ok vs |- _ =>
    apply read_videos_array in Hr; rewrite Hv;
    destruct vs; try discriminate Hr; eauto end.
Qed.

(** The theorem on the run against the model whose answer has an empty
    summary and a link that is a number. *)
Lemma analysis_result_shape_witness :
  exists r items nodes links,
    snd (analyzeChannelContent Mock.sloppy_model (str "u")) = Ok r /\
    videos r = JArr items /\
    graph r = JObj [(str "nodes", JArr nodes); (str "links", JArr links);
                    (str "summary", JStr (str "No summary available."))].
Proof.
  destruct (analyzeChannelContent Mock.sloppy_model (str "u")) as [t [r|e]] eqn:E;
    [|vm_compute in E; discriminate E].
  destruct (analysis_result_shape _ _ _ _ E)
    as ([items Hv] & nodes & links & summary & Hg & _).
  exists r, items, nodes, links. split; [reflexivity|]. split; [exact Hv|].
  rewrite Hg. f_equal. f_equal. f_equal. f_equal. f_equal.
  assert (Get (graph r) "summary" = Ok (JStr (str "No summary available."))) as Hs
    by (vm_compute in E; injection E as _ <-; reflexivity).
  rewrite Hg in Hs. vm_compute in Hs. now injection Hs as ->.
Defined.

(** ** The conversion to a string *)

(** The conversion of an array is the [join] of its elements. *)
Lemma String_of_array (items : list JSValue) :
  String_of (JArr items) = array_join (str ",") items.
Proof.
  unfold array_join. cbn [String_of]. f_equal.
  induction items as [|x r IH]; [reflexivity|].
  cbn [mapM]. now rewrite <- IH.
Qed.

Lemma array_join_throws_when (sep : jsstring) (items : list JSValue) (e : Exn) :
  Forall (fun x => forall e, String_of x = Throw e -> exists m, e = TypeError m)
    items ->
  array_join sep items = Throw e -> exists m, e = TypeError m.
Proof.
  unfold array_join. intros Hall H.
  destruct (mapM _ items) as [parts|e'] eqn:E; [discriminate|].
  cbn [bind] in H. injection H as <-. clear sep.
  revert e' E. induction Hall as [|x r Hx _ IH]; intros e' E; [discriminate|].
  cbn [mapM] in E.
  destruct (match x with JUndefined | JNull => Ok [] | _ => String_of x end)
    as [p|e1] eqn:Ex; cbn [bind] in E.
  - destruct (mapM _ r) as [ps|e2] eqn:Er; cbn [bind] in E; [discriminate|].
    injection E as <-. now apply (IH e2).
  - injection E as <-. apply Hx. destruct x; try discriminate Ex; exact Ex.
Qed.

(** Where the conversion returns, it returns the string that
    [ToString] writes. *)
Lemma String_of_agrees (v : JSValue) (s : jsstring) :
  String_of v = Ok s -> s = ToString v.
Proof.
  revert s. induction v as [| |b|n|x|items IH|props _] using JSValue_induction;
    intros s; try (intros [= <-]; reflexivity).
  - rewrite String_of_array. unfold array_join. intros H.
    apply bind_ok in H as (parts & H & [= <-]). cbn [ToString]. f_equal.
    revert parts H. induction IH as [|y r Hy _ IHr]; intros parts H.
    + now injection H as <-.
    + cbn [mapM] in H.
      apply bind_ok in H as (p & Hp & H).
      apply bind_ok in H as (ps & Hps & [= <-]).
      cbn [List.map]. f_equal; [|now apply IHr].
      destruct y; try (now injection Hp as <-); now apply Hy.
  - cbn [String_of]. destruct (obj_lookup (str "toString") props);
      [discriminate|]. now intros [= <-].
Qed.

(** A conversion to a string that throws throws a type error. *)
Lemma String_of_throws (v : JSValue) (e : Exn) :
  String_of v = Throw e -> exists m, e = TypeError m.
Proof.
  revert e. induction v as [| |b|n|s|items IH|props _] using JSValue_induction;
    intros e; try discriminate.
  - rewrite String_of_array. now apply array_join_throws_when.
  - cbn [String_of]. destruct (obj_lookup (str "toString") props);
      [|discriminate]. intros [= <-]. eauto.
Qed.

Lemma array_join_throws (sep : jsstring) (items : list JSValue) (e : Exn) :
  array_join sep items = Throw e -> exists m, e = TypeError m.
Proof.
  apply array_join_throws_when. apply List.Forall_forall.
  intros x _ e'. apply String_of_throws.
Qed.

(** ** Which errors the pipelines let through *)

Lemma Get_throws (v : JSValue) (key : string) (e : Exn) :
  Get v key = Throw e -> exists m, e = TypeError m.
Proof. destruct v; simpl; intros [= <-]; eauto. Qed.

Lemma slice_throws (v : JSValue) (n : N) (e : Exn) :
  slice v n = Throw e -> exists m, e = TypeError m.
Proof. destruct v; simpl; intros [= <-]; eauto. Qed.

Lemma cleanJson_of_throws (v : JSValue) (e : Exn) :
  cleanJson_of v = Throw e -> exists m, e = TypeError m.
Proof. destruct v; simpl; intros [= <-]; eauto. Qed.

Lemma try_catch_throws {A} (body : result A) (e0 e : Exn) :
  try_catch body (fun _ => Throw e0) = Throw e -> e = e0.
Proof. destruct body; simpl; [discriminate | now intros [= <-]]. Qed.

(** A step of a run that throws: either the step threw, or it returned
    and a later step threw. *)
Ltac failing_step H x E :=
  rewrite outcome_bind in H;
  cbn [call lift substitute Service.progress fst snd] in H;
  lazymatch type of H with
  | match ?r with Ok _ => _ | Throw _ => _ end = _ =>
      destruct r as [x|] eqn:E; [|injection H as <-]
  end.

Ltac service_threw E := left; eexists; exact E.
Ltac type_error lemma E := right; left; exact (lemma _ _ _ E).
Ltac conversion_threw E := right; left; exact (String_of_throws _ _ E).

(** The errors of the function once its client is built. *)
Lemma analysis_body_errors (ai : Service) (channelUrl : jsstring)
    (trace : list Event) (e : Exn) :
  analyzeChannelContent ai channelUrl = (trace, Throw e) ->
  (exists req, ai req = Throw e) \/
  (exists m, e = TypeError m) \/
  e = Error (str "Failed to parse video list from model output.") \/
  e = Error (str "Failed to construct topic graph. The model output was malformed.").
Proof.
  intros H. apply (f_equal snd) in H. cbn [snd] in H.
  unfold analyzeChannelContent in H.
  rewrite outcome_bind in H. cbn [Service.progress snd] in H.
  failing_step H discoveryResponse E1; [|service_threw E1].
  failing_step H discoveryData E2; [|type_error Get_throws E2].
  rewrite outcome_bind in H. cbn [Service.progress snd] in H.
  failing_step H s1 C1; [|conversion_threw C1].
  failing_step H analysisResponse E3; [|service_threw E3].
  failing_step H fullAnalysis E4; [|type_error Get_throws E4].
  rewrite outcome_bind in H. cbn [Service.progress snd] in H.
  failing_step H slice25 E5; [|type_error slice_throws E5].
  failing_step H s2 C2; [|conversion_threw C2].
  failing_step H videoResponse E6; [|service_threw E6].
  failing_step H videoText E7; [|type_error Get_throws E7].
  failing_step H videoJson E8; [|right; left; exact (cleanJson_of_throws _ _ E8)].
  failing_step H vs E9;
    [|right; right; left; exact (try_catch_throws _ _ _ E9)].
  rewrite outcome_bind in H. cbn [Service.progress snd] in H.
  failing_step H slice20 E10; [|type_error slice_throws E10].
  failing_step H s3 C3; [|conversion_threw C3].
  failing_step H graphResponse E11; [|service_threw E11].
  rewrite outcome_bind in H. cbn [Service.progress snd] in H.
  failing_step H graphText E12; [|type_error Get_throws E12].
  failing_step H graphJson E13; [|right; left; exact (cleanJson_of_throws _ _ E13)].
  cbn [lift snd] in H.
  right; right; right. exact (try_catch_throws _ _ _ H).
Qed.

(** X7.  An error thrown by [analyzeChannelContent] is one of: the
    error of the constructor of the client, thrown before anything is
    reported or requested; the error the service itself threw for a
    request; a type error (a response without text, or with a text that
    cannot be converted to a string); or one of the two fixed messages
    of the function.  A syntax error of the parser and
    the message of the inner check of the graph structure never reach
    the caller. *)
Theorem analysis_errors_classified (client : result Service)
    (channelUrl : jsstring) (trace : list Event) (e : Exn) :
  Exported.analyzeChannelContent client channelUrl = (trace, Throw e) ->
  (client = Throw e /\ trace = []) \/
  (exists ai req, client = Ok ai /\ ai req = Throw e) \/
  (exists m, e = TypeError m) \/
  e = Error (str "Failed to parse video list from model output.") \/
  e = Error (str "Failed to construct topic graph. The model output was malformed.").
Proof.
  unfold Exported.analyzeChannelContent. rewrite M_bind_lift.
  destruct client as [ai|e0].
  - intros H. right.
    destruct (analysis_body_errors ai channelUrl trace e H)
      as [[req Hr] | [Ht | [Hv | Hg]]]; eauto 6.
  - intros [= <- <-]. now left.
Qed.

(** The theorem on the model whose graph answer has no nodes: the inner
    message is replaced by the fixed one. *)
Lemma analysis_errors_classified_witness :
  snd (Exported.analyzeChannelContent (Ok Fixtures.no_graph_model) (str "u")) =
    Throw (Error (str "Failed to construct topic graph. The model output was malformed.")).
Proof.
  destruct (Exported.analyzeChannelContent (Ok Fixtures.no_graph_model) (str "u"))
    as [t [r|e]] eqn:E; [vm_compute in E; discriminate E|].
  destruct (analysis_errors_classified _ _ _ _ E)
    as [[H _] | [(ai & req & Hc & H) | [[m H] | [H | H]]]].
  - discriminate H.
  - injection Hc as <-. vm_compute in E. injection E as _ <-.
    unfold Fixtures.no_graph_model in H.
    destruct (responseSchema req) as [[]|]; discriminate H.
  - vm_compute in E. injection E as _ <-. discriminate H.
  - vm_compute in E. injection E as _ <-. discriminate H.
  - cbn [snd]. now rewrite H.
Defined.

(** ** The slides of the presentation *)

(** What the sanitisation of a slide guarantees. *)
Lemma sanitize_slide_fields (s out : JSValue) :
  sanitize_slide s = Ok out ->
  exists bp sn rb vp,
    Get out "bulletPoints" = Ok bp /\ Array_isArray bp = true /\
    Get out "speakerNotes" = Ok sn /\ (truthy sn = true \/ sn = JStr []) /\
    Get out "rebuttal" = Ok rb /\ (truthy rb = true \/ rb = JStr []) /\
    Get out "visualPrompt" = Ok vp /\ truthy vp = true.
Proof.
  unfold sanitize_slide. intros H.
  apply bind_ok in H as (bp & _ & H). apply bind_ok in H as (sn & _ & H).
  apply bind_ok in H as (rb & _ & H). apply bind_ok in H as (vp & _ & [= <-]).
  eexists _, _, _, _.
  split; [|split; [|split; [|split; [|split; [|split; [|split]]]]]].
  - rewrite !Get_set_other by discriminate. apply Get_set.
  - now destruct (Array_isArray bp) eqn:E.
  - rewrite !Get_set_other by discriminate. apply Get_set.
  - unfold or_else. destruct (truthy sn) eqn:E; [now left | now right].
  - rewrite !Get_set_other by discriminate. apply Get_set.
  - unfold or_else. destruct (truthy rb) eqn:E; [now left | now right].
  - apply Get_set.
  - now apply or_else_truthy.
Qed.

Lemma read_slides_shape (rawJson data : JSValue) :
  read_slides rawJson = Ok data ->
  exists slides,
    Get data "slides" = Ok (JArr slides) /\
    Forall (fun s => exists bp sn rb vp,
              Get s "bulletPoints" = Ok bp /\ Array_isArray bp = true /\
              Get s "speakerNotes" = Ok sn /\ (truthy sn = true \/ sn = JStr []) /\
              Get s "rebuttal" = Ok rb /\ (truthy rb = true \/ rb = JStr []) /\
              Get s "visualPrompt" = Ok vp /\ truthy vp = true) slides.
Proof.
  unfold read_slides. intros H. apply try_catch_throws_ok in H.
  apply bind_ok in H as (cleaned & _ & H).
  apply bind_ok in H as (parsed & _ & H).
  destruct (negb (truthy parsed)); [discriminate|].
  apply bind_ok in H as (slides & _ & H).
  destruct (negb (Array_isArray slides)); [discriminate|].
  apply bind_ok in H as (slides' & Hs & [= <-]).
  apply array_map_ok in Hs as (ss & ss' & _ & -> & Hs).
  exists ss'. split; [apply Get_set|].
  eapply Forall2_right; [|exact Hs]. intros x y. apply sanitize_slide_fields.
Qed.

(** X8.  Whenever [generateRebuttal] returns, it returns an object whose
    [slides] is an array, and every slide in it has an array of bullet
    points, a visual prompt that is never missing or empty, and speaker
    notes and a rebuttal that are never missing (an empty string stands
    in for them). *)
Theorem rebuttal_slides_shape (ai : Service) (channelUrl : jsstring)
    (graphSummary vs customInstructions data : JSValue) (trace : list Event) :
  generateRebuttal ai channelUrl graphSummary vs customInstructions
    = (trace, Ok data) ->
  exists slides,
    Get data "slides" = Ok (JArr slides) /\
    Forall (fun s => exists bp sn rb vp,
              Get s "bulletPoints" = Ok bp /\ Array_isArray bp = true /\
              Get s "speakerNotes" = Ok sn /\ (truthy sn = true \/ sn = JStr []) /\
              Get s "rebuttal" = Ok rb /\ (truthy rb = true \/ rb = JStr []) /\
              Get s "visualPrompt" = Ok vp /\ truthy vp = true) slides.
Proof.
  intros H. apply (f_equal snd) in H. cbn [snd] in H.
  unfold generateRebuttal in H.
  rewrite outcome_bind in H. cbn [Service.progress snd] in H.
  next_step H c1 C1. next_step H titles E1. next_step H c2 C2.
  next_step H response E2.
  rewrite outcome_bind in H. cbn [Service.progress snd] in H.
  next_step H rawJson E3. cbn [lift snd] in H.
  now apply read_slides_shape in H.
Qed.

(** The theorem on a model whose slides lack most fields. *)
Lemma rebuttal_slides_shape_witness :
  exists data slides,
    snd (generateRebuttal Fixtures.terse_slides_model (str "u") (JStr (str "s"))
           (JArr []) (JStr [])) = Ok data /\
    Get data "slides" = Ok (JArr slides) /\ length slides = 2%nat.
Proof.
  destruct (generateRebuttal Fixtures.terse_slides_model (str "u")
              (JStr (str "s")) (JArr []) (JStr [])) as [t [data|e]] eqn:E;
    [|vm_compute in E; discriminate E].
  destruct (rebuttal_slides_shape _ _ _ _ _ _ _ E) as (slides & Hs & _).
  exists data, slides. split; [reflexivity|]. split; [exact Hs|].
  vm_compute in E. injection E as _ <-. vm_compute in Hs.
  now injection Hs as <-.
Defined.

Lemma array_map_throws_get (v : JSValue) (key : string) (e : Exn) :
  array_map v (fun x => Get x key) = Throw e -> exists m, e = TypeError m.
Proof.
  destruct v; simpl; try (intros [= <-]; eauto).
  induction items as [|x r IH]; simpl; [discriminate|].
  destruct (Get x key) eqn:E; simpl.
  - destruct (mapM (fun x => Get x key) r); simpl; [discriminate|].
    intros [= <-]. now apply IH.
  - intros [= <-]. now apply Get_throws in E.
Qed.

Lemma top_titles_throws (vs : JSValue) (e : Exn) :
  top_titles vs = Throw e -> exists m, e = TypeError m.
Proof.
  unfold top_titles.
  destruct (array_map (if Array_isArray vs then vs else JArr [])
              (fun v => Get v "title")) as [titles|e'] eqn:E; cbn [bind].
  - destruct (slice titles 5) as [first5|] eqn:E5; cbn [bind].
    + destruct first5; try discriminate. apply array_join_throws.
    + intros [= <-]. now apply slice_throws in E5.
  - intros [= <-]. now apply array_map_throws_get in E.
Qed.

(** The errors of the function once its client is built. *)
Lemma rebuttal_body_errors (ai : Service) (channelUrl : jsstring)
    (graphSummary vs customInstructions : JSValue) (trace : list Event)
    (e : Exn) :
  generateRebuttal ai channelUrl graphSummary vs customInstructions
    = (trace, Throw e) ->
  (exists req, ai req = Throw e) \/
  (exists m, e = TypeError m) \/
  e = Error (str
    "Failed to generate presentation. The analysis was too complex for the output window. Please try again.").
Proof.
  intros H. apply (f_equal snd) in H. cbn [snd] in H.
  unfold generateRebuttal in H.
  rewrite outcome_bind in H. cbn [Service.progress snd] in H.
  failing_step H c1 C1; [|conversion_threw C1].
  failing_step H titles E1; [|right; left; exact (top_titles_throws _ _ E1)].
  failing_step H c2 C2; [|conversion_threw C2].
  failing_step H response E2; [|service_threw E2].
  rewrite outcome_bind in H. cbn [Service.progress snd] in H.
  failing_step H rawJson E3; [|type_error Get_throws E3].
  cbn [lift snd] in H.
  right; right. exact (try_catch_throws _ _ _ H).
Qed.

(** X9.  An error thrown by [generateRebuttal] is one of: the error of
    the constructor of the client, thrown before anything is reported or
    requested; the error the service itself threw for the request; a
    type error (an entry of the video list that is [null], a summary or a
    title that cannot be converted to a string, a response that is
    [null]); or the fixed message of the function.  A syntax error of the parser and the
    message of the inner check for slides never reach the caller. *)
Theorem rebuttal_errors_classified (client : result Service)
    (channelUrl : jsstring) (graphSummary vs customInstructions : JSValue)
    (trace : list Event) (e : Exn) :
  Exported.generateRebuttal client channelUrl graphSummary vs customInstructions
    = (trace, Throw e) ->
  (client = Throw e /\ trace = []) \/
  (exists ai req, client = Ok ai /\ ai req = Throw e) \/
  (exists m, e = TypeError m) \/
  e = Error (str
    "Failed to generate presentation. The analysis was too complex for the output window. Please try again.").
Proof.
  unfold Exported.generateRebuttal. rewrite M_bind_lift.
  destruct client as [ai|e0].
  - intros H. right.
    destruct (rebuttal_body_errors ai _ _ _ _ trace e H)
      as [[req Hr] | [Ht | Hs]]; eauto 6.
  - intros [= <- <-]. now left.
Qed.

(** The theorem on a model that answers the request for slides with
    prose: the syntax error is replaced by the fixed message. *)
Lemma rebuttal_errors_classified_witness :
  snd (Exported.generateRebuttal (Ok Mock.garbled_videos) (str "u")
         (JStr (str "s")) (JArr []) (JStr [])) =
  Throw (Error (str
    "Failed to generate presentation. The analysis was too complex for the output window. Please try again.")).
Proof.
  destruct (Exported.generateRebuttal (Ok Mock.garbled_videos) (str "u")
              (JStr (str "s")) (JArr []) (JStr [])) as [t [r|e]] eqn:E;
    [vm_compute in E; discriminate E|].
  destruct (rebuttal_errors_classified _ _ _ _ _ _ _ E)
    as [[H _] | [(ai & req & Hc & H) | [[m H] | H]]].
  - discriminate H.
  - injection Hc as <-. unfold Mock.garbled_videos in H.
    destruct (responseSchema req) as [[]|]; discriminate H.
  - vm_compute in E. injection E as _ <-. discriminate H.
  - cbn [snd]. now rewrite H.
Defined.

(** ** The titles that enter the presentation prompt *)

Lemma mapM_title_null (items : list JSValue) :
  In JNull items \/ In JUndefined items ->
  exists m, mapM (fun v => Get v "title") items = Throw (TypeError m).
Proof.
  induction items as [|x r IH]; intros H; [destruct H as [[]|[]]|].
  cbn [mapM]. destruct (Get x "title") as [t|e] eqn:E; cbn [bind].
  - destruct IH as [m ->].
    + destruct H as [[->|H]|[->|H]]; try discriminate E; auto.
    + cbn [bind]. eauto.
  - apply Get_throws in E as [m ->]. eauto.
Qed.

Lemma join_titles (vs : list VideoData) :
  array_join (str ", ") (List.map (fun v => JStr (title v)) vs)
  = Ok (join (str ", ") (List.map title vs)).
Proof.
  unfold array_join.
  assert (mapM (fun x => match x with
                         | JUndefined | JNull => Ok []
                         | _ => String_of x
                         end)
            (List.map (fun v => JStr (title v)) vs) = Ok (List.map title vs))
    as ->; [|reflexivity].
  induction vs as [|v r IH]; [reflexivity|].
  cbn [List.map mapM String_of ToString bind]. now rewrite IH.
Qed.

(** X10.  The titles written into the presentation prompt are those of
    the first five videos of the list, separated by a comma and a blank;
    a video list that is not an array gives no titles; but an entry that
    is [null] or [undefined] makes the function throw wherever it stands
    in the list, also beyond the fifth place. *)
Theorem top_titles_first_five :
  (forall vs : list VideoData,
      top_titles (js_of_videos vs) =
        Ok (join (str ", ") (List.map title (firstn 5 vs)))) /\
  (forall v : JSValue, Array_isArray v = false -> top_titles v = Ok []) /\
  (forall items : list JSValue,
      In JNull items \/ In JUndefined items ->
      exists m, top_titles (JArr items) = Throw (TypeError m)).
Proof.
  split; [|split].
  - intros vs. unfold top_titles, js_of_videos. cbn [Array_isArray array_map].
    rewrite (mapM_map (fun v => Get v "title") js_of_video
               (fun v => JStr (title v)))
      by (intros x; destruct x as [t s [u|] [d|]]; reflexivity).
    cbn [bind slice]. change (N.to_nat 5) with 5%nat.
    rewrite List.firstn_map. now rewrite join_titles.
  - intros v Hv. unfold top_titles. rewrite Hv. reflexivity.
  - intros items H. unfold top_titles. cbn [Array_isArray array_map].
    destruct (mapM_title_null items H) as [m ->]. cbn [bind]. eauto.
Qed.

(** The theorem on a list of six videos. *)
Lemma top_titles_first_five_witness :
  top_titles (js_of_videos
    (List.map (fun t => {| title := t; video_summary := []; video_url := None;
                           publishDate := None |})
       [str "a"; str "b"; str "c"; str "d"; str "e"; str "f"]))
  = Ok (str "a, b, c, d, e").
Proof.
  destruct top_titles_first_five as (H & _). rewrite H. reflexivity.
Defined.

(** ** The slide viewer *)

Import PresentationView.

Lemma click_index (totalSlides : Z) (c : Click) (v : View) :
  (0 <= currentSlideIndex v < totalSlides)%Z ->
  (0 <= currentSlideIndex (click totalSlides c v) < totalSlides)%Z /\
  images (click totalSlides c v) = images v /\
  loadingImage (click totalSlides c v) = loadingImage v.
Proof.
  intros H. destruct c; cbn [click]; unfold nextSlide, prevSlide.
  - destruct (currentSlideIndex v <? totalSlides - 1)%Z eqn:E;
      [apply Z.ltb_lt in E|]; cbn; repeat split; lia.
  - destruct (currentSlideIndex v >? 0)%Z eqn:E;
      [apply Z.gtb_lt in E|]; cbn; repeat split; lia.
  - cbn. repeat split; lia.
Qed.

Lemma clicks_index (totalSlides : Z) (cs : list Click) (v : View) :
  (0 <= currentSlideIndex v < totalSlides)%Z ->
  (0 <= currentSlideIndex (clicks totalSlides cs v) < totalSlides)%Z /\
  images (clicks totalSlides cs v) = images v /\
  loadingImage (clicks totalSlides cs v) = loadingImage v.
Proof.
  revert v. induction cs as [|c r IH]; intros v H;
    [repeat split; first [reflexivity | apply H]|].
  unfold clicks. cbn [fold_left]. fold (clicks totalSlides r (click totalSlides c v)).
  destruct (click_index totalSlides c v H) as (Hi & Him & Hl).
  destruct (IH _ Hi) as (Hi' & Him' & Hl').
  split; [exact Hi'|]. split; congruence.
Qed.

(** The current slide is one of the slides. *)
Lemma slide_index_cases (slides : list JSValue) (cs : list Click) (v : View) :
  (0 <= currentSlideIndex v < Z.of_nat (length slides))%Z ->
  let v' := clicks (Z.of_nat (length slides)) cs v in
  (0 <= currentSlideIndex v' < Z.of_nat (length slides))%Z /\
  In (currentSlide slides v') slides.
Proof.
  intros H v'.
  destruct (clicks_index _ cs v H) as (Hi & _). fold v' in Hi.
  split; [exact Hi|]. unfold currentSlide.
  destruct (currentSlideIndex v' <? 0)%Z eqn:E; [apply Z.ltb_lt in E; lia|].
  apply nth_In. lia.
Qed.

(** X11.  Whatever the user clicks in the viewer of a deck that has
    slides, the index of the current slide stays within the deck: the
    current slide is always one of the slides, and the icon index one of
    the four icons.  Clicks load and drop no image. *)
Theorem slide_index_in_range (slides : list JSValue) (cs : list Click)
    (v : View) :
  (0 <= currentSlideIndex v < Z.of_nat (length slides))%Z ->
  let v' := clicks (Z.of_nat (length slides)) cs v in
  (0 <= currentSlideIndex v' < Z.of_nat (length slides))%Z /\
  In (currentSlide slides v') slides /\
  (0 <= icon_index v' < 4)%Z /\
  images v' = images v.
Proof.
  intros H v'.
  destruct (clicks_index _ cs v H) as (Hi & Him & _). fold v' in Hi, Him.
  split; [exact Hi|]. split; [|split; [|exact Him]].
  - now apply slide_index_cases.
  - unfold icon_index.
    pose proof (Z.rem_bound_pos (currentSlideIndex v') 4). lia.
Qed.

(** The theorem on a deck of three slides: four clicks forward, past the
    end, and one back. *)
Lemma slide_index_in_range_witness :
  let slides := [JStr (str "a"); JStr (str "b"); JStr (str "c")] in
  let v' := clicks 3 [ClickNext; ClickNext; ClickNext; ClickNext; ClickPrev]
              initial in
  (0 <= currentSlideIndex v' < 3)%Z /\ In (currentSlide slides v') slides.
Proof.
  intros slides v'.
  destruct (slide_index_in_range slides
              [ClickNext; ClickNext; ClickNext; ClickNext; ClickPrev] initial)
    as (H1 & H2 & _); [cbn; lia|].
  split; [exact H1 | exact H2].
Defined.

(** *** Bullet points *)

Lemma split_first (c : N) (s : jsstring) :
  nth 0 (split c s) [] = take_while (fun x => negb (x =? c)) s.
Proof.
  induction s as [|x r IH]; [reflexivity|].
  cbn [split take_while]. destruct (x =? c); cbn [negb]; [reflexivity|].
  destruct (split c r) as [|piece pieces]; cbn [nth] in *; now rewrite <- IH.
Qed.

Lemma indexOf_first (c : N) (s : jsstring) :
  includes c s = true ->
  indexOf c s = Z.of_nat (length (take_while (fun x => negb (x =? c)) s)).
Proof.
  unfold includes. induction s as [|x r IH]; [discriminate|].
  cbn [existsb indexOf take_while]. rewrite (N.eqb_sym c x).
  destruct (x =? c); cbn [negb orb]; [reflexivity|].
  intros H. rewrite (IH H).
  destruct (Z.of_nat _ <? 0)%Z eqn:E; [apply Z.ltb_lt in E; lia|].
  cbn [length]. lia.
Qed.

Lemma includes_split (c : N) (s : jsstring) :
  includes c s = true ->
  s = take_while (fun x => negb (x =? c)) s
      ++ c :: skipn (S (length (take_while (fun x => negb (x =? c)) s))) s.
Proof.
  unfold includes. induction s as [|x r IH]; [discriminate|].
  cbn [existsb take_while]. rewrite (N.eqb_sym c x).
  destruct (x =? c) eqn:E; cbn [negb orb].
  - apply N.eqb_eq in E. subst x. intros _. reflexivity.
  - intros H. cbn [length app]. f_equal. exact (IH H).
Qed.

Lemma take_while_excludes (c : N) (s : jsstring) :
  includes c (take_while (fun x => negb (x =? c)) s) = false.
Proof.
  unfold includes. induction s as [|x r IH]; [reflexivity|].
  cbn [take_while]. destruct (x =? c) eqn:E; cbn [negb]; [reflexivity|].
  cbn [existsb]. rewrite N.eqb_sym, E. exact IH.
Qed.

(** X12.  The viewer shows every bullet point in full: when the point
    has a colon, the label is what precedes the first colon (and so has
    no colon), the content is what follows it, and label, colon and
    content together are the point; a point without colon is shown as it
    is. *)
Theorem bullet_text_preserved (point : jsstring) :
  bullet_text point = point /\
  includes (chr ":") (label (bullet point)) = false /\
  (hasLabel (bullet point) = true ->
   point = label (bullet point) ++ chr ":" :: content (bullet point)) /\
  (hasLabel (bullet point) = false ->
   label (bullet point) = [] /\ content (bullet point) = point).
Proof.
  unfold bullet_text, bullet. cbn [hasLabel label content].
  destruct (includes (chr ":") point) eqn:E.
  - assert (point = nth 0 (split (chr ":") point) []
                    ++ chr ":" :: substring point (indexOf (chr ":") point + 1))
      as Hp.
    { rewrite split_first, (indexOf_first _ _ E). unfold substring.
      replace (Z.to_nat (Z.max 0 (Z.of_nat _ + 1)))
        with (S (length (take_while (fun x => negb (x =? chr ":")) point)))
        by lia.
      now apply includes_split. }
    split; [symmetry; exact Hp|]. split; [|split; [intros _; exact Hp|discriminate]].
    rewrite split_first. apply take_while_excludes.
  - split; [reflexivity|]. split; [reflexivity|]. split; [discriminate|auto].
Qed.

(** The theorem on a point written as the prompt asks for. *)
Lemma bullet_text_preserved_witness :
  label (bullet (str "The Claim: water has memory: always")) = str "The Claim" /\
  content (bullet (str "The Claim: water has memory: always"))
    = str " water has memory: always" /\
  bullet_text (str "The Claim: water has memory: always")
    = str "The Claim: water has memory: always".
Proof.
  destruct (bullet_text_preserved (str "The Claim: water has memory: always"))
    as (H & _).
  split; [reflexivity|]. split; [reflexivity | exact H].
Defined.

(** *** The background image of a slide *)

Lemma has_image_lookup (v : View) :
  has_image v = true <->
  exists img, images v !! currentSlideIndex v = Some img /\ img <> [].
Proof.
  unfold has_image. destruct (images v !! currentSlideIndex v) as [img|].
  - destruct img; cbn; split.
    + discriminate.
    + intros (img & [= <-] & H). congruence.
    + intros _. eexists. split; [reflexivity | discriminate].
    + reflexivity.
  - split; [discriminate | intros (img & H & _); discriminate].
Qed.

(** For a slide that is an object the effect ends without an error. *)
Lemma loadVisual_total (ai : Service) (slide : JSValue) (v : View) :
  slide <> JUndefined -> slide <> JNull ->
  exists v', snd (loadVisual ai slide v) = Ok v'.
Proof.
  intros H1 H2. unfold loadVisual.
  destruct (has_image v); [eauto|].
  destruct (spread_not_nullish slide "visualPrompt" H1 H2) as [vp ->].
  destruct (truthy vp); cbn [snd]; eauto.
Qed.

(** X13.  The effect that loads the background of the current slide
    issues at most one request, and none for a slide that has an image;
    for a slide that is an object it never fails, whatever the service
    does, and it leaves the loading flag off whenever it found it off;
    it never drops or replaces an image, and the image it stores is the
    one [generateSlideImage] returned for the visual prompt of the
    slide.  Nothing else of the state changes. *)
Theorem loadVisual_caches (ai : Service) (slide : JSValue) (v : View) :
  slide <> JUndefined -> slide <> JNull ->
  exists v',
    snd (loadVisual ai slide v) = Ok v' /\
    (length (fst (loadVisual ai slide v)) <= 1)%nat /\
    (has_image v = true -> loadVisual ai slide v = ([], Ok v)) /\
    (loadingImage v = false -> loadingImage v' = false) /\
    currentSlideIndex v' = currentSlideIndex v /\
    showNotes v' = showNotes v /\
    (forall k img, images v !! k = Some img -> img <> [] ->
                   images v' !! k = Some img) /\
    (forall k img, images v' !! k = Some img ->
       images v !! k = Some img \/
       (k = currentSlideIndex v /\ img <> [] /\
        exists visualPrompt,
          Get slide "visualPrompt" = Ok visualPrompt /\
          generateSlideImage ai (ToString visualPrompt) = Ok (Some img))).
Proof.
  intros H1 H2. unfold loadVisual.
  destruct (has_image v) eqn:Hh.
  { exists v. cbn [fst snd length]. repeat split; auto. }
  destruct (spread_not_nullish slide "visualPrompt" H1 H2) as [vp Hvp].
  rewrite Hvp. destruct (truthy vp) eqn:Ht.
  2:{ exists v. cbn [fst snd length]. repeat split; auto; discriminate. }
  cbn [fst snd length].
  destruct (generateSlideImage ai (ToString vp)) as [[img|]|e] eqn:Eg.
  2,3: eexists; (split; [reflexivity|]); cbn;
       repeat split; auto; discriminate.
  destruct (truthy (JStr img)) eqn:Ei.
  2:{ eexists. split; [reflexivity|]. cbn. repeat split; auto; discriminate. }
  eexists. split; [reflexivity|]. cbn.
  split; [lia|]. split; [discriminate|]. split; [reflexivity|].
  split; [reflexivity|]. split; [reflexivity|]. split.
  - intros k img0 Hk Hne.
    destruct (decide (k = currentSlideIndex v)) as [-> | Hneq].
    + exfalso. assert (has_image v = true) as Hc
        by (apply has_image_lookup; eauto). congruence.
    + now rewrite lookup_insert_ne by congruence.
  - intros k img0 Hk.
    destruct (decide (k = currentSlideIndex v)) as [-> | Hneq].
    + rewrite lookup_insert_eq in Hk. injection Hk as <-. right.
      split; [reflexivity|]. split; [destruct img; [discriminate Ei | discriminate]|].
      exists vp. split; [reflexivity | exact Eg].
    + rewrite lookup_insert_ne in Hk by congruence. now left.
Qed.

(** The theorem on the first slide of a deck and a service that returns
    two images: the flag is off again and one request was issued. *)
Lemma loadVisual_caches_witness :
  let slide := JObj [(str "visualPrompt", JStr (str "A golden cage"))] in
  exists v',
    snd (loadVisual Mock.image_model slide initial) = Ok v' /\
    (length (fst (loadVisual Mock.image_model slide initial)) <= 1)%nat /\
    loadingImage v' = false /\ currentSlideIndex v' = 0%Z.
Proof.
  intros slide.
  destruct (loadVisual_caches Mock.image_model slide initial)
    as (v' & Hs & Hn & _ & Hl & Hi & _); [discriminate | discriminate |].
  exists v'. split; [exact Hs|]. split; [exact Hn|].
  split; [apply Hl; reflexivity | exact Hi].
Defined.

(** *** The viewer on a generated deck *)

Lemma read_slides_object (rawJson data : JSValue) :
  read_slides rawJson = Ok data -> exists props, data = JObj props.
Proof.
  unfold read_slides. intros H. apply try_catch_throws_ok in H.
  apply bind_ok in H as (cleaned & _ & H).
  apply bind_ok in H as (parsed & _ & H).
  destruct (negb (truthy parsed)); [discriminate|].
  apply bind_ok in H as (slides & _ & H).
  destruct (negb (Array_isArray slides)); [discriminate|].
  apply bind_ok in H as (slides' & Hs & [= <-]). eauto.
Qed.

Lemma generateRebuttal_returns (ai : Service) (channelUrl : jsstring)
    (graphSummary vs customInstructions data : JSValue) (trace : list Event) :
  generateRebuttal ai channelUrl graphSummary vs customInstructions
    = (trace, Ok data) ->
  exists rawJson, read_slides rawJson = Ok data.
Proof.
  intros H. apply (f_equal snd) in H. cbn [snd] in H.
  unfold generateRebuttal in H.
  rewrite outcome_bind in H. cbn [Service.progress snd] in H.
  next_step H c1 C1. next_step H titles E1. next_step H c2 C2.
  next_step H response E2.
  rewrite outcome_bind in H. cbn [Service.progress snd] in H.
  next_step H rawJson E3. cbn [lift snd] in H. eauto.
Qed.

(** X14.  The viewer on a deck that [generateRebuttal] returned: the
    safety check at its head never throws and shows the fallback exactly
    when the deck has no slide; otherwise, whatever the user clicks, the
    current slide has an array of bullet points to render, and loading
    its background never fails. *)
Theorem generated_deck_viewable (ai : Service) (channelUrl : jsstring)
    (graphSummary vs customInstructions data : JSValue) (trace : list Event) :
  generateRebuttal ai channelUrl graphSummary vs customInstructions
    = (trace, Ok data) ->
  exists slides,
    Get data "slides" = Ok (JArr slides) /\
    no_slides data = Ok (match slides with [] => true | _ => false end) /\
    forall (cs : list Click) (images_ai : Service),
      slides <> [] ->
      let v := clicks (Z.of_nat (length slides)) cs initial in
      (exists points,
          Get (currentSlide slides v) "bulletPoints" = Ok (JArr points)) /\
      (exists v', snd (loadVisual images_ai (currentSlide slides v) v) = Ok v').
Proof.
  intros H. pose proof H as Hr.
  apply generateRebuttal_returns in Hr as [rawJson Hr].
  destruct (read_slides_object _ _ Hr) as [props ->].
  apply read_slides_shape in Hr as (slides & Hs & Hall).
  exists slides. split; [exact Hs|]. split.
  - unfold no_slides. cbn [truthy negb]. rewrite Hs. cbn [bind truthy negb Get].
    change (jsstring_eqb (str "length") (str "length")) with true. cbn [bind].
    destruct slides; reflexivity.
  - intros cs images_ai Hne v.
    assert (0 <= currentSlideIndex initial < Z.of_nat (length slides))%Z as H0
      by (destruct slides; [congruence | cbn; lia]).
    destruct (slide_index_cases slides cs initial H0) as [_ Hin].
    fold v in Hin. rewrite List.Forall_forall in Hall.
    destruct (Hall _ Hin) as (bp & sn & rb & vp & Hbp & Harr & _).
    split.
    + destruct bp; try discriminate Harr. eauto.
    + destruct (loadVisual_total images_ai (currentSlide slides v) v) as [v' Hv'].
      * intros E. rewrite E in Hbp. discriminate Hbp.
      * intros E. rewrite E in Hbp. discriminate Hbp.
      * eauto.
Qed.

(** The theorem on a deck of two slides that lack most fields. *)
Lemma generated_deck_viewable_witness :
  exists data,
    snd (generateRebuttal Fixtures.terse_slides_model (str "u") (JStr (str "s"))
           (JArr []) (JStr [])) = Ok data /\
    no_slides data = Ok false.
Proof.
  destruct (generateRebuttal Fixtures.terse_slides_model (str "u")
              (JStr (str "s")) (JArr []) (JStr [])) as [t [data|e]] eqn:E;
    [|vm_compute in E; discriminate E].
  destruct (generated_deck_viewable _ _ _ _ _ _ _ E) as (slides & Hs & Hn & _).
  exists data. split; [reflexivity|].
  vm_compute in E. injection E as _ <-. vm_compute in Hs. injection Hs as <-.
  exact Hn.
Defined.

(** ** Highlighting the neighbours of the hovered node *)

Import Hover.

(** The link of a line element touches the node [h]. *)
Lemma visit_spec (h : jsstring) (acc hl : Highlight) (d : JSValue) :
  visit h acc d = Ok hl ->
  exists sId tId,
    endpoints d = Ok (sId, tId) /\
    connectedLinks hl =
      connectedLinks acc ++ [jsstring_eqb sId h || jsstring_eqb tId h] /\
    forall x, x ∈ neighborIds hl <->
              x ∈ neighborIds acc \/ (sId = h /\ x = tId) \/ (tId = h /\ x = sId).
Proof.
  unfold visit. intros H. apply bind_ok in H as ([sId tId] & He & H).
  exists sId, tId. split; [exact He|].
  destruct (jsstring_eqb sId h) eqn:Es.
  - apply jsstring_eqb_eq in Es. injection H as <-. cbn. split; [reflexivity|].
    intros x. rewrite elem_of_union, elem_of_singleton. subst h.
    split; [intros [->|?]; auto | intros [?|[[_ ->]|[-> ->]]]; auto].
  - destruct (jsstring_eqb tId h) eqn:Et.
    + apply jsstring_eqb_eq in Et. injection H as <-. cbn. split; [reflexivity|].
      intros x. rewrite elem_of_union, elem_of_singleton. subst h.
      split; [intros [->|?]; auto | intros [?|[[-> ->]|[_ ->]]]; auto].
    + injection H as <-. cbn. split; [reflexivity|].
      intros x. split; [auto|].
      intros [?|[[E _]|[E _]]]; [assumption|exfalso..];
        apply jsstring_eqb_eq in E; congruence.
Qed.

Lemma each_spec (h : jsstring) (links : list JSValue) (acc hl : Highlight) :
  each h links acc = Ok hl ->
  (exists mask,
      connectedLinks hl = connectedLinks acc ++ mask /\
      Forall2 (fun d b => exists sId tId,
                 endpoints d = Ok (sId, tId) /\
                 b = jsstring_eqb sId h || jsstring_eqb tId h) links mask) /\
  forall x, x ∈ neighborIds hl <->
            x ∈ neighborIds acc \/
            exists d sId tId,
              In d links /\ endpoints d = Ok (sId, tId) /\
              ((sId = h /\ x = tId) \/ (tId = h /\ x = sId)).
Proof.
  revert acc. induction links as [|d more IH]; intros acc H.
  - injection H as <-. split.
    + exists []. split; [now rewrite app_nil_r | constructor].
    + intros x. split; [auto|]. intros [?|(d & ? & ? & [] & _)]. assumption.
  - cbn [each] in H. apply bind_ok in H as (acc' & Hv & H).
    apply visit_spec in Hv as (sId & tId & He & Hc & Hn).
    apply IH in H as [(mask & Hm & Hf) Hx]. split.
    + exists ((jsstring_eqb sId h || jsstring_eqb tId h) :: mask). split.
      * rewrite Hm, Hc, <- app_assoc. reflexivity.
      * constructor; [eauto | exact Hf].
    + intros x. rewrite Hx, Hn. split.
      * intros [[?|Hd]|(d' & s' & t' & Hin & He' & Hd)]; [auto|..].
        -- right. exists d, sId, tId. split; [now left|auto].
        -- right. exists d', s', t'. split; [now right|auto].
      * intros [?|(d' & s' & t' & [<-|Hin] & He' & Hd)]; [auto|..].
        -- left. right. rewrite He in He'. injection He' as <- <-. exact Hd.
        -- right. eauto 8.
Qed.

(** X15.  While a node is hovered, the ids that stay fully visible are
    exactly the id of the hovered node and the ids at the other end of
    the links that have the hovered node at one end, in either
    direction; a line stays visible exactly when its link has the hovered
    node at one end; and the hovered node itself is never dimmed. *)
Theorem hover_highlights_neighbours (hoveredNode : JSValue)
    (links : list JSValue) (hl : Highlight) :
  highlight hoveredNode links = Ok hl ->
  exists h,
    node_id hoveredNode = Ok h /\
    node_opacity hl hoveredNode = Ok 1%Q /\
    (forall x, x ∈ neighborIds hl <->
       x = h \/
       exists d sId tId,
         In d links /\ endpoints d = Ok (sId, tId) /\
         ((sId = h /\ x = tId) \/ (tId = h /\ x = sId))) /\
    Forall2 (fun d connected => exists sId tId,
               endpoints d = Ok (sId, tId) /\
               connected = jsstring_eqb sId h || jsstring_eqb tId h)
            links (connectedLinks hl).
Proof.
  unfold highlight. intros H. apply bind_ok in H as (h & Hh & H).
  apply each_spec in H as [(mask & Hm & Hf) Hx]. cbn in Hm, Hx.
  exists h. split; [exact Hh|].
  assert (forall x, x ∈ neighborIds hl <->
            x = h \/
            exists d sId tId,
              In d links /\ endpoints d = Ok (sId, tId) /\
              ((sId = h /\ x = tId) \/ (tId = h /\ x = sId))) as Hx'.
  { intros x. rewrite Hx, elem_of_singleton. reflexivity. }
  split; [|split; [exact Hx' | now rewrite Hm]].
  unfold node_opacity. rewrite Hh. cbn [bind].
  rewrite bool_decide_eq_true_2; [reflexivity|]. apply Hx'. now left.
Qed.

(** The theorem on three nodes in a row, after the simulation has put
    the node objects in place of the ids: hovering the first keeps the
    second visible and the first line. *)
Lemma hover_highlights_neighbours_witness :
  let a := JObj [(str "id", JStr (str "A"))] in
  let b := JObj [(str "id", JStr (str "B"))] in
  let c := JObj [(str "id", JStr (str "C"))] in
  let links := [JObj [(str "source", a); (str "target", b)];
                JObj [(str "source", b); (str "target", c)]] in
  exists hl,
    highlight a links = Ok hl /\
    str "B" ∈ neighborIds hl /\
    node_opacity hl a = Ok 1%Q.
Proof.
  intros a b c links.
  destruct (highlight a links) as [hl|e] eqn:E; [|vm_compute in E; discriminate E].
  destruct (hover_highlights_neighbours a links hl E) as (h & Hh & Hop & Hx & _).
  exists hl. split; [reflexivity|]. split; [|exact Hop].
  injection Hh as <-. apply Hx. right.
  exists (JObj [(str "source", a); (str "target", b)]), (str "A"), (str "B").
  split; [now left|]. split; [reflexivity|]. left. split; reflexivity.
Defined.

(** ** What the simulation receives *)

Lemma sim_node_spec (d n : JSValue) :
  sim_node d = Ok n ->
  exists i props,
    node_id d = Ok i /\ n = JObj props /\
    obj_lookup (str "id") props = Some (JStr i) /\
    forall k, k <> str "id" -> obj_lookup k props = obj_lookup k (spread d).
Proof.
  unfold sim_node. intros H. apply bind_ok in H as (i & Hi & [= <-]).
  exists i, (obj_set (str "id") (JStr i) (spread d)).
  split; [exact Hi|]. split; [reflexivity|]. split; [apply obj_lookup_set|].
  intros k Hk. now rewrite obj_lookup_set_other by congruence.
Qed.

Lemma sim_link_endpoints (d d' : JSValue) (sId tId : jsstring) :
  sim_link d = Ok d' -> endpoints d = Ok (sId, tId) ->
  property d' "source" = JStr sId /\ property d' "target" = JStr tId.
Proof.
  unfold sim_link, endpoints. intros H He.
  apply bind_ok in H as (s & Hs & H). rewrite Hs in He. cbn [bind] in He.
  apply bind_ok in H as (s' & Hs' & H). rewrite Hs' in He. cbn [bind] in He.
  apply bind_ok in H as (t & Ht & H). rewrite Ht in He. cbn [bind] in He.
  apply bind_ok in H as (t' & Ht' & [= <-]). rewrite Ht' in He. cbn [bind] in He.
  injection He as <- <-. unfold property. split.
  - rewrite Get_set_other by discriminate. now rewrite Get_set.
  - now rewrite Get_set.
Qed.

Lemma has_member (ids : list jsstring) (s : jsstring) :
  In s ids -> has (list_to_set ids) (JStr s) = true.
Proof.
  intros H. cbn [has]. apply bool_decide_eq_true.
  apply elem_of_list_to_set. now apply list_elem_of_In.
Qed.

Lemma mapM_In {A B} (f : A -> result B) (l : list A) (l' : list B) (x : A) (y : B) :
  mapM f l = Ok l' -> In x l -> f x = Ok y -> In y l'.
Proof.
  intros H. apply mapM_ok in H. induction H as [|x0 y0 l l' Hxy _ IH]; simpl.
  - tauto.
  - intros [-> | Hx] Hf; [left; congruence | right; auto].
Qed.

Lemma filter_all {A} (p : A -> bool) (l : list A) :
  Forall (fun x => p x = true) l -> List.filter p l = l.
Proof.
  induction 1 as [|x r Hx _ IH]; [reflexivity|].
  cbn [List.filter]. now rewrite Hx, IH.
Qed.

(** X16.  When the graph component builds a simulation, it hands over
    one node for each node of its input, in the same order, with the id
    converted to a string and every other property as it was; and when
    the two endpoints of every link name nodes of the input, it hands
    over every link, in the same order: only links to missing nodes are
    ever dropped. *)
Theorem simulation_keeps_valid_data (data : JSValue) (sim : Simulation) :
  effect data = Ok (Some sim) ->
  exists nodes links,
    Get data "nodes" = Ok (JArr nodes) /\
    Get data "links" = Ok (JArr links) /\
    Forall2 (fun d n => exists i props,
               node_id d = Ok i /\ n = JObj props /\
               obj_lookup (str "id") props = Some (JStr i) /\
               forall k, k <> str "id" ->
                         obj_lookup k props = obj_lookup k (spread d))
            nodes (sim_nodes sim) /\
    (Forall (fun d => exists sId tId,
               endpoints d = Ok (sId, tId) /\
               (exists n, In n nodes /\ node_id n = Ok sId) /\
               (exists n, In n nodes /\ node_id n = Ok tId)) links ->
     Forall2 (fun d d' => sim_link d = Ok d') links (sim_links sim)).
Proof.
  unfold effect. intros H.
  apply bind_ok in H as (ns & Hns & H).
  apply bind_ok in H as (len & _ & H).
  destruct (negb (truthy len)); [discriminate|].
  apply bind_ok in H as (items & Hitems & H).
  apply bind_ok in H as (ids & Hids & H).
  apply bind_ok in H as (nodes & Hnodes & H).
  apply bind_ok in H as (ls & Hls & H).
  apply bind_ok in H as (links & Hlinks & H).
  apply bind_ok in H as (mapped & Hmapped & [= <-]). cbn [sim_nodes sim_links].
  destruct ns; try discriminate. injection Hitems as ->.
  destruct ls; try discriminate. injection Hlinks as ->.
  exists items, links. split; [exact Hns|]. split; [exact Hls|]. split.
  - apply mapM_ok in Hnodes. clear Hids Hns.
    induction Hnodes as [|d n l l' Hd _ IH]; [constructor|].
    constructor; [now apply sim_node_spec | exact IH].
  - intros Hall. rewrite filter_all; [now apply mapM_ok|].
    apply List.Forall_forall. intros d' Hd'.
    destruct (mapM_source _ _ _ _ Hmapped Hd') as (d & Hd & Hsim).
    rewrite List.Forall_forall in Hall.
    destruct (Hall d Hd) as (sId & tId & He & (n1 & Hn1 & Hi1) & (n2 & Hn2 & Hi2)).
    destruct (sim_link_endpoints _ _ _ _ Hsim He) as [Es Et].
    unfold keep_link. rewrite Es, Et. apply andb_true_intro. split; apply has_member.
    + exact (mapM_In _ _ _ _ _ Hids Hn1 Hi1).
    + exact (mapM_In _ _ _ _ _ Hids Hn2 Hi2).
Qed.

(** The theorem on a graph whose links all join nodes of the graph. *)
Lemma simulation_keeps_valid_data_witness :
  exists sim,
    effect (js_of_graph Mock.small_graph) = Ok (Some sim) /\
    length (sim_nodes sim) = 2%nat /\ length (sim_links sim) = 1%nat.
Proof.
  destruct (effect (js_of_graph Mock.small_graph)) as [[sim|]|] eqn:E;
    try (vm_compute in E; discriminate E).
  destruct (simulation_keeps_valid_data _ _ E)
    as (nodes & links & Hn & Hl & Hnodes & Hlinks).
  injection Hn as <-. injection Hl as <-.
  exists sim. split; [reflexivity|]. split.
  - apply Forall2_length in Hnodes. now rewrite <- Hnodes.
  - assert (Forall2 (fun d d' => sim_link d = Ok d')
              (List.map js_of_link (links Mock.small_graph)) (sim_links sim)) as H.
    { apply Hlinks. repeat constructor.
      exists (str "A"), (str "B"). split; [reflexivity|]. split.
      - eexists. split; [left; reflexivity | reflexivity].
      - eexists. split; [right; left; reflexivity | reflexivity]. }
    apply Forall2_length in H. now rewrite <- H.
Defined.

(** ** Importing a file *)

(** X17.  An import is all or nothing.  Either the text parses to data
    with a graph and a video list: then these two are stored as they
    are, the URL of the file replaces the current one if the file has
    one, and the dashboard is scheduled; the error message shown before
    stays.  Or it changes nothing of the stored graph data, video list,
    presentation data and URL, schedules nothing, goes to the idle state
    and shows an error message that starts with a fixed text. *)
Theorem import_all_or_nothing (parse : jsstring -> result JSValue)
    (text : jsstring) (s : State) :
  let s' := handleImport parse text s in
  (exists data g v,
      parse text = Ok data /\
      Get data "graph" = Ok g /\ truthy g = true /\
      Get data "videos" = Ok v /\ truthy v = true /\
      graphData s' = g /\ videoList s' = v /\
      presentationData s' = presentationData s /\
      (url s' = url s \/
       exists meta u, Get data "meta" = Ok meta /\ GetOpt meta "url" = Ok u /\
                      truthy u = true /\ url s' = u) /\
      appState s' = ANALYZING /\ timeout s' = Some DASHBOARD /\
      error s' = error s) \/
  (appState s' = IDLE /\ timeout s' = timeout s /\
   same_stored_data s s' /\ url s' = url s /\
   exists m, error s' = JStr (str "Failed to parse TOML file. " ++ m)).
Proof.
  intros s'. subst s'. unfold handleImport, read_import.
  destruct (parse text) as [data|e] eqn:Ep; cbn [bind].
  2:{ right. unfold same_stored_data. state_fields. repeat split. eauto. }
  destruct (Get data "graph") as [g|e] eqn:Eg; cbn [bind].
  2:{ right. unfold same_stored_data. state_fields. repeat split. eauto. }
  destruct (truthy g) eqn:Tg; cbn [negb bind].
  2:{ right. unfold same_stored_data. state_fields. repeat split. eauto. }
  destruct (Get data "videos") as [v|e] eqn:Ev; cbn [bind].
  2:{ right. unfold same_stored_data. state_fields. repeat split. eauto. }
  destruct (truthy v) eqn:Tv; cbn [negb bind].
  2:{ right. unfold same_stored_data. state_fields. repeat split. eauto. }
  destruct (Get data "meta") as [meta|e] eqn:Em; cbn [bind].
  2:{ right. unfold same_stored_data. state_fields. repeat split. eauto. }
  destruct (GetOpt meta "url") as [u|e] eqn:Eu; cbn [bind].
  2:{ right. unfold same_stored_data. state_fields. repeat split. eauto. }
  left. exists data, g, v.
  split; [reflexivity|]. split; [exact Eg|]. split; [exact Tg|].
  split; [exact Ev|]. split; [exact Tv|].
  destruct (truthy u) eqn:Tu; state_fields;
    (split; [reflexivity|]); (split; [reflexivity|]); (split; [reflexivity|]);
    (split; [|repeat split]).
  - right. exists meta, u. auto.
  - now left.
Qed.

(** ** Operations that succeed *)

(** Progress reports and timer ticks leave the error message and the
    custom instructions alone as well. *)
Lemma replay_frame (capAt : Q) (waits : list nat) (trace : list Event) (s : State) :
  error (replay (onProgress capAt) waits trace s) = error s /\
  customInstructions (replay (onProgress capAt) waits trace s)
    = customInstructions s.
Proof.
  revert waits s. induction trace as [|[msg p|req] rest IH]; intros waits s.
  - split; reflexivity.
  - cbn [replay]. destruct (IH waits (onProgress capAt msg p s)) as (-> & ->).
    split; reflexivity.
  - cbn [replay]. destruct waits as [|w ws]; [apply IH|].
    destruct (IH ws (ticks w s)) as (-> & ->).
    unfold ticks. destruct (timer s); split; reflexivity.
Qed.

Lemma analyze_returns_shape (ai : Service) (channelUrl : jsstring) (r : Analysis) :
  snd (analyzeChannelContent ai channelUrl) = Ok r ->
  (exists items, videos r = JArr items) /\ exists props, graph r = JObj props.
Proof.
  intros H.
  apply analyze_returns in H
    as (? & ? & ? & ? & ? & ? & ? & videoJson & vs & ? & ? & ? & graphJson & H).
  decompose [and] H. clear H.
  match goal with Hb : build_graph _ _ = Ok r |- _ =>
    pose proof (build_graph_scores _ _ _ Hb) as [Hv (ns & ls & sm & Hg & _)] end.
  split; [|rewrite Hg; eauto].
  match goal with Hr : read_videos _ = Ok vs |- _ =>
    apply read_videos_array in Hr; rewrite Hv;
    destruct vs; try discriminate Hr; eauto end.
Qed.

(** X18.  What a successful operation leaves behind.  After an analysis
    that returned, the page holds the returned graph and video list, no
    error message and no running timer, shows 100 percent, and has the
    dashboard scheduled; when the scheduled transition runs, the
    dashboard is shown.  After a generation of slides that returned, the
    page holds the returned deck, graph and video list are what they
    were, and the presentation is scheduled; when the transition runs,
    the viewer is shown with the deck. *)
Theorem success_reaches_next_state (ai : Service) (waits : list nat) (s : State) :
  (forall trace r,
      truthy (url s) = true ->
      analyzeChannelContent ai (ToString (url s)) = (trace, Ok r) ->
      let s' := handleAnalyze ai waits s in
      graphData s' = graph r /\ videoList s' = videos r /\
      presentationData s' = presentationData s /\
      error s' = JNull /\ timer s' = None /\ progress s' = 100%Q /\
      appState s' = ANALYZING /\ timeout s' = Some DASHBOARD /\
      appState (fire_timeout s') = DASHBOARD /\
      shows_dashboard (fire_timeout s') = true) /\
  (forall graphSummary trace deck,
      truthy (graphData s) = true ->
      truthy (length_of (videoList s)) = true ->
      Get (graphData s) "summary" = Ok graphSummary ->
      generateRebuttal ai (ToString (url s)) graphSummary (videoList s)
        (JStr (customInstructions s)) = (trace, Ok deck) ->
      let s' := handleGeneratePresentation ai waits s in
      presentationData s' = deck /\
      graphData s' = graphData s /\ videoList s' = videoList s /\
      error s' = error s /\ timer s' = None /\ progress s' = 100%Q /\
      appState s' = GENERATING_SLIDES /\ timeout s' = Some PRESENTATION /\
      appState (fire_timeout s') = PRESENTATION /\
      truthy (presentationData (fire_timeout s')) = true).
Proof.
  split.
  - intros trace r Hu Hrun s'. subst s'. unfold handleAnalyze.
    rewrite Hu. cbn [negb]. cbv iota. state_fields. rewrite Hrun.
    assert (snd (analyzeChannelContent ai (ToString (url s))) = Ok r) as Hr
      by now rewrite Hrun.
    apply analyze_returns_shape in Hr as [[items Hv] [props Hg]].
    match goal with |- context [replay ?cb ?w ?t ?s0] =>
      destruct (replay_keeps 98 w t s0) as (Ha & _ & Ht & _ & _ & Hp);
      destruct (replay_frame 98 w t s0) as (He & _);
      set (s1 := replay cb w t s0) in * end.
    unfold fire_timeout, shows_dashboard. state_fields.
    rewrite Hv, Hg. cbn [or_else truthy].
    repeat split; assumption.
  - intros graphSummary trace deck Hg Hv Hsum Hrun s'. subst s'.
    unfold handleGeneratePresentation.
    rewrite Hg, Hv. simpl negb. simpl orb. cbv iota zeta.
    match goal with |- context [replay _ _ _ ?s0] => set (s1 := s0) end.
    assert (graphData s1 = graphData s /\ url s1 = url s /\
            videoList s1 = videoList s /\
            customInstructions s1 = customInstructions s /\
            error s1 = error s /\ appState s1 = GENERATING_SLIDES)
      as (F1 & F2 & F3 & F4 & F5 & F6).
    { subst s1. state_fields.
      destruct (customInstructions s) eqn:Ec; state_fields; rewrite ?Ec;
        repeat split. }
    rewrite F1, F2, F3, F4, Hsum, M_bind_lift, Hrun.
    destruct (replay_keeps 95 waits trace s1) as (Ha & _ & _ & Hg' & Hv' & _).
    destruct (replay_frame 95 waits trace s1) as (He & _).
    assert (snd (generateRebuttal ai (ToString (url s)) graphSummary
                   (videoList s) (JStr (customInstructions s))) = Ok deck) as Hd
      by now rewrite Hrun.
    unfold fire_timeout. state_fields.
    rewrite Hg', Hv', He, Ha, F1, F3, F5, F6.
    destruct (generateRebuttal_returns _ _ _ _ _ _ _ Hrun) as [rawJson Hraw].
    destruct (read_slides_object _ _ Hraw) as [props ->].
    repeat split.
Qed.

(** The theorem on the initial page and a model that answers every
    request. *)
Lemma success_reaches_next_state_witness :
  appState (fire_timeout (handleAnalyze Mock.sloppy_model [2; 1]%nat App.initial))
    = DASHBOARD /\
  shows_dashboard (fire_timeout (handleAnalyze Mock.sloppy_model [2; 1]%nat
                                   App.initial)) = true.
Proof.
  destruct (analyzeChannelContent Mock.sloppy_model (ToString (url App.initial)))
    as [trace [r|e]] eqn:E; [|vm_compute in E; discriminate E].
  destruct (success_reaches_next_state Mock.sloppy_model [2; 1]%nat App.initial)
    as [H _].
  destruct (H trace r eq_refl E) as (_ & _ & _ & _ & _ & _ & _ & _ & Ha & Hs).
  split; [exact Ha | exact Hs].
Defined.

(** ** The console *)

Lemma addLog_bounded (msg : jsstring) (s : State) :
  (length (logs (addLog msg s)) <= 50)%nat.
Proof.
  unfold addLog. state_fields. cbn [length]. rewrite length_firstn. lia.
Qed.

(** X19.  The console never holds more than fifty lines: whatever the
    service and the TOML parser do, every operation of the page takes a
    state with at most fifty log lines to a state with at most fifty. *)
Theorem console_at_most_fifty_lines (ai : Service) (waits : list nat)
    (parse : jsstring -> result JSValue) (text : jsstring) (s : State) :
  (length (logs s) <= 50)%nat ->
  (length (logs (handleAnalyze ai waits s)) <= 50)%nat /\
  (length (logs (handleGeneratePresentation ai waits s)) <= 50)%nat /\
  (length (logs (handleImport parse text s)) <= 50)%nat /\
  (length (logs (reset s)) <= 50)%nat /\
  (length (logs (fire_timeout s)) <= 50)%nat.
Proof.
  intros H. split; [|split; [|split; [|split]]].
  - unfold handleAnalyze. destruct (negb (truthy (url s))); [exact H|].
    destruct (analyzeChannelContent _ _) as [trace [r|e]]; state_fields;
      cbn [length]; rewrite length_firstn; lia.
  - unfold handleGeneratePresentation.
    destruct (negb (truthy (graphData s)) || negb (truthy (length_of (videoList s))));
      [exact H|].
    match goal with |- context [M_bind ?m ?k] => destruct (M_bind m k) as [trace [r|e]] end;
      state_fields; cbn [length]; rewrite length_firstn; lia.
  - unfold handleImport.
    match goal with |- context [read_import _ _ ?s0] =>
      assert (length (logs s0) <= 50)%nat as H0 by apply addLog_bounded;
      set (s1 := s0) in * end.
    unfold read_import.
    destruct (parse text) as [data|e]; cbn [bind]; [|exact H0].
    destruct (Get data "graph") as [g|e]; cbn [bind]; [|exact H0].
    destruct (truthy g); cbn [negb bind].
    2:{ exact H0. }
    destruct (Get data "videos") as [v|e]; cbn [bind]; [|exact H0].
    destruct (truthy v); cbn [negb bind]; [|exact H0].
    destruct (Get data "meta") as [meta|e]; cbn [bind]; [|exact H0].
    destruct (GetOpt meta "url") as [u|e]; cbn [bind]; [|exact H0].
    state_fields. cbn [length]. rewrite length_firstn. lia.
  - unfold reset. state_fields. cbn [length]. lia.
  - unfold fire_timeout. destruct (timeout s); [state_fields|]; exact H.
Qed.

(** The theorem on the initial page and a service out of quota. *)
Lemma console_at_most_fifty_lines_witness :
  (length (logs (handleAnalyze Mock.failing_service [1]%nat App.initial)) <= 50)%nat.
Proof.
  destruct (console_at_most_fifty_lines Mock.failing_service [1]%nat
              (fun _ => Throw (Error [])) [] App.initial) as (H & _);
    [cbn; lia | exact H].
Defined.

(** ** The progress bar *)

Local Open Scope Q_scope.

Lemma iter_tick_bounds (capAt prev : Q) (n : nat) :
  prev <= capAt ->
  prev <= Nat.iter n (tick capAt) prev /\ Nat.iter n (tick capAt) prev <= capAt.
Proof.
  intros H. induction n as [|n [IH1 IH2]]; cbn [Nat.iter].
  - split; [apply Qle_refl | exact H].
  - split; [|now apply tick_le_cap].
    eapply Qle_trans; [exact IH1 | apply tick_ge].
Qed.

Lemma ticks_percent (n : nat) (s : State) :
  percent_invariant s -> percent_invariant (ticks n s).
Proof.
  unfold percent_invariant, ticks. intros (H0 & H100 & Ht).
  destruct (timer s) as [c|] eqn:E; [|now rewrite E].
  destruct (Ht c eq_refl) as [Hc Hc100].
  destruct (iter_tick_bounds c (progress s) n Hc) as [Hlo Hhi].
  state_fields. rewrite E.
  split; [eapply Qle_trans; eassumption|].
  split; [eapply Qle_trans; eassumption|].
  intros c' [= <-]. split; assumption.
Qed.

Lemma replay_percent (capAt : Q) (allowed : list Z) (waits : list nat)
    (trace : list Event) (s : State) :
  capAt <= 100 ->
  (forall p, In p allowed -> 0 <= inject_Z p /\ inject_Z p <= capAt) ->
  reports allowed trace ->
  percent_invariant s ->
  percent_invariant (replay (onProgress capAt) waits trace s).
Proof.
  intros Hcap Hall. revert waits s.
  induction trace as [|[msg p|req] rest IH]; intros waits s Hrep Hinv.
  - exact Hinv.
  - cbn [replay]. unfold reports in Hrep.
    assert (In p allowed /\ reports allowed rest) as [Hp Hrest]
      by (inversion Hrep; subst; split; assumption).
    destruct (Hall p Hp) as [Hp0 Hpc].
    apply IH; [exact Hrest|].
    unfold percent_invariant, onProgress. state_fields.
    split; [exact Hp0|]. split; [eapply Qle_trans; eassumption|].
    intros c [= <-]. split; assumption.
  - cbn [replay]. unfold reports in Hrep.
    assert (reports allowed rest) as Hrest by (inversion Hrep; subst; assumption).
    destruct waits as [|w ws]; [now apply IH|].
    apply IH; [exact Hrest | now apply ticks_percent].
Qed.

Lemma started_percent (startAt capAt : Q) (s : State) :
  0 <= startAt -> startAt <= capAt -> capAt <= 100 ->
  percent_invariant (startProgressSimulation startAt capAt s).
Proof.
  intros H0 Hc H100. unfold percent_invariant. state_fields.
  split; [exact H0|]. split; [eapply Qle_trans; eassumption|].
  intros c [= <-]. split; assumption.
Qed.

Lemma percents_below (allowed : list Z) (capAt : Z) :
  forallb (fun p => (0 <=? p)%Z && (p <=? capAt)%Z) allowed = true ->
  forall p, In p allowed -> 0 <= inject_Z p /\ inject_Z p <= inject_Z capAt.
Proof.
  intros H p Hp. rewrite forallb_forall in H. specialize (H p Hp).
  apply andb_prop in H as [H1 H2]. apply Z.leb_le in H1, H2.
  split; [change 0 with (inject_Z 0)|]; now rewrite <- Zle_Qle.
Qed.

(** X20.  The progress value shown by the bar, as a percentage, stays
    between 0 and 100: whatever the service does and however many times
    the timer ticks while it answers, an analysis, a generation of
    slides, an import and a reset take a state with a progress between
    0 and 100 to a state with a progress between 0 and 100. *)
Theorem progress_within_percent (ai : Service) (waits : list nat)
    (parse : jsstring -> result JSValue) (text : jsstring) (s : State) :
  0 <= progress s /\ progress s <= 100 ->
  (0 <= progress (handleAnalyze ai waits s) /\
   progress (handleAnalyze ai waits s) <= 100) /\
  (0 <= progress (handleGeneratePresentation ai waits s) /\
   progress (handleGeneratePresentation ai waits s) <= 100) /\
  (0 <= progress (handleImport parse text s) /\
   progress (handleImport parse text s) <= 100) /\
  (0 <= progress (reset s) /\ progress (reset s) <= 100).
Proof.
  intros H. split; [|split; [|split]].
  - unfold handleAnalyze. destruct (negb (truthy (url s))); [exact H|].
    match goal with |- context [analyzeChannelContent ?a ?u] =>
      pose proof (analyze_reports a u) as Hrep;
      destruct (analyzeChannelContent a u) as [trace outcome] end.
    cbn [fst] in Hrep.
    match goal with |- context [replay ?cb ?w ?t ?s0] =>
      assert (percent_invariant (replay cb w t s0)) as (H0 & H100 & _) end.
    { apply (replay_percent 98 [5; 25; 60; 80; 95]%Z); [discriminate | | exact Hrep |].
      - apply (percents_below _ 98). reflexivity.
      - apply started_percent; discriminate. }
    destruct outcome; state_fields; [split; discriminate | split; assumption].
  - unfold handleGeneratePresentation.
    destruct (negb (truthy (graphData s)) || negb (truthy (length_of (videoList s))));
      [exact H|].
    match goal with |- context [replay _ _ _ ?s0] => set (s1 := s0) end.
    assert (percent_invariant s1) as Hs1
      by (subst s1; apply started_percent; discriminate).
    match goal with |- context [M_bind ?m ?k] =>
      assert (reports [10; 90]%Z (fst (M_bind m k))) as Hrep end.
    { rewrite M_bind_lift.
      destruct (Get (graphData s1) "summary"); [apply rebuttal_reports|constructor]. }
    match goal with |- context [M_bind ?m ?k] =>
      destruct (M_bind m k) as [trace outcome] end.
    cbn [fst] in Hrep.
    assert (percent_invariant (replay (onProgress 95) waits trace s1))
      as (H0 & H100 & _).
    { apply (replay_percent 95 [10; 90]%Z); [discriminate | | exact Hrep | exact Hs1].
      apply (percents_below _ 95). reflexivity. }
    destruct outcome; state_fields; [split; discriminate | split; assumption].
  - unfold handleImport, read_import.
    destruct (parse text) as [data|e]; cbn [bind];
      [|state_fields; split; discriminate].
    destruct (Get data "graph") as [g|e]; cbn [bind];
      [|state_fields; split; discriminate].
    destruct (truthy g); cbn [negb bind];
      [|state_fields; split; discriminate].
    destruct (Get data "videos") as [v|e]; cbn [bind];
      [|state_fields; split; discriminate].
    destruct (truthy v); cbn [negb bind];
      [|state_fields; split; discriminate].
    destruct (Get data "meta") as [meta|e]; cbn [bind];
      [|state_fields; split; discriminate].
    destruct (GetOpt meta "url") as [u|e]; cbn [bind];
      [|state_fields; split; discriminate].
    state_fields. split; discriminate.
  - unfold reset. state_fields. exact H.
Qed.

(** The theorem on the initial page and a model that answers every
    request, with ticks while it does. *)
Lemma progress_within_percent_witness :
  0 <= progress (handleAnalyze Mock.sloppy_model [40; 7; 300]%nat App.initial) /\
  progress (handleAnalyze Mock.sloppy_model [40; 7; 300]%nat App.initial) <= 100.
Proof.
  destruct (progress_within_percent Mock.sloppy_model [40; 7; 300]%nat
              (fun _ => Throw (Error [])) [] App.initial) as (H & _);
    [split; discriminate | exact H].
Defined.

Local Close Scope Q_scope.

(** ** The export writes no undefined value *)



(** ** When the structured steps of the analysis fail *)

Lemma Get_truthy (v : JSValue) (key : string) :
  truthy v = true -> exists x, Get v key = Ok x.
Proof. destruct v; try discriminate; intros _; eexists; reflexivity. Qed.

(** X22.  The step that reads the video list fails exactly when the
    text cannot be parsed, even after the repair: a text that parses is
    never rejected, and when it has no array of videos (or is not an
    object at all) the list is empty. *)
Theorem video_list_fails_only_on_syntax (videoJson : jsstring) :
  (forall parsed,
      snd (safeParse videoJson) = Ok parsed ->
      exists items,
        read_videos videoJson = Ok (JArr items) /\
        (forall vs, GetOpt parsed "videos" = Ok (JArr vs) -> items = vs) /\
        ((forall vs, GetOpt parsed "videos" <> Ok (JArr vs)) -> items = [])) /\
  (forall e,
      snd (safeParse videoJson) = Throw e ->
      read_videos videoJson =
        Throw (Error (str "Failed to parse video list from model output."))).
Proof.
  split.
  - intros parsed Hp. unfold read_videos. rewrite Hp. cbn [bind].
    destruct (truthy parsed) eqn:Ht.
    + destruct (Get_truthy parsed "videos" Ht) as [x Hx]. rewrite Hx. cbn [bind].
      assert (GetOpt parsed "videos" = Ok x) as Ho
        by (destruct parsed; try discriminate Ht; exact Hx).
      destruct x; cbn [Array_isArray try_catch];
        try (exists []; split; [reflexivity|]; split;
             [intros vs; rewrite Ho; discriminate | reflexivity]).
      exists items. split; [reflexivity|]. split.
      * intros vs. rewrite Ho. now intros [= ->].
      * intros Hn. now destruct (Hn items).
    + cbn [try_catch]. exists []. split; [reflexivity|]. split; [|reflexivity].
      intros vs Hv.
      destruct parsed as [| |b|n|[|c s0]|a|o]; try discriminate Ht;
        vm_compute in Hv; discriminate Hv.
  - intros e He. unfold read_videos. now rewrite He.
Qed.

(** The theorem on an answer that parses but is a list, not an object
    with a list. *)
Lemma video_list_fails_only_on_syntax_witness :
  read_videos (qstr "[{'title': 'T1'}]") = Ok (JArr []).
Proof.
  destruct (video_list_fails_only_on_syntax (qstr "[{'title': 'T1'}]")) as [H _].
  destruct (H (JArr [JObj [(str "title", JStr (str "T1"))]]))
    as (items & Hr & _ & Hn); [vm_compute; reflexivity|].
  rewrite Hr. now rewrite Hn by discriminate.
Defined.

Lemma mapM_total {A B} (f : A -> result B) (P : A -> Prop) (l : list A) :
  (forall x, P x -> exists y, f x = Ok y) ->
  Forall P l -> exists l', mapM f l = Ok l' /\ length l' = length l.
Proof.
  intros Hf. induction 1 as [|x r Hx _ [l' [IH Hl]]]; [now exists []|].
  destruct (Hf x Hx) as [y Hy]. exists (y :: l'). cbn [mapM].
  rewrite Hy, IH. cbn [bind length]. now rewrite Hl.
Qed.

Lemma GetOpt_not_nullish (v x : JSValue) (key : string) :
  GetOpt v key = Ok x -> x <> JUndefined ->
  v <> JUndefined /\ v <> JNull /\ Get v key = Ok x.
Proof.
  destruct v; cbn [GetOpt]; intros H Hx;
    try (injection H as <-; congruence); repeat split; try discriminate;
    exact H.
Qed.

(** X23.  The step that builds the graph accepts every answer that
    parses and has an array of nodes and, if it has links, an array of
    links, as long as no entry of the two arrays is [null] or
    [undefined] and the scores of the entries can be converted to
    strings (a score that is an object with a property [toString] of its
    own cannot): whatever else the entries have or lack, the step
    returns, with as many nodes and links as the answer has (no links,
    if the answer has no array of links), and with the video list it was
    given. *)
Theorem graph_accepted_whatever_the_fields (vs : JSValue)
    (graphJson : jsstring) (parsed g ls : JSValue) (nodes : list JSValue) :
  snd (safeParse graphJson) = Ok parsed ->
  GetOpt parsed "graph" = Ok g ->
  GetOpt g "nodes" = Ok (JArr nodes) ->
  Get g "links" = Ok ls ->
  Forall node_scores_convert nodes ->
  (forall links, ls = JArr links -> Forall link_value_converts links) ->
  exists r nodes' links' summary,
    build_graph vs graphJson = Ok r /\
    videos r = vs /\
    graph r = JObj [(str "nodes", JArr nodes'); (str "links", JArr links');
                    (str "summary", summary)] /\
    length nodes' = length nodes /\
    length links' = match ls with JArr links => length links | _ => 0%nat end.
Proof.
  intros Hp Hg Hn Hl Hnodes Hlinks.
  destruct (GetOpt_not_nullish g _ _ Hn) as (Hg1 & Hg2 & Hn'); [discriminate|].
  destruct (GetOpt_not_nullish parsed _ _ Hg) as (Hp1 & Hp2 & Hg');
    [exact Hg1|].
  destruct (mapM_total sanitize_node node_scores_convert nodes)
    as (nodes' & Hmn & Hln); [|exact Hnodes|].
  { intros x (r & p & Hr & Hq & Cr & Cp).
    exact (sanitize_node_total x r p Hr Hq Cr Cp). }
  assert (exists links',
            mapM sanitize_link
              (match ls with JArr links => links | _ => [] end) = Ok links' /\
            length links' =
              match ls with JArr links => length links | _ => 0%nat end)
    as (links' & Hml & Hll).
  { destruct ls; try (exists []; split; reflexivity).
    apply (mapM_total sanitize_link link_value_converts).
    - intros l (x & Hx & Cx). exact (sanitize_link_total l x Hx Cx).
    - now apply Hlinks. }
  destruct (spread_not_nullish parsed "summary" Hp1 Hp2) as [summary Hs].
  exists {| videos := vs;
            graph := JObj [(str "nodes", JArr nodes'); (str "links", JArr links');
                           (str "summary",
                            or_else summary (JStr (str "No summary available.")))] |},
    nodes', links', (or_else summary (JStr (str "No summary available."))).
  split; [|repeat split; assumption].
  unfold build_graph. rewrite Hp. cbn [bind]. rewrite Hg. cbn [bind].
  rewrite Hn. cbn [bind Array_isArray negb array_map].
  rewrite Hmn. cbn [bind]. rewrite Hg'. cbn [bind]. rewrite Hl. cbn [bind].
  destruct ls; cbn [Array_isArray array_map]; cbn [mapM] in Hml;
    rewrite ?Hml; try injection Hml as <-; cbn [bind]; rewrite Hs; reflexivity.
Qed.

(** The theorem on an answer whose nodes have no field at all and which
    has no links. *)
Lemma graph_accepted_whatever_the_fields_witness :
  exists r nodes',
    build_graph (JArr []) (qstr "{'graph': {'nodes': [{}, 7]}}") = Ok r /\
    Get (graph r) "nodes" = Ok (JArr nodes') /\ length nodes' = 2%nat.
Proof.
  destruct (graph_accepted_whatever_the_fields (JArr [])
              (qstr "{'graph': {'nodes': [{}, 7]}}")
              (JObj [(str "graph", JObj [(str "nodes", JArr [JObj []; JNum (int 7)])])])
              (JObj [(str "nodes", JArr [JObj []; JNum (int 7)])])
              JUndefined [JObj []; JNum (int 7)])
    as (r & nodes' & links' & summary & Hb & _ & Hg & Hn & _);
    [ vm_compute; reflexivity | reflexivity | reflexivity | reflexivity
    | repeat (constructor;
              [exists JUndefined, JUndefined;
               repeat split; eexists; reflexivity|]); constructor
    | discriminate | ].
  exists r, nodes'. split; [exact Hb|]. rewrite Hg. split; [reflexivity | exact Hn].
Defined.

(** ** A fenced answer *)

(** X24.  A model answer that wraps clean JSON in a code fence (with or
    without the [json] tag) is read as that JSON: [cleanJson] returns the
    text between the fences, and [safeParse] parses it at the first
    attempt, without repair. *)
Theorem fenced_json_is_read (opener w1 body w2 : jsstring) (v : JSValue) :
  opener = fence_json \/
    (opener = fence /\
     startsWith fence_json (fence ++ w1 ++ body ++ w2 ++ fence) = false) ->
  all_ws w1 -> all_ws w2 -> no_ws_at_ends body ->
  matches_nowhere (match_comma_before (chr "}")) body = true ->
  matches_nowhere (match_comma_before (chr "]")) body = true ->
  matches_nowhere match_big_number body = true ->
  JSON.parse body = Ok v ->
  cleanJson (opener ++ w1 ++ body ++ w2 ++ fence) = body /\
  safeParse (cleanJson (opener ++ w1 ++ body ++ w2 ++ fence)) = ([body], Ok v).
Proof.
  intros Ho H1 H2 Hb M1 M2 M3 Hv.
  assert (cleanJson (opener ++ w1 ++ body ++ w2 ++ fence) = body) as E.
  { pose proof (cleanJson_fenced opener [] w1 body w2 [] Ho eq_refl H1 H2 eq_refl Hb)
      as H.
    rewrite app_nil_r in H. cbn [app] in H. rewrite H.
    unfold sanitize, cap_numbers, strip_commas.
    rewrite (replace_all_nowhere _ _ body M1), (replace_all_nowhere _ _ body M2).
    apply (replace_all_nowhere _ _ body M3). }
  split; [exact E|]. rewrite E. unfold safeParse. now rewrite Hv.
Qed.

(** The theorem on a fenced list of videos. *)
Lemma fenced_json_is_read_witness :
  snd (safeParse (cleanJson (qstr "```json
{'videos': [{'title': 'T1'}]}
```"))) = JSON.parse (qstr "{'videos': [{'title': 'T1'}]}").
Proof.
  destruct (JSON.parse (qstr "{'videos': [{'title': 'T1'}]}")) as [v|e] eqn:E;
    [|vm_compute in E; discriminate E].
  destruct (fenced_json_is_read fence_json [10] (qstr "{'videos': [{'title': 'T1'}]}")
              [10] v) as [_ H];
    [ now left | reflexivity | reflexivity | split; reflexivity
    | vm_compute; reflexivity | vm_compute; reflexivity | vm_compute; reflexivity
    | exact E | ].
  change (qstr "```json
{'videos': [{'title': 'T1'}]}
```") with (fence_json ++ [10] ++ qstr "{'videos': [{'title': 'T1'}]}" ++ [10] ++ fence).
  now rewrite H.
Defined.

(** ** The progress timer is always stopped *)

(** X25.  No operation leaves the progress timer running: an analysis
    and a generation of slides that get past their guard end with the
    timer stopped, whether they succeed or fail and whatever timer was
    running before; a reset stops it; and no operation starts a timer on
    a page that has none running without stopping it again. *)
Theorem no_timer_left_running (ai : Service) (waits : list nat)
    (parse : jsstring -> result JSValue) (text : jsstring) (s : State) :
  (truthy (url s) = true -> timer (handleAnalyze ai waits s) = None) /\
  (truthy (graphData s) = true -> truthy (length_of (videoList s)) = true ->
   timer (handleGeneratePresentation ai waits s) = None) /\
  timer (reset s) = None /\
  (timer s = None ->
   timer (handleAnalyze ai waits s) = None /\
   timer (handleGeneratePresentation ai waits s) = None /\
   timer (handleImport parse text s) = None /\
   timer (fire_timeout s) = None).
Proof.
  assert (truthy (url s) = true -> timer (handleAnalyze ai waits s) = None) as HA.
  { intros Hu. unfold handleAnalyze. rewrite Hu. cbn [negb]. cbv iota.
    destruct (analyzeChannelContent _ _) as [trace [r|e]]; reflexivity. }
  assert (truthy (graphData s) = true -> truthy (length_of (videoList s)) = true ->
          timer (handleGeneratePresentation ai waits s) = None) as HG.
  { intros Hg Hv. unfold handleGeneratePresentation. rewrite Hg, Hv.
    cbn [negb orb]. cbv iota.
    match goal with |- context [M_bind ?m ?k] =>
      destruct (M_bind m k) as [trace [r|e]] end; reflexivity. }
  split; [exact HA|]. split; [exact HG|]. split; [reflexivity|].
  intros Ht. split; [|split; [|split]].
  - destruct (truthy (url s)) eqn:Hu; [now apply HA|].
    unfold handleAnalyze. now rewrite Hu.
  - destruct (truthy (graphData s)) eqn:Hg;
      [destruct (truthy (length_of (videoList s))) eqn:Hv; [now apply HG|]|];
      unfold handleGeneratePresentation; rewrite Hg, ?Hv; exact Ht.
  - unfold handleImport, read_import.
    destruct (parse text) as [data|e]; cbn [bind]; [|exact Ht].
    destruct (Get data "graph") as [g|e]; cbn [bind]; [|exact Ht].
    destruct (truthy g); cbn [negb bind]; [|exact Ht].
    destruct (Get data "videos") as [v|e]; cbn [bind]; [|exact Ht].
    destruct (truthy v); cbn [negb bind]; [|exact Ht].
    destruct (Get data "meta") as [meta|e]; cbn [bind]; [|exact Ht].
    destruct (GetOpt meta "url") as [u|e]; cbn [bind]; [|exact Ht].
    destruct (truthy u); exact Ht.
  - unfold fire_timeout. destruct (timeout s); exact Ht.
Qed.

(** The theorem on the initial page and a service out of quota. *)
Lemma no_timer_left_running_witness :
  timer (handleAnalyze Mock.failing_service [5]%nat App.initial) = None.
Proof.
  destruct (no_timer_left_running Mock.failing_service [5]%nat
              (fun _ => Throw (Error [])) [] App.initial) as (H & _).
  apply H. reflexivity.
Defined.

(** ** The order of the progress reports *)

Ltac prefix_here rest := exists rest; reflexivity.

Ltac report_step rest :=
  rewrite ?events_bind, ?outcome_bind;
  cbn [Service.progress call lift substitute fst snd app];
  lazymatch goal with
  | |- context [match ?r with Ok _ => _ | Throw _ => _ end] =>
      destruct r; [|cbn [app percentages flat_map]; prefix_here rest]
  end.

Ltac returned_step H :=
  rewrite ?outcome_bind in H; rewrite ?events_bind, ?outcome_bind;
  cbn [Service.progress call lift substitute fst snd app] in H;
  cbn [Service.progress call lift substitute fst snd app];
  lazymatch goal with
  | |- context [match ?r with Ok _ => _ | Throw _ => _ end] =>
      destruct r; [|discriminate H]
  end.

(** X26.  The percentages a run of [analyzeChannelContent] reports are
    5, 25, 60, 80 and 95, in this order: a run that stops early has
    reported a beginning of this list, a run that returns has reported
    all five.  For [generateRebuttal] the list is 10, 90. *)
Theorem progress_reports_in_order (ai : Service) (channelUrl : jsstring)
    (graphSummary vs customInstructions : JSValue) :
  let run := analyzeChannelContent ai channelUrl in
  let run' := generateRebuttal ai channelUrl graphSummary vs customInstructions in
  prefix_of (percentages (fst run)) [5; 25; 60; 80; 95]%Z /\
  (forall r, snd run = Ok r -> percentages (fst run) = [5; 25; 60; 80; 95]%Z) /\
  prefix_of (percentages (fst run')) [10; 90]%Z /\
  (forall d, snd run' = Ok d -> percentages (fst run') = [10; 90]%Z).
Proof.
  intros run run'. subst run run'. split; [|split; [|split]].
  - unfold analyzeChannelContent, prefix_of.
    report_step [25; 60; 80; 95]%Z. report_step [25; 60; 80; 95]%Z.
    report_step [60; 80; 95]%Z. report_step [60; 80; 95]%Z.
    report_step [60; 80; 95]%Z.
    report_step [80; 95]%Z. report_step [80; 95]%Z. report_step [80; 95]%Z.
    report_step [80; 95]%Z. report_step [80; 95]%Z. report_step [80; 95]%Z.
    report_step [95]%Z. report_step [95]%Z. report_step [95]%Z.
    report_step (@nil Z). report_step (@nil Z).
    rewrite ?events_bind, ?outcome_bind.
    cbn [Service.progress call lift substitute fst snd app percentages flat_map].
    prefix_here (@nil Z).
  - intros r H. unfold analyzeChannelContent in *.
    repeat returned_step H.
    rewrite ?events_bind, ?outcome_bind.
    cbn [Service.progress call lift substitute fst snd app percentages flat_map].
    reflexivity.
  - unfold generateRebuttal, prefix_of.
    report_step [90]%Z. report_step [90]%Z. report_step [90]%Z.
    report_step [90]%Z. report_step (@nil Z).
    rewrite ?events_bind, ?outcome_bind.
    cbn [Service.progress call lift substitute fst snd app percentages flat_map].
    prefix_here (@nil Z).
  - intros d H. unfold generateRebuttal in *.
    repeat returned_step H.
    rewrite ?events_bind, ?outcome_bind.
    cbn [Service.progress call lift substitute fst snd app percentages flat_map].
    reflexivity.
Qed.

(** The theorem on the run against a model that answers every request
    and on the run against a service out of quota. *)
Lemma progress_reports_in_order_witness :
  percentages (fst (analyzeChannelContent Mock.sloppy_model (str "u")))
    = [5; 25; 60; 80; 95]%Z /\
  prefix_of (percentages (fst (analyzeChannelContent Mock.failing_service (str "u"))))
    [5; 25; 60; 80; 95]%Z.
Proof.
  split.
  - destruct (analyzeChannelContent Mock.sloppy_model (str "u")) as [t [r|e]] eqn:E;
      [|vm_compute in E; discriminate E].
    destruct (progress_reports_in_order Mock.sloppy_model (str "u")
                JNull JNull JNull) as (_ & H & _).
    rewrite E in H. exact (H r eq_refl).
  - destruct (progress_reports_in_order Mock.failing_service (str "u")
                JNull JNull JNull) as (H & _).
    exact H.
Defined.

(** ** The request for slides *)

(** X27.  For a channel URL, a summary and custom instructions that
    are strings, as the function declares them: [generateRebuttal]
    issues no request and reports nothing when the client cannot be
    constructed, no request when reading the titles of the video list
    throws, and exactly one request otherwise.  The prompt of that
    request carries the channel URL, the summary of the graph, the
    titles of the first videos, and the custom instructions of the user
    or, when these are empty, the default instructions. *)
Theorem rebuttal_request_threaded (client : result Service)
    (channelUrl graphSummary customInstructions : jsstring) (vs : JSValue) :
  let run := Exported.generateRebuttal client channelUrl (JStr graphSummary) vs
               (JStr customInstructions) in
  (forall e, client = Throw e -> fst run = [] /\ snd run = Throw e) /\
  (forall ai,
      client = Ok ai ->
      (forall e, top_titles vs = Throw e ->
                 requests (fst run) = [] /\ snd run = Throw e) /\
      (forall titles,
          top_titles vs = Ok titles ->
          let req := rebuttalRequest
                       (rebuttalPrompt channelUrl (JStr graphSummary) titles
                          (JStr customInstructions)) in
          requests (fst run) = [req] /\
          occurs_in channelUrl (contents req) /\
          occurs_in graphSummary (contents req) /\
          occurs_in titles (contents req) /\
          occurs_in (match customInstructions with
                     | [] => defaultInstructions
                     | _ => customInstructions
                     end) (contents req))).
Proof.
  intros run. subst run. unfold Exported.generateRebuttal.
  rewrite M_bind_lift. split.
  - intros e ->. split; reflexivity.
  - intros ai ->. unfold generateRebuttal. split.
    + intros e He. rewrite ?events_bind, ?outcome_bind.
      cbn [Service.progress call lift substitute String_of ToString fst snd app].
      rewrite ?events_bind, ?outcome_bind.
      cbn [Service.progress call lift substitute fst snd app]. rewrite He.
      split; reflexivity.
    + intros titles Ht. cbv zeta. split.
      * rewrite ?events_bind, ?outcome_bind.
        cbn [Service.progress call lift substitute String_of ToString
             fst snd app].
        rewrite ?events_bind, ?outcome_bind.
        cbn [Service.progress call lift substitute fst snd app]. rewrite Ht.
        cbn [Service.progress call lift substitute fst snd app].
        rewrite ?events_bind, ?outcome_bind.
        unfold or_else.
        destruct (truthy (JStr customInstructions));
          cbn [Service.progress call lift substitute String_of ToString
               fst snd app];
          rewrite ?events_bind, ?outcome_bind;
          cbn [Service.progress call lift substitute fst snd app];
          (match goal with |- context [ai ?r] =>
             destruct (ai r) as [response|e] end; [|reflexivity]);
          rewrite ?events_bind, ?outcome_bind;
          cbn [Service.progress call lift substitute fst snd app];
          destruct (Get response "text"); reflexivity.
      * cbn [contents rebuttalRequest]. unfold rebuttalPrompt, or_else.
        destruct customInstructions; cbn [truthy ToString];
          repeat split; find_occurrence.
Qed.

(** The theorem on a list of two videos and no custom instructions, with
    a client that was constructed and with one that was not. *)
Lemma rebuttal_request_threaded_witness :
  (exists req,
      requests (fst (Exported.generateRebuttal (Ok Mock.failing_service) (str "u")
                       (JStr (str "A worldview."))
                       (js_of_videos Mock.small_videos) (JStr []))) = [req] /\
      occurs_in (str "T1") (contents req) /\
      occurs_in defaultInstructions (contents req)) /\
  fst (Exported.generateRebuttal (Throw (Error (str "no API key"))) (str "u")
         (JStr (str "A worldview."))
         (js_of_videos Mock.small_videos) (JStr [])) = [].
Proof.
  split.
  - destruct (rebuttal_request_threaded (Ok Mock.failing_service) (str "u")
                (str "A worldview.") [] (js_of_videos Mock.small_videos))
      as [_ H].
    destruct (H Mock.failing_service eq_refl) as [_ Hone].
    destruct (Hone (str "T1") eq_refl) as (Hr & _ & _ & Ht & Hc).
    eexists. split; [exact Hr|]. split; [exact Ht | exact Hc].
  - destruct (rebuttal_request_threaded (Throw (Error (str "no API key")))
                (str "u") (str "A worldview.") []
                (js_of_videos Mock.small_videos)) as [H _].
    now destruct (H _ eq_refl).
Defined.

(** ** Drawing the graph of an analysis *)

Lemma node_id_object (props : list (jsstring * JSValue)) :
  id_converts (JObj props) -> exists i, node_id (JObj props) = Ok i.
Proof.
  intros H. unfold node_id.
  destruct (H _ eq_refl) as [i Hi]. cbn [Get bind] in *. eauto.
Qed.

Lemma endpoint_id_total (e : JSValue) :
  endpoint_converts e -> exists i, endpoint_id e = Ok i.
Proof.
  intros [Hn H]. unfold endpoint_id, node_id.
  destruct e; cbn [typeof_object] in *; try congruence; try exact H.
  - destruct (H _ eq_refl) as [i Hi]. cbn [Get bind] in *. eauto.
  - destruct (H _ eq_refl) as [i Hi]. cbn [Get bind] in *. eauto.
Qed.

Lemma sim_link_total (props : list (jsstring * JSValue)) :
  link_ends_convert (JObj props) ->
  exists d', sim_link (JObj props) = Ok d'.
Proof.
  intros H. unfold sim_link.
  destruct (Get (JObj props) "source") as [s|] eqn:Es; [|discriminate Es].
  destruct (Get (JObj props) "target") as [t|] eqn:Et; [|discriminate Et].
  cbn [bind].
  destruct (endpoint_id_total s) as [i ->]; [apply H; now left|].
  destruct (endpoint_id_total t) as [j ->]; [apply H; now right|].
  cbn [bind]. eauto.
Qed.

(** X28.  The graph component accepts the graph of every analysis that
    returned: its main effect does not throw, provided the ids of the
    nodes and of the endpoints of the links can be converted to strings
    (an id that is an object with a property [toString] of its own
    cannot) and no link has [null] as its source or target (which makes
    the effect read a property of [null]).  For a graph without nodes it
    builds no simulation. *)
Theorem analysis_graph_is_drawable (ai : Service) (channelUrl : jsstring)
    (trace : list Event) (r : Analysis) (ns ls : list JSValue) :
  analyzeChannelContent ai channelUrl = (trace, Ok r) ->
  Get (graph r) "nodes" = Ok (JArr ns) ->
  Get (graph r) "links" = Ok (JArr ls) ->
  Forall id_converts ns ->
  Forall link_ends_convert ls ->
  exists outcome,
    effect (graph r) = Ok outcome /\
    (ns = [] -> outcome = None).
Proof.
  intros H Hn Hl Hids Hends. apply (f_equal snd) in H. cbn [snd] in H.
  apply analyze_returns in H
    as (? & ? & ? & ? & ? & ? & ? & ? & vs & ? & ? & ? & graphJson & H).
  decompose [and] H. clear H.
  match goal with Hb : build_graph _ _ = Ok r |- _ =>
    apply build_graph_shape in Hb as (ns' & ls' & sm & Hg & _ & Hns & Hls') end.
  rewrite Hg in Hn, Hl |- *. injection Hn as <-. injection Hl as <-.
  unfold effect. cbn [Get bind].
  change (obj_lookup (str "nodes") _) with (Some (JArr ns')).
  change (jsstring_eqb (str "length") (str "length")) with true. cbv iota.
  destruct ns' as [|n ns''].
  { exists None. split; [reflexivity | reflexivity]. }
  cbn [length truthy int negb Z.of_nat]. cbn [Z.eqb negb]. cbv iota.
  cbn [array_items bind].
  assert (Forall (fun v => (exists props, v = JObj props) /\ id_converts v)
            (n :: ns'')) as Hnodes.
  { rewrite List.Forall_forall in *. intros v Hin.
    split; [now apply Hns | now apply Hids]. }
  destruct (mapM_total node_id
              (fun v => (exists props, v = JObj props) /\ id_converts v)
              (n :: ns'')) as (ids & -> & _).
  { intros v ([props ->] & C). now apply node_id_object. }
  { exact Hnodes. }
  cbn [bind].
  destruct (mapM_total sim_node
              (fun v => (exists props, v = JObj props) /\ id_converts v)
              (n :: ns'')) as (nodes & -> & _).
  { intros v ([props ->] & C). unfold sim_node.
    destruct (node_id_object props C) as [i ->]. cbn [bind]. eauto. }
  { exact Hnodes. }
  cbn [bind].
  change (obj_lookup (str "links") _) with (Some (JArr ls')).
  cbn [array_items bind].
  destruct (mapM_total sim_link
              (fun l => (exists props, l = JObj props) /\ link_ends_convert l)
              ls') as (mapped & -> & _).
  { intros l ([props ->] & C). now apply sim_link_total. }
  { rewrite List.Forall_forall in *. intros l Hin. split; [now apply Hls'|].
    now apply Hends. }
  cbn [bind]. eexists. split; [reflexivity|]. discriminate.
Qed.

(** The theorem on the run against the model with scores out of range:
    its graph is drawn. *)
Lemma analysis_graph_is_drawable_witness :
  exists r outcome,
    snd (analyzeChannelContent Mock.sloppy_model (str "u")) = Ok r /\
    effect (graph r) = Ok outcome.
Proof.
  destruct (analyzeChannelContent Mock.sloppy_model (str "u")) as [t [r|e]] eqn:E;
    [|vm_compute in E; discriminate E].
  assert (exists ns ls,
            Get (graph r) "nodes" = Ok (JArr ns) /\
            Get (graph r) "links" = Ok (JArr ls) /\
            Forall id_converts ns /\ Forall link_ends_convert ls)
    as (ns & ls & Hn & Hl & Hids & Hends).
  { vm_compute in E. injection E as _ <-. eexists. eexists.
    split; [reflexivity|]. split; [reflexivity|]. split.
    - repeat (apply List.Forall_cons;
                [intros i [= <-]; eexists; reflexivity|]).
      apply List.Forall_nil.
    - repeat (apply List.Forall_cons;
                [intros e [[= <-] | [= <-]]; (split; [discriminate|]);
                 eexists; reflexivity|]).
      apply List.Forall_nil. }
  destruct (analysis_graph_is_drawable _ _ _ _ ns ls E Hn Hl Hids Hends)
    as (outcome & Ho & _).
  exists r, outcome. split; [reflexivity | exact Ho].
Defined.
